(* ===== verification/_CoqProject ===== *)
-Q . S2P
Prelude.v
RustStd.v
BTree.v
S3Error.v
Externals.v
Reference.v
Types.v
Http.v
Target.v
Chunked.v
ChunkedProofs.v
ChunkedSpec.v
Checksum.v
Upload.v
Config.v
Builders.v
Auth.v
AuthProofs.v
Hooks.v
Admission.v
Routing.v
StoreModel.v
Requests.v
ReferenceJson.v
FileSystem.v
Interleaving.v
ObjectStore.v
RelyGuarantee.v
ObjectProofs.v
ObjectSpec.v
StoreTrait.v
Middleware.v
ProcessorHandle.v
Assembly.v
MultipartStore.v
MultipartProofs.v
MultipartSpec.v
Concurrency.v
PartDurability.v
Footprint.v
Recovery.v
Streams.v
AppState.v
Main.v
HeadObject.v
GetObject.v
PutObject.v
Isolation.v
Overlap.v
EndToEnd.v
Servable.v
MultipartHandlers.v
MultipartAnswers.v
Dispatch.v
Router.v
Confined.v
Service.v
DiskInvariant.v
CrashSafety.v
