(* ===== verification/Prelude.v ===== *)
(** * A verification development for s3-endpoint

    s3-endpoint is an S3-compatible HTTP endpoint on a local file system. This
    library translates its implementation, [src/src/**.rs], into executable
    definitions and proves what makes it correct: what is stored is what
    was sent, what is served is what is stored, nobody is served who is not
    authenticated and authorized, and files and upload sessions stay
    consistent whatever call of the file system fails and whenever the process
    stops. The names are those of the source.

    ** The program and the files that model it

    A request passes admission control, is recognised as an S3 operation,
    authenticated, accounted to a tenant and given to a handler, which
    authorizes it and works on one of two stores. Each file requires only files
    listed before it.

    - [Prelude] (this file), [RustStd], [BTree]: byte strings, the result
      monad and shared tactics; the part of Rust's standard library the source
      uses (ASCII classes, [split], [trim], UTF-8, parsing and printing of
      fixed-width integers); ordered maps.
    - [Externals]: one class per third-party crate with its operations and the
      documented laws the code relies on: [http], [hex]/[base64]/
      [percent_encoding], the hash functions and HMAC, [uuid], dates, [axum]'s
      body limit, [quick_xml]. [JsonLib] ([StoreModel]) and [CredentialsJson]
      ([Main]) are [serde_json] at the types that are stored and read.
      [Reference] and [ReferenceJson] implement every class with concrete
      functions and prove its laws, so that the hypotheses are consistent
      and the witnesses can be evaluated.
    - [Types] (s3/types.rs), [S3Error] and [Http] (error.rs and the responses
      the handlers build), [Target] (s3/target.rs), [Checksum]
      (body/checksum.rs), [Config] (config.rs: records, validation, the
      authentication state) and [Builders] (its fluent setters and [Debug]
      output).
    - [Chunked] (the parser of body/upload.rs, one [step] per turn of its
      loop), [ChunkedProofs], [ChunkedSpec] (the buffering decoder of
      body/aws_chunked.rs, a client-side encoder, the theorems), [Upload]
      ([write_upload_body] and its validations).
    - [Auth] and [AuthProofs] (auth.rs): header and presigned SigV4, anonymous
      mode, allow-lists.
    - [Hooks] (hooks.rs), [Admission] and [AppState] (lib.rs): the policies of
      the embedding application are functions, what the semaphores answer an
      argument, the state every handler shares a record; handlers/request.rs.
    - [FileSystem] (storage/fs_util.rs): the [World] of files, session table
      and scheduled faults, the monad [ioE] of fallible code on it, and the
      rules from which the theorems on storage are derived. A computation is a
      tree of atomic steps, one per call of the file system or access to the
      session table; [run] executes it alone. [Interleaving] runs many of them
      at once and has two ways to reason about that, footprints and tokens;
      [RelyGuarantee] a third, for tasks that share files. [Footprint] derives
      what each store operation can change in any such run.
    - [StoreModel] (storage/model.rs), [ObjectStore], [ObjectProofs],
      [ObjectSpec], [Recovery] (storage/object.rs, storage/temp.rs);
      [StoreTrait] (storage/mod.rs): the store traits as classes of operations
      with the file stores as instances, and as contracts, against which the
      handlers are verified, so that what is proved holds with any store that
      keeps the contract (the class of the multipart store is in
      [MultipartStore]);
      [Middleware] and [ProcessorHandle] (middleware.rs); [Assembly] (storage/complete_checksum.rs);
      [MultipartStore], [MultipartProofs], [MultipartSpec], [PartDurability]
      (storage/multipart.rs).
    - [Requests] (the checks of handlers/mod.rs and upload_metadata.rs),
      [HeadObject], [GetObject], [Streams], [PutObject] (which has DeleteObject
      and HeadBucket too), [MultipartHandlers]: one [Definition] per handler,
      composed as the code composes it. [MultipartAnswers], [EndToEnd] and
      [Servable] have theorems about one multipart request and about sequences of
      object requests; [Concurrency], [Isolation] and [Overlap] about multipart and
      object requests that run at the same time.
    - [Routing] (which operation a request asks for) and [Dispatch] (the whole
      of [handle_s3_request] of handlers/s3.rs); [Router] (http.rs); [Confined]
      (what requests can change); [Service] (sequences of requests);
      [DiskInvariant] and [CrashSafety] (stops and starts); [Main] (main.rs:
      options, credentials file, start).

    ** What the theorems show

    - The whole service ([Service]): [service_refines] (from the start of the
      server on, requests are steps of a map of objects). Across stops and starts
      ([CrashSafety]): [service_survives_crashes] (any number of processes, each
      stopped anywhere but in the replacement of an object, are steps of one map,
      which the next start serves). Whatever fails and
      whatever runs beside it ([Confined]): [requests_confined] (requests change
      only the object and the upload they are permitted to).
    - The whole request ([Dispatch], [Main]): [requests_gated] (a
      request that changes anything was admitted, authenticated, allowed by
      the tenant limits and had its operation enabled; [any_stores_gated] with
      the stores of the application), [tenants_accounted], [overload_sheds] (a
      request without its permit changes nothing), [server_starts], [registered_policies_decide],
      [registered_clock_in_force], [serve_exact], [built_router_exact].
    - Uploads: [upload_integrity], [verified_chunks_written],
      [framing_independence], [encoded_body_accepted] and
      [streaming_agrees_with_decoder] for the body;
      [upload_framing_unambiguous] and [upload_metadata_exact] for the headers.
    - Objects: [put_object_refines], [get_object_serves], [read_your_writes],
      [stored_object_served] (an accepted upload can be downloaded),
      [deleted_is_gone], [put_object_durable] for the handlers, the first three
      of a sequence also with any store ([any_store_read_your_writes],
      [any_store_served], [any_store_deleted_is_gone]);
      [object_store_refines] (the store is a map), [commit_atomic],
      [objects_do_not_collide] for the store; [startup_recovers_objects] for a
      restart; [head_agrees_with_get], [range_header_exact], [conditional_requests_rfc] and
      [streams_exact] for the answers. [processors_compose] and
      [closure_runs_as]: what upload processors make of the bytes.
    - Multipart uploads: [multipart_state_machine], [failed_completion_reopens],
      [commit_part_atomic] and [restart_recovers_sessions] for the store;
      [upload_requests_guarded], [upload_part_stored],
      [complete_request_refines] and [list_parts_pages] for the requests.
    - Requests at the same time, call by call in any order:
      [distinct_objects_independent] (requests for different objects give the
      answers they give alone), [objects_never_torn] (requests for the same
      object read and leave whole files), [upload_completed_once],
      [pool_terminates];
      and what the code does not prevent: [concurrent_puts_mix],
      [get_during_put_mixes], [late_part_in_object], [completed_and_aborted];
      nor a stop at the wrong moment: [crash_mixes_object].
    - Authentication: [authentication_sound], [served_requests_authorized],
      [amz_headers_covered], [canonical_query_identifies],
      [header_signature_exact], [auth_state_faithful], [auth_builder_exact],
      [debug_hides_secrets].
    - Names: [resolved_target_valid], [addressing_styles_agree],
      [upload_id_path_safe].

    What a theorem says of an answer or of stored metadata is written out in the
    theorem's own terms, not with the function that makes it: [answers] ([Http])
    is the status, the header fields and the body of a response,
    [uploaded_object] and [expected_metadata] are metadata field by field,
    [chosen_parts] is the choice of the parts of a completion, [config_told] the
    configuration of a command line, [accounted] what a tenant limits provider is
    told, [lists_tag] the comparison of entity tags of RFC 9110, [carries]
    ([Upload]) the data of a body.

    The theorems on the stores come in two kinds. Refinement theorems assume a
    disk that does not fail ([faults = []]) and say exactly what happens; safety
    theorems hold under every schedule of faults.

    ** Bounds and fuel

    Machine integers are [Z]; the width is written out where the code parses
    ([from_str_radix]), where its arithmetic saturates ([sat_add_u64]) and
    where it wraps around ([wrap_u64]). Loops have a
    fuel that is proved sufficient: the chunk parser [S (length buffer)]
    turns ([run_loop_total]: each turn takes at least two bytes), the decoder
    as many (part of [streaming_agrees_with_decoder]), a stream one turn per
    remaining byte and one more ([streams_exact]), a file read in pieces its
    length ([chunks_fuel_spec]). Retry and
    paging loops of a client are bounded by the theorem itself
    ([list_parts_pages]).

    ** What the model of the environment says

    - A file is a path and its bytes. Each call takes one entry of the fault
      schedule: it succeeds, or it fails with any error, and a failing write
      leaves any prefix, a failing [remove_dir_all] any of the files. Renames
      and links are atomic, a link is a copy (the code never writes to a
      linked file in place), directories exist when needed, [read] and
      [read_dir] are one call. Stopping a process is a schedule that fails from
      some call on, followed by the start of the next process on the files
      that are left.
    - A body written through a buffered writer reaches the file in one call.
    - Fresh ids, the time of the system, the permits that are free, the reads of
      a stream and the time-out of a request are arguments (the records [Env] and
      [Surroundings] of [AppState]). Times and request ids go through the clock
      and the id factory of the application. What the operation of a request that
      times out has done until it is dropped is an argument, too;
      [requests_confined] covers operations that stop anywhere.
    - The theorems about one request or a sequence of requests run each alone
      ([run]). An entry of the session table is locked for one access, which is
      one step ([locked]). The body of an upload is decoded in one step.
    - Durations are unbounded and [usize] is 64 bits wide.

    ** Not modelled

    How tokio's semaphores count permits and when a permit is dropped (what a
    semaphore answers is the record [Grants] of [Admission]),
    [Display] impls that are only logged, the matching of axum's router
    ([AxumRouting] in [Router] has its laws; a layer of an application is any
    function on routers), clap's parsing, the socket, logging, and the tests.

    ** Plan

    Left: uploads with processors and completions among the overlapping requests
    of [Overlap]. *)

From stdpp Require Export base list gmap strings fin_maps.
From Stdlib Require Export Ascii.
From Stdlib Require Import ZArith Lia.

(** ** Byte strings

    Rust's [String]/[&str] (UTF-8) and [Vec<u8>]/[&[u8]] are both lists of
    8-bit characters; the UTF-8 invariant of [str] is the predicate
    [utf8_valid] below, checked where the source calls [from_utf8]. *)

Abbreviation str := (list ascii).
Abbreviation bytes := (list ascii).

Definition str_parse (l : list Byte.byte) : str := map ascii_of_byte l.
Definition str_print (l : str) : list Byte.byte := map byte_of_ascii l.

Declare Scope str_scope.
Delimit Scope str_scope with str.
String Notation str str_parse str_print : str_scope.
Global Open Scope str_scope.

(** Carriage return, line feed, tab and the CRLF pair of the wire format. *)
Definition CR : ascii := "013"%char.
Definition LF : ascii := "010"%char.
Definition TAB : ascii := "009"%char.
Definition CRLF : bytes := [CR; LF].

Definition byte_val (c : ascii) : Z := Z.of_N (N_of_ascii c).

(** ** Results

    [Result<A, E>] with [?] as the monadic bind. *)

Inductive result (E A : Type) : Type :=
| Ok (a : A)
| Err (e : E).
Arguments Ok {E A} a.
Arguments Err {E A} e.

Global Instance Ok_inj {E A} : Inj (=) (=) (@Ok E A).
Proof. by intros a b [= ->]. Qed.

Global Instance result_ret {E} : MRet (result E) := λ A a, Ok a.
Global Instance result_bind {E} : MBind (result E) := λ A B f r,
  match r with Ok a => f a | Err e => Err e end.
Global Instance result_fmap {E} : FMap (result E) := λ A B f r,
  match r with Ok a => Ok (f a) | Err e => Err e end.

Definition map_err {E F A} (f : E → F) (r : result E A) : result F A :=
  match r with Ok a => Ok a | Err e => Err (f e) end.

Definition ok_or {E A} (o : option A) (e : E) : result E A :=
  match o with Some a => Ok a | None => Err e end.

Definition result_ok {E A} (r : result E A) : option A :=
  match r with Ok a => Some a | Err _ => None end.

Definition is_ok {E A} (r : result E A) : bool :=
  match r with Ok _ => true | Err _ => false end.

(** [iter.collect::<Result<Vec<_>, _>>()]: the first error wins. *)
Fixpoint collect {E A} (l : list (result E A)) : result E (list A) :=
  match l with
  | [] => Ok []
  | r :: l => a ← r; as_ ← collect l; Ok (a :: as_)
  end.

(** A [for] loop over a slice whose body may return early with an error. *)
Fixpoint try_fold {E A S} (f : S → A → result E S) (s : S) (l : list A) : result E S :=
  match l with
  | [] => Ok s
  | a :: l => s' ← f s a; try_fold f s' l
  end.

Definition try_iter {E A} (f : A → result E ()) (l : list A) : result E () :=
  try_fold (λ _ a, f a) () l.

(** ** Automation *)

Create HintDb s3db discriminated.
Create HintDb rust_std discriminated.

(** Case analysis on the scrutinee of a [match]/[if] of a hypothesis or of
    the goal, keeping the equation. *)
Ltac case_match_in H :=
  match type of H with
  | context [ match ?x with _ => _ end ] =>
      lazymatch x with
      | context [ match _ with _ => _ end ] => fail
      | _ => let E := fresh "E" in destruct x eqn:E
      end
  end.

Ltac case_goal :=
  match goal with
  | |- context [ match ?x with _ => _ end ] =>
      lazymatch x with
      | context [ match _ with _ => _ end ] => fail
      | _ => let E := fresh "E" in destruct x eqn:E
      end
  end.

(** Exposes the monadic structure of a [result] computation. *)
Ltac unfold_result :=
  unfold mbind, mret, result_bind, result_ret,
    map_err, ok_or, result_ok, is_ok in *; simpl in *.

(** Inverts a hypothesis [f x = Ok y] of a monadic function after its
    definition has been unfolded: every branch that fails is discarded. *)
Ltac inv_result H :=
  unfold_result;
  repeat (case_match_in H; simplify_eq/=; try discriminate).

(** A closed equation by evaluation in the virtual machine, without reading
    the normal forms back. *)
Ltac vm_refl := lazymatch goal with |- ?a = ?b => exact (eq_refl b <: a = b) end.

(** ** Shared lemmas *)

Lemma collect_ok {E A} (l : list (result E A)) (r : list A) :
  collect l = Ok r ↔ l = Ok <$> r.
Proof.
  revert r. induction l as [|x l IH]; intros r; simpl.
  - destruct r; naive_solver.
  - unfold_result. destruct x as [a|e]; simpl.
    + destruct (collect l) as [as_|e] eqn:Hc.
      * split.
        -- intros [= <-]. simpl. f_equal. by apply IH.
        -- destruct r as [|b r]; [done|]. simpl. intros [= -> ->].
           do 2 f_equal. specialize (IH r). naive_solver.
      * split; [done|]. destruct r as [|b r]; [done|]. simpl.
        intros [= -> ->]. specialize (IH r). naive_solver.
    + split; [done|]. destruct r; naive_solver.
Qed.

Lemma try_iter_ok {E A} (f : A → result E ()) (l : list A) :
  try_iter f l = Ok () ↔ Forall (λ a, f a = Ok ()) l.
Proof.
  unfold try_iter. induction l as [|a l IH]; simpl.
  - split; [constructor|done].
  - unfold_result. rewrite Forall_cons, <- IH.
    destruct (f a) as [[]|e]; naive_solver.
Qed.

Lemma try_iter_cases {E A} (f : A → result E ()) (l : list A) :
  try_iter f l = Ok () ∨
  ∃ e a, a ∈ l ∧ f a = Err e ∧ try_iter f l = Err e.
Proof.
  unfold try_iter. induction l as [|a l IH]; simpl; [by left|].
  unfold_result. destruct (f a) as [[]|e] eqn:Hf.
  - destruct IH as [->|(e & b & Hb & Hfb & ->)]; [by left|right].
    exists e, b. split_and!; [by right|done|done].
  - right. exists e, a. split_and!; [by left|done|done].
Qed.
