(* ===== verification/RustStd.v ===== *)
(** * The part of Rust's standard library the endpoint uses

    Characters and their ASCII classes, [str] operations ([split],
    [split_once], [trim], [strip_prefix], case mapping), UTF-8 validity,
    machine-width unsigned integers with their parsing and printing. All of
    it is executable; the lemmas are the ones the components share. *)

From S2P Require Import Prelude.
From Stdlib Require Import ZArith Lia.
Local Open Scope Z_scope.

(** ** Machine integers *)

Definition u16_max : Z := 2 ^ 16 - 1.
Definition u32_max : Z := 2 ^ 32 - 1.
Definition u64_max : Z := 2 ^ 64 - 1.
(** The endpoint is built for 64-bit targets: [usize] is 64 bits wide. *)
Definition usize_max : Z := 2 ^ 64 - 1.

Definition is_u16 (z : Z) : Prop := 0 ≤ z ≤ u16_max.
Definition is_u64 (z : Z) : Prop := 0 ≤ z ≤ u64_max.

Definition sat_add_u64 (a b : Z) : Z := Z.min (a + b) u64_max.
Definition sat_sub_u64 (a b : Z) : Z := Z.max (a - b) 0.
Definition wrap_u64 (a : Z) : Z := a mod 2 ^ 64.

Definition len (s : bytes) : Z := Z.of_nat (length s).

(** ** ASCII classes of [u8] *)

Definition in_range (lo hi : Z) (c : ascii) : bool :=
  (lo <=? byte_val c) && (byte_val c <=? hi).

Definition is_ascii_control (c : ascii) : bool :=
  in_range 0 31 c || (byte_val c =? 127).
Definition is_ascii_digit (c : ascii) : bool := in_range 48 57 c.
Definition is_ascii_uppercase (c : ascii) : bool := in_range 65 90 c.
Definition is_ascii_lowercase (c : ascii) : bool := in_range 97 122 c.
Definition is_ascii_hexdigit (c : ascii) : bool :=
  is_ascii_digit c || in_range 65 70 c || in_range 97 102 c.
(** [u8::is_ascii_whitespace]: space, tab, LF, form feed, CR. *)
Definition is_ascii_whitespace (c : ascii) : bool :=
  let b := byte_val c in
  (b =? 32) || (b =? 9) || (b =? 10) || (b =? 12) || (b =? 13).

Definition ascii_of_Z (z : Z) : ascii := ascii_of_N (Z.to_N z).

Definition to_lower (c : ascii) : ascii :=
  if is_ascii_uppercase c then ascii_of_Z (byte_val c + 32) else c.
Definition to_upper (c : ascii) : ascii :=
  if is_ascii_lowercase c then ascii_of_Z (byte_val c - 32) else c.

Definition to_ascii_lowercase (s : str) : str := map to_lower s.
Definition to_ascii_uppercase (s : str) : str := map to_upper s.

(** Equality of byte strings as a boolean. *)
Definition str_eqb (s t : str) : bool := bool_decide (s = t).

Definition eq_ignore_ascii_case (s t : str) : bool :=
  str_eqb (to_ascii_lowercase s) (to_ascii_lowercase t).

(** Byte-lexicographic order, which is [Ord for str]. *)
Fixpoint str_compare (s t : str) : comparison :=
  match s, t with
  | [], [] => Eq
  | [], _ :: _ => Lt
  | _ :: _, [] => Gt
  | a :: s, b :: t =>
      match Z.compare (byte_val a) (byte_val b) with
      | Eq => str_compare s t
      | c => c
      end
  end.

Definition str_ltb (s t : str) : bool :=
  match str_compare s t with Lt => true | _ => false end.

(** ** Splitting *)

Definition is_empty {A} (l : list A) : bool :=
  match l with [] => true | _ => false end.

Definition starts_with (p s : str) : bool := bool_decide (take (length p) s = p).
Definition ends_with (p s : str) : bool :=
  starts_with (reverse p) (reverse s).

Definition strip_prefix (p s : str) : option str :=
  if starts_with p s then Some (drop (length p) s) else None.

Definition strip_suffix (p s : str) : option str :=
  if ends_with p s then Some (take (length s - length p)%nat s) else None.

Fixpoint split_once (c : ascii) (s : str) : option (str * str) :=
  match s with
  | [] => None
  | x :: t =>
      if bool_decide (x = c) then Some ([], t)
      else match split_once c t with
           | Some (a, b) => Some (x :: a, b)
           | None => None
           end
  end.

Fixpoint split (c : ascii) (s : str) : list str :=
  match s with
  | [] => [[]]
  | x :: t =>
      if bool_decide (x = c) then [] :: split c t
      else match split c t with
           | p :: ps => (x :: p) :: ps
           | [] => [[x]]
           end
  end.

Fixpoint join (sep : str) (l : list str) : str :=
  match l with
  | [] => []
  | [s] => s
  | s :: l => s ++ sep ++ join sep l
  end.

Definition contains_char (c : ascii) (s : str) : bool := existsb (λ x, bool_decide (x = c)) s.

(** ** Whitespace

    [char::is_whitespace] on the UTF-8 encoding: the Unicode [White_Space]
    characters by the length of their encoding. *)

Definition ws1 (a : ascii) : bool := in_range 9 13 a || (byte_val a =? 32).
Definition ws2 (a b : ascii) : bool :=
  (byte_val a =? 194) && ((byte_val b =? 133) || (byte_val b =? 160)).
Definition ws3 (a b c : ascii) : bool :=
  let '(x, y, z) := (byte_val a, byte_val b, byte_val c) in
  ((x =? 225) && (y =? 154) && (z =? 128)) ||
  ((x =? 226) && (y =? 128) &&
     (in_range 128 138 c || (z =? 168) || (z =? 169) || (z =? 175))) ||
  ((x =? 226) && (y =? 129) && (z =? 159)) ||
  ((x =? 227) && (y =? 128) && (z =? 128)).

Fixpoint trim_start (s : str) : str :=
  match s with
  | [] => []
  | a :: t =>
      if ws1 a then trim_start t
      else match t with
           | [] => s
           | b :: u =>
               if ws2 a b then trim_start u
               else match u with
                    | [] => s
                    | c :: v => if ws3 a b c then trim_start v else s
                    end
           end
  end.

(** The same scan from the end, on the reversed string. *)
Fixpoint trim_end_rev (s : str) : str :=
  match s with
  | [] => []
  | a :: t =>
      if ws1 a then trim_end_rev t
      else match t with
           | [] => s
           | b :: u =>
               if ws2 b a then trim_end_rev u
               else match u with
                    | [] => s
                    | c :: v => if ws3 c b a then trim_end_rev v else s
                    end
           end
  end.

Definition trim_end (s : str) : str := reverse (trim_end_rev (reverse s)).
Definition trim (s : str) : str := trim_end (trim_start s).

(** [str::split_whitespace]: maximal runs of non-whitespace. [cur] is the
    word being read, reversed. *)
Definition push_word (cur : str) (l : list str) : list str :=
  if is_empty cur then l else reverse cur :: l.

Fixpoint split_ws (cur : str) (s : str) : list str :=
  match s with
  | [] => push_word cur []
  | a :: t =>
      if ws1 a then push_word cur (split_ws [] t)
      else match t with
           | [] => split_ws (a :: cur) t
           | b :: u =>
               if ws2 a b then push_word cur (split_ws [] u)
               else match u with
                    | [] => split_ws (a :: cur) t
                    | c :: v =>
                        if ws3 a b c then push_word cur (split_ws [] v)
                        else split_ws (a :: cur) t
                    end
           end
  end.
Definition split_whitespace (s : str) : list str := split_ws [] s.

(** ** UTF-8

    Well-formed byte sequences, by the length of the encoding and the ranges
    of its second byte (no overlong forms, no surrogates, at most U+10FFFF). *)

Definition utf8_tail (c : ascii) : bool := in_range 128 191 c.

Fixpoint utf8_valid (s : bytes) : bool :=
  match s with
  | [] => true
  | a :: t =>
      if in_range 0 127 a then utf8_valid t
      else match t with
           | [] => false
           | b :: u =>
               if in_range 194 223 a then utf8_tail b && utf8_valid u
               else match u with
                    | [] => false
                    | c :: v =>
                        if in_range 224 239 a then
                          (if byte_val a =? 224 then in_range 160 191 b
                           else if byte_val a =? 237 then in_range 128 159 b
                           else utf8_tail b)
                          && utf8_tail c && utf8_valid v
                        else match v with
                             | [] => false
                             | d :: w =>
                                 in_range 240 244 a
                                 && (if byte_val a =? 240 then in_range 144 191 b
                                     else if byte_val a =? 244 then in_range 128 143 b
                                     else utf8_tail b)
                                 && utf8_tail c && utf8_tail d && utf8_valid w
                             end
                    end
           end
  end.

(** [String::from_utf8], [str::from_utf8]. *)
Definition from_utf8 (s : bytes) : option str := if utf8_valid s then Some s else None.

Definition is_ascii_str (s : str) : bool := forallb (in_range 0 127) s.

(** ** Parsing and printing unsigned integers *)

Definition digit_val (radix : Z) (c : ascii) : option Z :=
  let v :=
    if is_ascii_digit c then byte_val c - 48
    else if in_range 97 122 c then byte_val c - 87
    else if in_range 65 90 c then byte_val c - 55
    else 36 in
  if v <? radix then Some v else None.

Fixpoint parse_digits (radix max acc : Z) (s : str) : option Z :=
  match s with
  | [] => Some acc
  | c :: t =>
      d ← digit_val radix c;
      if acc * radix >? max then None
      else if acc * radix + d >? max then None
      else parse_digits radix max (acc * radix + d) t
  end.

(** [uN::from_str_radix]: a lone sign is rejected, one leading [+] is
    accepted, overflow is an error. *)
Definition from_str_radix (radix max : Z) (s : str) : option Z :=
  match s with
  | [] => None
  | c :: t =>
      if bool_decide (c = "+"%char) then
        match t with [] => None | _ => parse_digits radix max 0 t end
      else parse_digits radix max 0 s
  end.

Definition parse_u16 : str → option Z := from_str_radix 10 u16_max.
Definition parse_u32 : str → option Z := from_str_radix 10 u32_max.
Definition parse_u64 : str → option Z := from_str_radix 10 u64_max.
Definition parse_usize : str → option Z := from_str_radix 10 usize_max.

Definition digit_char (d : Z) : ascii :=
  if d <? 10 then ascii_of_Z (48 + d) else ascii_of_Z (87 + d).

(** Least significant digit first; [n] bounds the number of digits. *)
Fixpoint digits_rev (radix : Z) (n : nat) (z : Z) : str :=
  match n with
  | O => []
  | S n =>
      if z <? radix then [digit_char z]
      else digit_char (z mod radix) :: digits_rev radix n (z / radix)
  end.

(** [format!("{}", z)] and [format!("{:x}", z)] for a non-negative [z]. A
    number has at most one digit more than its binary logarithm. *)
Definition show_radix (radix z : Z) : str :=
  reverse (digits_rev radix (S (Z.to_nat (Z.log2 z))) z).
Definition show_u (z : Z) : str := show_radix 10 z.

(** [format!("{:05}", z)]. *)
Definition pad_left (width : nat) (c : ascii) (s : str) : str :=
  replicate (width - length s) c ++ s.
Definition show_pad5 (z : Z) : str := pad_left 5 "0"%char (show_u z).

(** [u32::to_be_bytes]. *)
Definition to_be_bytes_u32 (z : Z) : bytes :=
  ascii_of_Z <$> [Z.shiftr z 24 mod 256; Z.shiftr z 16 mod 256; Z.shiftr z 8 mod 256; z mod 256].

Example parse_u64_max : parse_u64 "18446744073709551615" = Some u64_max.
Proof. reflexivity. Qed.
Example parse_u64_overflow : parse_u64 "18446744073709551616" = None.
Proof. reflexivity. Qed.
Example parse_plus : parse_u64 "+7" = Some 7 ∧ parse_u64 "+" = None ∧ parse_u64 "" = None.
Proof. repeat split. Qed.
Example show_10 : show_u 10240 = "10240" ∧ show_pad5 7 = "00007" ∧ show_radix 16 255 = "ff".
Proof. repeat split. Qed.
Example trim_nbsp : trim (ascii_of_Z <$> [32; 194; 160; 97; 32; 98; 226; 128; 137]) = "a b".
Proof. vm_compute. reflexivity. Qed.
Example split_ws_ex : split_whitespace "  a  bc d " = ["a"; "bc"; "d"].
Proof. vm_compute. reflexivity. Qed.

(** ** Lemmas: bytes *)

(** Proves a closed boolean fact about one byte by going through all 256. *)
Ltac all_bytes c := destruct c as [[] [] [] [] [] [] [] []]; vm_compute; try done.

Lemma byte_val_bounds c : 0 ≤ byte_val c ≤ 255.
Proof. unfold byte_val. pose proof (N_ascii_bounded c). lia. Qed.

Lemma ascii_of_byte_val c : ascii_of_Z (byte_val c) = c.
Proof. unfold ascii_of_Z, byte_val. by rewrite N2Z.id, ascii_N_embedding. Qed.

Lemma byte_val_of_Z z : 0 ≤ z < 256 → byte_val (ascii_of_Z z) = z.
Proof. intros. unfold ascii_of_Z, byte_val. rewrite N_ascii_embedding; lia. Qed.

Global Instance byte_val_inj : Inj (=) (=) byte_val.
Proof. intros a b H. by rewrite <- (ascii_of_byte_val a), H, ascii_of_byte_val. Qed.

Lemma to_lower_idemp c : to_lower (to_lower c) = to_lower c.
Proof. all_bytes c. Qed.

Lemma to_lower_upper c : to_lower (to_upper c) = to_lower c.
Proof. all_bytes c. Qed.

Lemma to_lower_not_upper c : is_ascii_uppercase (to_lower c) = false.
Proof. all_bytes c. Qed.

Lemma to_ascii_lowercase_idemp s :
  to_ascii_lowercase (to_ascii_lowercase s) = to_ascii_lowercase s.
Proof. unfold to_ascii_lowercase. rewrite map_map. apply map_ext, to_lower_idemp. Qed.

Lemma length_to_ascii_lowercase s : length (to_ascii_lowercase s) = length s.
Proof. apply length_map. Qed.

Lemma str_eqb_eq s t : str_eqb s t = true ↔ s = t.
Proof. apply bool_decide_eq_true. Qed.

Lemma str_eqb_refl s : str_eqb s s = true.
Proof. by apply str_eqb_eq. Qed.

Lemma str_eqb_neq s t : str_eqb s t = false ↔ s ≠ t.
Proof. apply bool_decide_eq_false. Qed.

Lemma is_empty_true {A} (l : list A) : is_empty l = true ↔ l = [].
Proof. by destruct l. Qed.

(** ** Lemmas: the order of strings *)

Lemma str_compare_eq s t : str_compare s t = Eq ↔ s = t.
Proof.
  revert t. induction s as [|a s IH]; intros [|b t]; simpl; try done.
  destruct (Z.compare_spec (byte_val a) (byte_val b)) as [H|H|H].
  - apply (inj byte_val) in H as ->. rewrite IH. naive_solver.
  - split; [done|]. intros [= -> ->]. lia.
  - split; [done|]. intros [= -> ->]. lia.
Qed.

Lemma str_compare_refl s : str_compare s s = Eq.
Proof. by apply str_compare_eq. Qed.

Lemma str_compare_antisym s t : str_compare t s = CompOpp (str_compare s t).
Proof.
  revert t. induction s as [|a s IH]; intros [|b t]; simpl; try done.
  rewrite (Z.compare_antisym (byte_val a) (byte_val b)), IH.
  by destruct (byte_val a ?= byte_val b).
Qed.

Lemma str_compare_lt_trans s t u :
  str_compare s t = Lt → str_compare t u = Lt → str_compare s u = Lt.
Proof.
  revert t u. induction s as [|a s IH]; intros [|b t] [|c u]; simpl; try done.
  destruct (Z.compare_spec (byte_val a) (byte_val b)),
    (Z.compare_spec (byte_val b) (byte_val c)),
    (Z.compare_spec (byte_val a) (byte_val c)); try done; try lia.
  apply IH.
Qed.

(** ** Lemmas: splitting *)

Lemma split_once_Some c s a b :
  split_once c s = Some (a, b) ↔ s = a ++ c :: b ∧ c ∉ a.
Proof.
  revert a b. induction s as [|x s IH]; intros a b; simpl.
  - split; [done|]. intros [H _]. by destruct a.
  - case_bool_decide as Hx; [subst x|].
    + split.
      * intros [= <- <-]. split; [done|]. apply not_elem_of_nil.
      * intros [H Hna]. destruct a as [|y a]; simplify_eq/=; [done|].
        exfalso. apply Hna. left.
    + destruct (split_once c s) as [[a' b']|] eqn:Hs.
      * specialize (IH a' b'). split.
        -- intros [= <- <-]. destruct (proj1 IH eq_refl) as [-> ?].
           split; [done|]. by apply not_elem_of_cons.
        -- intros [H Hna]. destruct a as [|y a]; simplify_eq/=.
           apply not_elem_of_cons in Hna as [? Hna].
           destruct (proj1 IH eq_refl) as [Heq ?].
           assert (a = a' ∧ b = b') as [-> ->]; [|done].
           clear -Heq Hna H0. revert a Heq Hna.
           induction a' as [|z a' IH']; intros [|w a]; simpl; intros; simplify_eq/=; try done.
           { exfalso. apply Hna. left. } { exfalso. apply H0. left. }
           apply not_elem_of_cons in Hna as [_ Hna], H0 as [_ H0].
           by destruct (IH' H0 a) as [-> ->].
      * split; [done|]. intros [H Hna]. destruct a as [|y a]; simplify_eq/=.
        apply not_elem_of_cons in Hna as [? Hna].
        specialize (IH a b). naive_solver.
Qed.

Lemma split_once_None c s : split_once c s = None ↔ c ∉ s.
Proof.
  induction s as [|x s IH]; simpl.
  - split; [intros _; apply not_elem_of_nil|done].
  - rewrite not_elem_of_cons. case_bool_decide; [naive_solver|].
    destruct (split_once c s) as [[]|]; naive_solver.
Qed.

Lemma split_once_app c a b : c ∉ a → split_once c (a ++ c :: b) = Some (a, b).
Proof. intros. by apply split_once_Some. Qed.

Lemma split_cons_ne c x s p ps :
  x ≠ c → split c s = p :: ps → split c (x :: s) = (x :: p) :: ps.
Proof. intros Hx Hs. simpl. rewrite bool_decide_eq_false_2 by done. by rewrite Hs. Qed.

Lemma split_nonempty c s : split c s ≠ [].
Proof. destruct s; simpl; [done|]. case_bool_decide; [done|]. by destruct (split c s). Qed.

Lemma join_split c s : join [c] (split c s) = s.
Proof.
  induction s as [|x s IH]; [done|]. simpl. case_bool_decide as Hx.
  - subst x. simpl. destruct (split c s) eqn:Hs; [by destruct (split_nonempty c s)|].
    by rewrite IH.
  - destruct (split c s) as [|p [|q ps]] eqn:Hs; [by destruct (split_nonempty c s)|..];
      simpl in *; by rewrite IH.
Qed.

Lemma split_pieces c s : Forall (λ p, c ∉ p) (split c s).
Proof.
  induction s as [|x s IH]; simpl.
  - constructor; [apply not_elem_of_nil|constructor].
  - case_bool_decide as Hx; [constructor; [apply not_elem_of_nil|done]|].
    destruct (split c s) as [|p ps]; [by repeat constructor; set_solver|].
    inversion_clear IH. constructor; [|done]. apply not_elem_of_cons. naive_solver.
Qed.

Lemma split_fresh c s : c ∉ s → split c s = [s].
Proof.
  induction s as [|x s IH]; intros Hc; [done|].
  apply not_elem_of_cons in Hc as [? Hc]. apply split_cons_ne; [done|]. by apply IH.
Qed.

Lemma split_app c a s : c ∉ a → split c (a ++ c :: s) = a :: split c s.
Proof.
  induction a as [|x a IH]; intros Hc; simpl.
  - by rewrite bool_decide_eq_true_2.
  - apply not_elem_of_cons in Hc as [? Hc].
    rewrite bool_decide_eq_false_2 by done. by rewrite IH.
Qed.

Lemma split_join c l :
  l ≠ [] → Forall (λ p, c ∉ p) l → split c (join [c] l) = l.
Proof.
  intros Hne Hl. induction Hl as [|p l Hp Hl IH]; [done|].
  destruct l as [|q l]; [by apply split_fresh|].
  change (join [c] (p :: q :: l)) with (p ++ c :: join [c] (q :: l)).
  rewrite split_app by done. by rewrite IH.
Qed.

Lemma starts_with_spec p s : starts_with p s = true ↔ ∃ t, s = p ++ t.
Proof.
  unfold starts_with. rewrite bool_decide_eq_true. split.
  - intros H. exists (drop (length p) s). by rewrite <- H at 1; rewrite take_drop.
  - intros [t ->]. apply take_app_length.
Qed.

Lemma strip_prefix_Some p s t : strip_prefix p s = Some t ↔ s = p ++ t.
Proof.
  unfold strip_prefix. destruct (starts_with p s) eqn:H.
  - apply starts_with_spec in H as [u ->]. rewrite drop_app_length. naive_solver.
  - split; [done|]. intros ->. assert (starts_with p (p ++ t) = true); [|congruence].
    apply starts_with_spec. eauto.
Qed.

Lemma ends_with_spec p s : ends_with p s = true ↔ ∃ t, s = t ++ p.
Proof.
  unfold ends_with. rewrite starts_with_spec. split.
  - intros [t H]. exists (reverse t). apply (f_equal reverse) in H.
    by rewrite reverse_involutive, reverse_app, reverse_involutive in H.
  - intros [t ->]. exists (reverse t). by rewrite reverse_app.
Qed.

Lemma strip_suffix_Some p s t : strip_suffix p s = Some t ↔ s = t ++ p.
Proof.
  unfold strip_suffix. destruct (ends_with p s) eqn:H.
  - apply ends_with_spec in H as [u ->]. rewrite length_app.
    replace (length u + length p - length p)%nat with (length u) by lia.
    rewrite take_app_length. split; [by intros [= ->]|]. intros H. f_equal.
    by apply app_inv_tail in H.
  - split; [done|]. intros ->. assert (ends_with p (t ++ p) = true); [|congruence].
    apply ends_with_spec. eauto.
Qed.

(** ** Lemmas: integers *)

Lemma digit_val_char radix d :
  2 ≤ radix ≤ 36 → 0 ≤ d < radix → digit_val radix (digit_char d) = Some d.
Proof.
  intros Hr Hd. unfold digit_char, digit_val, is_ascii_digit, in_range.
  destruct (Z.ltb_spec d 10); rewrite byte_val_of_Z by lia.
  - rewrite (proj2 (Z.leb_le 48 _)), (proj2 (Z.leb_le _ 57)) by lia. simpl.
    replace (48 + d - 48) with d by lia. by rewrite (proj2 (Z.ltb_lt _ _)) by lia.
  - rewrite (proj2 (Z.leb_gt (87 + d) 57)), andb_false_r by lia.
    rewrite (proj2 (Z.leb_le 97 _)), (proj2 (Z.leb_le _ 122)) by lia. simpl.
    replace (87 + d - 87) with d by lia. by rewrite (proj2 (Z.ltb_lt _ _)) by lia.
Qed.

Lemma digit_val_range radix c d : digit_val radix c = Some d → 0 ≤ d < radix.
Proof.
  unfold digit_val, is_ascii_digit, in_range.
  pose proof (byte_val_bounds c). repeat case_match; intros; simplify_eq; lia.
Qed.

Lemma parse_digits_bounds radix max acc s z :
  0 ≤ radix → 0 ≤ acc ≤ max → parse_digits radix max acc s = Some z → 0 ≤ z ≤ max.
Proof.
  intros Hr. revert acc. induction s as [|c s IH]; simpl; intros acc Hacc Hp.
  - by simplify_eq.
  - destruct (digit_val radix c) as [d|] eqn:Hd; simpl in Hp; [|done].
    apply digit_val_range in Hd.
    destruct (Z.gtb_spec (acc * radix) max); [done|].
    destruct (Z.gtb_spec (acc * radix + d) max); [done|].
    eapply IH; [|exact Hp]. nia.
Qed.

Lemma from_str_radix_bounds radix max s z :
  0 ≤ radix → 0 ≤ max → from_str_radix radix max s = Some z → 0 ≤ z ≤ max.
Proof.
  intros Hr Hm. unfold from_str_radix. destruct s as [|c [|d s]]; [done|..];
    case_bool_decide; try done; apply parse_digits_bounds; lia.
Qed.

Lemma parse_digits_app radix max acc s t :
  parse_digits radix max acc (s ++ t) =
  parse_digits radix max acc s ≫= λ a, parse_digits radix max a t.
Proof.
  revert acc. induction s as [|c s IH]; intros acc; simpl; [done|].
  destruct (digit_val radix c); simpl; [|done]. repeat case_match; [done|done|]. apply IH.
Qed.

Lemma digits_rev_S radix n z :
  digits_rev radix (S n) z =
  if z <? radix then [digit_char z]
  else digit_char (z mod radix) :: digits_rev radix n (z / radix).
Proof. done. Qed.

Lemma parse_digits_rev radix max n z :
  2 ≤ radix ≤ 36 → 0 ≤ z ≤ max → z < radix ^ Z.of_nat (S n) →
  parse_digits radix max 0 (reverse (digits_rev radix (S n) z)) = Some z.
Proof.
  intros Hr. revert z. induction n as [|n IH]; intros z Hz Hlt.
  - change (digits_rev radix 1 z) with
      (if z <? radix then [digit_char z] else [digit_char (z mod radix)]).
    rewrite (proj2 (Z.ltb_lt z radix)) by lia. simpl.
    rewrite digit_val_char by lia. simpl.
    rewrite !Z.gtb_ltb, !(proj2 (Z.ltb_ge _ _)) by lia. done.
  - rewrite digits_rev_S. destruct (Z.ltb_spec z radix).
    + simpl. rewrite digit_val_char by lia. simpl.
      rewrite !Z.gtb_ltb, !(proj2 (Z.ltb_ge _ _)) by lia. done.
    + rewrite reverse_cons, parse_digits_app.
      pose proof (Z.mod_pos_bound z radix).
      pose proof (Z.div_mod z radix).
      assert (z / radix < radix ^ Z.of_nat (S n)).
      { apply Z.div_lt_upper_bound; [lia|].
        rewrite <- Z.pow_succ_r by lia. by rewrite <- Nat2Z.inj_succ. }
      rewrite IH by (lia || nia). simpl. rewrite digit_val_char by lia. simpl.
      rewrite !Z.gtb_ltb, !(proj2 (Z.ltb_ge _ _)) by nia. f_equal. nia.
Qed.

Lemma digits_rev_head_digit radix n z :
  2 ≤ radix ≤ 36 → 0 ≤ z →
  Forall (λ c, ∃ d, digit_val radix c = Some d) (digits_rev radix n z).
Proof.
  intros Hr. revert z. induction n as [|n IH]; intros z Hz; simpl; [constructor|].
  destruct (Z.ltb_spec z radix).
  - constructor; [|constructor]. exists z. apply digit_val_char; lia.
  - pose proof (Z.mod_pos_bound z radix). constructor.
    + exists (z mod radix). apply digit_val_char; lia.
    + apply IH. apply Z.div_pos; lia.
Qed.

Lemma radix_log2_bound radix z :
  2 ≤ radix → 0 ≤ z → z < radix ^ Z.of_nat (S (Z.to_nat (Z.log2 z))).
Proof.
  intros Hr Hz. pose proof (Z.log2_nonneg z).
  rewrite Nat2Z.inj_succ, Z2Nat.id by done.
  destruct (decide (z = 0)) as [->|]; [by apply Z.pow_pos_nonneg; lia|].
  apply Z.lt_le_trans with (2 ^ Z.succ (Z.log2 z)).
  - apply Z.log2_spec. lia.
  - apply Z.pow_le_mono_l. lia.
Qed.

(** Printing an unsigned number and parsing it back gives the number. *)
Lemma from_str_radix_show radix max z :
  2 ≤ radix ≤ 36 → 0 ≤ z ≤ max → from_str_radix radix max (show_radix radix z) = Some z.
Proof.
  intros Hr Hz. unfold show_radix.
  pose proof (parse_digits_rev radix max _ z Hr Hz (radix_log2_bound radix z ltac:(lia) ltac:(lia))) as Hp.
  pose proof (digits_rev_head_digit radix (S (Z.to_nat (Z.log2 z))) z Hr ltac:(lia)) as Hd.
  set (s := digits_rev _ _ _) in *.
  assert (reverse s ≠ []) as Hne.
  { subst s. cbn [digits_rev]. destruct (z <? radix); intros H%(f_equal length);
      rewrite length_reverse in H; done. }
  unfold from_str_radix. destruct (reverse s) as [|c t] eqn:Hs; [done|].
  rewrite bool_decide_eq_false_2; [done|].
  intros ->. assert (∃ d, digit_val radix "+"%char = Some d) as [d Hd'].
  { rewrite Forall_forall in Hd. apply Hd. apply elem_of_reverse. rewrite Hs. left. }
  apply digit_val_range in Hd' as Hrange.
  unfold digit_val in Hd'. change (is_ascii_digit "+") with false in Hd'.
  change (in_range 97 122 "+") with false in Hd'. change (in_range 65 90 "+") with false in Hd'.
  simpl in Hd'. destruct (Z.ltb_spec 36 radix); [lia|done].
Qed.

Lemma parse_u64_show z : is_u64 z → parse_u64 (show_u z) = Some z.
Proof. intros. by apply from_str_radix_show. Qed.

Lemma parse_u64_bounds s z : parse_u64 s = Some z → is_u64 z.
Proof. intros H. by eapply from_str_radix_bounds in H. Qed.

Lemma parse_u16_bounds s z : parse_u16 s = Some z → is_u16 z.
Proof. intros H. by eapply from_str_radix_bounds in H. Qed.

#[export] Hint Resolve parse_u64_bounds parse_u16_bounds : rust_std.
#[export] Hint Rewrite to_ascii_lowercase_idemp str_eqb_refl str_compare_refl : rust_std.

(** ** Lemmas: visible ASCII *)

(** The graphic ASCII characters: no whitespace, no control characters. *)
Definition is_graphic (c : ascii) : bool := in_range 33 126 c.

Lemma is_graphic_facts a : is_graphic a = true →
  ws1 a = false ∧ in_range 0 127 a = true ∧ a ≠ CR ∧ a ≠ LF ∧
  (∀ b, ws2 a b = false ∧ ws2 b a = false) ∧ (∀ b c, ws3 a b c = false ∧ ws3 c b a = false).
Proof.
  unfold is_graphic, ws1, ws2, ws3, in_range. intros Hg.
  apply andb_true_iff in Hg as [H1%Z.leb_le H2%Z.leb_le].
  assert (byte_val CR = 13 ∧ byte_val LF = 10) as [HCR HLF] by done.
  split_and!; [lia..| | | |]; [by intros ->; lia..| |]; intros; split; lia.
Qed.

Lemma trim_start_graphic a s : is_graphic a = true → trim_start (a :: s) = a :: s.
Proof.
  intros (Hw & _ & _ & _ & H2 & H3)%is_graphic_facts. simpl. rewrite Hw.
  destruct s as [|b s]; [done|]. rewrite (proj1 (H2 b)).
  destruct s as [|c s]; [done|]. by rewrite (proj1 (H3 b c)).
Qed.

Lemma trim_end_graphic s a : is_graphic a = true → trim_end (s ++ [a]) = s ++ [a].
Proof.
  intros (Hw & _ & _ & _ & H2 & H3)%is_graphic_facts. unfold trim_end.
  rewrite reverse_snoc. rewrite <- (reverse_involutive s) at 2. rewrite <- reverse_cons.
  f_equal. simpl. rewrite Hw. destruct (reverse s) as [|b t]; [done|]. rewrite (proj2 (H2 b)).
  destruct t as [|c t]; [done|]. by rewrite (proj2 (H3 b c)).
Qed.

Lemma trim_graphic s : forallb is_graphic s = true → trim s = s.
Proof.
  unfold trim. destruct s as [|a s]; [done|]. intros Hg.
  rewrite trim_start_graphic by (simpl in Hg; by apply andb_true_iff in Hg as [? _]).
  destruct (exists_last (l := a :: s)) as (t & z & Heq); [done|]. rewrite Heq in Hg |- *.
  rewrite forallb_app in Hg. apply andb_true_iff in Hg as [_ Hz]. simpl in Hz.
  apply trim_end_graphic. by destruct (is_graphic z).
Qed.

Lemma utf8_valid_app_ascii a s :
  forallb (in_range 0 127) a = true → utf8_valid (a ++ s) = utf8_valid s.
Proof.
  induction a as [|x a IH]; [done|]. cbn [forallb app]. intros [Hx Ha]%andb_true_iff.
  cbn [utf8_valid]. rewrite Hx. by apply IH.
Qed.

Lemma graphic_ascii s : forallb is_graphic s = true → is_ascii_str s = true.
Proof.
  unfold is_ascii_str. rewrite !forallb_forall. intros Hs c Hc.
  by apply Hs, is_graphic_facts in Hc as (_ & Hc & _).
Qed.

Lemma utf8_valid_ascii s : is_ascii_str s = true → utf8_valid s = true.
Proof. intros Hs. rewrite <- (app_nil_r s), utf8_valid_app_ascii by done. done. Qed.

Lemma graphic_no_CR s : forallb is_graphic s = true → CR ∉ s.
Proof. rewrite forallb_forall. intros Hs Hin%list_elem_of_In%Hs. done. Qed.

(** The digits of a number in base at most 36. *)
Definition is_digit_char (c : ascii) : bool := is_ascii_digit c || in_range 97 122 c.

Lemma digit_char_ok d : 0 ≤ d < 36 → is_digit_char (digit_char d) = true.
Proof.
  intros Hd. unfold digit_char, is_digit_char, is_ascii_digit, in_range.
  destruct (Z.ltb_spec d 10); rewrite byte_val_of_Z; lia.
Qed.

Lemma digits_rev_chars radix n z c :
  2 ≤ radix ≤ 36 → 0 ≤ z → c ∈ digits_rev radix n z → is_digit_char c = true.
Proof.
  intros Hr. revert z. induction n as [|n IH]; intros z Hz; simpl; [by intros ?%elem_of_nil|].
  destruct (Z.ltb_spec z radix).
  - intros ->%list_elem_of_singleton. apply digit_char_ok. lia.
  - intros [->|Hc]%elem_of_cons.
    + apply digit_char_ok. pose proof (Z.mod_pos_bound z radix). lia.
    + eapply IH; [|done]. apply Z.div_pos; lia.
Qed.

Lemma show_radix_chars radix z c :
  2 ≤ radix ≤ 36 → 0 ≤ z → c ∈ show_radix radix z → is_digit_char c = true.
Proof.
  unfold show_radix. intros Hr Hz Hc. rewrite elem_of_reverse in Hc. exact (digits_rev_chars _ _ _ _ Hr Hz Hc).
Qed.

Lemma show_radix_graphic radix z :
  2 ≤ radix ≤ 36 → 0 ≤ z → forallb is_graphic (show_radix radix z) = true.
Proof.
  intros Hr Hz. apply forallb_forall. intros c Hc%list_elem_of_In.
  apply show_radix_chars in Hc; [|done..]. revert Hc. by all_bytes c.
Qed.
