(* ===== verification/BTree.v ===== *)
(** * [BTreeMap] and [BTreeSet]

    The endpoint keeps trailers, query fields, checksum values, user metadata
    and uploaded parts in ordered maps, and iterates over some of them: the
    canonical trailer block, [ListParts] and the response headers all depend
    on the key order. An ordered map is an association list, its invariant
    is [btree_ok] (keys strictly increasing); the operations preserve it and
    [btree_get] is extensional on it. *)

From S2P Require Import Prelude RustStd.
From Stdlib Require Import ZArith Lia Sorted.

(** A key type with the total order of Rust's [Ord]. *)
Class OrdKey (K : Type) := {
  key_compare : K → K → comparison;
  key_compare_eq : ∀ a b, key_compare a b = Eq ↔ a = b;
  key_compare_antisym : ∀ a b, key_compare b a = CompOpp (key_compare a b);
  key_compare_trans : ∀ a b c,
    key_compare a b = Lt → key_compare b c = Lt → key_compare a c = Lt;
}.

Global Instance ord_str : OrdKey str := {
  key_compare := str_compare;
  key_compare_eq := str_compare_eq;
  key_compare_antisym := str_compare_antisym;
  key_compare_trans := str_compare_lt_trans;
}.

Global Program Instance ord_Z : OrdKey Z := { key_compare := Z.compare }.
Next Obligation. apply Z.compare_eq_iff. Qed.
Next Obligation. intros. apply Z.compare_antisym. Qed.
Next Obligation. intros a b c; rewrite !Z.compare_lt_iff; lia. Qed.

Abbreviation btree K V := (list (K * V)).

Section BTreeMap.
Context {K : Type} `{OrdKey K} {V : Type}.
Implicit Types m : btree K V.

Fixpoint btree_get (k : K) (m : list (K * V)) : option V :=
    match m with
    | [] => None
    | (k', v) :: m =>
        match key_compare k k' with
        | Lt => None
        | Eq => Some v
        | Gt => btree_get k m
        end
    end.

Fixpoint btree_insert (k : K) (v : V) (m : list (K * V)) : list (K * V) :=
    match m with
    | [] => [(k, v)]
    | (k', v') :: m' =>
        match key_compare k k' with
        | Lt => (k, v) :: m
        | Eq => (k, v) :: m'
        | Gt => (k', v') :: btree_insert k v m'
        end
    end.

Fixpoint btree_remove (k : K) (m : list (K * V)) : list (K * V) :=
    match m with
    | [] => []
    | (k', v') :: m' =>
        match key_compare k k' with
        | Lt => m
        | Eq => m'
        | Gt => (k', v') :: btree_remove k m'
        end
    end.

Definition btree_contains (k : K) (m : list (K * V)) : bool :=
    match btree_get k m with Some _ => true | None => false end.

Definition btree_keys (m : list (K * V)) : list K := m.*1.
Definition btree_values (m : list (K * V)) : list V := m.*2.

(** Strictly below every key of the map. *)
Definition key_lt (a b : K) : Prop := key_compare a b = Lt.
Definition btree_ok (m : list (K * V)) : Prop := StronglySorted key_lt (m.*1).

Lemma key_compare_refl k : key_compare k k = Eq.
Proof. by apply key_compare_eq. Qed.

Lemma key_lt_neq a b : key_lt a b → a ≠ b.
Proof. unfold key_lt. intros Hlt ->. by rewrite key_compare_refl in Hlt. Qed.

Lemma key_gt_lt a b : key_compare a b = Gt ↔ key_lt b a.
Proof. unfold key_lt. rewrite (key_compare_antisym a b). by destruct (key_compare a b). Qed.

Lemma key_neq_cases a b : a ≠ b → key_lt a b ∨ key_lt b a.
Proof.
    intros Hne. destruct (key_compare a b) eqn:E.
    - by apply key_compare_eq in E.
    - by left.
    - right. by apply key_gt_lt.
Qed.

Lemma btree_ok_nil : btree_ok [].
Proof. constructor. Qed.

Lemma btree_ok_cons k v m :
    btree_ok ((k, v) :: m) ↔ Forall (key_lt k) (m.*1) ∧ btree_ok m.
Proof.
    unfold btree_ok. simpl. split.
    - intros Hs. inversion Hs; subst. done.
    - intros [? ?]. by constructor.
Qed.

(** Below the least key nothing is found. *)
Lemma btree_get_below k m : Forall (key_lt k) (m.*1) → btree_get k m = None.
Proof.
    destruct m as [|[k' v'] m]; simpl; [done|]. intros Hf. inversion Hf; subst.
    unfold key_lt in *. by rewrite H2.
Qed.

Lemma btree_get_elem k v m : btree_ok m → btree_get k m = Some v ↔ (k, v) ∈ m.
Proof.
    induction m as [|[k' v'] m IH]; intros Hok; simpl.
    - split; [done|]. by intros ?%elem_of_nil.
    - apply btree_ok_cons in Hok as [Hlt Hok]. specialize (IH Hok).
      rewrite elem_of_cons. destruct (key_compare k k') eqn:E.
      + apply key_compare_eq in E as ->. split; [intros [= ->]; by left|].
        intros [[= ->]|Hin]; [done|].
        exfalso. rewrite Forall_forall in Hlt.
        apply (key_lt_neq k' k'); [|done]. apply Hlt. by apply (list_elem_of_fmap_2 fst _ (k', v)).
      + split; [done|]. intros [[= -> ->]|Hin]; [by rewrite key_compare_refl in E|].
        rewrite Forall_forall in Hlt.
        assert (key_lt k' k) as Hk by (apply Hlt; by apply (list_elem_of_fmap_2 fst _ (k, v))).
        apply key_gt_lt in Hk. congruence.
      + rewrite IH. split; [by right|]. intros [[= -> ->]|]; [|done].
        by rewrite key_compare_refl in E.
Qed.

Lemma btree_insert_keys k v m :
    ∀ x, x ∈ (btree_insert k v m).*1 ↔ x = k ∨ x ∈ m.*1.
Proof.
    induction m as [|[k' v'] m IH]; intros x; simpl; [set_solver|].
    destruct (key_compare k k') eqn:E; simpl.
    - apply key_compare_eq in E as ->. set_solver.
    - set_solver.
    - rewrite elem_of_cons, IH. set_solver.
Qed.

(** [insert] keeps the keys strictly increasing. *)
Lemma btree_insert_ok k v m : btree_ok m → btree_ok (btree_insert k v m).
Proof.
    induction m as [|[k' v'] m IH]; intros Hok; simpl.
    - apply btree_ok_cons. split; [constructor|apply btree_ok_nil].
    - apply btree_ok_cons in Hok as [Hlt Hok]. destruct (key_compare k k') eqn:E.
      + apply key_compare_eq in E as ->. by apply btree_ok_cons.
      + apply btree_ok_cons. split; [|by apply btree_ok_cons].
        constructor; [done|]. eapply Forall_impl; [exact Hlt|].
        intros x. by apply key_compare_trans.
      + apply btree_ok_cons. split; [|by apply IH].
        rewrite Forall_forall. intros x [->|Hx]%btree_insert_keys.
        * by apply key_gt_lt.
        * rewrite Forall_forall in Hlt. by apply Hlt.
Qed.

Lemma btree_get_insert_eq k v m : btree_get k (btree_insert k v m) = Some v.
Proof.
    induction m as [|[k' v'] m IH]; simpl; [by rewrite key_compare_refl|].
    destruct (key_compare k k') eqn:E; simpl; [by rewrite key_compare_refl..|].
    by rewrite E.
Qed.

Lemma btree_get_insert_ne k k' v m :
    btree_ok m → k ≠ k' → btree_get k' (btree_insert k v m) = btree_get k' m.
Proof.
    induction m as [|[j w] m IH]; intros Hok Hne; simpl.
    - destruct (key_neq_cases k k' Hne) as [Hlt|Hlt].
      + by rewrite (proj2 (key_gt_lt k' k) Hlt).
      + unfold key_lt in Hlt. by rewrite Hlt.
    - apply btree_ok_cons in Hok as [Hlt Hok]. destruct (key_compare k j) eqn:E; simpl.
      + apply key_compare_eq in E as ->.
        destruct (key_compare k' j) eqn:E'; [|done..].
        apply key_compare_eq in E'. congruence.
      + destruct (key_compare k' k) eqn:E'; [by apply key_compare_eq in E'; congruence| |done].
        by rewrite (key_compare_trans _ _ _ E' E).
      + by rewrite IH.
Qed.

Lemma btree_insert_elem k v m x : x ∈ btree_insert k v m → x = (k, v) ∨ x ∈ m.
Proof.
  induction m as [|[k' v'] m IH]; cbn [btree_insert]; [rewrite list_elem_of_singleton; naive_solver|].
  destruct (key_compare k k'); rewrite !elem_of_cons; naive_solver.
Qed.
Lemma btree_remove_elem k m x : x ∈ btree_remove k m → x ∈ m.
Proof.
  induction m as [|[k' v'] m IH]; cbn [btree_remove]; [done|].
  destruct (key_compare k k'); rewrite ?elem_of_cons; naive_solver.
Qed.

Lemma btree_remove_keys k m x : x ∈ (btree_remove k m).*1 → x ∈ m.*1.
Proof.
    induction m as [|[k' v'] m IH]; simpl; [done|].
    destruct (key_compare k k'); simpl; rewrite ?elem_of_cons; naive_solver.
Qed.

Lemma btree_remove_ok k m : btree_ok m → btree_ok (btree_remove k m).
Proof.
    induction m as [|[k' v'] m IH]; intros Hok; simpl; [done|].
    pose proof Hok as Hok'. apply btree_ok_cons in Hok as [Hlt Hok].
    destruct (key_compare k k'); [done|done|].
    apply btree_ok_cons. split; [|by apply IH].
    rewrite Forall_forall in *. intros x Hx%btree_remove_keys. by apply Hlt.
Qed.

Lemma btree_get_remove_eq k m : btree_ok m → btree_get k (btree_remove k m) = None.
Proof.
    induction m as [|[k' v'] m IH]; intros Hok; simpl; [done|].
    apply btree_ok_cons in Hok as [Hlt Hok]. destruct (key_compare k k') eqn:E; simpl.
    - apply key_compare_eq in E as ->. by apply btree_get_below.
    - by rewrite E.
    - rewrite E. by apply IH.
Qed.

Lemma btree_get_remove_ne k k' m :
    btree_ok m → k ≠ k' → btree_get k' (btree_remove k m) = btree_get k' m.
Proof.
    induction m as [|[j w] m IH]; intros Hok Hne; simpl; [done|].
    apply btree_ok_cons in Hok as [Hlt Hok]. destruct (key_compare k j) eqn:E; simpl; [|done|].
    - apply key_compare_eq in E as ->. destruct (key_compare k' j) eqn:E'; [|..|done].
      + apply key_compare_eq in E'. congruence.
      + apply btree_get_below. eapply Forall_impl; [exact Hlt|].
        intros x. by apply key_compare_trans.
    - by rewrite IH.
Qed.

Lemma btree_contains_spec k m : btree_contains k m = true ↔ is_Some (btree_get k m).
Proof.
    unfold btree_contains. destruct (btree_get k m); [naive_solver|].
    split; [done|]. by intros [? [=]].
Qed.

(** Inserting above every key appends at the end. *)
Lemma btree_insert_above k v m :
    Forall (λ j, key_lt j k) (m.*1) → btree_insert k v m = m ++ [(k, v)].
Proof.
    induction m as [|[j w] m IH]; simpl; intros Hf; [done|]. inversion Hf; subst.
    rewrite (proj2 (key_gt_lt k j)) by done. by rewrite IH.
Qed.

Lemma btree_ok_app_inv m1 m2 : btree_ok (m1 ++ m2) → btree_ok m1 ∧ btree_ok m2.
Proof.
    induction m1 as [|[k v] m1 IH]; simpl; [intros; split; [apply btree_ok_nil|done]|].
    rewrite !btree_ok_cons, fmap_app, Forall_app. naive_solver.
Qed.

(** The keys before an entry of an ordered map are below it. *)
Lemma btree_ok_mid m1 k v m2 : btree_ok (m1 ++ (k, v) :: m2) → Forall (λ j, key_lt j k) (m1.*1).
Proof.
    induction m1 as [|[j w] m1 IH]; simpl; [constructor|].
    rewrite btree_ok_cons, fmap_app, Forall_app. intros [[_ Hj] Hok]. simpl in Hj.
    apply Forall_cons in Hj as [Hj _]. constructor; [done|by apply IH].
Qed.

Lemma btree_insert_mid m1 k v m2 :
    btree_ok (m1 ++ (k, v) :: m2) → btree_insert k v m1 = m1 ++ [(k, v)].
Proof. intros Hok. by eapply btree_insert_above, btree_ok_mid. Qed.

Lemma btree_get_above k m : Forall (λ j, key_lt j k) (m.*1) → btree_get k m = None.
Proof.
    induction m as [|[j w] m IH]; simpl; [done|]. rewrite Forall_cons. intros [Hj Hm].
    rewrite (proj2 (key_gt_lt k j)) by done. by apply IH.
Qed.

Lemma btree_not_contains_mid m1 k v m2 :
    btree_ok (m1 ++ (k, v) :: m2) → btree_contains k m1 = false.
Proof. intros Hok. unfold btree_contains. by erewrite btree_get_above by by eapply btree_ok_mid. Qed.

(** Undoing an insertion. *)
Lemma btree_insert_insert k v v' m : btree_insert k v (btree_insert k v' m) = btree_insert k v m.
Proof.
  induction m as [|[k' w] m IH]; simpl; [by rewrite key_compare_refl|].
  destruct (key_compare k k') eqn:E; simpl; rewrite ?key_compare_refl, ?E; [done|done|]. by rewrite IH.
Qed.

Lemma btree_insert_id k v m : btree_get k m = Some v → btree_insert k v m = m.
Proof.
  induction m as [|[k' w] m IH]; simpl; [done|]. destruct (key_compare k k') eqn:E; [|done|].
  - intros [= ->]. apply key_compare_eq in E. by subst.
  - intros Hg. by rewrite IH.
Qed.

Lemma btree_remove_insert k v m : btree_get k m = None → btree_remove k (btree_insert k v m) = m.
Proof.
  induction m as [|[k' w] m IH]; simpl; [by rewrite key_compare_refl|].
  destruct (key_compare k k') eqn:E; simpl; rewrite ?key_compare_refl, ?E; [done|done|].
  intros Hg. by rewrite IH.
Qed.
End BTreeMap.

#[export] Hint Resolve btree_ok_nil btree_insert_ok btree_remove_ok : s3db.
#[export] Hint Rewrite @btree_get_insert_eq : rust_std.

(** [BTreeSet<K>] is the map to [unit]. *)
Abbreviation btset K := (list (K * unit)).
Definition set_insert {K} `{OrdKey K} (k : K) (s : btset K) : btset K := btree_insert k () s.
Definition set_contains {K} `{OrdKey K} (k : K) (s : btset K) : bool := btree_contains k s.
