(* ===== verification/S3Error.v ===== *)
(** * S3 XML errors (error.rs)

    [S3Error] with one constructor function per S3 error code, and the XML
    document an error becomes. [Module Xml] has the escaping that error.rs
    and handlers/multipart.rs both define, with the reader that undoes it. *)

From S2P Require Import Prelude RustStd.
From Stdlib Require Import ZArith.
Local Open Scope Z_scope.

Module Xml.

(** [str::replace(char, &str)]. *)
Definition replace_char (c : ascii) (r : str) (s : str) : str :=
  flat_map (λ x, if bool_decide (x = c) then r else [x]) s.

Definition DQUOTE : ascii := "034"%char.
Definition SQUOTE : ascii := "039"%char.

(* @src src/src/error.rs 260-267 escape_xml *)
Definition escape_xml (value : str) : str :=
  replace_char SQUOTE "&apos;"
    (replace_char DQUOTE "&quot;"
      (replace_char ">"%char "&gt;"
        (replace_char "<"%char "&lt;"
          (replace_char "&"%char "&amp;" value)))).

(** The five predefined entities, one character at a time. *)
Definition escape_char (c : ascii) : str :=
  if bool_decide (c = "&"%char) then "&amp;"
  else if bool_decide (c = "<"%char) then "&lt;"
  else if bool_decide (c = ">"%char) then "&gt;"
  else if bool_decide (c = DQUOTE) then "&quot;"
  else if bool_decide (c = SQUOTE) then "&apos;"
  else [c].

(** What an XML reader does with character data: entity references become
    their character, a bare [&] is an error. *)
Definition entities : list (str * ascii) :=
  [("&amp;", "&"%char); ("&lt;", "<"%char); ("&gt;", ">"%char);
   ("&quot;", DQUOTE); ("&apos;", SQUOTE)].

Definition read_entity (s : str) : option (ascii * str) :=
  foldr (λ '(name, c) k,
    match strip_prefix name s with Some t => Some (c, t) | None => k end) None entities.

Fixpoint unescape_fuel (n : nat) (s : str) : option str :=
  match n, s with
  | _, [] => Some []
  | O, _ => None
  | S n, c :: t =>
      if bool_decide (c = "&"%char) then
        '(e, u) ← read_entity s; (e ::.) <$> unescape_fuel n u
      else (c ::.) <$> unescape_fuel n t
  end.
Definition unescape_xml (s : str) : option str := unescape_fuel (length s) s.

Lemma replace_char_app c r s t :
  replace_char c r (s ++ t) = replace_char c r s ++ replace_char c r t.
Proof. apply flat_map_app. Qed.

(** The five passes over the whole string are one pass over its characters. *)
Lemma escape_xml_flat_map s : escape_xml s = flat_map escape_char s.
Proof.
  induction s as [|c s IH]; [done|].
  change (c :: s) with ([c] ++ s). rewrite flat_map_app, <- IH.
  unfold escape_xml. rewrite !replace_char_app. f_equal.
  clear IH s. all_bytes c.
Qed.

Lemma escape_char_length c : (1 ≤ length (escape_char c))%nat.
Proof. all_bytes c; lia. Qed.

Lemma read_entity_escape c t :
  escape_char c ≠ [c] → read_entity (escape_char c ++ t) = Some (c, t).
Proof.
  intros Hc. unfold escape_char in *.
  repeat case_bool_decide; subst; try done.
Qed.

Lemma escape_char_head c : escape_char c = [c] ∨ ∃ u, escape_char c = "&"%char :: u ∧ escape_char c ≠ [c].
Proof. unfold escape_char. repeat case_bool_decide; eauto; right; eauto. Qed.

Lemma escape_plain c : escape_char c = [c] → c ≠ "&"%char.
Proof. intros H ->. done. Qed.

Lemma unescape_fuel_escape s n :
  (length (flat_map escape_char s) ≤ n)%nat →
  unescape_fuel n (flat_map escape_char s) = Some s.
Proof.
  revert n. induction s as [|c s IH]; intros n Hn; [by destruct n|].
  change (flat_map escape_char (c :: s)) with (escape_char c ++ flat_map escape_char s) in *.
  rewrite length_app in Hn. pose proof (escape_char_length c).
  destruct n as [|n]; [lia|].
  destruct (escape_char_head c) as [Hc|(u & Hu & Hne)].
  - rewrite Hc. simpl. rewrite bool_decide_eq_false_2 by by apply escape_plain.
    rewrite IH; [done|]. lia.
  - pose proof (read_entity_escape c (flat_map escape_char s) Hne) as Hr.
    rewrite Hu in *. simpl app in *. cbn [unescape_fuel].
    rewrite bool_decide_eq_true_2 by done. rewrite Hr. simpl.
    rewrite IH; [done|]. simpl in Hn. lia.
Qed.

End Xml.

(** ** The error value *)

(* @src src/src/error.rs 18-24 S3Error *)
Record S3Error := mkS3Error {
  err_status : Z;
  err_code : str;
  err_message : str;
  err_resource : option str;
  err_headers : list (str * bytes);
}.

Global Instance S3Error_eq_dec : EqDecision S3Error.
Proof. solve_decision. Defined.

(* @src src/src/error.rs 220-228 S3Error::new *)
Definition new_error (st : Z) (c m : str) : S3Error :=
  {| err_status := st; err_code := c; err_message := m; err_resource := None; err_headers := [] |}.

(* @src src/src/error.rs 193-196 S3Error::with_resource *)
Definition with_resource (e : S3Error) (r : str) : S3Error :=
  {| err_status := err_status e; err_code := err_code e; err_message := err_message e;
     err_resource := Some r; err_headers := err_headers e |}.

(* @src src/src/error.rs 199-202 S3Error::with_header *)
Definition with_header (e : S3Error) (name : str) (value : bytes) : S3Error :=
  {| err_status := err_status e; err_code := err_code e; err_message := err_message e;
     err_resource := err_resource e; err_headers := err_headers e ++ [(name, value)] |}.

(* @src src/src/error.rs 48-50 S3Error::invalid_request *)
Definition invalid_request (m : str) : S3Error := new_error 400 "InvalidRequest" m.
(* @src src/src/error.rs 53-55 S3Error::invalid_argument *)
Definition invalid_argument (m : str) : S3Error := new_error 400 "InvalidArgument" m.
(* @src src/src/error.rs 58-60 S3Error::malformed_xml *)
Definition malformed_xml (m : str) : S3Error := new_error 400 "MalformedXML" m.
(* @src src/src/error.rs 63-69 S3Error::no_such_bucket *)
Definition no_such_bucket (bucket : str) : S3Error :=
  new_error 404 "NoSuchBucket" ("The specified bucket does not exist: " ++ bucket).
(* @src src/src/error.rs 72-78 S3Error::no_such_key *)
Definition no_such_key : S3Error :=
  new_error 404 "NoSuchKey" "The specified key does not exist.".
(* @src src/src/error.rs 81-83 S3Error::access_denied *)
Definition access_denied (m : str) : S3Error := new_error 403 "AccessDenied" m.
(* @src src/src/error.rs 86-92 S3Error::authorization_header_malformed *)
Definition authorization_header_malformed (m : str) : S3Error :=
  new_error 400 "AuthorizationHeaderMalformed" m.
(* @src src/src/error.rs 95-101 S3Error::signature_does_not_match *)
Definition signature_does_not_match : S3Error :=
  new_error 403 "SignatureDoesNotMatch"
    "The request signature we calculated does not match the signature you provided.".
(* @src src/src/error.rs 104-110 S3Error::request_time_too_skewed *)
Definition request_time_too_skewed : S3Error :=
  new_error 403 "RequestTimeTooSkewed"
    "The difference between the request time and the server's time is too large.".
(* @src src/src/error.rs 113-119 S3Error::missing_content_length *)
Definition missing_content_length : S3Error :=
  new_error 411 "MissingContentLength" "You must provide the Content-Length HTTP header.".
(* @src src/src/error.rs 122-124 S3Error::bad_digest *)
Definition bad_digest (m : str) : S3Error := new_error 400 "BadDigest" m.
(* @src src/src/error.rs 127-133 S3Error::no_such_upload *)
Definition no_such_upload : S3Error :=
  new_error 404 "NoSuchUpload" "The specified multipart upload does not exist.".
(* @src src/src/error.rs 136-138 S3Error::invalid_part *)
Definition invalid_part (m : str) : S3Error := new_error 400 "InvalidPart" m.
(* @src src/src/error.rs 141-143 S3Error::entity_too_small *)
Definition entity_too_small (m : str) : S3Error := new_error 400 "EntityTooSmall" m.
(* @src src/src/error.rs 146-148 S3Error::entity_too_large *)
Definition entity_too_large (m : str) : S3Error := new_error 413 "EntityTooLarge" m.
(* @src src/src/error.rs 151-153 S3Error::slow_down *)
Definition slow_down (m : str) : S3Error := new_error 503 "SlowDown" m.
(* @src src/src/error.rs 156-158 S3Error::invalid_range *)
Definition invalid_range (m : str) : S3Error := new_error 416 "InvalidRange" m.
(* @src src/src/error.rs 161-167 S3Error::precondition_failed *)
Definition precondition_failed (m : str) : S3Error := new_error 412 "PreconditionFailed" m.
(* @src src/src/error.rs 170-180 S3Error::method_not_allowed *)
Definition method_not_allowed : S3Error :=
  with_header
    (new_error 405 "MethodNotAllowed"
       "The specified method is not allowed against this resource.")
    "allow" "DELETE, GET, HEAD, POST, PUT".
(* @src src/src/error.rs 183-185 S3Error::not_implemented *)
Definition not_implemented (m : str) : S3Error := new_error 501 "NotImplemented" m.
(* @src src/src/error.rs 188-190 S3Error::internal *)
Definition internal (m : str) : S3Error := new_error 500 "InternalError" m.

Definition NL : str := [LF].

(* @src src/src/error.rs 230-250 S3Error::to_xml *)
Definition to_xml (e : S3Error) (request_id : str) : str :=
  let resource_xml :=
    match err_resource e with
    | Some r => "  <Resource>" ++ Xml.escape_xml r ++ "</Resource>" ++ NL
    | None => []
    end in
  "<?xml version=" ++ [Xml.DQUOTE] ++ "1.0" ++ [Xml.DQUOTE] ++ " encoding="
    ++ [Xml.DQUOTE] ++ "UTF-8" ++ [Xml.DQUOTE] ++ "?>" ++ NL
  ++ "<Error>" ++ NL
  ++ "  <Code>" ++ err_code e ++ "</Code>" ++ NL
  ++ "  <Message>" ++ Xml.escape_xml (err_message e) ++ "</Message>" ++ NL
  ++ resource_xml
  ++ "  <RequestId>" ++ request_id ++ "</RequestId>" ++ NL
  ++ "</Error>" ++ NL.

(** ** Properties *)

Definition markup : list ascii := ["<"%char; ">"%char; Xml.DQUOTE; Xml.SQUOTE].

Lemma escape_char_no_markup c : Forall (λ x, x ∉ markup) (Xml.escape_char c).
Proof.
  assert (forallb (λ x, bool_decide (x ∉ markup)) (Xml.escape_char c) = true) as Hc
    by all_bytes c.
  apply Is_true_eq_left, forallb_True in Hc. eapply Forall_impl; [exact Hc|].
  intros x Hx. by apply bool_decide_unpack in Hx.
Qed.

Lemma escape_xml_no_markup s : Forall (λ x, x ∉ markup) (Xml.escape_xml s).
Proof.
  rewrite Xml.escape_xml_flat_map. induction s as [|c s IH]; simpl; [constructor|].
  apply Forall_app. split; [apply escape_char_no_markup|done].
Qed.

(** Escaping a text for an XML element body is faithful and safe: an XML
    reader that resolves the five predefined entities gets the original text
    back, and the escaped text contains no angle bracket or quote, so a
    message, key or ETag chosen by a client cannot close its element. *)
Theorem escape_xml_roundtrip (s : str) :
  Xml.unescape_xml (Xml.escape_xml s) = Some s ∧
  Forall (λ x, x ∉ markup) (Xml.escape_xml s).
Proof.
  split; [|apply escape_xml_no_markup].
  rewrite Xml.escape_xml_flat_map. by apply Xml.unescape_fuel_escape.
Qed.
