(* ===== verification/Externals.v ===== *)
(** * The libraries the endpoint calls

    Third-party crates are interfaces here: a class of operations with the
    documented behaviour the endpoint relies on as laws. The components are
    verified against these classes; [Reference.v] instantiates each of them
    with concrete functions. *)

From S2P Require Import Prelude RustStd.
From Stdlib Require Import ZArith.
Local Open Scope Z_scope.

(** The characters of a header name (RFC 9110 tokens). *)
Definition is_token_char (c : ascii) : bool :=
  is_ascii_digit c || is_ascii_uppercase c || is_ascii_lowercase c
  || contains_char c "!#$%&'*+-.^_`|~".

(** The characters every header value may hold: printable ASCII. *)
Definition is_printable (c : ascii) : bool := in_range 32 126 c.
(** With the tab, the characters of a value that [HeaderValue::to_str] reads and
    [HeaderValue::from_str] takes. *)
Definition is_visible (c : ascii) : bool := is_printable c || (byte_val c =? 9).

(** [http::HeaderMap], [http::HeaderName] and [http::HeaderValue]: a multimap
    from lowercase header names to byte values, looked up without regard to
    case. [hm_insert] replaces all the values of a name, [hm_append] adds one.
    The two messages are those of [http::Error]. *)
Class HttpLib := {
  HeaderMap : Type;
  hm_get_all : HeaderMap → str → list bytes;
  hm_get : HeaderMap → str → option bytes;
  hm_contains_key : HeaderMap → str → bool;
  hm_keys : HeaderMap → list str;
  hm_iter : HeaderMap → list (str * bytes);
  hv_to_str : bytes → option str;
  hv_from_str : str → option bytes;
  hn_from_str : str → option str;
  hm_empty : HeaderMap;
  hm_append : HeaderMap → str → bytes → HeaderMap;
  hm_insert : HeaderMap → str → bytes → HeaderMap;
  invalid_name_msg : str;
  invalid_value_msg : str;
  hm_get_all_lower : ∀ h n, hm_get_all h (to_ascii_lowercase n) = hm_get_all h n;
  hm_get_spec : ∀ h n, hm_get h n = head (hm_get_all h n);
  hm_contains_key_spec : ∀ h n, hm_contains_key h n = negb (is_empty (hm_get_all h n));
  hm_keys_spec : ∀ h n, n ∈ hm_keys h → hm_get_all h n ≠ [];
  hm_keys_complete : ∀ h n, hm_get_all h n ≠ [] → to_ascii_lowercase n ∈ hm_keys h;
  hm_keys_lower : ∀ h n, n ∈ hm_keys h → to_ascii_lowercase n = n;
  hm_iter_spec : ∀ h n v, (n, v) ∈ hm_iter h ↔ n ∈ hm_keys h ∧ v ∈ hm_get_all h n;
  hm_iter_filter : ∀ h n, to_ascii_lowercase n = n →
    (filter (λ p, p.1 = n) (hm_iter h)).*2 = hm_get_all h n;
  hv_to_str_id : ∀ v s, hv_to_str v = Some s → s = v;
  hv_to_str_visible : ∀ v s, hv_to_str v = Some s → forallb is_visible s = true;
  hv_from_str_id : ∀ s v, hv_from_str s = Some v → v = s;
  hv_to_str_printable : ∀ v, forallb is_printable v = true → hv_to_str v = Some v;
  hv_from_str_visible : ∀ s, forallb is_visible s = true → hv_from_str s = Some s;
  hn_from_str_lower : ∀ s n, hn_from_str s = Some n → n = to_ascii_lowercase s;
  hn_from_str_token : ∀ s, s ≠ [] → len s < 65536 → forallb is_token_char s = true →
    hn_from_str s = Some (to_ascii_lowercase s);
  hm_empty_spec : ∀ n, hm_get_all hm_empty n = [];
  hm_append_spec : ∀ h n v m, hm_get_all (hm_append h n v) m =
    if str_eqb (to_ascii_lowercase m) (to_ascii_lowercase n) then hm_get_all h m ++ [v] else hm_get_all h m;
  hm_insert_spec : ∀ h n v m, hm_get_all (hm_insert h n v) m =
    if str_eqb (to_ascii_lowercase m) (to_ascii_lowercase n) then [v] else hm_get_all h m;
}.

Lemma printable_visible s : forallb is_printable s = true → forallb is_visible s = true.
Proof. rewrite !forallb_forall. intros Hs c Hc. unfold is_visible. by rewrite (Hs c Hc). Qed.
Lemma hv_from_str_printable `{HttpLib} s : forallb is_printable s = true → hv_from_str s = Some s.
Proof. intros Hs. by apply hv_from_str_visible, printable_visible. Qed.

(** [hex], [base64] and [percent_encoding]. [percent_decode] is
    [percent_decode_str(s).decode_utf8()]. *)
Class CodecLib := {
  hex_encode : bytes → str;
  hex_decode : str → option bytes;
  b64_encode : bytes → str;
  b64_decode : str → option bytes;
  percent_decode : str → option str;
  hex_decode_encode : ∀ b, hex_decode (hex_encode b) = Some b;
  hex_encode_length : ∀ b, length (hex_encode b) = (2 * length b)%nat;
  hex_encode_lower : ∀ b, forallb (λ c, is_ascii_digit c || in_range 97 102 c) (hex_encode b) = true;
  hex_decode_digits : ∀ s n, length s = (2 * n)%nat → forallb is_ascii_hexdigit s = true →
    ∃ b, hex_decode s = Some b ∧ length b = n;
  b64_decode_encode : ∀ b, b64_decode (b64_encode b) = Some b;
  percent_decode_plain : ∀ s, "%"%char ∉ s → utf8_valid s = true → percent_decode s = Some s;
}.

(** [uuid::Uuid]: [to_string] is the canonical hyphenated lowercase form. *)
Definition uuid_char (c : ascii) : bool :=
  is_ascii_digit c || in_range 97 102 c || bool_decide (c = "-"%char).

Class UuidLib := {
  Uuid : Type;
  uuid_parse_str : str → option Uuid;
  uuid_to_string : Uuid → str;
  uuid_parse_to_string : ∀ u, uuid_parse_str (uuid_to_string u) = Some u;
  uuid_to_string_length : ∀ u, length (uuid_to_string u) = 36%nat;
  uuid_to_string_chars : ∀ u, forallb uuid_char (uuid_to_string u) = true;
}.

(** An incremental hash function: feeding the chunks one by one is hashing
    their concatenation. *)
Record StreamHash (Out : Type) := {
  sh_state : Type;
  sh_new : sh_state;
  sh_update : sh_state → bytes → sh_state;
  sh_finalize : sh_state → Out;
  sh_hash : bytes → Out;
  sh_chunks : ∀ chunks, sh_finalize (foldl sh_update sh_new chunks) = sh_hash (concat chunks);
}.
Arguments sh_state {Out} s.
Arguments sh_new {Out} s.
Arguments sh_update {Out} s.
Arguments sh_finalize {Out} s.
Arguments sh_hash {Out} s.
Arguments sh_chunks {Out} s.

(** [md5], [sha1], [sha2], [crc], [hmac] and [subtle]. *)
Class CryptoLib := {
  Md5 : StreamHash bytes;
  Sha1 : StreamHash bytes;
  Sha256 : StreamHash bytes;
  Sha512 : StreamHash bytes;
  CRC32 : StreamHash Z;
  CRC32C : StreamHash Z;
  hmac_sha256_raw : bytes → bytes → option bytes;
  ct_eq : bytes → bytes → bool;
  sha256_length : ∀ b, length (sh_hash Sha256 b) = 32%nat;
  hmac_sha256_length : ∀ k d m, hmac_sha256_raw k d = Some m → length m = 32%nat;
  ct_eq_spec : ∀ a b, ct_eq a b = true ↔ a = b;
}.

Definition NANOS : Z := 1000000000.
(** [DateTime::timestamp]: whole seconds, rounded towards minus infinity. *)
Definition dt_timestamp (t : Z) : Z := t / NANOS.
(** The year 10000. *)
Definition MAX_HTTP_DATE : Z := 253402300800 * NANOS.

(** [chrono]: a [DateTime<Utc>] is its number of nanoseconds since the epoch;
    [dt_parse_amz] is [NaiveDateTime::parse_from_str] with the format
    [%Y%m%dT%H%M%SZ], [dt_parse_rfc2822], [dt_parse_rfc850] and
    [dt_parse_asctime] the three HTTP date forms. [dt_format_http] is the format
    [%a, %d %b %Y %H:%M:%S GMT], whose dates between 1970 and 9999 are read back
    to the second, and [dt_format_rfc3339_millis] is [to_rfc3339_opts] with
    milliseconds. *)
Class ChronoLib := {
  dt_parse_amz : str → option Z;
  dt_parse_rfc2822 : str → option Z;
  dt_parse_rfc850 : str → option Z;
  dt_parse_asctime : str → option Z;
  dt_format_http : Z → str;
  dt_format_rfc3339_millis : Z → str;
  dt_format_http_printable : ∀ t, forallb is_printable (dt_format_http t) = true;
  dt_parse_format_http : ∀ t, 0 ≤ t < MAX_HTTP_DATE →
    dt_parse_rfc2822 (dt_format_http t) = Some (dt_timestamp t * NANOS);
}.
(** [Duration::seconds]. *)
Definition dur_seconds (s : Z) : Z := s * NANOS.

(** [axum::body::to_bytes]: a whole body in memory, unless it fails or is longer
    than the limit. *)
Class AxumLib := {
  to_bytes : list (result str bytes) → Z → result str bytes;
  to_bytes_ok : ∀ body limit b,
    to_bytes body limit = Ok b ↔
    ∃ chunks, collect body = Ok chunks ∧ b = concat chunks ∧ len b ≤ limit;
}.

(** [quick_xml::de::from_str] at the type [CompleteMultipartUploadXml] of
    handlers/multipart.rs: the optional part number, a [u16], and the optional
    ETag of every part. *)
Class XmlLib := {
  parts_of_xml : str → result str (list (option Z * option str));
  parts_of_xml_u16 : ∀ s ps n e, parts_of_xml s = Ok ps → (Some n, e) ∈ ps → is_u16 n;
}.

Lemma hm_get_cons `{HttpLib} h n v : hm_get h n = Some v → ∃ l, hm_get_all h n = v :: l.
Proof. rewrite hm_get_spec. destruct (hm_get_all h n); naive_solver. Qed.

Lemma hm_contains_get `{HttpLib} h n : hm_contains_key h n = true ↔ is_Some (hm_get h n).
Proof.
  rewrite hm_contains_key_spec, hm_get_spec.
  destruct (hm_get_all h n); simpl; naive_solver.
Qed.
