(* ===== verification/Reference.v ===== *)
(** * Concrete instances of the external interfaces

    One executable function per operation of [Externals.v], with the laws
    proved: the interfaces are consistent, and the witnesses of the
    development run the components on these functions. They are not declared
    as instances; a witness names the one it uses. *)

From S2P Require Import Prelude RustStd Externals.
From Stdlib Require Import ZArith Lia.
Local Open Scope Z_scope.

(** ** HTTP: an association list, looked up by lowercased name *)

Definition ref_get_all (h : list (str * bytes)) (n : str) : list bytes :=
  (filter (λ p, to_ascii_lowercase p.1 = to_ascii_lowercase n) h).*2.

Definition ref_keys (h : list (str * bytes)) : list str :=
  remove_dups (to_ascii_lowercase ∘ fst <$> h).

Definition ref_to_str (v : bytes) : option str :=
  if forallb is_visible v then Some v else None.

Lemma elem_of_ref_get_all h n v :
  v ∈ ref_get_all h n ↔ ∃ k, (k, v) ∈ h ∧ to_ascii_lowercase k = to_ascii_lowercase n.
Proof.
  unfold ref_get_all. rewrite list_elem_of_fmap. split.
  - intros ([k w] & -> & [? ?]%list_elem_of_filter). eauto.
  - intros (k & Hk & Hl). exists (k, v). split; [done|]. by apply list_elem_of_filter.
Qed.

Lemma elem_of_ref_keys h n :
  n ∈ ref_keys h ↔ ∃ k v, (k, v) ∈ h ∧ n = to_ascii_lowercase k.
Proof.
  unfold ref_keys. rewrite elem_of_remove_dups, list_elem_of_fmap. split.
  - intros ([k v] & -> & ?). eauto.
  - intros (k & v & ? & ->). by exists (k, v).
Qed.

Lemma ref_to_str_id v s : ref_to_str v = Some s → s = v.
Proof. unfold ref_to_str. by destruct (forallb _ _); intros [= ->]. Qed.

Definition ref_header_name (s : str) : option str :=
  if negb (is_empty s) && (len s <? 65536) && forallb is_token_char s
  then Some (to_ascii_lowercase s) else None.

Definition ref_insert (h : list (str * bytes)) (n : str) (v : bytes) : list (str * bytes) :=
  filter (λ p, to_ascii_lowercase p.1 ≠ to_ascii_lowercase n) h ++ [(to_ascii_lowercase n, v)].

Lemma ref_to_str_printable v : forallb is_printable v = true → ref_to_str v = Some v.
Proof.
  unfold ref_to_str. intros Hv. replace (forallb is_visible v) with true; [done|].
  symmetry. rewrite forallb_forall in *. intros c Hc%Hv. revert Hc. by all_bytes c.
Qed.

Lemma ref_insert_spec h n v m :
  ref_get_all (ref_insert h n v) m =
    if str_eqb (to_ascii_lowercase m) (to_ascii_lowercase n) then [v] else ref_get_all h m.
Proof.
  unfold ref_get_all, ref_insert. rewrite filter_app, fmap_app, filter_cons.
  cbn [fst]. rewrite to_ascii_lowercase_idemp. destruct (str_eqb _ _) eqn:E.
  - apply str_eqb_eq in E. rewrite E, decide_True by done.
    induction h as [|[k w] h IH]; [done|]. rewrite (filter_cons _ (k, w) h). case_decide as Hk; [|done].
    rewrite filter_cons. cbn [fst] in *. by rewrite decide_False by done.
  - apply str_eqb_neq in E. rewrite decide_False, app_nil_r by congruence.
    induction h as [|[k w] h IH]; [done|]. rewrite !(filter_cons _ (k, w) h). cbn [fst].
    destruct (decide (to_ascii_lowercase k = to_ascii_lowercase n)) as [Hk|Hk].
    + rewrite (decide_False (P := _ ≠ _)) by naive_solver. rewrite (decide_False (P := _ = _)) by congruence. done.
    + rewrite (decide_True (P := _ ≠ _)) by done. rewrite filter_cons. cbn [fst].
      case_decide; [simpl; f_equal|]; exact IH.
Qed.

Program Definition ref_http : HttpLib := {|
  HeaderMap := list (str * bytes);
  hm_get_all := ref_get_all;
  hm_get h n := head (ref_get_all h n);
  hm_contains_key h n := negb (is_empty (ref_get_all h n));
  hm_keys := ref_keys;
  hm_iter h := (λ p, (to_ascii_lowercase p.1, p.2)) <$> h;
  hv_to_str := ref_to_str;
  hv_from_str := ref_to_str;
  hn_from_str := ref_header_name;
  hm_empty := [];
  hm_append h n v := h ++ [(to_ascii_lowercase n, v)];
  hm_insert := ref_insert;
  invalid_name_msg := "invalid HTTP header name";
  invalid_value_msg := "failed to parse header value";
|}.
Next Obligation. intros h n. unfold ref_get_all. by rewrite to_ascii_lowercase_idemp. Qed.
Next Obligation. done. Qed.
Next Obligation. done. Qed.
Next Obligation.
  intros h n (k & v & Hk & ->)%elem_of_ref_keys Hnil.
  assert (v ∈ ref_get_all h (to_ascii_lowercase k)) as Hv; [|by rewrite Hnil in Hv; inversion Hv].
  apply elem_of_ref_get_all. exists k. by rewrite to_ascii_lowercase_idemp.
Qed.
Next Obligation.
  intros h n Hn. apply elem_of_ref_keys.
  destruct (ref_get_all h n) as [|v l] eqn:E; [done|].
  assert (v ∈ ref_get_all h n) as (k & Hk & Hl)%elem_of_ref_get_all by (rewrite E; left).
  by exists k, v.
Qed.
Next Obligation.
  intros h n (k & v & Hk & ->)%elem_of_ref_keys. apply to_ascii_lowercase_idemp.
Qed.
Next Obligation.
  intros h n v. rewrite list_elem_of_fmap, elem_of_ref_keys, elem_of_ref_get_all. split.
  - intros ([k w] & [= -> ->] & Hk). split; [by exists k, w|].
    exists k. by rewrite to_ascii_lowercase_idemp.
  - intros [(k & w & Hk & ->) (k' & Hk' & Hl)]. rewrite to_ascii_lowercase_idemp in Hl.
    exists (k', v). split; [by rewrite <- Hl|done].
Qed.
Next Obligation.
  intros h n Hn. unfold ref_get_all. rewrite Hn. induction h as [|[k v] h IH]; [done|].
  rewrite fmap_cons, !filter_cons. cbn [fst snd].
  destruct (decide (to_ascii_lowercase k = n)); [simpl; f_equal|]; exact IH.
Qed.
Next Obligation. apply ref_to_str_id. Qed.
Next Obligation.
  intros v s Hs. pose proof (ref_to_str_id _ _ Hs) as ->. unfold ref_to_str in Hs. by destruct (forallb is_visible v).
Qed.
Next Obligation. intros s v Hv. by apply ref_to_str_id in Hv. Qed.
Next Obligation. apply ref_to_str_printable. Qed.
Next Obligation. intros s Hs. unfold ref_to_str. by rewrite Hs. Qed.
Next Obligation. intros s n. unfold ref_header_name. by destruct (_ && _); intros [= ->]. Qed.
Next Obligation.
  intros s Hs Hl Ht. unfold ref_header_name. rewrite Ht, (proj2 (Z.ltb_lt _ _) Hl).
  by destruct s.
Qed.
Next Obligation. done. Qed.
Next Obligation.
  intros h n v m. unfold ref_get_all. rewrite filter_app, fmap_app, filter_cons. cbn [fst].
  rewrite to_ascii_lowercase_idemp. destruct (str_eqb _ _) eqn:E.
  - by rewrite decide_True by (symmetry; by apply str_eqb_eq).
  - apply str_eqb_neq in E. rewrite decide_False by congruence. apply app_nil_r.
Qed.
Next Obligation. apply ref_insert_spec. Qed.

(** ** Codecs *)

Definition ref_hex_byte (c : ascii) : str :=
  [digit_char (byte_val c / 16); digit_char (byte_val c mod 16)].
Definition ref_hex_encode (b : bytes) : str := flat_map ref_hex_byte b.

Fixpoint ref_hex_decode (s : str) : option bytes :=
  match s with
  | [] => Some []
  | a :: b :: t =>
      x ← digit_val 16 a; y ← digit_val 16 b; l ← ref_hex_decode t;
      Some (ascii_of_Z (16 * x + y) :: l)
  | _ => None
  end.

(** Percent sequences become their byte, a malformed one is kept as it is. *)
Fixpoint ref_percent (s : str) : bytes :=
  match s with
  | [] => []
  | c :: t =>
      match t with
      | a :: b :: u =>
          match bool_decide (c = "%"%char), digit_val 16 a, digit_val 16 b with
          | true, Some x, Some y => ascii_of_Z (16 * x + y) :: ref_percent u
          | _, _, _ => c :: ref_percent t
          end
      | _ => c :: ref_percent t
      end
  end.

Lemma ref_hex_byte_decode c t :
  ref_hex_decode (ref_hex_byte c ++ t) = (c ::.) <$> ref_hex_decode t.
Proof.
  unfold ref_hex_byte. simpl. pose proof (byte_val_bounds c).
  pose proof (Z.mod_pos_bound (byte_val c) 16).
  assert (0 ≤ byte_val c / 16 < 16)
    by (split; [apply Z.div_pos; lia|apply Z.div_lt_upper_bound; lia]).
  rewrite !digit_val_char by lia. simpl.
  replace (16 * (byte_val c / 16) + byte_val c mod 16) with (byte_val c)
    by (apply Z.div_mod; lia).
  rewrite ascii_of_byte_val. by destruct (ref_hex_decode t).
Qed.

Lemma ref_percent_cons c t : c ≠ "%"%char → ref_percent (c :: t) = c :: ref_percent t.
Proof.
  intros Hc. destruct t as [|a [|b u]]; [done|done|].
  change (ref_percent (c :: a :: b :: u)) with
    (match bool_decide (c = "%"%char), digit_val 16 a, digit_val 16 b with
     | true, Some x, Some y => ascii_of_Z (16 * x + y) :: ref_percent u
     | _, _, _ => c :: ref_percent (a :: b :: u)
     end).
  by rewrite bool_decide_eq_false_2.
Qed.

Lemma ref_percent_plain s : "%"%char ∉ s → ref_percent s = s.
Proof.
  induction s as [|c s IH]; intros Hs; [done|]. apply not_elem_of_cons in Hs as [Hc Hs].
  rewrite ref_percent_cons by done. by rewrite IH.
Qed.

Lemma is_ascii_hexdigit_val c : is_ascii_hexdigit c = true → ∃ d, digit_val 16 c = Some d.
Proof.
  intros H. assert (bool_decide (is_Some (digit_val 16 c)) = true) as [d Hd]%bool_decide_eq_true;
    [|by exists d]. revert H. all_bytes c.
Qed.

Lemma ref_hex_decode_digits n : ∀ s, length s = (2 * n)%nat →
  forallb is_ascii_hexdigit s = true → ∃ b, ref_hex_decode s = Some b ∧ length b = n.
Proof.
  induction n as [|n IH]; intros [|a [|b s]] Hlen Hs; simpl in *; try lia; [by exists []|].
  apply andb_true_iff in Hs as [Ha Hs], Hs as [Hb Hs].
  destruct (is_ascii_hexdigit_val _ Ha) as [x Hx], (is_ascii_hexdigit_val _ Hb) as [y Hy].
  destruct (IH s) as (l & Hl & Hll); [lia|done|]. rewrite Hx, Hy, Hl. simpl.
  eexists. split; [done|]. simpl. lia.
Qed.

Lemma ref_hex_decode_encode b : ref_hex_decode (ref_hex_encode b) = Some b.
Proof.
  induction b as [|c b IH]; [done|]. unfold ref_hex_encode in *.
  change (flat_map ref_hex_byte (c :: b)) with (ref_hex_byte c ++ flat_map ref_hex_byte b).
  by rewrite ref_hex_byte_decode, IH.
Qed.

Program Definition ref_codec : CodecLib := {|
  hex_encode := ref_hex_encode;
  hex_decode := ref_hex_decode;
  b64_encode := ref_hex_encode;
  b64_decode := ref_hex_decode;
  percent_decode s := from_utf8 (ref_percent s);
|}.
Next Obligation. apply ref_hex_decode_encode. Qed.
Next Obligation. induction b as [|c b IH]; simpl in *; [done|]. rewrite IH. lia. Qed.
Next Obligation.
  induction b as [|c b IH]; [done|]. simpl. rewrite IH, andb_true_r. all_bytes c.
Qed.
Next Obligation. intros. by apply ref_hex_decode_digits. Qed.
Next Obligation. apply ref_hex_decode_encode. Qed.
Next Obligation.
  intros s Hs Hv. simpl. rewrite ref_percent_plain by done. unfold from_utf8. by rewrite Hv.
Qed.

(** ** UUIDs: the canonical strings themselves *)

Definition ref_canonical (s : str) : bool :=
  (length s =? 36)%nat && forallb uuid_char s.
Definition ref_uuid_t : Type := { s : str | Is_true (ref_canonical s) }.

Definition ref_uuid_parse (s : str) : option ref_uuid_t :=
  match decide (Is_true (ref_canonical s)) with
  | left p => Some (exist _ s p)
  | right _ => None
  end.

Program Definition ref_uuid : UuidLib := {|
  Uuid := ref_uuid_t;
  uuid_parse_str := ref_uuid_parse;
  uuid_to_string := proj1_sig;
|}.
Next Obligation.
  intros [s p]. unfold ref_uuid_parse. simpl. destruct (decide _) as [q|]; [|done].
  f_equal. f_equal. apply proof_irrel.
Qed.
Next Obligation.
  intros [s p]. simpl. apply andb_prop_elim in p as [p _].
  apply Is_true_eq_true, Nat.eqb_eq in p. done.
Qed.
Next Obligation. intros [s p]. simpl. apply andb_prop_elim in p as [_ p]. by apply Is_true_eq_true. Qed.

(** ** Hashes: any function of the whole input is an incremental hash *)

Lemma foldl_app_concat (l : bytes) (chunks : list bytes) :
  foldl (λ s c, s ++ c) l chunks = l ++ concat chunks.
Proof.
  revert l. induction chunks as [|c cs IH]; intros l; simpl; [by rewrite app_nil_r|].
  by rewrite IH, (assoc_L (++)).
Qed.

Program Definition hash_of {Out} (f : bytes → Out) : StreamHash Out := {|
  sh_state := bytes;
  sh_new := [];
  sh_update s c := s ++ c;
  sh_finalize := f;
  sh_hash := f;
|}.
Next Obligation. intros Out f chunks. simpl. by rewrite foldl_app_concat. Qed.

Definition ref_sum (b : bytes) : Z := foldr (λ c z, (31 * z + byte_val c + 1) mod 65521) 7 b.
Definition ref_digest (n : nat) (b : bytes) : bytes :=
  let sum := ref_sum b in let step := len b + 3 in
  (λ i, ascii_of_Z ((sum + Z.of_nat i * step) mod 256)) <$> seq 0 n.

Lemma length_ref_digest n b : length (ref_digest n b) = n.
Proof. unfold ref_digest. by rewrite length_fmap, length_seq. Qed.

Program Definition ref_crypto : CryptoLib := {|
  Md5 := hash_of (ref_digest 16);
  Sha1 := hash_of (ref_digest 20);
  Sha256 := hash_of (ref_digest 32);
  Sha512 := hash_of (ref_digest 64);
  CRC32 := hash_of ref_sum;
  CRC32C := hash_of (λ b, ref_sum (b ++ b));
  hmac_sha256_raw k d := Some (ref_digest 32 (k ++ [LF] ++ d));
  ct_eq := str_eqb;
|}.
Next Obligation. intros. apply length_ref_digest. Qed.
Next Obligation. intros k d m [= <-]. apply length_ref_digest. Qed.
Next Obligation. intros a b. apply str_eqb_eq. Qed.

(** ** Dates: fixed positions, every month with 31 days *)

Definition ref_field (s : str) (i n : nat) : option Z :=
  parse_digits 10 u32_max 0 (take n (drop i s)).
Definition ref_parse_amz (s : str) : option Z :=
  if (length s =? 16)%nat && bool_decide (s !! 8%nat = Some "T"%char)
     && bool_decide (s !! 15%nat = Some "Z"%char) then
    y ← ref_field s 0 4; mo ← ref_field s 4 2; d ← ref_field s 6 2;
    h ← ref_field s 9 2; mi ← ref_field s 11 2; sec ← ref_field s 13 2;
    Some (dur_seconds (((((y * 12 + mo) * 31 + d) * 24 + h) * 60 + mi) * 60 + sec))
  else None.

(** HTTP dates as seconds since the epoch. *)
Definition ref_format_http (t : Z) : str := show_u (Z.max 0 (dt_timestamp t)).
Definition ref_parse_http (s : str) : option Z := dur_seconds <$> parse_u64 s.

Program Definition ref_chrono : ChronoLib := {|
  dt_parse_amz := ref_parse_amz;
  dt_parse_rfc2822 := ref_parse_http;
  dt_parse_rfc850 _ := None;
  dt_parse_asctime _ := None;
  dt_format_http := ref_format_http;
  dt_format_rfc3339_millis := ref_format_http;
|}.
Next Obligation.
  intros t. apply forallb_forall. intros c Hc%list_elem_of_In.
  apply show_radix_chars in Hc; [|lia..]. revert Hc. by all_bytes c.
Qed.
Next Obligation.
  intros t Ht. unfold ref_parse_http, ref_format_http.
  assert (0 ≤ dt_timestamp t < 253402300800) as Hs.
  { unfold dt_timestamp, MAX_HTTP_DATE in *. split; [apply Z.div_pos; unfold NANOS; lia|].
    apply Z.div_lt_upper_bound; unfold NANOS in *; lia. }
  rewrite parse_u64_show by (unfold is_u64, u64_max; lia). simpl. unfold dur_seconds. f_equal. f_equal. lia.
Qed.

(** ** Bodies and XML *)

Definition ref_to_bytes (body : list (result str bytes)) (limit : Z) : result str bytes :=
  chunks ← collect body;
  if len (concat chunks) <=? limit then Ok (concat chunks) else Err "length limit exceeded".

Program Definition ref_axum : AxumLib := {| to_bytes := ref_to_bytes |}.
Next Obligation.
  intros body limit b. unfold ref_to_bytes. unfold_result. destruct (collect body) as [chunks|e].
  - destruct (len (concat chunks) <=? limit) eqn:Hl; split.
    + intros [= <-]. exists chunks. split_and!; [done..|lia].
    + by intros (c & [= <-] & -> & ?).
    + done.
    + intros (c & [= <-] & -> & ?). lia.
  - split; [done|]. by intros (? & ? & _).
Qed.

(** A reader of the tags alone: [<Part>] opens a part, [<PartNumber>] and
    [<ETag>] set its fields. *)
Definition ref_tag (ps : result str (list (option Z * option str))) (piece : str)
  : result str (list (option Z * option str)) :=
  ps ← ps;
  match split_once ">"%char piece, ps with
  | None, [] => Ok []
  | None, _ => Err "syntax error"
  | Some (tag, text), ps =>
      if str_eqb tag "Part" then Ok ((None, None) :: ps)
      else if str_eqb tag "PartNumber" then
        match ps, parse_u16 text with
        | (_, e) :: ps, Some n => Ok ((Some n, e) :: ps)
        | _, _ => Err "invalid digit found in string"
        end
      else if str_eqb tag "ETag" then
        match ps with (n, _) :: ps => Ok ((n, Some text) :: ps) | [] => Err "unexpected ETag" end
      else Ok ps
  end.
Definition ref_parts_of_xml (s : str) : result str (list (option Z * option str)) :=
  ps ← foldl ref_tag (Ok []) (split "<"%char s); Ok (rev ps).

Program Definition ref_xml : XmlLib := {| parts_of_xml := ref_parts_of_xml |}.
Next Obligation.
  intros s ps n e. unfold ref_parts_of_xml. unfold_result.
  set (numbers := λ ps : list (option Z * option str), Forall (λ p, ∀ n, p.1 = Some n → is_u16 n) ps).
  assert (∀ pieces r, (∀ l, r = Ok l → numbers l) → ∀ l, foldl ref_tag r pieces = Ok l → numbers l) as Hfold.
  { induction pieces as [|x pieces IH]; intros r Hr; [done|]. apply IH. intros l. unfold ref_tag. unfold_result.
    destruct r as [qs|]; [|done]. specialize (Hr _ eq_refl). unfold numbers in *.
    destruct (split_once _ x) as [[tag text]|]; [|destruct qs; [by intros [= <-]|done]].
    destruct (str_eqb tag "Part"); [intros [= <-]; by constructor|].
    destruct (str_eqb tag "PartNumber").
    { destruct qs as [|[? ?] qs]; [done|]. apply Forall_cons in Hr as [_ Hr].
      destruct (parse_u16 text) as [m|] eqn:Hm; [|done]. intros [= <-]. constructor; [|done].
      simpl. intros ? [= <-]. by apply parse_u16_bounds in Hm. }
    destruct (str_eqb tag "ETag"); [|by intros [= <-]].
    destruct qs as [|[? ?] qs]; [done|]. apply Forall_cons in Hr as [? Hr]. intros [= <-]. by constructor. }
  destruct (foldl _ _ _) as [qs|] eqn:Hq; [|done]. intros [= <-] Hin.
  assert (numbers qs) as Hn.
  { refine (Hfold _ _ _ _ Hq). intros ? [= <-]. constructor. }
  unfold numbers in Hn. rewrite Forall_forall in Hn. refine (Hn (Some n, e) _ n eq_refl).
  apply list_elem_of_In. apply list_elem_of_In in Hin. by apply in_rev.
Qed.
