(* ===== verification/Types.v ===== *)
(** * Validated S3 scalar types (s3/types.rs)

    The newtypes handlers work with after parsing, the operations, and the
    payload hash mode of a request. Parsing is the only way the endpoint
    builds them from a request, so the [*_ok] predicates are type invariants
    of everything downstream. *)

From S2P Require Import Prelude RustStd Externals Reference.
From Stdlib Require Import ZArith Lia.
Local Open Scope Z_scope.

(* @src src/src/s3/types.rs 462-502 DomainError *)
Inductive DomainError :=
| EmptyBucketName
| InvalidBucketName
| EmptyObjectKey
| InvalidObjectKey
| InvalidPartNumber
| InvalidContentLength
| InvalidETag
| InvalidRequestId
| InvalidUploadId
| InvalidPayloadHashMode.

(** The [Display] text of an error, from its [#[error]] attribute. *)
(* @src src/src/s3/types.rs 462-502 DomainError *)
Definition domain_error_msg (e : DomainError) : str :=
  match e with
  | EmptyBucketName => "bucket name must not be empty"
  | InvalidBucketName => "bucket name contains invalid characters"
  | EmptyObjectKey => "object key must not be empty"
  | InvalidObjectKey => "object key contains invalid characters"
  | InvalidPartNumber => "part number must be in the range 1..=10000"
  | InvalidContentLength => "content length must be an integer"
  | InvalidETag => "ETag contains invalid characters"
  | InvalidRequestId => "request ID contains invalid characters"
  | InvalidUploadId => "upload ID must be a canonical lowercase UUID"
  | InvalidPayloadHashMode => "payload hash mode is invalid"
  end.

(* @src src/src/s3/types.rs 8-8 BucketName *)
Record BucketName := mkBucketName { bucket_str : str }.
(* @src src/src/s3/types.rs 46-46 ObjectKey *)
Record ObjectKey := mkObjectKey { key_str : str }.
(* @src src/src/s3/types.rs 78-78 ETag *)
Record ETag := mkETag { etag_str : str }.
(* @src src/src/s3/types.rs 122-122 RequestId *)
Record RequestId := mkRequestId { request_id_str : str }.
(* @src src/src/s3/types.rs 161-161 UploadId *)
Record UploadId := mkUploadId { upload_id_str : str }.
(* @src src/src/s3/types.rs 214-214 ContentLength *)
Record ContentLength := mkContentLength { content_length_get : Z }.
(* @src src/src/s3/types.rs 247-247 PartNumber *)
Record PartNumber := mkPartNumber { part_number_get : Z }.

Global Instance BucketName_eq_dec : EqDecision BucketName.
Proof. solve_decision. Defined.
Global Instance ObjectKey_eq_dec : EqDecision ObjectKey.
Proof. solve_decision. Defined.
Global Instance ETag_eq_dec : EqDecision ETag.
Proof. solve_decision. Defined.
Global Instance RequestId_eq_dec : EqDecision RequestId.
Proof. solve_decision. Defined.
Global Instance UploadId_eq_dec : EqDecision UploadId.
Proof. solve_decision. Defined.
Global Instance PartNumber_eq_dec : EqDecision PartNumber.
Proof. solve_decision. Defined.
Global Program Instance UploadId_countable : Countable UploadId :=
  inj_countable' upload_id_str mkUploadId _.
Next Obligation. by intros []. Qed.

(** [BucketName::parse]'s rejected bytes. *)
Definition bad_bucket_byte (c : ascii) : bool :=
  bool_decide (c = "/"%char) || bool_decide (c = "\"%char) || is_ascii_control c.

(* @src src/src/s3/types.rs 18-30 BucketName::parse *)
Definition parse_bucket (value : str) : result DomainError BucketName :=
  if is_empty value then Err EmptyBucketName
  else if existsb bad_bucket_byte value then Err InvalidBucketName
  else Ok (mkBucketName value).

(* @src src/src/s3/types.rs 53-62 ObjectKey::parse *)
Definition parse_key (value : str) : result DomainError ObjectKey :=
  if is_empty value then Err EmptyObjectKey
  else if existsb is_ascii_control value then Err InvalidObjectKey
  else Ok (mkObjectKey value).

(* @src src/src/s3/types.rs 84-90 ETag::parse *)
Definition parse_etag (value : str) : result DomainError ETag :=
  if is_empty value || existsb is_ascii_control value then Err InvalidETag
  else Ok (mkETag value).

Definition quote : str := ["034"%char].

(* @src src/src/s3/types.rs 96-98 ETag::from_hex_md5 *)
Definition etag_from_hex_md5 (hex_md5 : str) : ETag := mkETag (quote ++ hex_md5 ++ quote).

(* @src src/src/s3/types.rs 104-106 ETag::from_multipart_md5 *)
Definition etag_from_multipart_md5 (hex_md5 : str) (part_count : Z) : ETag :=
  mkETag (quote ++ hex_md5 ++ "-" ++ show_u part_count ++ quote).

(* @src src/src/s3/types.rs 133-139 RequestId::parse *)
Definition parse_request_id (value : str) : result DomainError RequestId :=
  if is_empty value || existsb is_ascii_control value then Err InvalidRequestId
  else Ok (mkRequestId value).

(* @src src/src/s3/types.rs 173-182 UploadId::parse *)
Definition parse_upload_id `{UuidLib} (value : str) : result DomainError UploadId :=
  match uuid_parse_str value with
  | None => Err InvalidUploadId
  | Some uuid =>
      if negb (str_eqb (uuid_to_string uuid) value) then Err InvalidUploadId
      else Ok (mkUploadId value)
  end.

(** [RequestId::new] from a freshly drawn [Uuid::new_v4()]. *)
(* @src src/src/s3/types.rs 126-128 RequestId::new *)
Definition new_request_id `{UuidLib} (fresh : Uuid) : RequestId := mkRequestId (uuid_to_string fresh).

(** [UploadId::new] from a freshly drawn [Uuid::new_v4()]. *)
(* @src src/src/s3/types.rs 165-167 UploadId::new *)
Definition new_upload_id `{UuidLib} (fresh : Uuid) : UploadId :=
  mkUploadId (uuid_to_string fresh).

(* @src src/src/s3/types.rs 237-242 ContentLength::from_str *)
Definition parse_content_length (value : str) : result DomainError ContentLength :=
  z ← ok_or (parse_u64 value) InvalidContentLength;
  Ok (mkContentLength z).

(* @src src/src/s3/types.rs 253-261 PartNumber::parse *)
Definition parse_part_number (value : Z) : result DomainError PartNumber :=
  if value =? 0 then Err InvalidPartNumber
  else if value >? 10000 then Err InvalidPartNumber
  else Ok (mkPartNumber value).

(* @src src/src/s3/types.rs 278-283 PartNumber::from_str *)
Definition part_number_from_str (value : str) : result DomainError PartNumber :=
  z ← ok_or (parse_u16 value) InvalidPartNumber;
  parse_part_number z.

(** ** Actions and operations *)

(* @src src/src/config.rs 1061-1082 S3Action *)
Inductive S3Action :=
| ActPutObject
| ActGetObject
| ActHeadObject
| ActDeleteObject
| ActCreateMultipartUpload
| ActUploadPart
| ActCompleteMultipartUpload
| ActAbortMultipartUpload
| ActListMultipartUploadParts
| ActHeadBucket.

Global Instance S3Action_eq_dec : EqDecision S3Action.
Proof. solve_decision. Defined.

(* @src src/src/s3/types.rs 307-342 S3Operation *)
Inductive S3Operation :=
| PutObject
| CreateMultipartUpload
| UploadPart (upload_id : UploadId) (part_number : PartNumber)
| CompleteMultipartUpload (upload_id : UploadId)
| AbortMultipartUpload (upload_id : UploadId)
| ListParts (upload_id : UploadId)
| HeadBucket
| HeadObject
| GetObject
| DeleteObject.

(* @src src/src/s3/types.rs 346-359 S3Operation::name *)
Definition operation_name (op : S3Operation) : str :=
  match op with
  | PutObject => "PutObject"
  | CreateMultipartUpload => "CreateMultipartUpload"
  | UploadPart _ _ => "UploadPart"
  | CompleteMultipartUpload _ => "CompleteMultipartUpload"
  | AbortMultipartUpload _ => "AbortMultipartUpload"
  | ListParts _ => "ListParts"
  | HeadBucket => "HeadBucket"
  | HeadObject => "HeadObject"
  | GetObject => "GetObject"
  | DeleteObject => "DeleteObject"
  end.

(* @src src/src/s3/types.rs 362-377 S3Operation::action *)
Definition operation_action (op : S3Operation) : S3Action :=
  match op with
  | PutObject => ActPutObject
  | CreateMultipartUpload => ActCreateMultipartUpload
  | UploadPart _ _ => ActUploadPart
  | CompleteMultipartUpload _ => ActCompleteMultipartUpload
  | AbortMultipartUpload _ => ActAbortMultipartUpload
  | ListParts _ => ActListMultipartUploadParts
  | HeadBucket => ActHeadBucket
  | HeadObject => ActHeadObject
  | GetObject => ActGetObject
  | DeleteObject => ActDeleteObject
  end.

(* @src src/src/s3/types.rs 451-458 S3Target *)
Record S3Target := mkTarget {
  target_bucket : BucketName;
  target_key : ObjectKey;
  virtual_hosted : bool;
}.

(** ** Payload hash modes *)

(* @src src/src/s3/types.rs 382-400 PayloadHashMode *)
Inductive PayloadHashMode :=
| PHMissing
| UnsignedPayload
| FixedSha256 (hex : str) (digest : bytes)
| StreamingSignedPayload
| StreamingSignedPayloadTrailer
| StreamingUnsignedPayloadTrailer.

(** Lowercase hexadecimal digits, as the endpoint tests for them. *)
Definition is_lower_hex (c : ascii) : bool := is_ascii_digit c || in_range 97 102 c.

(* @src src/src/s3/types.rs 442-447 is_lowercase_sha256_hex *)
Definition is_lowercase_sha256_hex (value : str) : bool :=
  (len value =? 64) && forallb is_lower_hex value.

(* @src src/src/s3/types.rs 407-425 PayloadHashMode::parse *)
Definition parse_payload_hash_mode `{CodecLib} (value : option str)
  : result DomainError PayloadHashMode :=
  match value with
  | None => Ok PHMissing
  | Some value =>
      if str_eqb value "UNSIGNED-PAYLOAD" then Ok UnsignedPayload
      else if str_eqb value "STREAMING-AWS4-HMAC-SHA256-PAYLOAD" then Ok StreamingSignedPayload
      else if str_eqb value "STREAMING-AWS4-HMAC-SHA256-PAYLOAD-TRAILER"
      then Ok StreamingSignedPayloadTrailer
      else if str_eqb value "STREAMING-UNSIGNED-PAYLOAD-TRAILER"
      then Ok StreamingUnsignedPayloadTrailer
      else if is_lowercase_sha256_hex value then
        digest ← ok_or (hex_decode value) InvalidPayloadHashMode;
        Ok (FixedSha256 value digest)
      else Err InvalidPayloadHashMode
  end.

(* @src src/src/s3/types.rs 428-439 PayloadHashMode::canonical_value *)
Definition canonical_value (m : PayloadHashMode) : option str :=
  match m with
  | PHMissing => None
  | UnsignedPayload => Some "UNSIGNED-PAYLOAD"
  | FixedSha256 hex _ => Some hex
  | StreamingSignedPayload => Some "STREAMING-AWS4-HMAC-SHA256-PAYLOAD"
  | StreamingSignedPayloadTrailer => Some "STREAMING-AWS4-HMAC-SHA256-PAYLOAD-TRAILER"
  | StreamingUnsignedPayloadTrailer => Some "STREAMING-UNSIGNED-PAYLOAD-TRAILER"
  end.

Lemma lower_hex_graphic s : forallb is_lower_hex s = true → forallb is_graphic s = true.
Proof. rewrite !forallb_forall. intros Hs c Hc%Hs. revert Hc. by all_bytes c. Qed.

Lemma lower_hex_fresh c s : forallb is_lower_hex s = true → is_lower_hex c = false → c ∉ s.
Proof. rewrite forallb_forall. intros Hs Hc Hin%list_elem_of_In%Hs. congruence. Qed.

(** ** Type invariants *)

Definition no_control (s : str) : Prop := Forall (λ c, is_ascii_control c = false) s.
Definition bucket_ok (b : BucketName) : Prop :=
  bucket_str b ≠ [] ∧ no_control (bucket_str b) ∧
  "/"%char ∉ bucket_str b ∧ "\"%char ∉ bucket_str b.
Definition key_ok (k : ObjectKey) : Prop := key_str k ≠ [] ∧ no_control (key_str k).
Definition part_number_ok (p : PartNumber) : Prop := 1 ≤ part_number_get p ≤ 10000.
Definition upload_id_ok (u : UploadId) : Prop :=
  length (upload_id_str u) = 36%nat ∧ forallb uuid_char (upload_id_str u) = true.

Lemma existsb_false_Forall {A} (f : A → bool) (l : list A) :
  existsb f l = false ↔ Forall (λ x, f x = false) l.
Proof.
  induction l as [|x l IH]; simpl; [split; [constructor|done]|].
  rewrite orb_false_iff, Forall_cons. by rewrite IH.
Qed.

Lemma no_control_app s t : no_control (s ++ t) ↔ no_control s ∧ no_control t.
Proof. apply Forall_app. Qed.

Lemma Forall_neq_not_elem {A} `{EqDecision A} (c : A) (s : list A) :
  Forall (λ x, bool_decide (x = c) = false) s ↔ c ∉ s.
Proof.
  rewrite Forall_forall. setoid_rewrite bool_decide_eq_false. split.
  - intros H Hc. by apply (H c).
  - intros H x Hx ->. done.
Qed.

Lemma bad_bucket_byte_spec s :
  existsb bad_bucket_byte s = false ↔
  no_control s ∧ "/"%char ∉ s ∧ "\"%char ∉ s.
Proof.
  rewrite existsb_false_Forall. unfold no_control.
  rewrite <- (Forall_neq_not_elem "/"%char), <- (Forall_neq_not_elem "\"%char).
  rewrite <- !Forall_and. apply Forall_iff. intros c. unfold bad_bucket_byte.
  rewrite !orb_false_iff. tauto.
Qed.

Lemma parse_bucket_ok s b : parse_bucket s = Ok b ↔ b = mkBucketName s ∧ bucket_ok b.
Proof.
  unfold parse_bucket, bucket_ok. destruct s as [|c s]; simpl is_empty.
  - split; [done|]. intros [-> (? & _)]. done.
  - pose proof (bad_bucket_byte_spec (c :: s)).
    destruct (existsb bad_bucket_byte (c :: s)); naive_solver.
Qed.

Lemma parse_key_ok s k : parse_key s = Ok k ↔ k = mkObjectKey s ∧ key_ok k.
Proof.
  unfold parse_key, key_ok, no_control. destruct s as [|c s]; simpl is_empty.
  - split; [done|]. intros [-> (? & _)]. done.
  - pose proof (existsb_false_Forall is_ascii_control (c :: s)).
    destruct (existsb is_ascii_control (c :: s)); naive_solver.
Qed.

Lemma parse_part_number_ok z p :
  parse_part_number z = Ok p ↔ p = mkPartNumber z ∧ (z < 0 ∨ part_number_ok p).
Proof.
  unfold parse_part_number, part_number_ok.
  destruct (Z.eqb_spec z 0) as [->|]; [split; [done|]; intros [-> Hp]; simpl in Hp; lia|].
  rewrite Z.gtb_ltb. destruct (Z.ltb_spec 10000 z).
  - split; [done|]. intros [-> Hp]; simpl in Hp; lia.
  - split; [intros [= <-]; simpl; split; [done|lia]|]. by intros [-> _].
Qed.

(** A part number read from a string is in the S3 range. *)
Lemma part_number_from_str_ok s p : part_number_from_str s = Ok p → part_number_ok p.
Proof.
  unfold part_number_from_str. intros H. unfold_result.
  destruct (parse_u16 s) as [z|] eqn:Hz; [|done].
  apply parse_u16_bounds in Hz. unfold is_u16 in Hz.
  apply parse_part_number_ok in H as [-> [?|?]]; [lia|done].
Qed.

Lemma parse_upload_id_ok `{UuidLib} s u :
  parse_upload_id s = Ok u → u = mkUploadId s ∧ upload_id_ok u.
Proof.
  unfold parse_upload_id. destruct (uuid_parse_str s) as [x|]; [|done].
  destruct (str_eqb (uuid_to_string x) s) eqn:E; [|done]. intros [= <-].
  apply str_eqb_eq in E as <-. split; [done|].
  split; [apply uuid_to_string_length|apply uuid_to_string_chars].
Qed.

Lemma uuid_char_safe c : uuid_char c = true →
  c ≠ "/"%char ∧ c ≠ "\"%char ∧ c ≠ "."%char ∧ is_ascii_control c = false.
Proof. intros H. assert (uuid_char c = true → is_ascii_control c = false) by all_bytes c.
  split_and!; [intros ->..|]; [by vm_compute in H..|]; auto. Qed.

Lemma parse_payload_hash_mode_ok `{CodecLib} v m :
  parse_payload_hash_mode (Some v) = Ok m → canonical_value m = Some v.
Proof.
  unfold parse_payload_hash_mode. intros H1. unfold_result.
  repeat (case_match_in H1; simplify_eq/=; try done);
    repeat match goal with H : str_eqb _ _ = true |- _ => apply str_eqb_eq in H; subst end; done.
Qed.

(** ** Claims *)

(** The bucket and key validators accept exactly the intended strings. A
    bucket name is accepted iff it is non-empty and has no slash, backslash or
    ASCII control byte; an object key iff it is non-empty and has no ASCII
    control byte (slashes are kept); both return the string unchanged. *)
Theorem bucket_and_key_validation (s : str) :
  (∀ b, parse_bucket s = Ok b ↔
     b = mkBucketName s ∧ s ≠ [] ∧ no_control s ∧ "/"%char ∉ s ∧ "\"%char ∉ s) ∧
  (∀ k, parse_key s = Ok k ↔ k = mkObjectKey s ∧ s ≠ [] ∧ no_control s).
Proof.
  split; intros x; [rewrite parse_bucket_ok|rewrite parse_key_ok];
    unfold bucket_ok, key_ok; naive_solver.
Qed.

(** Upload identifiers are safe path segments and round-trip. Every
    identifier the parser accepts is the 36-character canonical form, has no
    slash, backslash, dot or control byte (so joining it to the storage root
    stays inside the root), and is returned unchanged; every identifier the
    endpoint mints is accepted back by the parser. *)
Theorem upload_id_path_safe `{UuidLib} :
  (∀ s u, parse_upload_id s = Ok u →
     upload_id_str u = s ∧ length s = 36%nat ∧
     Forall (λ c, c ≠ "/"%char ∧ c ≠ "\"%char ∧ c ≠ "."%char ∧ is_ascii_control c = false) s) ∧
  (∀ fresh, parse_upload_id (upload_id_str (new_upload_id fresh)) = Ok (new_upload_id fresh)).
Proof.
  split.
  - intros s u [-> [Hlen Hch]]%parse_upload_id_ok. split_and!; [done|done|].
    apply Is_true_eq_left, forallb_True in Hch. eapply Forall_impl; [exact Hch|].
    intros c Hc. by apply uuid_char_safe, Is_true_eq_true.
  - intros fresh. unfold parse_upload_id, new_upload_id. simpl.
    by rewrite uuid_parse_to_string, str_eqb_refl.
Qed.

(** Part numbers are exactly 1..=10000. A decimal string of a 16-bit
    number is accepted iff the number is in the S3 range, the accepted value
    is that number, and nothing outside the range is ever accepted. *)
Theorem part_number_range :
  (∀ s p, part_number_from_str s = Ok p → 1 ≤ part_number_get p ≤ 10000) ∧
  (∀ z, is_u16 z →
     part_number_from_str (show_u z) =
       if (1 <=? z) && (z <=? 10000) then Ok (mkPartNumber z) else Err InvalidPartNumber).
Proof.
  split; [apply part_number_from_str_ok|]. intros z Hz.
  unfold part_number_from_str, parse_part_number. unfold_result.
  unfold parse_u16. rewrite from_str_radix_show by (unfold is_u16 in Hz; lia).
  unfold is_u16 in Hz. destruct (Z.eqb_spec z 0) as [->|]; [done|].
  rewrite Z.gtb_ltb, Z.leb_antisym. rewrite (proj2 (Z.ltb_ge z 1)) by lia. simpl.
  rewrite Z.leb_antisym. by destruct (10000 <? z).
Qed.

(** The payload hash mode determines its header value. The canonical value
    of a parsed mode, which goes into the string to sign, is the header text;
    a fixed digest is exactly the 64 lowercase hexadecimal digits with their
    32 decoded bytes, and every such text is accepted. *)
Theorem payload_hash_mode_roundtrip `{CodecLib} (v : str) :
  (∀ m, parse_payload_hash_mode (Some v) = Ok m → canonical_value m = Some v) ∧
  (is_lowercase_sha256_hex v = true →
     ∃ d, parse_payload_hash_mode (Some v) = Ok (FixedSha256 v d) ∧
          hex_decode v = Some d ∧ length d = 32%nat).
Proof.
  split; [apply parse_payload_hash_mode_ok|]. intros Hv.
  pose proof Hv as Hv'. unfold is_lowercase_sha256_hex, len in Hv'.
  apply andb_true_iff in Hv' as [Hlen%Z.eqb_eq Hhex].
  destruct (hex_decode_digits v 32) as (d & Hd & Hdl); [lia| |].
  { apply forallb_forall. intros c Hc. rewrite forallb_forall in Hhex.
    specialize (Hhex c Hc). unfold is_lower_hex in Hhex. unfold is_ascii_hexdigit.
    apply orb_true_iff in Hhex as [->| ->]; [done|apply orb_true_r]. }
  exists d. split_and!; [|done|done]. unfold parse_payload_hash_mode.
  rewrite Hv. unfold_result. rewrite Hd.
  repeat case_match; try done;
    match goal with H : str_eqb _ _ = true |- _ => apply str_eqb_eq in H; subst end;
    by vm_compute in Hlen.
Qed.

(** ** Witnesses *)

Definition sample_upload_id : str := "550e8400-e29b-41d4-a716-446655440000".

Lemma upload_id_path_safe_witness :
  @parse_upload_id ref_uuid sample_upload_id = Ok (mkUploadId sample_upload_id) ∧
  @parse_upload_id ref_uuid "../outside" = Err InvalidUploadId ∧
  "/"%char ∉ sample_upload_id.
Proof.
  assert (@parse_upload_id ref_uuid sample_upload_id = Ok (mkUploadId sample_upload_id)) as Hp
    by (vm_compute; reflexivity).
  split; [exact Hp|]. split; [vm_compute; reflexivity|].
  destruct (@upload_id_path_safe ref_uuid) as [Hsafe _].
  destruct (Hsafe _ _ Hp) as (_ & _ & Hall).
  intros Hin. rewrite Forall_forall in Hall. destruct (Hall _ Hin) as [Hne _]. by apply Hne.
Defined.

Definition sample_hash : str :=
  "e3b0c44298fc1c149afbf4c8996fb92427ae41e4649b934ca495991b7852b855".

Lemma payload_hash_mode_roundtrip_witness :
  ∃ d, @parse_payload_hash_mode ref_codec (Some sample_hash) = Ok (FixedSha256 sample_hash d) ∧
       length d = 32%nat.
Proof.
  destruct (@payload_hash_mode_roundtrip ref_codec sample_hash) as [_ Hfix].
  destruct (Hfix eq_refl) as (d & Hd & _ & Hlen). exists d. split; [exact Hd|exact Hlen].
Defined.
