(* ===== verification/Http.v ===== *)
(** * Responses (error.rs, handlers/s3.rs, handlers/multipart.rs)

    The response a handler returns, the builder it is made with, the response
    of an error, and the operations on responses the handlers share. Header
    names in this file are lowercase, as [http::HeaderName] keeps them. *)

From S2P Require Import Prelude RustStd BTree S3Error Externals Types.
From Stdlib Require Import ZArith Lia.
Local Open Scope Z_scope.

(** A body is the chunks it delivers; an error ends it. *)
Abbreviation Body := (list (result str bytes)).

(** [rs_decoded] is the extension [DecodedBodyBytes] of handlers/s3.rs. *)
Record Response `{HttpLib} := mkResponse {
  rs_status : Z;
  rs_headers : HeaderMap;
  rs_body : Body;
  rs_decoded : option Z;
}.
Arguments mkResponse {_} rs_status rs_headers rs_body rs_decoded.

Section http.
Context `{HttpLib}.

(** ** [http::response::Builder]: the first invalid header makes it fail *)

Definition Builder : Type := result str (Z * HeaderMap).

Definition builder (status : Z) : Builder := Ok (status, hm_empty).

(** [.header(name, value)] with a name that is already a [HeaderName]. *)
Definition header (name value : str) (b : Builder) : Builder :=
  '(status, headers) ← b;
  value ← ok_or (hv_from_str value) invalid_value_msg;
  Ok (status, hm_append headers name value).

(** [.header(name, value)] with a name that is a string. *)
Definition header_named (name value : str) (b : Builder) : Builder :=
  '(status, headers) ← b;
  name ← ok_or (hn_from_str name) invalid_name_msg;
  value ← ok_or (hv_from_str value) invalid_value_msg;
  Ok (status, hm_append headers name value).

(** [if let Some(value) = value { response = response.header(name, value); }] *)
Definition header_opt (name : str) (value : option str) (b : Builder) : Builder :=
  match value with Some value => header name value b | None => b end.

(** [for (name, value) in values { response = response.header(name, value); }] *)
Definition header_each (values : list (str * str)) (b : Builder) : Builder :=
  foldl (λ b '(name, value), header_named name value b) b values.

(** [.body(body)], with the error the handlers make of a failed builder. *)
Definition finish_response (body : Body) (b : Builder) : result S3Error Response :=
  '(status, headers) ← map_err (λ err, internal ("failed to build response: " ++ err)) b;
  Ok (mkResponse status headers body None).

Definition empty_body : Body := [].
Definition body_from (b : bytes) : Body := [Ok b].

(** ** Operations on responses *)

(* @src src/src/handlers/s3.rs 221-224 record_decoded_body_bytes *)
Definition record_decoded_body_bytes (r : Response) (decoded : Z) : Response :=
  mkResponse (rs_status r) (rs_headers r) (rs_body r) (Some decoded).

(** [StatusCode::is_success]. *)
Definition is_success (status : Z) : bool := (200 <=? status) && (status <=? 299).

(* @src src/src/handlers/s3.rs 197-205 without_head_response_body *)
Definition without_head_response_body (r : Response) : Response :=
  let headers := if negb (is_success (rs_status r))
                 then hm_insert (rs_headers r) "content-length" "0" else rs_headers r in
  mkResponse (rs_status r) headers empty_body (rs_decoded r).

Definition XML_TYPE : str := "application/xml; charset=utf-8".

(** [(status, String).into_response()] is axum's plain text response. *)
(* @src src/src/error.rs 205-218 S3Error::into_response_with_request_id *)
Definition into_response_with_request_id (e : S3Error) (id : RequestId) : Response :=
  let headers := hm_insert (hm_append hm_empty "content-type" "text/plain; charset=utf-8")
                   "content-type" XML_TYPE in
  let headers := foldl (λ h '(name, value), hm_insert h name value) headers (err_headers e) in
  let headers := match hv_from_str (request_id_str id) with
                 | Some value => hm_insert headers "x-amz-request-id" value
                 | None => headers
                 end in
  mkResponse (err_status e) headers (body_from (to_xml e (request_id_str id))) None.

(* @src src/src/handlers/multipart.rs 587-598 xml_response *)
Definition xml_response (status : Z) (id : RequestId) (body : str) : result S3Error Response :=
  finish_response (body_from body)
    (header_named "x-amz-request-id" (request_id_str id)
      (header "content-type" XML_TYPE (builder status))).

(** ** Facts *)

(** The values a list of fields gives to a name. *)
Definition field_values (fields : list (str * str)) (name : str) : list bytes :=
  (filter (λ f, to_ascii_lowercase f.1 = to_ascii_lowercase name) fields).*2.

Definition printable (s : str) : Prop := forallb is_printable s = true.
Definition header_name_ok (s : str) : Prop :=
  s ≠ [] ∧ len s < 65536 ∧ forallb is_token_char s = true.

Lemma header_printable name value st h :
  printable value → header name value (Ok (st, h)) = Ok (st, hm_append h name value).
Proof. intros Hv. unfold header. unfold_result. by rewrite hv_from_str_printable. Qed.

Lemma header_named_printable name value st h :
  header_name_ok name → printable value →
  header_named name value (Ok (st, h)) = Ok (st, hm_append h (to_ascii_lowercase name) value).
Proof.
  intros (Hn & Hl & Ht) Hv. unfold header_named. unfold_result.
  by rewrite hn_from_str_token, hv_from_str_printable.
Qed.

Lemma hm_append_all h name value n :
  hm_get_all (hm_append h name value) n = hm_get_all h n ++ field_values [(name, value)] n.
Proof.
  rewrite hm_append_spec. unfold field_values. rewrite filter_cons. cbn [fst].
  destruct (str_eqb _ _) eqn:E.
  - by rewrite decide_True by (symmetry; by apply str_eqb_eq).
  - apply str_eqb_neq in E. rewrite decide_False by congruence. by rewrite app_nil_r.
Qed.

Lemma field_values_cons f fields n :
  field_values (f :: fields) n = field_values [f] n ++ field_values fields n.
Proof. unfold field_values. rewrite !filter_cons. by case_decide. Qed.

(** A builder that succeeds has every field it was given. *)
Lemma header_fields fields : ∀ (st : Z) h,
  Forall (λ f, header_name_ok f.1 ∧ printable f.2) fields →
  ∃ h', header_each fields (Ok (st, h)) = Ok (st, h') ∧
    ∀ n, hm_get_all h' n = hm_get_all h n ++ field_values fields n.
Proof.
  induction fields as [|[name value] fields IH]; intros st h Hf.
  { exists h. split; [done|]. intros n. by rewrite app_nil_r. }
  apply Forall_cons in Hf as [[Hn Hv] Hf]. cbn [fst snd] in *.
  unfold header_each. cbn [foldl]. rewrite header_named_printable by done.
  destruct (IH st (hm_append h (to_ascii_lowercase name) value) Hf) as (h' & Hb & Hh).
  exists h'. split; [done|]. intros n. rewrite Hh, hm_append_all, (field_values_cons (name, value) fields), <- app_assoc.
  f_equal. f_equal. unfold field_values. rewrite !filter_cons. cbn [fst].
  rewrite to_ascii_lowercase_idemp. by case_decide.
Qed.

Lemma field_values_step name v fields n :
  field_values ((name, v) :: fields) n =
    if str_eqb (to_ascii_lowercase name) (to_ascii_lowercase n)
    then v :: field_values fields n else field_values fields n.
Proof.
  unfold field_values. rewrite filter_cons. cbn [fst]. unfold str_eqb.
  destruct (decide _) as [E|E]; [by rewrite bool_decide_eq_true_2|by rewrite bool_decide_eq_false_2].
Qed.

Lemma field_values_app fields fields' n :
  field_values (fields ++ fields') n = field_values fields n ++ field_values fields' n.
Proof. unfold field_values. by rewrite filter_app, fmap_app. Qed.

(** A field whose name and value a message can carry. *)
Definition value_ok (v : str) : Prop := is_Some (hv_from_str v).
Definition field_ok (f : str * str) : Prop := is_Some (hn_from_str f.1) ∧ value_ok f.2.

(** [built b st fields]: the builder has the status [st] and exactly the fields, in
    their order; it fails only when one of them is not a header field. *)
Definition built (b : Builder) (status : Z) (fields : list (str * str)) : Prop :=
  match b with
  | Ok (st, h) => st = status ∧ ∀ n, hm_get_all h n = field_values fields n
  | Err _ => ¬ Forall field_ok fields
  end.

Lemma built_builder st : built (builder st) st [].
Proof. split; [done|]. apply hm_empty_spec. Qed.

Lemma built_header b st fields name value :
  built b st fields → built (header name value b) st (fields ++ [(name, value)]).
Proof.
  intros Hb. unfold header. unfold_result. destruct b as [[st0 h]|]; simpl in *; [|by intros [? _]%Forall_app].
  destruct (hv_from_str value) as [v|] eqn:Hv; simpl.
  - apply hv_from_str_id in Hv as ->. destruct Hb as [-> Hh]. split; [done|]. intros n.
    by rewrite hm_append_all, Hh, field_values_app.
  - intros [_ [_ Hok]%Forall_singleton]%Forall_app. simpl in Hok. unfold value_ok in Hok. rewrite Hv in Hok. by destruct Hok.
Qed.

Lemma built_header_named b st fields name value :
  built b st fields → built (header_named name value b) st (fields ++ [(name, value)]).
Proof.
  intros Hb. unfold header_named. unfold_result. destruct b as [[st0 h]|]; simpl in *; [|by intros [? _]%Forall_app].
  destruct (hn_from_str name) as [nm|] eqn:Hn; simpl.
  2: { intros [_ [[? Hok] _]%Forall_singleton]%Forall_app. simpl in Hok. congruence. }
  apply hn_from_str_lower in Hn as ->. destruct (hv_from_str value) as [v|] eqn:Hv; simpl.
  - apply hv_from_str_id in Hv as ->. destruct Hb as [-> Hh]. split; [done|]. intros n.
    rewrite hm_append_all, Hh, field_values_app, !field_values_step. by rewrite to_ascii_lowercase_idemp.
  - intros [_ [_ [? Hok]]%Forall_singleton]%Forall_app. simpl in Hok. congruence.
Qed.

Definition opt_field (name : str) (value : option str) : list (str * str) :=
  match value with Some v => [(name, v)] | None => [] end.

Lemma built_header_opt b st fields name value :
  built b st fields → built (header_opt name value b) st (fields ++ opt_field name value).
Proof. intros Hb. destruct value; simpl; [by apply built_header|by rewrite app_nil_r]. Qed.

Lemma built_header_each b st fields values :
  built b st fields → built (header_each values b) st (fields ++ values).
Proof.
  revert b fields. induction values as [|[n v] values IH]; intros b fields Hb; [by rewrite app_nil_r|].
  rewrite cons_middle, (app_assoc fields). apply (IH (header_named n v b)). by apply built_header_named.
Qed.

(** [answers res st fields body]: an answer of the status [st] with exactly the
    fields, in their order, and the body; instead of it an error, when one of the
    fields is not a header field. *)
Definition answers (res : result S3Error Response) (st : Z) (fields : list (str * str)) (body : Body)
    (decoded : option Z) : Prop :=
  match res with
  | Ok r => rs_status r = st ∧ (∀ n, hm_get_all (rs_headers r) n = field_values fields n) ∧
            rs_body r = body ∧ rs_decoded r = decoded
  | Err e => ¬ Forall field_ok fields ∧ ∃ msg, e = internal ("failed to build response: " ++ msg)
  end.

Lemma finish_response_answers body b st fields :
  built b st fields → answers (finish_response body b) st fields body None.
Proof.
  intros Hb. unfold finish_response. unfold_result. destruct b as [[st0 h]|msg]; simpl.
  - destruct Hb as [-> Hh]. done.
  - split; [done|]. by exists msg.
Qed.

(** A response that was built. *)
Lemma finish_response_ok body b r st fields :
  built b st fields → finish_response body b = Ok r →
  rs_status r = st ∧ rs_body r = body ∧ rs_decoded r = None ∧
  ∀ n, hm_get_all (rs_headers r) n = field_values fields n.
Proof.
  intros Hb Hf. pose proof (finish_response_answers body b st fields Hb) as Ha. rewrite Hf in Ha.
  by destruct Ha as (? & ? & ? & ?).
Qed.
End http.

(** Evaluates [field_values] at a literal name on the fields whose names are
    literals. *)
Ltac eval_fields :=
  repeat (rewrite field_values_step;
    lazymatch goal with
    | |- context [str_eqb ?a ?b] =>
        let r := eval vm_compute in (str_eqb a b) in change (str_eqb a b) with r; cbv iota
    end).
