(* ===== verification/Target.v ===== *)
(** * Bucket and key resolution (s3/target.rs)

    A request names its bucket either as the first path segment or as the
    prefix of its host. The resolver percent-decodes after splitting the raw
    path, and validates after decoding. *)

From S2P Require Import Prelude RustStd Externals Reference Types.
From Stdlib Require Import ZArith Lia.

(* @src src/src/s3/target.rs 121-139 TargetError *)
Inductive TargetError :=
| MissingBucket
| MissingKey
| InvalidPercentEncoding
| InvalidDomain (e : DomainError).

(* @src src/src/s3/target.rs 121-139 TargetError *)
Definition target_error_msg (e : TargetError) : str :=
  match e with
  | MissingBucket => "request path must include bucket"
  | MissingKey => "request path must include bucket and key"
  | InvalidPercentEncoding => "path contains invalid percent-encoded UTF-8"
  | InvalidDomain d => "invalid target: " ++ domain_error_msg d
  end.

(** [path.strip_prefix('/').unwrap_or(path)]. *)
(* @src src/src/s3/target.rs 44-44 resolve_s3_target *)
Definition strip_slash (path : str) : str :=
  match strip_prefix "/" path with Some p => p | None => path end.

(** [s.split_once(c).map_or(s, |(head, _)| head)]. *)
(* @src src/src/s3/target.rs 94-97 virtual_host_bucket *)
Definition before (c : ascii) (s : str) : str :=
  match split_once c s with Some (a, _) => a | None => s end.

(* @src src/src/s3/target.rs 93-105 virtual_host_bucket *)
Definition virtual_host_bucket (host base_domain : str) : option str :=
  let host_without_port := before ":"%char host in
  let base_without_port := before ":"%char base_domain in
  let host_lower := to_ascii_lowercase host_without_port in
  let suffix := "." ++ to_ascii_lowercase base_without_port in
  bucket_len ← length <$> strip_suffix suffix host_lower;
  let bucket := take bucket_len host_without_port in
  if is_empty bucket then None else Some bucket.

(* @src src/src/s3/target.rs 110-112 has_virtual_hosted_bucket *)
Definition has_virtual_hosted_bucket (host base_domain : str) : bool :=
  match virtual_host_bucket host base_domain with Some _ => true | None => false end.

(** The [if let] chain both resolvers start with. *)
(* @src src/src/s3/target.rs 41-43 resolve_s3_target *)
Definition hosted_bucket (host base : option str) : option str :=
  h ← host; b ← base; virtual_host_bucket h b.

Section Resolve.
Context `{CodecLib}.

(* @src src/src/s3/target.rs 114-119 percent_decode *)
Definition percent_decode_target (value : str) : result TargetError str :=
  ok_or (percent_decode value) InvalidPercentEncoding.

(* @src src/src/s3/target.rs 45-46 resolve_s3_target *)
Definition decode_bucket (s : str) : result TargetError BucketName :=
  v ← percent_decode_target s; map_err InvalidDomain (parse_bucket v).
(* @src src/src/s3/target.rs 47-47 resolve_s3_target *)
Definition decode_key (s : str) : result TargetError ObjectKey :=
  v ← percent_decode_target s; map_err InvalidDomain (parse_key v).

(* @src src/src/s3/target.rs 58-71 resolve_path_style_bucket *)
Definition resolve_path_style_bucket (path : str) : result TargetError BucketName :=
  let path := strip_slash path in
  if is_empty path then Err MissingBucket
  else match split_once "/"%char path with
       | Some (bucket, []) => decode_bucket bucket
       | Some _ => Err MissingKey
       | None => decode_bucket path
       end.

(* @src src/src/s3/target.rs 77-91 resolve_path_style *)
Definition resolve_path_style (path : str) : result TargetError S3Target :=
  let path := strip_slash path in
  match split_once "/"%char path with
  | None => Err MissingKey
  | Some (bucket, key) =>
      bucket ← decode_bucket bucket;
      key ← decode_key key;
      Ok {| target_bucket := bucket; target_key := key; virtual_hosted := false |}
  end.

(* @src src/src/s3/target.rs 12-28 resolve_bucket_name *)
Definition resolve_bucket_name (path : str) (host base : option str)
  : result TargetError BucketName :=
  match hosted_bucket host base with
  | Some bucket =>
      if negb (is_empty (strip_slash path)) then Err MissingKey
      else decode_bucket bucket
  | None => resolve_path_style_bucket path
  end.

(* @src src/src/s3/target.rs 36-56 resolve_s3_target *)
Definition resolve_s3_target (path : str) (host base : option str)
  : result TargetError S3Target :=
  match hosted_bucket host base with
  | Some bucket =>
      let key := strip_slash path in
      bucket ← decode_bucket bucket;
      key ← decode_key key;
      Ok {| target_bucket := bucket; target_key := key; virtual_hosted := true |}
  | None => resolve_path_style path
  end.

(** ** Lemmas *)

Definition target_ok (t : S3Target) : Prop :=
  bucket_ok (target_bucket t) ∧ key_ok (target_key t).

Lemma decode_bucket_ok s b : decode_bucket s = Ok b → bucket_ok b.
Proof.
  unfold decode_bucket, percent_decode_target. intros Hb. unfold_result.
  destruct (percent_decode s) as [v|]; [|done]. destruct (parse_bucket v) eqn:E; simplify_eq.
  by apply parse_bucket_ok in E as [_ ?].
Qed.

Lemma decode_key_ok s k : decode_key s = Ok k → key_ok k.
Proof.
  unfold decode_key, percent_decode_target. intros Hk. unfold_result.
  destruct (percent_decode s) as [v|]; [|done]. destruct (parse_key v) eqn:E; simplify_eq.
  by apply parse_key_ok in E as [_ ?].
Qed.

Lemma strip_slash_cons path : strip_slash ("/"%char :: path) = path.
Proof. unfold strip_slash. by rewrite (proj2 (strip_prefix_Some "/" _ path)). Qed.

Lemma before_fresh c s : c ∉ s → before c s = s.
Proof. intros Hc. unfold before. by rewrite (proj2 (split_once_None c s)). Qed.

Lemma before_app c s t : c ∉ s → before c (s ++ c :: t) = s.
Proof. intros Hc. unfold before. by rewrite split_once_app. Qed.

(** A host [bucket] + [.domain] (in any case) + optional port yields the
    bucket with its case preserved. *)
Lemma virtual_host_bucket_some bucket dot port base :
  bucket ≠ [] → ":"%char ∉ bucket → ":"%char ∉ dot →
  to_ascii_lowercase dot = "." ++ to_ascii_lowercase (before ":"%char base) →
  (port = [] ∨ ∃ p, port = ":"%char :: p) →
  virtual_host_bucket (bucket ++ dot ++ port) base = Some bucket.
Proof.
  intros Hne Hcb Hcd Hdot Hport. unfold virtual_host_bucket.
  assert (before ":"%char (bucket ++ dot ++ port) = bucket ++ dot) as ->.
  { assert (":"%char ∉ bucket ++ dot) by (rewrite elem_of_app; tauto).
    destruct Hport as [->|[p ->]].
    - rewrite app_nil_r. by apply before_fresh.
    - rewrite (assoc_L (++)). by apply before_app. }
  rewrite <- Hdot. unfold to_ascii_lowercase at 2. rewrite map_app.
  fold (to_ascii_lowercase bucket) (to_ascii_lowercase dot).
  rewrite (proj2 (strip_suffix_Some _ _ (to_ascii_lowercase bucket))) by done.
  simpl. rewrite length_to_ascii_lowercase, take_app_length. by destruct bucket.
Qed.

Lemma virtual_host_bucket_sound host base bucket :
  virtual_host_bucket host base = Some bucket →
  bucket ≠ [] ∧
  to_ascii_lowercase (before ":"%char host) =
    to_ascii_lowercase bucket ++ "." ++ to_ascii_lowercase (before ":"%char base).
Proof.
  unfold virtual_host_bucket. set (h := before ":"%char host).
  destruct (strip_suffix _ (to_ascii_lowercase h)) as [l|] eqn:E; simpl; [|done].
  apply strip_suffix_Some in E. intros Hb.
  destruct (is_empty (take (length l) h)) eqn:He; [done|]. injection Hb as <-.
  split; [by destruct (take (length l) h)|]. rewrite E. f_equal.
  unfold to_ascii_lowercase in *. rewrite <- firstn_map, E. by rewrite take_app_length.
Qed.

(** ** Claims *)

(* @prop type 40 : resolve_s3_target resolve_bucket_name resolve_path_style virtual_host_bucket *)
(** C40: whatever path and host a client sends, a target the resolver returns
    satisfies the type invariants that the stores rely on: the bucket is
    non-empty and free of slashes, backslashes and control bytes, and the key
    is non-empty and free of control bytes, after percent-decoding. *)
Theorem resolved_target_valid (path : str) (host base : option str) :
  (∀ t, resolve_s3_target path host base = Ok t → target_ok t) ∧
  (∀ b, resolve_bucket_name path host base = Ok b → bucket_ok b).
Proof.
  split.
  - intros t. unfold resolve_s3_target, resolve_path_style, target_ok. intros Ht. unfold_result.
    destruct (hosted_bucket host base) as [hb|].
    + destruct (decode_bucket hb) eqn:Eb; [|done].
      destruct (decode_key _) eqn:Ek; simplify_eq/=.
      split; [by eapply decode_bucket_ok|by eapply decode_key_ok].
    + destruct (split_once _ _) as [[b k]|]; [|done].
      destruct (decode_bucket b) eqn:Eb; [|done].
      destruct (decode_key k) eqn:Ek; simplify_eq/=.
      split; [by eapply decode_bucket_ok|by eapply decode_key_ok].
  - intros b. unfold resolve_bucket_name, resolve_path_style_bucket.
    repeat case_match; intros; simplify_eq; by eapply decode_bucket_ok.
Qed.

(** The same target, up to the flag that records the addressing style. *)
Definition same_target (r1 r2 : result TargetError S3Target) : Prop :=
  match r1, r2 with
  | Ok t1, Ok t2 => target_bucket t1 = target_bucket t2 ∧ target_key t1 = target_key t2
  | Err e1, Err e2 => e1 = e2
  | _, _ => False
  end.

(** Path-style and virtual-hosted-style requests address the same object.
    For any raw bucket segment and raw key, sending them as [/bucket/key] to
    a host outside the base domain, or sending [/key] to the host
    [bucket.domain] (the domain in any letter case, with or without a port),
    gives the same bucket and key or the same error. *)
Theorem addressing_styles_agree (bucket key dot port base : str) (other : option str) :
  bucket ≠ [] → "/"%char ∉ bucket → ":"%char ∉ bucket → ":"%char ∉ dot →
  to_ascii_lowercase dot = "." ++ to_ascii_lowercase (before ":"%char base) →
  (port = [] ∨ ∃ p, port = ":"%char :: p) →
  hosted_bucket other (Some base) = None →
  same_target
    (resolve_s3_target ("/" ++ key) (Some (bucket ++ dot ++ port)) (Some base))
    (resolve_s3_target ("/" ++ bucket ++ "/" ++ key) other (Some base)).
Proof.
  intros Hne Hslash Hcb Hcd Hdot Hport Hother. unfold resolve_s3_target. rewrite Hother.
  unfold hosted_bucket. simpl. rewrite virtual_host_bucket_some by done.
  unfold resolve_path_style. rewrite !strip_slash_cons.
  rewrite (split_once_app "/"%char bucket key) by done.
  unfold_result. destruct (decode_bucket bucket); [|done]. by destruct (decode_key key).
Qed.

(** A plain path resolves to the bucket and key it spells. When bucket and
    key are valid and need no percent-encoding, [/bucket/key] resolves to that
    pair with every slash of the key kept, and [/bucket] and [/bucket/]
    resolve to the bucket for bucket operations. *)
Theorem path_style_roundtrip (b : BucketName) (k : ObjectKey) :
  bucket_ok b → key_ok k → "%"%char ∉ bucket_str b → "%"%char ∉ key_str k →
  utf8_valid (bucket_str b) = true → utf8_valid (key_str k) = true →
  resolve_path_style ("/" ++ bucket_str b ++ "/" ++ key_str k) =
    Ok {| target_bucket := b; target_key := k; virtual_hosted := false |} ∧
  resolve_path_style_bucket ("/" ++ bucket_str b) = Ok b ∧
  resolve_path_style_bucket ("/" ++ bucket_str b ++ "/") = Ok b.
Proof.
  intros Hb Hk Hpb Hpk Hub Huk.
  assert (decode_bucket (bucket_str b) = Ok b) as Hdb.
  { unfold decode_bucket, percent_decode_target. rewrite percent_decode_plain by done.
    unfold_result. rewrite (proj2 (parse_bucket_ok _ b)); [done|]. by destruct b. }
  assert (decode_key (key_str k) = Ok k) as Hdk.
  { unfold decode_key, percent_decode_target. rewrite percent_decode_plain by done.
    unfold_result. rewrite (proj2 (parse_key_ok _ k)); [done|]. by destruct k. }
  destruct Hb as (Hne & _ & Hslash & _).
  unfold resolve_path_style, resolve_path_style_bucket. cbn [app].
  rewrite !strip_slash_cons. split_and!.
  - rewrite (split_once_app "/"%char _ (key_str k)) by done. unfold_result. by rewrite Hdb, Hdk.
  - destruct (bucket_str b) eqn:E; [done|]. simpl is_empty. cbv iota.
    by rewrite (proj2 (split_once_None _ _)).
  - destruct (bucket_str b) eqn:E; [done|]. simpl is_empty. cbv iota.
    by rewrite (split_once_app _ _ []).
Qed.
End Resolve.

(** ** Witnesses *)

Lemma resolved_target_valid_witness :
  @target_ok {| target_bucket := mkBucketName "b"; target_key := mkObjectKey "a/b c";
               virtual_hosted := false |}.
Proof.
  destruct (@resolved_target_valid ref_codec "/b/a%2Fb%20c" None None) as [Ht _].
  apply Ht. vm_compute. reflexivity.
Defined.

Lemma addressing_styles_agree_witness :
  same_target
    (@resolve_s3_target ref_codec "/a//b.txt" (Some "bucket.S3.Local:9000") (Some "s3.local"))
    (@resolve_s3_target ref_codec "/bucket/a//b.txt" (Some "localhost") (Some "s3.local")).
Proof.
  apply (@addressing_styles_agree ref_codec "bucket" "a//b.txt" ".S3.Local" ":9000" "s3.local"
           (Some "localhost")); try (vm_compute; reflexivity); try done;
    try (by apply (bool_decide_unpack _); vm_compute).
  right. by exists "9000".
Defined.

Lemma path_style_roundtrip_witness :
  @resolve_path_style ref_codec "/bucket/a//b.txt" =
    Ok {| target_bucket := mkBucketName "bucket"; target_key := mkObjectKey "a//b.txt";
          virtual_hosted := false |}.
Proof.
  apply (@path_style_roundtrip ref_codec (mkBucketName "bucket") (mkObjectKey "a//b.txt")).
  - apply (parse_bucket_ok "bucket"). vm_compute. reflexivity.
  - apply (parse_key_ok "a//b.txt"). vm_compute. reflexivity.
  - apply (bool_decide_unpack _). vm_compute. exact I.
  - apply (bool_decide_unpack _). vm_compute. exact I.
  - vm_compute. reflexivity.
  - vm_compute. reflexivity.
Defined.
