(* ===== verification/Chunked.v ===== *)
(** * The streaming aws-chunked parser (body/upload.rs)

    A signed upload arrives as a sequence of network chunks that carry
    [hex-size;chunk-signature=... CRLF data CRLF ... 0 CRLF trailers CRLF].
    [push_and_write] is a state machine over an internal buffer: it verifies
    each chunk signature against the previous one, enforces the decoded size
    limit and writes the decoded bytes.

    The [loop] of the source is [run_loop] with fuel; every iteration that
    continues consumes at least two bytes of the buffer, so
    [S (length buffer)] iterations always suffice ([run_loop_total]). *)

From S2P Require Import Prelude RustStd BTree S3Error Externals Reference Types.
From Stdlib Require Import ZArith Lia.
Local Open Scope Z_scope.

(* @src src/src/body/upload.rs 23-23 MAX_AWS_CHUNKED_CONTROL_LINE_BYTES *)
Definition MAX_AWS_CHUNKED_CONTROL_LINE_BYTES : Z := 16 * 1024.

(** [tokio::io::AsyncWrite] through [write_all]: on success the bytes have
    been appended to what was written before. *)
Class Writer (W : Type) := {
  write_all : W → bytes → result str W;
  written : W → bytes;
  write_all_written : ∀ w b w', write_all w b = Ok w' → written w' = written w ++ b;
}.

(** An in-memory writer. *)
Definition mem_writer : Writer bytes := {|
  write_all w b := Ok (w ++ b);
  written w := w;
  write_all_written w b w' (H : Ok (w ++ b) = Ok w') :=
    eq_sym (f_equal (λ r : result str bytes, match r with Ok x => x | Err _ => w end) H);
|}.

Section Parser.
Context `{CodecLib} `{CryptoLib}.

(** ** Body state and size limits *)

(* @src src/src/body/upload.rs 351-359 UploadBodyState *)
Record UploadBodyState := mkBody {
  bs_md5 : sh_state Md5;
  bs_sha256 : option (sh_state Sha256);
  bs_sha1 : option (sh_state Sha1);
  bs_sha512 : option (sh_state Sha512);
  bs_crc32 : option (sh_state CRC32);
  bs_crc32c : option (sh_state CRC32C);
  bs_size : Z;
}.

Definition feed {Out} (h : StreamHash Out) (b : bytes) (o : option (sh_state h))
  : option (sh_state h) := (λ s, sh_update h s b) <$> o.

(** The digests after one chunk; the size is a [u64]. *)
(* @src src/src/body/upload.rs 390-406 write_body_chunk *)
Definition absorb (st : UploadBodyState) (chunk : bytes) : UploadBodyState := {|
  bs_md5 := sh_update Md5 (bs_md5 st) chunk;
  bs_sha256 := feed Sha256 chunk (bs_sha256 st);
  bs_sha1 := feed Sha1 chunk (bs_sha1 st);
  bs_sha512 := feed Sha512 chunk (bs_sha512 st);
  bs_crc32 := feed CRC32 chunk (bs_crc32 st);
  bs_crc32c := feed CRC32C chunk (bs_crc32c st);
  bs_size := wrap_u64 (bs_size st + len chunk);
|}.

(* @src src/src/body/upload.rs 309-320 validate_decoded_size_limit *)
Definition validate_decoded_size_limit (bytes_read next_chunk_len max_decoded_size : Z)
  : result S3Error () :=
  if sat_add_u64 bytes_read next_chunk_len >? max_decoded_size then
    Err (entity_too_large "Your proposed upload exceeds the maximum allowed size.")
  else Ok ().

Section WithWriter.
Context {W : Type} `{Writer W}.

(* @src src/src/body/upload.rs 381-412 write_body_chunk *)
Definition write_body_chunk (w : W) (chunk : bytes) (st : UploadBodyState) (write_target : str)
  : result S3Error (W * UploadBodyState) :=
  let st := absorb st chunk in
  w ← map_err (λ err, internal ("failed to write " ++ write_target ++ ": " ++ err))
        (write_all w chunk);
  Ok (w, st).

(** ** Signatures *)

(* @src src/src/body/upload.rs 734-737 StreamingSignatureMode *)
Inductive StreamingSignatureMode := Payload | PayloadTrailer.

(* @src src/src/body/upload.rs 666-672 AwsChunkSignatureVerifier *)
Record AwsChunkSignatureVerifier := mkVerifier {
  v_signing_key : bytes;
  v_previous_signature : str;
  v_amz_date : str;
  v_credential_scope : str;
  v_mode : StreamingSignatureMode;
}.

Definition set_previous (v : AwsChunkSignatureVerifier) (s : str) : AwsChunkSignatureVerifier := {|
  v_signing_key := v_signing_key v; v_previous_signature := s;
  v_amz_date := v_amz_date v; v_credential_scope := v_credential_scope v; v_mode := v_mode v |}.

(* @src src/src/body/upload.rs 739-744 hmac_sha256 *)
Definition hmac_sha256 (key data : bytes) : result S3Error bytes :=
  ok_or (hmac_sha256_raw key data) (internal "failed to compute aws-chunked HMAC").

(** The string an aws-chunked chunk signature signs. *)
(* @src src/src/body/upload.rs 693-698 AwsChunkSignatureVerifier::verify *)
Definition chunk_string_to_sign (v : AwsChunkSignatureVerifier) (chunk_data : bytes) : str :=
  "AWS4-HMAC-SHA256-PAYLOAD" ++ NL ++ v_amz_date v ++ NL ++ v_credential_scope v ++ NL
    ++ v_previous_signature v ++ NL ++ hex_encode (sh_hash Sha256 []) ++ NL
    ++ hex_encode (sh_hash Sha256 chunk_data).

(* @src src/src/body/upload.rs 685-705 AwsChunkSignatureVerifier::verify *)
Definition verify (v : AwsChunkSignatureVerifier) (provided : option str) (chunk_data : bytes)
  : result S3Error AwsChunkSignatureVerifier :=
  match provided with
  | None => Err signature_does_not_match
  | Some provided =>
      mac ← hmac_sha256 (v_signing_key v) (chunk_string_to_sign v chunk_data);
      let expected := hex_encode mac in
      if negb (ct_eq expected provided) then Err signature_does_not_match
      else Ok (set_previous v provided)
  end.

(* @src src/src/body/upload.rs 714-718 AwsChunkSignatureVerifier::verify_trailer *)
Definition canonical_trailers (trailers : btree str str) : str :=
  concat ((λ '(n, v), n ++ ":" ++ v ++ NL) <$>
    filter (λ p, p.1 ≠ "x-amz-trailer-signature") trailers).

(* @src src/src/body/upload.rs 719-723 AwsChunkSignatureVerifier::verify_trailer *)
Definition trailer_string_to_sign (v : AwsChunkSignatureVerifier) (trailers : btree str str) : str :=
  "AWS4-HMAC-SHA256-TRAILER" ++ NL ++ v_amz_date v ++ NL ++ v_credential_scope v ++ NL
    ++ v_previous_signature v ++ NL ++ hex_encode (sh_hash Sha256 (canonical_trailers trailers)).

(* @src src/src/body/upload.rs 707-730 AwsChunkSignatureVerifier::verify_trailer *)
Definition verify_trailer (v : AwsChunkSignatureVerifier) (trailers : btree str str)
  : result S3Error AwsChunkSignatureVerifier :=
  match v_mode v with
  | Payload => Ok v
  | PayloadTrailer =>
      provided ← ok_or (btree_get "x-amz-trailer-signature" trailers) signature_does_not_match;
      mac ← hmac_sha256 (v_signing_key v) (trailer_string_to_sign v trailers);
      let expected := hex_encode mac in
      if negb (ct_eq expected provided) then Err signature_does_not_match
      else Ok (set_previous v provided)
  end.

(** ** Chunk headers *)

(* @src src/src/body/upload.rs 598-601 AwsChunkHeader *)
Record AwsChunkHeader := mkChunkHeader { ch_size : Z; ch_signature : option str }.

(** One extension of a chunk header: an accumulator of the signature seen. *)
(* @src src/src/body/upload.rs 613-641 parse_aws_chunk_header *)
Definition parse_chunk_extension (signature : option str) (extension : str)
  : result S3Error (option str) :=
  match split_once "="%char extension with
  | None => Err (invalid_request ("aws-chunked chunk extension is malformed: " ++ extension))
  | Some (name, value) =>
      if negb (eq_ignore_ascii_case (trim name) "chunk-signature") then Ok signature
      else match signature with
      | Some _ => Err (invalid_request "aws-chunked chunk-signature appears more than once")
      | None =>
          let value := trim value in
          if negb (len value =? 64) || negb (forallb is_lower_hex value) then
            Err (invalid_request "aws-chunked chunk-signature must be lowercase 64-character hex")
          else Ok (Some value)
      end
  end.

(* @src src/src/body/upload.rs 603-644 parse_aws_chunk_header *)
Definition parse_aws_chunk_header (line : str) : result S3Error AwsChunkHeader :=
  let '(size_token, extensions) :=
    match split_once ";"%char line with
    | Some (size, extensions) => (trim size, extensions)
    | None => (trim line, [])
    end in
  size ← ok_or (from_str_radix 16 usize_max size_token)
           (invalid_request ("aws-chunked chunk size is invalid: " ++ size_token));
  signature ← try_fold parse_chunk_extension None
    (List.filter (λ e, negb (is_empty (trim e))) (split ";"%char extensions));
  Ok {| ch_size := size; ch_signature := signature |}.

(** ** The parser *)

(* @src src/src/body/upload.rs 587-595 AwsChunkedParserState *)
Inductive AwsChunkedParserState :=
| ChunkHeader
| ChunkData (size : Z) (signature : option str)
| Trailer
| Done.

(* @src src/src/body/upload.rs 439-444 AwsChunkedUploadParser *)
Record AwsChunkedUploadParser := mkParser {
  buffer : bytes;
  pstate : AwsChunkedParserState;
  trailers : btree str str;
  verifier : option AwsChunkSignatureVerifier;
}.

(* @src src/src/body/upload.rs 447-454 AwsChunkedUploadParser::new *)
Definition new_parser (v : option AwsChunkSignatureVerifier) : AwsChunkedUploadParser :=
  {| buffer := []; pstate := ChunkHeader; trailers := []; verifier := v |}.

(** [windows(2).position(|w| w == b"\r\n")]. *)
(* @src src/src/body/upload.rs 570-570 AwsChunkedUploadParser::read_line *)
Fixpoint find_crlf (s : bytes) : option nat :=
  match s with
  | [] => None
  | a :: t =>
      match t with
      | [] => None
      | b :: _ => if bool_decide (a = CR) && bool_decide (b = LF) then Some O else S <$> find_crlf t
      end
  end.

(** The line before the first CRLF and the rest after it; [None] when the
    buffer has no complete line yet. *)
(* @src src/src/body/upload.rs 569-583 AwsChunkedUploadParser::read_line *)
Definition read_line (buf : bytes) : result S3Error (option (str * bytes)) :=
  match find_crlf buf with
  | None =>
      if len buf >? MAX_AWS_CHUNKED_CONTROL_LINE_BYTES then
        Err (invalid_request "aws-chunked control line is too large")
      else Ok None
  | Some offset =>
      line ← ok_or (from_utf8 (take offset buf))
               (invalid_request "aws-chunked control line is not UTF-8");
      Ok (Some (line, drop 2 (drop offset buf)))
  end.

(** [slice::get(lo..hi)]. *)
Definition slice_get (lo hi : Z) (s : bytes) : option bytes :=
  if (lo <=? hi) && (hi <=? len s) then Some (take (Z.to_nat (hi - lo)) (drop (Z.to_nat lo) s))
  else None.

(* @src src/src/body/upload.rs 551-560 AwsChunkedUploadParser::verify_chunk_signature *)
Definition verify_chunk_signature (v : option AwsChunkSignatureVerifier)
    (provided : option str) (chunk_data : bytes) : result S3Error (option AwsChunkSignatureVerifier) :=
  match v with
  | None => Ok None
  | Some v => v ← verify v provided chunk_data; Ok (Some v)
  end.

(* @src src/src/body/upload.rs 562-567 AwsChunkedUploadParser::verify_trailer_signature *)
Definition verify_trailer_signature (v : option AwsChunkSignatureVerifier) (ts : btree str str)
  : result S3Error (option AwsChunkSignatureVerifier) :=
  match v with
  | None => Ok None
  | Some v => v ← verify_trailer v ts; Ok (Some v)
  end.

(** Everything [push_and_write] mutates. *)
Record PCtx := mkCtx { px : AwsChunkedUploadParser; bx : UploadBodyState; wx : W }.

(** One iteration of the loop: return to the caller for more input, return
    the trailers, or go round again. *)
Inductive StepOut :=
| NeedMore
| Finished (ts : btree str str) (c : PCtx)
| Continue (c : PCtx).

(** The parser with a new buffer, state, trailers or verifier. *)
Definition upd (p : AwsChunkedUploadParser) (buf : bytes) (st : AwsChunkedParserState)
    (v : option AwsChunkSignatureVerifier) : AwsChunkedUploadParser :=
  {| buffer := buf; pstate := st; trailers := trailers p; verifier := v |}.

(* @src src/src/body/upload.rs 480-494 AwsChunkedUploadParser::push_and_write *)
Definition step_header (c : PCtx) : result S3Error StepOut :=
  let p := px c in
  l ← read_line (buffer p);
  match l with
  | None => Ok NeedMore
  | Some (line, rest) =>
      header ← parse_aws_chunk_header line;
      if ch_size header =? 0 then
        v ← verify_chunk_signature (verifier p) (ch_signature header) [];
        Ok (Continue (mkCtx (upd p rest Trailer v) (bx c) (wx c)))
      else
        Ok (Continue (mkCtx
          (upd p rest (ChunkData (ch_size header) (ch_signature header)) (verifier p))
          (bx c) (wx c)))
  end.

(** [size + 2] is computed in [usize]; a release build wraps around. *)
(* @src src/src/body/upload.rs 495-514 AwsChunkedUploadParser::push_and_write *)
Definition step_data (write_target : str) (max_decoded_size : Z)
    (size : Z) (signature : option str) (c : PCtx) : result S3Error StepOut :=
  let p := px c in
  if len (buffer p) <? wrap_u64 (size + 2) then Ok NeedMore
  else if negb (bool_decide (slice_get size (wrap_u64 (size + 2)) (buffer p) = Some CRLF)) then
    Err (invalid_request "aws-chunked chunk is missing trailing CRLF")
  else
    let data := take (Z.to_nat size) (buffer p) in
    let rest := drop 2 (drop (Z.to_nat size) (buffer p)) in
    v ← verify_chunk_signature (verifier p) signature data;
    _ ← validate_decoded_size_limit (bs_size (bx c)) (len data) max_decoded_size;
    '(w, b) ← write_body_chunk (wx c) data (bx c) write_target;
    Ok (Continue (mkCtx (upd p rest ChunkHeader v) b w)).

(* @src src/src/body/upload.rs 515-541 AwsChunkedUploadParser::push_and_write *)
Definition step_trailer (c : PCtx) : result S3Error StepOut :=
  let p := px c in
  l ← read_line (buffer p);
  match l with
  | None => Ok NeedMore
  | Some (line, rest) =>
      if is_empty line then
        v ← verify_trailer_signature (verifier p) (trailers p);
        if negb (is_empty rest) then
          Err (invalid_request "aws-chunked body has data after final trailer")
        else
          Ok (Finished (trailers p)
                (mkCtx {| buffer := rest; pstate := Done; trailers := []; verifier := v |}
                       (bx c) (wx c)))
      else
        match split_once ":"%char line with
        | None => Err (invalid_request ("aws-chunked trailer is malformed: " ++ line))
        | Some (name, value) =>
            let name := to_ascii_lowercase (trim name) in
            if btree_contains name (trailers p) then
              Err (invalid_request ("aws-chunked trailer appears more than once: " ++ name))
            else
              Ok (Continue (mkCtx
                {| buffer := rest; pstate := Trailer;
                   trailers := btree_insert name (trim value) (trailers p);
                   verifier := verifier p |} (bx c) (wx c)))
        end
  end.

(** The [Done] arm is [unreachable!]: the state is tested before the loop and
    the loop returns when it enters it ([run_loop_not_done]). *)
(* @src src/src/body/upload.rs 479-543 AwsChunkedUploadParser::push_and_write *)
Definition step (write_target : str) (max_decoded_size : Z) (c : PCtx) : result S3Error StepOut :=
  match pstate (px c) with
  | ChunkHeader => step_header c
  | ChunkData size signature => step_data write_target max_decoded_size size signature c
  | Trailer => step_trailer c
  | Done => Err (internal "unreachable: done state handled before loop")
  end.

(** [None] is running out of fuel. *)
(* @src src/src/body/upload.rs 478-544 AwsChunkedUploadParser::push_and_write *)
Fixpoint run_loop (fuel : nat) (write_target : str) (max_decoded_size : Z) (c : PCtx)
  : option (result S3Error (option (btree str str) * PCtx)) :=
  match fuel with
  | O => None
  | S fuel =>
      match step write_target max_decoded_size c with
      | Err e => Some (Err e)
      | Ok NeedMore => Some (Ok (None, c))
      | Ok (Finished ts c) => Some (Ok (Some ts, c))
      | Ok (Continue c) => run_loop fuel write_target max_decoded_size c
      end
  end.

Definition append (p : AwsChunkedUploadParser) (b : bytes) : AwsChunkedUploadParser :=
  {| buffer := buffer p ++ b; pstate := pstate p; trailers := trailers p; verifier := verifier p |}.

Definition with_bytes (c : PCtx) (b : bytes) : PCtx := mkCtx (append (px c) b) (bx c) (wx c).

(* @src src/src/body/upload.rs 456-545 AwsChunkedUploadParser::push_and_write *)
Definition push_and_write (write_target : str) (max_decoded_size : Z) (c : PCtx) (b : bytes)
  : option (result S3Error (option (btree str str) * PCtx)) :=
  match pstate (px c) with
  | Done =>
      if is_empty b then
        Some (Ok (Some (trailers (px c)),
          mkCtx {| buffer := buffer (px c); pstate := Done; trailers := []; verifier := verifier (px c) |}
                (bx c) (wx c)))
      else Some (Err (invalid_request "aws-chunked body has data after final trailer"))
  | _ =>
      let c := with_bytes c b in
      run_loop (S (length (buffer (px c)))) write_target max_decoded_size c
  end.

(* @src src/src/body/upload.rs 547-549 AwsChunkedUploadParser::finish *)
Definition finish (p : AwsChunkedUploadParser) : option (btree str str) :=
  match pstate p with Done => Some (trailers p) | _ => None end.

(** The body loop: network chunks are pushed until the parser returns the
    trailers; what the stream still holds is not read. A chunk of the stream
    may be a transport error. *)
(* @src src/src/body/upload.rs 274-294 write_aws_chunked_upload_body *)
Fixpoint drive (write_target : str) (max_decoded_size : Z) (body : list (result str bytes)) (c : PCtx)
  : option (result S3Error (btree str str * PCtx)) :=
  match body with
  | [] =>
      match finish (px c) with
      | Some ts => Some (Ok (ts, c))
      | None => Some (Err (invalid_request "aws-chunked body ended unexpectedly"))
      end
  | Err err :: _ => Some (Err (invalid_request ("failed to read aws-chunked body: " ++ err)))
  | Ok chunk :: body =>
      match push_and_write write_target max_decoded_size c chunk with
      | None => None
      | Some (Err e) => Some (Err e)
      | Some (Ok (Some ts, c)) => Some (Ok (ts, c))
      | Some (Ok (None, c)) => drive write_target max_decoded_size body c
      end
  end.
End WithWriter.
End Parser.
