(* ===== verification/ChunkedProofs.v ===== *)
(** * The aws-chunked parser does not depend on network framing

    Termination of the parsing loop, monotonicity of one step in the buffer,
    and from these: feeding a body in any pieces is feeding it at once; the
    decoded size is bounded; the bytes written are exactly the chunks whose
    signature chain was verified. *)

From S2P Require Import Prelude RustStd BTree S3Error Externals Reference Types Chunked.
From Stdlib Require Import ZArith Lia.
Local Open Scope Z_scope.

(** ** Lines *)

Lemma find_crlf_cons a b s :
  find_crlf (a :: b :: s) =
  if bool_decide (a = CR) && bool_decide (b = LF) then Some O else S <$> find_crlf (b :: s).
Proof. done. Qed.

Lemma find_crlf_Some s n :
  find_crlf s = Some n → s = take n s ++ CRLF ++ drop 2 (drop n s).
Proof.
  revert n. induction s as [|a s IH]; intros n Hf; [done|].
  destruct s as [|b s]; [done|]. rewrite find_crlf_cons in Hf.
  destruct (bool_decide (a = CR) && bool_decide (b = LF)) eqn:E.
  - apply andb_true_iff in E as [->%bool_decide_eq_true ->%bool_decide_eq_true].
    by injection Hf as <-.
  - destruct (find_crlf (b :: s)) as [m|]; [|done]. injection Hf as <-.
    simpl. f_equal. by apply IH.
Qed.

Lemma find_crlf_length s n : find_crlf s = Some n → (n + 2 ≤ length s)%nat.
Proof.
  intros Hf. apply find_crlf_Some in Hf as Heq. apply (f_equal length) in Heq.
  rewrite !length_app in Heq. simpl in Heq.
  assert (length (take n s) = n ∨ (length s < n)%nat) as [|Hlt] by (rewrite length_take; lia).
  - lia.
  - rewrite !length_drop, take_ge in Heq; lia.
Qed.

Lemma find_crlf_app s t n : find_crlf s = Some n → find_crlf (s ++ t) = Some n.
Proof.
  revert n. induction s as [|a s IH]; intros n Hf; [done|].
  destruct s as [|b s]; [done|].
  change ((a :: b :: s) ++ t) with (a :: b :: s ++ t). rewrite find_crlf_cons in *.
  destruct (bool_decide (a = CR) && bool_decide (b = LF)); [done|].
  destruct (find_crlf (b :: s)) as [m|]; [|done].
  change (b :: s ++ t) with ((b :: s) ++ t). by rewrite (IH m).
Qed.

Lemma find_crlf_line a t : CR ∉ a → find_crlf (a ++ CRLF ++ t) = Some (length a).
Proof.
  induction a as [|x a IH]; intros Hx; [done|].
  apply not_elem_of_cons in Hx as [Hx Ha]. specialize (IH Ha).
  rewrite <- app_comm_cons. destruct (a ++ CRLF ++ t) as [|b s] eqn:E; [by destruct a|].
  rewrite find_crlf_cons, bool_decide_eq_false_2 by done. simpl andb. cbv iota.
  by rewrite IH.
Qed.

(** The one error that more input can turn into a success. *)
Definition line_too_large : S3Error := invalid_request "aws-chunked control line is too large".
Definition data_after_trailer : S3Error :=
  invalid_request "aws-chunked body has data after final trailer".

Lemma read_line_app s t l r :
  read_line s = Ok (Some (l, r)) → read_line (s ++ t) = Ok (Some (l, r ++ t)).
Proof.
  unfold read_line. destruct (find_crlf s) as [n|] eqn:Hn; [|by destruct (_ >? _)].
  rewrite (find_crlf_app _ _ _ Hn). apply find_crlf_length in Hn.
  rewrite take_app_le, drop_app_le by lia. rewrite drop_app_le by (rewrite length_drop; lia).
  unfold_result. destruct (from_utf8 (take n s)); [|done]. by intros [= <- <-].
Qed.

Lemma read_line_err_app s t e :
  read_line s = Err e → e = line_too_large ∨ read_line (s ++ t) = Err e.
Proof.
  unfold read_line. destruct (find_crlf s) as [n|] eqn:Hn.
  - rewrite (find_crlf_app _ _ _ Hn). apply find_crlf_length in Hn.
    rewrite take_app_le by lia. unfold_result.
    destruct (from_utf8 (take n s)); [done|]. intros [= <-]. by right.
  - destruct (_ >? _); [|done]. intros [= <-]. by left.
Qed.

Lemma read_line_consumes s l r :
  read_line s = Ok (Some (l, r)) → s = l ++ CRLF ++ r ∧ utf8_valid l = true.
Proof.
  unfold read_line. destruct (find_crlf s) as [n|] eqn:Hn; [|by destruct (_ >? _)].
  unfold_result. unfold from_utf8. destruct (utf8_valid (take n s)) eqn:Hu; [|done].
  intros [= <- <-]. by apply find_crlf_Some in Hn.
Qed.

Lemma read_line_line l t :
  CR ∉ l → utf8_valid l = true → read_line (l ++ CRLF ++ t) = Ok (Some (l, t)).
Proof.
  intros Hl Hu. unfold read_line. rewrite find_crlf_line by done.
  rewrite take_app_length, drop_app_length. unfold_result. unfold from_utf8. by rewrite Hu.
Qed.

Lemma slice_get_app lo hi s t :
  0 ≤ lo → hi ≤ len s → slice_get lo hi (s ++ t) = slice_get lo hi s.
Proof.
  intros Hlo Hhi. unfold slice_get, len in *. rewrite length_app.
  rewrite (proj2 (Z.leb_le hi (Z.of_nat _))), (proj2 (Z.leb_le hi (Z.of_nat (length s)))) by lia.
  destruct (Z.leb_spec lo hi); [|done]. simpl. rewrite drop_app_le by lia.
  rewrite take_app_le; [done|]. rewrite length_drop. lia.
Qed.

Lemma slice_get_crlf lo hi s :
  slice_get lo hi s = Some CRLF → (length (drop (Z.to_nat lo) s) ≥ 2)%nat ∧ lo ≤ hi ≤ len s.
Proof.
  unfold slice_get. destruct (Z.leb_spec lo hi); [|done].
  destruct (Z.leb_spec hi (len s)); [|done]. simpl. intros [= Heq].
  apply (f_equal length) in Heq. rewrite length_take in Heq. simpl in Heq. split; lia.
Qed.

Section Steps.
Context `{CodecLib} `{CryptoLib} {W : Type} `{Writer W}.
Context (wt : str) (max : Z).
Implicit Types c : PCtx (W := W).

(** ** Well-formed parser states *)

(** The announced size of a data chunk is a positive [usize]; trailer names are ordered. *)
Definition state_wf (st : AwsChunkedParserState) : Prop :=
  match st with ChunkData size _ => 0 < size ≤ usize_max | _ => True end.
Definition parser_wf (p : AwsChunkedUploadParser) : Prop :=
  state_wf (pstate p) ∧ btree_ok (trailers p).

Lemma new_parser_wf v : parser_wf (new_parser v).
Proof. split; [done|apply btree_ok_nil]. Qed.

Lemma chunk_header_size line h : parse_aws_chunk_header line = Ok h → 0 ≤ ch_size h ≤ usize_max.
Proof.
  unfold parse_aws_chunk_header. intros Hh. unfold_result.
  destruct (match split_once _ _ with Some _ => _ | None => _ end) as [tok ext].
  destruct (from_str_radix 16 usize_max tok) as [z|] eqn:Hz; [|done].
  destruct (try_fold _ _ _); [|done]. injection Hh as <-. simpl.
  by eapply from_str_radix_bounds in Hz.
Qed.

(** ** What one step does *)

(** Splits a hypothesis on a successful step into its surviving branches. *)
Ltac step_cases H :=
  unfold step, step_header, step_data, step_trailer in H; unfold_result;
  repeat (case_match_in H; simplify_eq/=; try discriminate).

Lemma step_continue_wf c c' :
  parser_wf (px c) → step wt max c = Ok (Continue c') → parser_wf (px c').
Proof.
  intros [Hst Htr] Hs. step_cases Hs; split; simpl; try done.
  - match goal with Hh : parse_aws_chunk_header _ = Ok _ |- _ => apply chunk_header_size in Hh end.
    match goal with Hz : (_ =? 0) = false |- _ => apply Z.eqb_neq in Hz end. lia.
  - by apply btree_insert_ok.
Qed.

Lemma step_continue_length c c' :
  step wt max c = Ok (Continue c') →
  (length (buffer (px c')) + 2 ≤ length (buffer (px c)))%nat.
Proof.
  intros Hs. step_cases Hs;
    try match goal with Hl : read_line _ = Ok (Some _) |- _ =>
      apply read_line_consumes in Hl as [-> _]; rewrite !length_app; simpl; lia end.
  match goal with Hc : negb (bool_decide _) = false |- _ =>
    apply negb_false_iff, bool_decide_eq_true, slice_get_crlf in Hc as [Hlen _] end.
  rewrite !length_drop in *. lia.
Qed.

Lemma step_not_done c r : step wt max c = Ok r → pstate (px c) ≠ Done.
Proof. unfold step. by destruct (pstate (px c)). Qed.

Lemma step_continue_not_done c c' : step wt max c = Ok (Continue c') → pstate (px c') ≠ Done.
Proof. intros Hs. by step_cases Hs. Qed.

(** ** Termination *)

Lemma run_loop_total n c :
  (length (buffer (px c)) < n)%nat → ∃ r, run_loop n wt max c = Some r.
Proof.
  revert c. induction n as [|n IH]; intros c Hn; [lia|]. simpl.
  destruct (step wt max c) as [[|ts c'|c']|e] eqn:Hs; [by eexists..| |by eexists].
  apply step_continue_length in Hs. apply IH. lia.
Qed.

Lemma run_loop_mono n m c r :
  (n ≤ m)%nat → run_loop n wt max c = Some r → run_loop m wt max c = Some r.
Proof.
  revert m c. induction n as [|n IH]; intros m c Hm Hr; [done|].
  destruct m as [|m]; [lia|]. simpl in *.
  destruct (step wt max c) as [[|ts c'|c']|e]; try done. apply IH; [lia|done].
Qed.

(** Any sufficient fuel gives the same result. *)
Lemma run_loop_fuel n m c :
  (length (buffer (px c)) < n)%nat → (length (buffer (px c)) < m)%nat →
  run_loop n wt max c = run_loop m wt max c.
Proof.
  intros Hn Hm. destruct (run_loop_total n c Hn) as [r Hr].
  destruct (run_loop_total m c Hm) as [r' Hr'].
  destruct (decide (n ≤ m)%nat).
  - by rewrite Hr, (run_loop_mono n m c r).
  - rewrite Hr', (run_loop_mono m n c r'); [done|lia|done].
Qed.

Lemma push_total c b : ∃ r, push_and_write wt max c b = Some r.
Proof.
  unfold push_and_write. destruct (pstate (px c)); try (by apply run_loop_total; simpl; lia).
  destruct (is_empty b); by eexists.
Qed.

(** ** A step does not look past what it consumes *)

Lemma with_bytes_nil c : with_bytes c [] = c.
Proof. destruct c as [[] ? ?]. unfold with_bytes, append. simpl. by rewrite app_nil_r. Qed.

Lemma with_bytes_app c b1 b2 : with_bytes (with_bytes c b1) b2 = with_bytes c (b1 ++ b2).
Proof. unfold with_bytes, append. simpl. by rewrite (assoc_L (++)). Qed.

Lemma step_data_app size sig c t r :
  0 ≤ size →
  step_data wt max size sig c = r → r ≠ Ok NeedMore →
  step_data wt max size sig (with_bytes c t) =
    match r with Ok (Continue c') => Ok (Continue (with_bytes c' t)) | r => r end.
Proof.
  intros Hsize Hr Hne. unfold step_data in *. simpl in *. unfold len in *.
  rewrite length_app. destruct (Z.ltb_spec (Z.of_nat (length (buffer (px c)))) (wrap_u64 (size + 2)));
    [congruence|].
  destruct (Z.ltb_spec (Z.of_nat (length (buffer (px c)) + length t)) (wrap_u64 (size + 2))); [lia|].
  rewrite slice_get_app by (unfold len; lia).
  destruct (slice_get size _ _) as [s|] eqn:Hsl; [|by subst r].
  destruct (negb _) eqn:Hn; [by subst r|].
  apply negb_false_iff, bool_decide_eq_true in Hn. simplify_eq.
  apply slice_get_crlf in Hsl as [Hlen Hb]. rewrite length_drop in Hlen.
  rewrite take_app_le, drop_app_le by lia. rewrite drop_app_le by (rewrite length_drop; lia).
  unfold_result. repeat case_match; simplify_eq; done.
Qed.

Lemma step_app c t r :
  parser_wf (px c) → step wt max c = Ok r → r ≠ NeedMore →
  step wt max (with_bytes c t) =
    match r with
    | Continue c' => Ok (Continue (with_bytes c' t))
    | Finished ts c' => if is_empty t then Ok (Finished ts c') else Err data_after_trailer
    | NeedMore => Ok NeedMore
    end.
Proof.
  intros [Hwf _] Hs Hne. unfold step in *. change (pstate (px (with_bytes c t))) with (pstate (px c)).
  destruct (pstate (px c)) as [|size sig| |] eqn:Hst; [|..|done].
  - unfold step_header in *. simpl. unfold_result.
    destruct (read_line (buffer (px c))) as [[[l rest]|]|] eqn:Hl; [|congruence|done].
    rewrite (read_line_app _ t _ _ Hl). repeat case_match; simplify_eq; done.
  - apply step_data_app with (t := t) in Hs; [|simpl in Hwf; lia|congruence].
    rewrite Hs. destruct r; [done| |done]. exfalso. revert Hs.
    unfold step_data. unfold_result. repeat case_match; congruence.
  - unfold step_trailer in *. simpl. unfold_result.
    destruct (read_line (buffer (px c))) as [[[l rest]|]|] eqn:Hl; [|congruence|done].
    rewrite (read_line_app _ t _ _ Hl). repeat case_match; simplify_eq; try done;
      destruct rest, t; done.
Qed.

(** An error stays the same error, except for the line length limit. *)
Lemma step_err_app c t e :
  parser_wf (px c) → pstate (px c) ≠ Done → step wt max c = Err e →
  e = line_too_large ∨ step wt max (with_bytes c t) = Err e.
Proof.
  intros [Hwf _] Hnd Hs. unfold step in *.
  change (pstate (px (with_bytes c t))) with (pstate (px c)).
  destruct (pstate (px c)) as [|size sig| |] eqn:Hst; [|..|done].
  - unfold step_header in *. simpl. unfold_result.
    destruct (read_line (buffer (px c))) as [[[l rest]|]|e'] eqn:Hl; [|done|].
    + rewrite (read_line_app _ t _ _ Hl). right. repeat case_match; simplify_eq; done.
    + destruct (read_line_err_app _ t _ Hl) as [->| ->]; simplify_eq; auto.
  - right. by apply step_data_app with (t := t) in Hs; [|simpl in Hwf; lia|].
  - unfold step_trailer in *. simpl. unfold_result.
    destruct (read_line (buffer (px c))) as [[[l rest]|]|e'] eqn:Hl; [|done|].
    + rewrite (read_line_app _ t _ _ Hl). right. repeat case_match; simplify_eq; try done;
        destruct rest; done.
    + destruct (read_line_err_app _ t _ Hl) as [->| ->]; simplify_eq; auto.
Qed.

(** ** Running the loop to its end *)

(** The loop with the fuel [push_and_write] gives it. *)
Definition run c := run_loop (S (length (buffer (px c)))) wt max c.

Lemma run_unfold c :
  run c = match step wt max c with
          | Err e => Some (Err e)
          | Ok NeedMore => Some (Ok (None, c))
          | Ok (Finished ts c') => Some (Ok (Some ts, c'))
          | Ok (Continue c') => run c'
          end.
Proof.
  unfold run at 1. simpl. destruct (step wt max c) as [[|ts c'|c']|e] eqn:Hs; try done.
  apply step_continue_length in Hs. apply run_loop_fuel; lia.
Qed.

(** Induction on the iterations of the loop. *)
Lemma run_ind (P : PCtx (W := W) → Prop) :
  (∀ c, (∀ c', step wt max c = Ok (Continue c') → P c') → P c) → ∀ c, P c.
Proof.
  intros IH c. remember (length (buffer (px c))) as n eqn:Hn. revert c Hn.
  induction (lt_wf n) as [n _ IHn]. intros c ->. apply IH. intros c' Hs.
  apply step_continue_length in Hs. eapply IHn; [|done]. lia.
Qed.

Lemma push_run c b : pstate (px c) ≠ Done → push_and_write wt max c b = run (with_bytes c b).
Proof. unfold push_and_write, run. by destruct (pstate (px c)). Qed.

(** Between two pushes the parser waits for input. *)
Definition at_rest c := parser_wf (px c) ∧ step wt max c = Ok NeedMore.

Lemma at_rest_not_done c : at_rest c → pstate (px c) ≠ Done.
Proof. intros [_ Hs]. by eapply step_not_done. Qed.

Lemma new_parser_at_rest v b w : at_rest (mkCtx (new_parser v) b w).
Proof. split; [apply new_parser_wf|done]. Qed.

(** What the loop does with more input in the buffer. *)
Lemma run_app c t r :
  parser_wf (px c) → pstate (px c) ≠ Done → run c = Some r →
  match r with
  | Ok (None, c1) => run (with_bytes c t) = run (with_bytes c1 t) ∧ at_rest c1
  | Ok (Some ts, c1) =>
      run (with_bytes c t) = Some (if is_empty t then r else Err data_after_trailer)
  | Err e => e = line_too_large ∨ run (with_bytes c t) = Some (Err e)
  end.
Proof.
  revert c. apply (run_ind (λ c, parser_wf (px c) → _ → run c = Some r → _)).
  intros c IH Hwf Hnd. rewrite run_unfold, (run_unfold (with_bytes c t)).
  destruct (step wt max c) as [[|ts c'|c']|e] eqn:Hs.
  - intros [= <-]. by rewrite run_unfold.
  - intros [= <-]. rewrite (step_app _ t _ Hwf Hs) by done. by destruct (is_empty t).
  - rewrite (step_app _ t _ Hwf Hs) by done. apply IH; [done| |].
    + by eapply step_continue_wf.
    + by eapply step_continue_not_done.
  - intros [= <-]. destruct (step_err_app _ t _ Hwf Hnd Hs) as [->| ->]; auto.
Qed.

(** The result of a push of [b1 ++ b2] from the result of the push of [b1]. *)
Lemma push_app c b1 b2 r :
  at_rest c → push_and_write wt max c b1 = Some r →
  match r with
  | Ok (None, c1) =>
      push_and_write wt max c (b1 ++ b2) = push_and_write wt max c1 b2 ∧ at_rest c1
  | Ok (Some ts, c1) =>
      push_and_write wt max c (b1 ++ b2) = Some (if is_empty b2 then r else Err data_after_trailer)
  | Err e => e = line_too_large ∨ push_and_write wt max c (b1 ++ b2) = Some (Err e)
  end.
Proof.
  intros Hc Hp. pose proof (at_rest_not_done c Hc) as Hnd. destruct Hc as [Hwf _].
  rewrite push_run in Hp |- * by done. rewrite <- with_bytes_app.
  pose proof (run_app (with_bytes c b1) b2 r Hwf Hnd Hp) as Hr.
  destruct r as [[[ts|] c1]|e]; [done| |done]. destruct Hr as [Hr Hc1].
  by rewrite push_run by by apply at_rest_not_done.
Qed.

Lemma push_nil c : at_rest c → push_and_write wt max c [] = Some (Ok (None, c)).
Proof.
  intros Hc. rewrite push_run, with_bytes_nil by by apply at_rest_not_done.
  destruct Hc as [_ Hs]. by rewrite run_unfold, Hs.
Qed.

(** The whole body in one network chunk. *)
Definition one_shot c b := drive wt max [Ok b] c.

Lemma one_shot_Ok c b ts c' :
  at_rest c →
  one_shot c b = Some (Ok (ts, c')) ↔ push_and_write wt max c b = Some (Ok (Some ts, c')).
Proof.
  intros Hc. unfold one_shot. simpl.
  destruct (push_and_write wt max c b) as [[[[ts1|] c1]|e]|] eqn:Hp; [naive_solver| |naive_solver..].
  destruct (push_app c b [] _ Hc Hp) as [_ Hc1]. apply at_rest_not_done in Hc1.
  unfold finish. destruct (pstate (px c1)); naive_solver.
Qed.

Lemma drive_of_one_shot cs c ts c' :
  at_rest c → push_and_write wt max c (concat cs) = Some (Ok (Some ts, c')) →
  drive wt max (Ok <$> cs) c = Some (Ok (ts, c')) ∨
  drive wt max (Ok <$> cs) c = Some (Err line_too_large).
Proof.
  revert c. induction cs as [|b cs IH]; intros c Hc Hp; simpl in *.
  - by rewrite push_nil in Hp.
  - destruct (push_total c b) as [r Hr]. rewrite Hr.
    pose proof (push_app c b (concat cs) r Hc Hr) as Ha. rewrite Hp in Ha.
    destruct r as [[[ts1|] c1]|e].
    + destruct (is_empty _); naive_solver.
    + destruct Ha as [Ha Hc1]. by apply IH.
    + destruct Ha as [->|Ha]; [auto|done].
Qed.

Lemma one_shot_of_drive body c ts c' :
  at_rest c → drive wt max body c = Some (Ok (ts, c')) →
  ∃ pre post, body = (Ok <$> pre) ++ post ∧
              push_and_write wt max c (concat pre) = Some (Ok (Some ts, c')).
Proof.
  revert c. induction body as [|[b|e] body IH]; intros c Hc Hd; simpl in *; [|..|done].
  - apply at_rest_not_done in Hc. unfold finish in Hd. by destruct (pstate (px c)).
  - destruct (push_total c b) as [r Hr]. rewrite Hr in Hd.
    destruct r as [[[ts1|] c1]|e]; [| |done].
    + exists [b], body. simpl. rewrite app_nil_r. naive_solver.
    + destruct (push_app c b [] _ Hc Hr) as [_ Hc1].
      destruct (IH c1 Hc1 Hd) as (pre & post & -> & Hp). exists (b :: pre), post. split; [done|].
      simpl. destruct (push_app c b (concat pre) _ Hc Hr) as [Ha _]. by rewrite Ha.
Qed.

Lemma drive_total body c : ∃ r, drive wt max body c = Some r.
Proof.
  revert c. induction body as [|[b|e] body IH]; intros c; simpl.
  - destruct (finish (px c)); by eexists.
  - destruct (push_total c b) as [[[[ts|] c1]|e] ->]; [by eexists|apply IH|by eexists].
  - by eexists.
Qed.

(** ** What a completed upload has written and verified *)

(** The signature chain of AWS Signature Version 4: every chunk is signed
    with the signature of the chunk before it. The verifier after the chunks
    [ds], each with the signature the algorithm prescribes. *)
Fixpoint chain (v : AwsChunkSignatureVerifier) (ds : list bytes) : option AwsChunkSignatureVerifier :=
  match ds with
  | [] => Some v
  | d :: ds =>
      mac ← hmac_sha256_raw (v_signing_key v) (chunk_string_to_sign v d);
      chain (set_previous v (hex_encode mac)) ds
  end.

Definition chain_opt (v : option AwsChunkSignatureVerifier) (ds : list bytes)
  : option (option AwsChunkSignatureVerifier) :=
  match v with None => Some None | Some v => Some <$> chain v ds end.

(** The trailer block carries the signature that ends the chain. *)
Definition trailer_signed (v : option AwsChunkSignatureVerifier) (ts : btree str str) : Prop :=
  match v with
  | Some v =>
      match v_mode v with
      | PayloadTrailer => ∃ mac,
          hmac_sha256_raw (v_signing_key v) (trailer_string_to_sign v ts) = Some mac ∧
          btree_get "x-amz-trailer-signature" ts = Some (hex_encode mac)
      | Payload => True
      end
  | None => True
  end.

Lemma verify_chain v v' sig d ds :
  verify_chunk_signature v sig d = Ok v' → chain_opt v (d :: ds) = chain_opt v' ds.
Proof.
  unfold verify_chunk_signature, verify, hmac_sha256. destruct v as [v|]; [|by intros [= <-]].
  destruct sig as [s|]; [|done]. unfold_result.
  destruct (hmac_sha256_raw _ _) as [mac|] eqn:Hm; [|done].
  destruct (ct_eq (hex_encode mac) s) eqn:Hc; [|done]. intros [= <-].
  apply ct_eq_spec in Hc as <-. done.
Qed.

Lemma verify_trailer_signed v v' ts : verify_trailer_signature v ts = Ok v' → trailer_signed v ts.
Proof.
  unfold verify_trailer_signature, verify_trailer, trailer_signed, hmac_sha256.
  destruct v as [v|]; [|done]. destruct (v_mode v); [done|]. unfold_result.
  destruct (btree_get _ ts) as [s|]; [|done].
  destruct (hmac_sha256_raw _ _) as [mac|] eqn:Hm; [|done].
  destruct (ct_eq _ s) eqn:Hc; [|done]. intros _. apply ct_eq_spec in Hc as <-. eauto.
Qed.

(** What the writer, the digests and the byte count have become. *)
Definition wrote c (ds : list bytes) c' : Prop :=
  written (wx c') = written (wx c) ++ concat ds ∧
  bx c' = foldl absorb (bx c) ds ∧
  (0 ≤ bs_size (bx c) ≤ max → bs_size (bx c') = bs_size (bx c) + len (concat ds) ∧
                                bs_size (bx c') ≤ max).

Lemma wrote_nil c c' : wx c' = wx c → bx c' = bx c → wrote c [] c'.
Proof. intros Hw Hb. split_and!; rewrite ?Hw, ?Hb; simpl; rewrite ?app_nil_r; unfold len; simpl; try done; lia. Qed.

Lemma wrote_trans c1 c2 c3 ds1 ds2 : wrote c1 ds1 c2 → wrote c2 ds2 c3 → wrote c1 (ds1 ++ ds2) c3.
Proof.
  intros (Hw1 & Hb1 & Hs1) (Hw2 & Hb2 & Hs2). unfold wrote. rewrite concat_app. split_and!.
  - by rewrite Hw2, Hw1, (assoc_L (++)).
  - by rewrite foldl_app, <- Hb1.
  - intros Hb. destruct (Hs1 Hb) as [Hs1' ?]. unfold len in *. rewrite length_app.
    destruct Hs2 as [-> ?]; lia.
Qed.

Hypothesis max_ok : max < u64_max.

Lemma write_chunk_wrote c d w b p u :
  validate_decoded_size_limit (bs_size (bx c)) (len d) max = Ok u →
  write_body_chunk (wx c) d (bx c) wt = Ok (w, b) → wrote c [d] (mkCtx p b w).
Proof.
  unfold validate_decoded_size_limit, write_body_chunk. unfold_result.
  destruct (_ >? _) eqn:Hmax; [done|]. intros _.
  destruct (write_all (wx c) d) as [w'|] eqn:Hw; [|done]. intros [= <- <-].
  apply write_all_written in Hw. unfold wrote. simpl. rewrite app_nil_r. split_and!; [done..|].
  intros Hb. rewrite Z.gtb_ltb in Hmax. apply Z.ltb_ge in Hmax.
  unfold sat_add_u64, wrap_u64, u64_max, len in *. rewrite Z.mod_small; lia.
Qed.

(** One iteration: a header of a data chunk, the header of the final chunk, a
    data chunk, or a trailer line. *)
Lemma step_effect c c' :
  parser_wf (px c) → step wt max c = Ok (Continue c') →
  match pstate (px c), pstate (px c') with
  | ChunkHeader, Trailer =>
      wrote c [] c' ∧ ∀ ds, chain_opt (verifier (px c)) ([] :: ds) = chain_opt (verifier (px c')) ds
  | ChunkData _ _, ChunkHeader => ∃ d, d ≠ [] ∧ wrote c [d] c' ∧
      ∀ ds, chain_opt (verifier (px c)) (d :: ds) = chain_opt (verifier (px c')) ds
  | ChunkHeader, ChunkData _ _ | Trailer, Trailer =>
      wrote c [] c' ∧ verifier (px c') = verifier (px c)
  | _, _ => False
  end.
Proof.
  intros [Hwf _] Hs. unfold step in Hs. destruct (pstate (px c)) as [|size sig| |] eqn:Hst; [..|done].
  - unfold step_header in Hs. inv_result Hs; [|by split; [apply wrote_nil|]].
    split; [by apply wrote_nil|]. intros ds. by eapply verify_chain.
  - unfold step_data in Hs. inv_result Hs.
    exists (take (Z.to_nat size) (buffer (px c))).
    match goal with Hc : negb (bool_decide _) = false |- _ =>
      apply negb_false_iff, bool_decide_eq_true, slice_get_crlf in Hc as [Hlen _] end.
    rewrite length_drop in Hlen.
    split_and!; [|by eapply write_chunk_wrote|intros ds; by eapply verify_chain].
    intros Hd. apply (f_equal length) in Hd. rewrite length_take in Hd. simpl in *. lia.
  - unfold step_trailer in Hs. inv_result Hs. split; [by apply wrote_nil|done].
Qed.

(** The signatures still to come in a given state: the final chunk is empty. *)
Definition to_come (st : AwsChunkedParserState) : list bytes :=
  match st with Trailer => [] | _ => [[]] end.

Lemma step_finished c ts c' :
  step wt max c = Ok (Finished ts c') →
  pstate (px c) = Trailer ∧ ts = trailers (px c) ∧ wrote c [] c' ∧ pstate (px c') = Done ∧
  trailer_signed (verifier (px c)) ts.
Proof.
  intros Hs. unfold step in Hs. destruct (pstate (px c)) eqn:Hst; [..|done].
  - unfold step_header in Hs. inv_result Hs.
  - unfold step_data in Hs. inv_result Hs.
  - unfold step_trailer in Hs. inv_result Hs.
    split_and!; try done; [by apply wrote_nil|by eapply verify_trailer_signed].
Qed.

Lemma run_finished c ts c' :
  parser_wf (px c) → run c = Some (Ok (Some ts, c')) →
  ∃ ds v, Forall (λ d, d ≠ []) ds ∧ (pstate (px c) = Trailer → ds = []) ∧
    wrote c ds c' ∧ btree_ok ts ∧ pstate (px c') = Done ∧
    chain_opt (verifier (px c)) (ds ++ to_come (pstate (px c))) = Some v ∧ trailer_signed v ts.
Proof.
  revert c. apply (run_ind (λ c, parser_wf (px c) → run c = Some (Ok (Some ts, c')) → _)).
  intros c IH Hwf. rewrite run_unfold.
  destruct (step wt max c) as [[|ts1 c1|c1]|e] eqn:Hs; [done|..|done].
  - intros [= -> ->]. apply step_finished in Hs as (Hst & -> & Hw & Hd & Ht).
    exists [], (verifier (px c)). rewrite Hst. split_and!; try done; [apply Hwf|].
    by destruct (verifier (px c)).
  - intros Hr. destruct (IH c1 eq_refl) as (ds & v & Hne & Hnil & Hw & Hok & Hd & Hch & Ht);
      [by eapply step_continue_wf|done|].
    pose proof (step_effect c c1 Hwf Hs) as He.
    destruct (pstate (px c)) as [|size sig| |], (pstate (px c1)) as [|size' sig'| |]; try done.
    + destruct He as [Hw1 Hv]. exists ds, v. rewrite <- Hv.
      split_and!; try done. exact (wrote_trans _ _ _ _ _ Hw1 Hw).
    + destruct He as [Hw1 Hv]. rewrite Hnil in * by done. exists [], v. cbn [app to_come] in *. rewrite Hv.
      split_and!; try done. exact (wrote_trans _ _ _ _ _ Hw1 Hw).
    + destruct He as (d & Hdn & Hw1 & Hv). exists (d :: ds), v.
      rewrite <- app_comm_cons, Hv.
      split_and!; try done; [by constructor|exact (wrote_trans _ _ _ _ _ Hw1 Hw)].
    + destruct He as [Hw1 Hv]. exists ds, v. rewrite <- Hv.
      split_and!; try done. exact (wrote_trans _ _ _ _ _ Hw1 Hw).
Qed.

(** The whole body loop from a fresh parser. *)
Lemma drive_finished v b w body ts c' :
  drive wt max body (mkCtx (new_parser v) b w) = Some (Ok (ts, c')) →
  ∃ ds v1, Forall (λ d, d ≠ []) ds ∧ wrote (mkCtx (new_parser v) b w) ds c' ∧ btree_ok ts ∧
    chain_opt v (ds ++ [[]]) = Some v1 ∧ trailer_signed v1 ts.
Proof.
  intros Hd. pose proof (new_parser_at_rest v b w) as Hr.
  apply one_shot_of_drive in Hd as (pre & post & _ & Hp); [|done].
  rewrite push_run in Hp by done.
  apply run_finished in Hp as (ds & v1 & Hne & _ & Hw & Hok & _ & Hch & Ht); [|apply Hr].
  by exists ds, v1.
Qed.
End Steps.
