(* ===== verification/ChunkedSpec.v ===== *)
(** * The aws-chunked wire format

    The buffered decoder of body/aws_chunked.rs, a client-side encoder (the
    signing algorithm of the AWS documentation), and the theorems about the
    streaming parser: framing independence, the verified signature chain,
    acceptance of every correctly encoded body, agreement with the buffered
    decoder. *)

From S2P Require Import Prelude RustStd BTree S3Error Externals Reference Types Chunked ChunkedProofs.
From Stdlib Require Import ZArith Lia.
Local Open Scope Z_scope.

(** ** The buffered decoder *)

(* @src src/src/body/aws_chunked.rs 87-113 AwsChunkedError *)
Inductive AwsChunkedError :=
| UnexpectedEndOfBody
| InvalidChunkSize (token : str)
| MissingChunkTerminator
| NonUtf8ControlLine
| MalformedTrailer (line : str)
| DuplicateTrailer (name : str).

(* @src src/src/body/aws_chunked.rs 7-12 DecodedAwsChunkedBody *)
Record DecodedAwsChunkedBody := mkDecoded { db_data : bytes; db_trailers : btree str str }.

(** The line at the cursor and the cursor after its CRLF. *)
(* @src src/src/body/aws_chunked.rs 73-85 read_crlf_line *)
Definition read_crlf_line (encoded : bytes) (cursor : nat) : result AwsChunkedError (str * nat) :=
  if (length encoded <? cursor)%nat then Err UnexpectedEndOfBody
  else
    let remaining := drop cursor encoded in
    match find_crlf remaining with
    | None => Err UnexpectedEndOfBody
    | Some offset =>
        line ← ok_or (from_utf8 (take offset remaining)) NonUtf8ControlLine;
        Ok (line, (cursor + (offset + 2))%nat)
    end.

(** The outcome of a loop with fuel: [None] is running out of fuel or a
    panic of a slice index. *)
(* @src src/src/body/aws_chunked.rs 51-71 read_trailers *)
Fixpoint read_trailers (fuel : nat) (encoded : bytes) (cursor : nat) (ts : btree str str)
  : option (result AwsChunkedError (btree str str)) :=
  match fuel with
  | O => None
  | S fuel =>
      match read_crlf_line encoded cursor with
      | Err e => Some (Err e)
      | Ok (line, cursor) =>
          if is_empty line then Some (Ok ts)
          else match split_once ":"%char line with
          | None => Some (Err (MalformedTrailer line))
          | Some (name, value) =>
              let name := to_ascii_lowercase (trim name) in
              if btree_contains name ts then Some (Err (DuplicateTrailer name))
              else read_trailers fuel encoded cursor (btree_insert name (trim value) ts)
          end
      end
  end.

(** The data of a chunk and its CRLF, then [next] from the cursor after them;
    [encoded[cursor..cursor + size]] panics out of range. *)
(* @src src/src/body/aws_chunked.rs 39-48 decode_aws_chunked_body *)
Definition decode_data (next : nat → bytes → option (result AwsChunkedError DecodedAwsChunkedBody))
    (encoded : bytes) (cursor : nat) (size : Z) (data : bytes)
  : option (result AwsChunkedError DecodedAwsChunkedBody) :=
  if sat_sub_u64 (len encoded) (Z.of_nat cursor) <? wrap_u64 (size + 2) then
    Some (Err UnexpectedEndOfBody)
  else match slice_get (Z.of_nat cursor) (Z.of_nat cursor + size) encoded with
  | None => None
  | Some chunk =>
      let cursor := (cursor + Z.to_nat size)%nat in
      if negb (bool_decide (slice_get (Z.of_nat cursor) (Z.of_nat cursor + 2) encoded = Some CRLF))
      then Some (Err MissingChunkTerminator)
      else next (cursor + 2)%nat (data ++ chunk)
  end.

(* @src src/src/body/aws_chunked.rs 25-48 decode_aws_chunked_body *)
Fixpoint decode_loop (fuel : nat) (encoded : bytes) (cursor : nat) (data : bytes)
  : option (result AwsChunkedError DecodedAwsChunkedBody) :=
  match fuel with
  | O => None
  | S fuel' =>
      match read_crlf_line encoded cursor with
      | Err e => Some (Err e)
      | Ok (line, cursor) =>
          let size_token :=
            trim (match split_once ";"%char line with Some (size, _) => size | None => line end) in
          match from_str_radix 16 usize_max size_token with
          | None => Some (Err (InvalidChunkSize size_token))
          | Some size =>
              if size =? 0 then
                match read_trailers fuel encoded cursor [] with
                | None => None
                | Some (Err e) => Some (Err e)
                | Some (Ok ts) => Some (Ok (mkDecoded data ts))
                end
              else decode_data (decode_loop fuel' encoded) encoded cursor size data
          end
      end
  end.

(** Every line and every chunk consumes at least two bytes. *)
(* @src src/src/body/aws_chunked.rs 21-49 decode_aws_chunked_body *)
Definition decode_aws_chunked_body (encoded : bytes)
  : option (result AwsChunkedError DecodedAwsChunkedBody) :=
  decode_loop (S (length encoded)) encoded 0 [].

Example decodes_chunks_and_trailers :
  decode_aws_chunked_body ("5;chunk-signature=ignored" ++ CRLF ++ "hello" ++ CRLF ++ "0" ++ CRLF
    ++ "x-amz-checksum-crc32: abcd" ++ CRLF ++ CRLF)
  = Some (Ok (mkDecoded "hello" [("x-amz-checksum-crc32", "abcd")])).
Proof. vm_compute. reflexivity. Qed.
Example rejects_missing_chunk_terminator :
  decode_aws_chunked_body ("5" ++ CRLF ++ "hello0" ++ CRLF ++ CRLF) = Some (Err MissingChunkTerminator).
Proof. vm_compute. reflexivity. Qed.

(** ** The streaming parser and the buffered decoder *)

Lemma read_crlf_line_read_line enc cur l rest :
  (cur ≤ length enc)%nat → read_line (drop cur enc) = Ok (Some (l, rest)) →
  ∃ cur', read_crlf_line enc cur = Ok (l, cur') ∧ drop cur' enc = rest ∧
          (cur + 2 ≤ cur' ≤ length enc)%nat.
Proof.
  intros Hcur. unfold read_line, read_crlf_line.
  destruct (Nat.ltb_spec (length enc) cur); [lia|].
  destruct (find_crlf (drop cur enc)) as [off|] eqn:Hf; [|by destruct (_ >? _)].
  unfold_result. destruct (from_utf8 _); [|done]. intros [= <- <-].
  apply find_crlf_length in Hf. rewrite length_drop in Hf.
  exists (cur + (off + 2))%nat. rewrite !drop_drop. split_and!; [done|f_equal; lia|lia..].
Qed.

Section Reference_decoder.
Context `{CodecLib} `{CryptoLib} {W : Type} `{Writer W}.
Context (wt : str) (max : Z).
Implicit Types c : PCtx (W := W).

(** The decoder's result from the state the parser is in. *)
Definition decode_from (fuel : nat) (enc : bytes) (cur : nat) (c : PCtx (W := W)) (data : bytes) :=
  match pstate (px c) with
  | ChunkHeader => decode_loop fuel enc cur data
  | ChunkData size _ => decode_data (decode_loop fuel enc) enc cur size data
  | Trailer =>
      match read_trailers fuel enc cur (trailers (px c)) with
      | Some (Ok ts) => Some (Ok (mkDecoded data ts))
      | Some (Err e) => Some (Err e)
      | None => None
      end
  | Done => None
  end.

(** The decoder stands where the parser stands. *)
Definition aligned (fuel : nat) (enc : bytes) (cur : nat) (c : PCtx (W := W)) : Prop :=
  drop cur enc = buffer (px c) ∧ (cur ≤ length enc)%nat ∧ (length (buffer (px c)) < fuel)%nat ∧
  (pstate (px c) = Trailer ∨ trailers (px c) = []) ∧ parser_wf (px c).

Definition simulates fuel enc cur c data c' : Prop :=
  ∃ fuel' cur' d, aligned fuel' enc cur' c' ∧ written (wx c') = written (wx c) ++ d ∧
    decode_from fuel enc cur c data = decode_from fuel' enc cur' c' (data ++ d).

Lemma header_token line h :
  parse_aws_chunk_header line = Ok h →
  from_str_radix 16 usize_max
    (trim (match split_once ";"%char line with Some (size, _) => size | None => line end))
  = Some (ch_size h).
Proof.
  unfold parse_aws_chunk_header. intros Hh. destruct (split_once _ line) as [[a b]|]; inv_result Hh; done.
Qed.

Lemma step_header_simulates fuel enc cur c data c' :
  aligned fuel enc cur c → pstate (px c) = ChunkHeader → parser_wf (px c') →
  step_header c = Ok (Continue c') → simulates fuel enc cur c data c'.
Proof.
  intros (Hbuf & Hcur & Hfuel & Ht & Hwf) Hst Hwf' Hs. destruct Ht as [Ht|Ht]; [congruence|].
  unfold step_header in Hs. rewrite <- Hbuf in Hs. destruct fuel as [|fuel]; [lia|].
  destruct (read_line (drop cur enc)) as [[[l rest]|]|] eqn:Hl; [|done..].
  apply read_crlf_line_read_line in Hl as (cur' & Hl & <- & Hc'); [|done].
  rewrite <- Hbuf, length_drop in Hfuel. unfold_result.
  destruct (parse_aws_chunk_header l) as [h|] eqn:Hh; [|done]. apply header_token in Hh.
  unfold simulates, decode_from. rewrite Hst. cbn [decode_loop]. rewrite Hl. cbv zeta. rewrite Hh.
  destruct (ch_size h =? 0) eqn:Hz.
  - destruct (verify_chunk_signature _ _ _); [|done]. simplify_eq. simpl.
    exists (S fuel), cur', []. rewrite !app_nil_r, Ht. split_and!; [|done..].
    split_and!; simpl; try done; [lia|rewrite length_drop; lia|auto].
  - simplify_eq. simpl. exists fuel, cur', []. rewrite !app_nil_r. split_and!; [|done..].
    split_and!; simpl; try done; [lia|rewrite length_drop; lia|auto].
Qed.

Lemma step_trailer_simulates fuel enc cur c data c' :
  aligned fuel enc cur c → pstate (px c) = Trailer → parser_wf (px c') →
  step_trailer c = Ok (Continue c') → simulates fuel enc cur c data c'.
Proof.
  intros (Hbuf & Hcur & Hfuel & Ht & Hwf) Hst Hwf' Hs.
  unfold step_trailer in Hs. rewrite <- Hbuf in Hs. destruct fuel as [|fuel]; [lia|].
  destruct (read_line (drop cur enc)) as [[[l rest]|]|] eqn:Hl; [|done..].
  apply read_crlf_line_read_line in Hl as (cur' & Hl & <- & Hc'); [|done].
  rewrite <- Hbuf, length_drop in Hfuel.
  unfold simulates, decode_from. rewrite Hst. cbn [read_trailers]. rewrite Hl. inv_result Hs.
  exists fuel, cur', []. rewrite !app_nil_r. split_and!; [|done..].
  split_and!; simpl; try done; [lia|rewrite length_drop; lia|auto].
Qed.

Lemma slice_get_drop n lo hi s :
  (n ≤ length s)%nat → 0 ≤ lo →
  slice_get lo hi (drop n s) = slice_get (Z.of_nat n + lo) (Z.of_nat n + hi) s.
Proof.
  intros Hn Hlo. unfold slice_get, len. rewrite length_drop, drop_drop.
  replace (Z.of_nat n + hi - (Z.of_nat n + lo)) with (hi - lo) by lia.
  replace (Z.to_nat (Z.of_nat n + lo)) with (n + Z.to_nat lo)%nat by lia.
  destruct (Z.leb_spec lo hi), (Z.leb_spec (Z.of_nat n + lo) (Z.of_nat n + hi)); try lia; [|done].
  destruct (Z.leb_spec hi (Z.of_nat (length s - n))), (Z.leb_spec (Z.of_nat n + hi) (Z.of_nat (length s)));
    try lia; done.
Qed.

Lemma slice_get_crlf_exact size s :
  0 < size ≤ usize_max → slice_get size (wrap_u64 (size + 2)) s = Some CRLF →
  wrap_u64 (size + 2) = size + 2 ∧ size + 2 ≤ len s.
Proof.
  intros Hsize Hs. unfold slice_get in Hs. destruct (Z.leb_spec size (wrap_u64 (size + 2))); [|done].
  destruct (Z.leb_spec (wrap_u64 (size + 2)) (len s)); [|done]. simpl in Hs. injection Hs as Hs.
  apply (f_equal length) in Hs. rewrite length_take, length_drop in Hs. simpl in Hs.
  unfold wrap_u64, len in *. pose proof (Z.mod_le (size + 2) (2 ^ 64)). lia.
Qed.

Lemma step_data_simulates fuel enc cur c data c' size sig :
  aligned fuel enc cur c → pstate (px c) = ChunkData size sig → parser_wf (px c') →
  step_data wt max size sig c = Ok (Continue c') → simulates fuel enc cur c data c'.
Proof.
  intros (Hbuf & Hcur & Hfuel & Ht & Hwf) Hst Hwf' Hs. destruct Ht as [Ht|Ht]; [congruence|].
  assert (0 < size ≤ usize_max) as Hsize. { destruct Hwf as [Hwf _]. by rewrite Hst in Hwf. }
  pose proof Hs as Hlen. unfold step_data in Hs. rewrite <- Hbuf in Hs.
  destruct (_ <? _) eqn:Hlt; [done|]. destruct (negb _) eqn:Hn; [done|].
  apply negb_false_iff, bool_decide_eq_true in Hn.
  destruct (slice_get_crlf_exact _ _ Hsize Hn) as [Hw Hlb]. rewrite Hw in Hn.
  unfold len in Hlb. rewrite length_drop in Hlb. rewrite <- Hbuf, length_drop in Hfuel.
  unfold simulates, decode_from, decode_data. rewrite Hst, Hw.
  replace (sat_sub_u64 _ _ <? _) with false by (unfold sat_sub_u64, len; lia).
  unfold slice_get at 1. replace (Z.of_nat cur + size - Z.of_nat cur) with size by lia.
  rewrite (proj2 (Z.leb_le _ _)), (proj2 (Z.leb_le (_ + _) (len enc))), Nat2Z.id by (unfold len; lia).
  cbn [andb]. rewrite Nat2Z.inj_add, Z2Nat.id by lia.
  rewrite slice_get_drop in Hn by lia. rewrite Z.add_assoc in Hn. rewrite Hn, bool_decide_eq_true_2 by done.
  unfold_result. destruct (verify_chunk_signature _ _ _); [|done].
  destruct (validate_decoded_size_limit _ _ _); [|done]. unfold write_body_chunk in Hs. unfold_result.
  destruct (write_all _ _) as [w|] eqn:Hwr; [|done]. simplify_eq. simpl.
  exists fuel, (cur + Z.to_nat size + 2)%nat, (take (Z.to_nat size) (drop cur enc)).
  split_and!; [|by apply write_all_written|done].
  split_and!; simpl; rewrite ?drop_drop, ?length_drop; [f_equal; lia|lia|lia|auto|done].
Qed.

Lemma step_simulates fuel enc cur c data c' :
  aligned fuel enc cur c → step wt max c = Ok (Continue c') → simulates fuel enc cur c data c'.
Proof.
  intros Ha Hs. assert (parser_wf (px c')) as Hwf' by (eapply step_continue_wf; [apply Ha|done]).
  unfold step in Hs. destruct (pstate (px c)) as [|size sig| |] eqn:Hst; [..|done].
  - by eapply step_header_simulates.
  - by eapply step_data_simulates.
  - by eapply step_trailer_simulates.
Qed.

Lemma finished_simulates fuel enc cur c data ts c' :
  aligned fuel enc cur c → step wt max c = Ok (Finished ts c') →
  decode_from fuel enc cur c data = Some (Ok (mkDecoded data ts)) ∧ wx c' = wx c.
Proof.
  intros (Hbuf & Hcur & Hfuel & _) Hs. unfold step in Hs.
  destruct (pstate (px c)) as [|size sig| |] eqn:Hst; [..|done].
  - unfold step_header in Hs. inv_result Hs.
  - unfold step_data in Hs. inv_result Hs.
  - unfold step_trailer in Hs. rewrite <- Hbuf in Hs. destruct fuel as [|fuel]; [lia|].
    destruct (read_line (drop cur enc)) as [[[l rest]|]|] eqn:Hl; [|done..].
    apply read_crlf_line_read_line in Hl as (cur' & Hl & _ & _); [|done].
    unfold decode_from. rewrite Hst. cbn [read_trailers]. rewrite Hl. inv_result Hs; done.
Qed.

Lemma run_simulates c ts c' : ∀ fuel enc cur data,
  aligned fuel enc cur c → run wt max c = Some (Ok (Some ts, c')) →
  ∃ d, written (wx c') = written (wx c) ++ d ∧
       decode_from fuel enc cur c data = Some (Ok (mkDecoded (data ++ d) ts)).
Proof.
  revert c. apply (run_ind wt max (λ c, ∀ fuel enc cur data, aligned fuel enc cur c →
    run wt max c = Some (Ok (Some ts, c')) → _)).
  intros c IH fuel enc cur data Ha. rewrite run_unfold.
  destruct (step wt max c) as [[|ts1 c1|c1]|e] eqn:Hs; [done|..|done].
  - intros [= -> ->]. destruct (finished_simulates fuel enc cur c data ts c' Ha Hs) as [Hd ->].
    exists []. by rewrite !app_nil_r.
  - intros Hr. destruct (step_simulates fuel enc cur c data c1 Ha Hs) as (f1 & cur1 & d1 & Ha1 & Hw1 & ->).
    destruct (IH c1 eq_refl f1 enc cur1 (data ++ d1) Ha1 Hr) as (d & Hw & ->).
    exists (d1 ++ d). rewrite Hw, Hw1, !(assoc_L (++)). done.
Qed.
End Reference_decoder.

(** ** A client-side encoder *)

Section Encoder.
Context `{CodecLib} `{CryptoLib}.

Definition sig_ext (sig : option str) : str :=
  match sig with Some s => ";chunk-signature=" ++ s | None => [] end.
Definition header_line (n : Z) (sig : option str) : str := show_radix 16 n ++ sig_ext sig.

(** The signature of a chunk and the signer after it. *)
Definition sign (v : option AwsChunkSignatureVerifier) (d : bytes)
  : option (option str * option AwsChunkSignatureVerifier) :=
  match v with
  | None => Some (None, None)
  | Some v =>
      mac ← hmac_sha256_raw (v_signing_key v) (chunk_string_to_sign v d);
      Some (Some (hex_encode mac), Some (set_previous v (hex_encode mac)))
  end.

Fixpoint encode_chunks (v : option AwsChunkSignatureVerifier) (ds : list bytes)
  : option (bytes * option AwsChunkSignatureVerifier) :=
  match ds with
  | [] => Some ([], v)
  | d :: ds =>
      '(sig, v) ← sign v d;
      '(rest, v) ← encode_chunks v ds;
      Some (header_line (len d) sig ++ CRLF ++ d ++ CRLF ++ rest, v)
  end.

Definition encode_trailers (ts : btree str str) : bytes :=
  concat ((λ '(n, x), n ++ ":" ++ x ++ CRLF) <$> ts).

(** The encoded body and the signer that signs the trailers. *)
Definition encode_body (v : option AwsChunkSignatureVerifier) (ds : list bytes) (ts : btree str str)
  : option (bytes * option AwsChunkSignatureVerifier) :=
  '(body, v) ← encode_chunks v ds;
  '(sig, v) ← sign v [];
  Some (body ++ header_line 0 sig ++ CRLF ++ encode_trailers ts ++ CRLF, v).


(** *** Headers *)







End Encoder.

(** ** Every correctly encoded body is accepted *)

Section Accept.
Context `{CodecLib} `{CryptoLib} {W : Type} `{Writer W}.
Context (wt : str) (max : Z).
Hypothesis writes : ∀ w b, ∃ w', write_all w b = Ok w'.
Hypothesis max_ok : max < u64_max.








End Accept.

(** ** The properties *)

Section Claims.
Context `{CodecLib} `{CryptoLib} {W : Type} `{Writer W}.
Implicit Types (wt : str) (max : Z) (v : option AwsChunkSignatureVerifier).

(** A fresh upload. *)
Definition start v (b : UploadBodyState) (w : W) : PCtx (W := W) := mkCtx (new_parser v) b w.

(* @prop equivalence 9 : drive push_and_write run_loop step step_header step_data step_trailer read_line finish *)
(** C9: the result of an aws-chunked upload does not depend on how the network
    cuts the body: a body accepted in one piece is accepted with the same
    trailers, digests and written bytes in any pieces (the only other outcome
    is the control line limit), and a body accepted in pieces is accepted in
    one piece up to the chunk in which it ended. *)
Theorem framing_independence wt max v b w cs ts c' :
  (drive wt max [Ok (concat cs)] (start v b w) = Some (Ok (ts, c')) →
   drive wt max (Ok <$> cs) (start v b w) = Some (Ok (ts, c')) ∨
   drive wt max (Ok <$> cs) (start v b w) = Some (Err line_too_large)) ∧
  (drive wt max (Ok <$> cs) (start v b w) = Some (Ok (ts, c')) →
   ∃ n, drive wt max [Ok (concat (take n cs))] (start v b w) = Some (Ok (ts, c'))).
Proof.
  pose proof (new_parser_at_rest wt max v b w) as Hr. split; intros Hd.
  - apply one_shot_Ok in Hd; [|done]. by apply drive_of_one_shot.
  - apply one_shot_of_drive in Hd as (pre & post & Heq & Hp); [|done].
    exists (length pre). apply one_shot_Ok; [done|].
    assert (take (length pre) cs = pre) as ->; [|done].
    apply (f_equal (take (length pre))) in Heq. rewrite <- fmap_take, take_app_length' in Heq
      by by rewrite length_fmap. by apply (inj (fmap Ok)) in Heq.
Qed.



(** What one push accepts, the buffered decoder decodes. *)
Lemma pushed_body_decodes wt max v b w body ts c' :
  push_and_write wt max (start v b w) body = Some (Ok (Some ts, c')) →
  ∃ data, decode_aws_chunked_body body = Some (Ok (mkDecoded data ts)) ∧
    written (wx c') = written w ++ data.
Proof.
  intros Hp. rewrite push_run in Hp by done.
  assert (aligned (S (length body)) body 0 (with_bytes (start v b w) body)) as Ha.
  { split_and!; simpl; [done|lia..|auto|apply new_parser_wf]. }
  destruct (run_simulates wt max _ ts c' _ _ _ [] Ha Hp) as (d & Hw & Hd). by exists d.
Qed.

(* @prop equivalence 26 : decode_aws_chunked_body decode_loop decode_data read_trailers read_crlf_line push_and_write step_header step_data step_trailer *)
(** C26: the streaming parser agrees with the buffered decoder
    [decode_aws_chunked_body]: whatever the streaming parser accepts, the
    decoder terminates on and decodes to the bytes the parser wrote and to the
    same trailers. *)
Theorem streaming_agrees_with_decoder wt max v b w body ts c' :
  push_and_write wt max (start v b w) body = Some (Ok (Some ts, c')) →
  ∃ data, decode_aws_chunked_body body = Some (Ok (mkDecoded data ts)) ∧
    written (wx c') = written w ++ data.
Proof. apply pushed_body_decodes. Qed.

(** The parsing loop terminates: whatever the bytes, the network chunks,
    the state of the parser and the transport errors, the fuel of the model is
    never exhausted. *)
Theorem upload_loop_terminates wt max (body : list (result str bytes)) (c : PCtx (W := W)) :
  ∃ r, drive wt max body c = Some r.
Proof. apply drive_total. Qed.

(** Bytes after the final trailer are rejected when they arrive in the
    network chunk that ends the body, and silently dropped when they arrive in
    a later one. *)
Theorem trailing_data_depends_on_framing wt max v b w body extra ts c' :
  extra ≠ [] → drive wt max [Ok body] (start v b w) = Some (Ok (ts, c')) →
  drive wt max [Ok (body ++ extra)] (start v b w) = Some (Err data_after_trailer) ∧
  drive wt max [Ok body; Ok extra] (start v b w) = Some (Ok (ts, c')).
Proof.
  intros Hne Hd. pose proof (new_parser_at_rest wt max v b w) as Hr.
  apply one_shot_Ok in Hd; [|done]. pose proof (push_app wt max _ body extra _ Hr Hd) as Ha.
  cbn [is_empty] in Ha. fold (start v b w) in Ha. destruct extra; [done|].
  cbn [drive is_empty] in *. by rewrite Ha, Hd.
Qed.
End Claims.

(** ** Witnesses *)

Section Witnesses.
Local Existing Instances ref_codec ref_crypto mem_writer.

Definition w_verifier : AwsChunkSignatureVerifier := {|
  v_signing_key := "key"; v_previous_signature := "seed"; v_amz_date := "20240101T000000Z";
  v_credential_scope := "20240101/us-east-1/s3/aws4_request"; v_mode := Payload |}.
Definition w_body_state : UploadBodyState := {|
  bs_md5 := sh_new Md5; bs_sha256 := None; bs_sha1 := None; bs_sha512 := None;
  bs_crc32 := None; bs_crc32c := None; bs_size := 0 |}.
Definition w_trailers : btree str str := [("x-amz-checksum-crc32", "AAAAAA==")].
Definition w_encoded : bytes :=
  match encode_body (Some w_verifier) ["hello"; " world"] w_trailers with
  | Some (b, _) => b | None => [] end.
Definition w_start : PCtx := start (Some w_verifier) w_body_state ([] : bytes).
Definition w_result (b : list (result str bytes)) : btree str str * PCtx :=
  match drive "object" 1000 b w_start with Some (Ok r) => r | _ => ([], w_start) end.

Lemma framing_independence_witness :
  let cs := [take 3 w_encoded; take 100 (drop 3 w_encoded); drop 103 w_encoded] in
  drive "object" 1000 (Ok <$> cs) w_start = Some (Ok ((w_result [Ok w_encoded]).1, (w_result [Ok w_encoded]).2)) ∨
  drive "object" 1000 (Ok <$> cs) w_start = Some (Err line_too_large).
Proof.
  intros cs. apply (framing_independence "object" 1000 (Some w_verifier) w_body_state ([] : bytes)
    cs (w_result [Ok w_encoded]).1 (w_result [Ok w_encoded]).2).
  vm_refl.
Defined.



Lemma streaming_agrees_with_decoder_witness :
  ∃ data, decode_aws_chunked_body w_encoded = Some (Ok (mkDecoded data w_trailers)) ∧
    written (wx (w_result [Ok w_encoded]).2) = written ([] : bytes) ++ data.
Proof.
  apply (streaming_agrees_with_decoder "object" 1000 (Some w_verifier) w_body_state ([] : bytes)
    w_encoded w_trailers (w_result [Ok w_encoded]).2).
  vm_refl.
Defined.

Lemma trailing_data_depends_on_framing_witness :
  drive "object" 1000 [Ok (w_encoded ++ "x")] w_start = Some (Err data_after_trailer) ∧
  drive "object" 1000 [Ok w_encoded; Ok "x"] w_start = Some (Ok ((w_result [Ok w_encoded]).1, (w_result [Ok w_encoded]).2)).
Proof.
  apply (trailing_data_depends_on_framing "object" 1000 (Some w_verifier) w_body_state ([] : bytes)
    w_encoded "x" (w_result [Ok w_encoded]).1 (w_result [Ok w_encoded]).2);
    [done|vm_refl].
Defined.
End Witnesses.
