(* ===== verification/Checksum.v ===== *)
(** * Upload checksums (body/checksum.rs)

    The checksum algorithms, the checksum request parsed from headers and
    trailers, and its validation against the digests computed while the body
    was written. *)

From S2P Require Import Prelude RustStd BTree S3Error Externals Reference Types.
From Stdlib Require Import ZArith Lia.
Local Open Scope Z_scope.

(* @src src/src/body/checksum.rs 8-13 UNSUPPORTED_CHECKSUM_HEADERS *)
Definition UNSUPPORTED_CHECKSUM_HEADERS : list str :=
  ["x-amz-checksum-crc64nvme"; "x-amz-checksum-xxhash64"; "x-amz-checksum-xxhash3";
   "x-amz-checksum-xxhash128"].
(* @src src/src/body/checksum.rs 14-14 CHECKSUM_HEADERS *)
Definition CHECKSUM_HEADERS : list str := ["content-md5"].
(* @src src/src/body/checksum.rs 15-15 SDK_CHECKSUM_ALGORITHM_HEADER *)
Definition SDK_CHECKSUM_ALGORITHM_HEADER : str := "x-amz-sdk-checksum-algorithm".

(* @src src/src/body/checksum.rs 24-31 ChecksumName *)
Inductive ChecksumName := Crc32 | Crc32c | Sha1N | Sha256N | Sha512N.
Global Instance ChecksumName_eq_dec : EqDecision ChecksumName.
Proof. solve_decision. Defined.

(* @src src/src/body/checksum.rs 16-22 CHECKSUM_NAMES *)
Definition CHECKSUM_NAMES : list ChecksumName := [Crc32; Crc32c; Sha1N; Sha256N; Sha512N].

(* @src src/src/body/checksum.rs 35-43 ChecksumName::header_name *)
Definition header_name (n : ChecksumName) : str :=
  match n with
  | Crc32 => "x-amz-checksum-crc32"
  | Crc32c => "x-amz-checksum-crc32c"
  | Sha1N => "x-amz-checksum-sha1"
  | Sha256N => "x-amz-checksum-sha256"
  | Sha512N => "x-amz-checksum-sha512"
  end.

(* @src src/src/body/checksum.rs 46-54 ChecksumName::xml_element_name *)
Definition xml_element_name (n : ChecksumName) : str :=
  match n with
  | Crc32 => "ChecksumCRC32"
  | Crc32c => "ChecksumCRC32C"
  | Sha1N => "ChecksumSHA1"
  | Sha256N => "ChecksumSHA256"
  | Sha512N => "ChecksumSHA512"
  end.

(* @src src/src/body/checksum.rs 56-63 ChecksumName::expected_len *)
Definition expected_len (n : ChecksumName) : Z :=
  match n with Crc32 | Crc32c => 4 | Sha1N => 20 | Sha256N => 32 | Sha512N => 64 end.

(* @src src/src/body/checksum.rs 66-71 ChecksumName::from_header_name *)
Definition from_header_name (name : str) : option ChecksumName :=
  List.find (λ c, str_eqb (header_name c) name) CHECKSUM_NAMES.

(* @src src/src/body/checksum.rs 73-82 ChecksumName::from_sdk_algorithm *)
Definition from_sdk_algorithm (algorithm : str) : option ChecksumName :=
  let a := to_ascii_uppercase algorithm in
  if str_eqb a "CRC32" then Some Crc32
  else if str_eqb a "CRC32C" then Some Crc32c
  else if str_eqb a "SHA1" then Some Sha1N
  else if str_eqb a "SHA256" then Some Sha256N
  else if str_eqb a "SHA512" then Some Sha512N
  else None.

(* @src src/src/body/checksum.rs 267-275 ChecksumDigests *)
Record ChecksumDigests := mkDigests {
  cd_md5 : bytes; cd_sha1 : bytes; cd_sha256 : bytes; cd_sha512 : bytes;
  cd_crc32 : Z; cd_crc32c : Z;
}.

(* @src src/src/body/checksum.rs 95-104 ChecksumRequest *)
Record ChecksumRequest := mkRequest {
  content_md5 : option bytes;
  checksum_crc32 : option bytes;
  checksum_crc32c : option bytes;
  checksum_sha1 : option bytes;
  checksum_sha256 : option bytes;
  checksum_sha512 : option bytes;
  cr_checksum_values : btree str str;
}.

(** The digest of an algorithm among those computed. *)
(* @src src/src/body/checksum.rs 84-92 ChecksumName::encode_digest *)
Definition digest_bytes (n : ChecksumName) (d : ChecksumDigests) : bytes :=
  match n with
  | Crc32 => to_be_bytes_u32 (cd_crc32 d)
  | Crc32c => to_be_bytes_u32 (cd_crc32c d)
  | Sha1N => cd_sha1 d
  | Sha256N => cd_sha256 d
  | Sha512N => cd_sha512 d
  end.

Definition bad_checksum : S3Error :=
  bad_digest "The provided x-amz-checksum header does not match what was computed.".

(** One [if let Some(expected) = ... && expected != ... { return Err(...) }]. *)
Definition check_digest (expected : option bytes) (actual : bytes) (e : S3Error) : result S3Error () :=
  match expected with
  | Some x => if negb (str_eqb x actual) then Err e else Ok ()
  | None => Ok ()
  end.

(* @src src/src/body/checksum.rs 140-190 ChecksumRequest::validate *)
Definition validate (r : ChecksumRequest) (d : ChecksumDigests) : result S3Error () :=
  _ ← check_digest (content_md5 r) (cd_md5 d)
        (bad_digest "The Content-MD5 you specified did not match what we received.");
  _ ← check_digest (checksum_crc32 r) (to_be_bytes_u32 (cd_crc32 d)) bad_checksum;
  _ ← check_digest (checksum_crc32c r) (to_be_bytes_u32 (cd_crc32c d)) bad_checksum;
  _ ← check_digest (checksum_sha1 r) (cd_sha1 d) bad_checksum;
  _ ← check_digest (checksum_sha256 r) (cd_sha256 d) bad_checksum;
  _ ← check_digest (checksum_sha512 r) (cd_sha512 d) bad_checksum;
  Ok ().

Section WithCodec.
Context `{HttpLib} `{CodecLib}.

(* @src src/src/body/checksum.rs 84-92 ChecksumName::encode_digest *)
Definition encode_digest (n : ChecksumName) (d : ChecksumDigests) : str := b64_encode (digest_bytes n d).

(** One [if self.checksum_x.is_some() { values.insert(...) }]. *)
Definition insert_requested (d : ChecksumDigests) (p : ChecksumName * option bytes)
    (values : btree str str) : btree str str :=
  if bool_decide (is_Some p.2) then btree_insert (header_name p.1) (encode_digest p.1 d) values
  else values.

(* @src src/src/body/checksum.rs 198-234 ChecksumRequest::checksum_values_for_digests *)
Definition checksum_values_for_digests (r : ChecksumRequest) (d : ChecksumDigests) : btree str str :=
  let values := [] in
  let values := insert_requested d (Crc32, checksum_crc32 r) values in
  let values := insert_requested d (Crc32c, checksum_crc32c r) values in
  let values := insert_requested d (Sha1N, checksum_sha1 r) values in
  let values := insert_requested d (Sha256N, checksum_sha256 r) values in
  insert_requested d (Sha512N, checksum_sha512 r) values.

(* @src src/src/body/checksum.rs 237-239 ChecksumRequest::requires_md5 *)
Definition requires_md5 (r : ChecksumRequest) : bool := bool_decide (is_Some (content_md5 r)).
(* @src src/src/body/checksum.rs 242-244 ChecksumRequest::requires_crc32 *)
Definition requires_crc32 (r : ChecksumRequest) : bool := bool_decide (is_Some (checksum_crc32 r)).
(* @src src/src/body/checksum.rs 247-249 ChecksumRequest::requires_crc32c *)
Definition requires_crc32c (r : ChecksumRequest) : bool := bool_decide (is_Some (checksum_crc32c r)).
(* @src src/src/body/checksum.rs 252-254 ChecksumRequest::requires_sha1 *)
Definition requires_sha1 (r : ChecksumRequest) : bool := bool_decide (is_Some (checksum_sha1 r)).
(* @src src/src/body/checksum.rs 257-259 ChecksumRequest::requires_sha256 *)
Definition requires_sha256 (r : ChecksumRequest) : bool := bool_decide (is_Some (checksum_sha256 r)).
(* @src src/src/body/checksum.rs 262-264 ChecksumRequest::requires_sha512 *)
Definition requires_sha512 (r : ChecksumRequest) : bool := bool_decide (is_Some (checksum_sha512 r)).

(* @src src/src/body/checksum.rs 278-289 checksum_values_for_requested_headers *)
Definition checksum_values_for_requested_headers (requested : btree str str) (d : ChecksumDigests)
  : btree str str :=
  foldl (λ m p, btree_insert p.1 p.2 m) []
    (omap (λ name, n ← from_header_name name; Some (name, encode_digest n d)) (btree_keys requested)).

(** The value of a checksum header or trailer. *)
(* @src src/src/body/checksum.rs 300-308 checksum_values *)
Definition checksum_value (headers : HeaderMap) (trailers : btree str str) (name : str)
  : option (result S3Error str) :=
  match hm_get headers name with
  | Some value => Some (ok_or (hv_to_str value) (invalid_request (name ++ " must be valid ASCII")))
  | None => (λ value, Ok value) <$> btree_get name trailers
  end.

(* @src src/src/body/checksum.rs 291-311 checksum_values *)
Definition checksum_values (headers : HeaderMap) (trailers : btree str str)
  : result S3Error (btree str str) :=
  l ← collect (omap (λ c,
        match checksum_value headers trailers (header_name c) with
        | None => None
        | Some v => Some (value ← v; Ok (header_name c, value))
        end) CHECKSUM_NAMES);
  Ok (foldl (λ m p, btree_insert p.1 p.2 m) [] l).

(* @src src/src/body/checksum.rs 326-351 optional_base64_header *)
Definition optional_base64_header (headers : HeaderMap) (trailers : btree str str)
    (name : str) (expected : Z) : result S3Error (option bytes) :=
  match checksum_value headers trailers name with
  | None => Ok None
  | Some value =>
      value ← value;
      decoded ← ok_or (b64_decode value) (invalid_request (name ++ " must be base64-encoded"));
      if negb (len decoded =? expected) then
        Err (invalid_request (name ++ " must decode to " ++ show_u expected ++ " bytes"))
      else Ok (Some decoded)
  end.

(* @src src/src/body/checksum.rs 313-324 optional_checksum *)
Definition optional_checksum (headers : HeaderMap) (trailers : btree str str) (c : ChecksumName)
  : result S3Error (option bytes) :=
  optional_base64_header headers trailers (header_name c) (expected_len c).

(* @src src/src/body/checksum.rs 353-383 validate_sdk_checksum_algorithm *)
Definition validate_sdk_checksum_algorithm (headers : HeaderMap) (trailers : btree str str)
  : result S3Error () :=
  match hm_get_all headers SDK_CHECKSUM_ALGORITHM_HEADER with
  | [] => Ok ()
  | _ :: _ :: _ =>
      Err (invalid_request (SDK_CHECKSUM_ALGORITHM_HEADER ++ " must not appear more than once"))
  | [value] =>
      algorithm ← ok_or (hv_to_str value)
        (invalid_request (SDK_CHECKSUM_ALGORITHM_HEADER ++ " must be valid ASCII"));
      n ← ok_or (from_sdk_algorithm algorithm) (invalid_request "Checksum algorithm not supported");
      if bool_decide (hm_get headers (header_name n) = None)
         && negb (btree_contains (header_name n) trailers) then
        Err (invalid_request
          (SDK_CHECKSUM_ALGORITHM_HEADER ++ " requires a matching checksum header or trailer"))
      else Ok ()
  end.

(* @src src/src/body/checksum.rs 385-396 reject_unsupported_checksum_inputs *)
Definition reject_unsupported_checksum_inputs (headers : HeaderMap) (trailers : btree str str)
  : result S3Error () :=
  try_iter (λ name,
    if hm_contains_key headers name || btree_contains name trailers then
      Err (invalid_request "Checksum algorithm not supported")
    else Ok ()) UNSUPPORTED_CHECKSUM_HEADERS.

(* @src src/src/body/checksum.rs 398-424 reject_duplicate_checksum_inputs *)
Definition reject_duplicate_checksum_inputs (headers : HeaderMap) (trailers : btree str str)
  : result S3Error () :=
  _ ← try_iter (λ name,
    if (1 <? length (hm_get_all headers name))%nat then
      Err (invalid_request (name ++ " must not appear more than once"))
    else Ok ()) (CHECKSUM_HEADERS ++ (header_name <$> CHECKSUM_NAMES));
  try_iter (λ c,
    let name := header_name c in
    if hm_contains_key headers name && btree_contains name trailers then
      Err (invalid_request (name ++ " must not be supplied as both header and trailer"))
    else Ok ()) CHECKSUM_NAMES.

(* @src src/src/body/checksum.rs 474-488 reject_undeclared_checksum_trailers *)
Definition reject_undeclared_checksum_trailers (declared : btset str) (trailers : btree str str)
  : result S3Error () :=
  try_iter (λ c,
    let name := header_name c in
    if btree_contains name trailers && negb (set_contains name declared) then
      Err (invalid_request ("Checksum trailer was not declared: " ++ name))
    else Ok ()) CHECKSUM_NAMES.

(** One name of the [x-amz-trailer] list. *)
(* @src src/src/body/checksum.rs 444-469 validate_declared_checksum_trailers *)
Definition declare_trailer (trailers : btree str str) (declared : btset str) (raw : str)
  : result S3Error (btset str) :=
  let name := to_ascii_lowercase (trim raw) in
  if is_empty name then Err (invalid_request "x-amz-trailer contains an empty trailer name")
  else if set_contains name declared then
    Err (invalid_request ("x-amz-trailer declares trailer more than once: " ++ name))
  else if existsb (str_eqb name) UNSUPPORTED_CHECKSUM_HEADERS then
    Err (invalid_request "Checksum algorithm not supported")
  else if bool_decide (from_header_name name = None) then
    Err (invalid_request ("x-amz-trailer contains unsupported trailer name: " ++ name))
  else if negb (btree_contains name trailers) then
    Err (invalid_request ("Declared checksum trailer was not received: " ++ name))
  else Ok (set_insert name declared).

(* @src src/src/body/checksum.rs 426-472 validate_declared_checksum_trailers *)
Definition validate_declared_checksum_trailers (headers : HeaderMap) (trailers : btree str str)
  : result S3Error () :=
  match hm_get_all headers "x-amz-trailer" with
  | [] => reject_undeclared_checksum_trailers [] trailers
  | _ :: _ :: _ => Err (invalid_request "x-amz-trailer must not appear more than once")
  | [value] =>
      value ← ok_or (hv_to_str value) (invalid_request "x-amz-trailer must be valid ASCII");
      declared ← try_fold (declare_trailer trailers) [] (split ","%char value);
      reject_undeclared_checksum_trailers declared trailers
  end.

(* @src src/src/body/checksum.rs 113-137 ChecksumRequest::from_headers_and_trailers *)
Definition from_headers_and_trailers (headers : HeaderMap) (trailers : btree str str)
  : result S3Error ChecksumRequest :=
  _ ← reject_unsupported_checksum_inputs headers trailers;
  _ ← reject_duplicate_checksum_inputs headers trailers;
  _ ← validate_declared_checksum_trailers headers trailers;
  md5 ← optional_base64_header headers trailers "content-md5" 16;
  crc32 ← optional_checksum headers trailers Crc32;
  crc32c ← optional_checksum headers trailers Crc32c;
  sha1 ← optional_checksum headers trailers Sha1N;
  sha256 ← optional_checksum headers trailers Sha256N;
  sha512 ← optional_checksum headers trailers Sha512N;
  values ← checksum_values headers trailers;
  _ ← validate_sdk_checksum_algorithm headers trailers;
  Ok (mkRequest md5 crc32 crc32c sha1 sha256 sha512 values).

(* @src src/src/body/checksum.rs 108-110 ChecksumRequest::from_headers *)
Definition from_headers (headers : HeaderMap) : result S3Error ChecksumRequest :=
  from_headers_and_trailers headers [].

(** ** Lemmas *)

Lemma check_digest_ok e x actual err : check_digest e actual err = Ok x ↔ (∀ d, e = Some d → d = actual).
Proof.
  destruct x. unfold check_digest. destruct e as [d|]; [|naive_solver].
  destruct (str_eqb d actual) eqn:E; simpl.
  - apply str_eqb_eq in E. naive_solver.
  - apply str_eqb_neq in E. naive_solver.
Qed.

(** The expected digest of an algorithm. *)
Definition requested (r : ChecksumRequest) (n : ChecksumName) : option bytes :=
  match n with
  | Crc32 => checksum_crc32 r | Crc32c => checksum_crc32c r | Sha1N => checksum_sha1 r
  | Sha256N => checksum_sha256 r | Sha512N => checksum_sha512 r
  end.

Lemma validate_ok r d x :
  validate r d = Ok x ↔
  (∀ m, content_md5 r = Some m → m = cd_md5 d) ∧
  (∀ n m, requested r n = Some m → m = digest_bytes n d).
Proof.
  unfold validate. unfold_result. split.
  - intros Hv. repeat (case_match_in Hv; [|done]).
    rewrite check_digest_ok in E, E0, E1, E2, E3, E4.
    split; [done|]. intros [] m Hm; simpl in *; auto.
  - intros [Hm Hn]. assert (∀ n e, check_digest (requested r n) (digest_bytes n d) e = Ok ()) as Hc.
    { intros n e. apply check_digest_ok. auto. }
    rewrite (proj2 (check_digest_ok _ () _ _) Hm).
    pose proof (Hc Crc32) as H1. pose proof (Hc Crc32c) as H2. pose proof (Hc Sha1N) as H3.
    pose proof (Hc Sha256N) as H4. pose proof (Hc Sha512N) as H5. simpl in *.
    rewrite H1, H2, H3, H4, H5. by destruct x.
Qed.

Lemma header_name_lower n : to_ascii_lowercase (header_name n) = header_name n.
Proof. by destruct n. Qed.

Lemma from_header_name_spec s n : from_header_name s = Some n ↔ s = header_name n.
Proof.
  unfold from_header_name. split.
  - intros Hf. apply find_some in Hf as [_ Hf]. by apply str_eqb_eq in Hf.
  - intros ->. by destruct n.
Qed.

Lemma from_headers_spec headers ts r :
  from_headers_and_trailers headers ts = Ok r →
  reject_unsupported_checksum_inputs headers ts = Ok () ∧
  reject_duplicate_checksum_inputs headers ts = Ok () ∧
  validate_declared_checksum_trailers headers ts = Ok () ∧
  optional_base64_header headers ts "content-md5" 16 = Ok (content_md5 r) ∧
  (∀ n, optional_checksum headers ts n = Ok (requested r n)) ∧
  checksum_values headers ts = Ok (cr_checksum_values r) ∧
  validate_sdk_checksum_algorithm headers ts = Ok ().
Proof.
  unfold from_headers_and_trailers. unfold_result. intros Hr.
  repeat (case_match_in Hr; [|done]). simplify_eq.
  repeat match goal with u : unit |- _ => destruct u end.
  split_and!; try done. by intros [].
Qed.

Lemma optional_base64_ok headers ts name n o v :
  optional_base64_header headers ts name n = Ok o → checksum_value headers ts name = Some v →
  ∃ s d, v = Ok s ∧ b64_decode s = Some d ∧ len d = n ∧ o = Some d.
Proof.
  unfold optional_base64_header. intros Ho Hv. rewrite Hv in Ho. unfold_result.
  destruct v as [s|]; [|done]. destruct (b64_decode s) as [d|] eqn:Hd; [|done].
  destruct (len d =? n) eqn:Hl; simpl in Ho; [|done]. apply Z.eqb_eq in Hl. injection Ho as <-. eauto 10.
Qed.

(** What the client supplied under a name: its first header line, or else the
    trailer. *)
Definition supplied (headers : HeaderMap) (trailers : btree str str) (name : str) : option bytes :=
  match hm_get_all headers name with
  | value :: _ => Some value
  | [] => btree_get name trailers
  end.

Lemma checksum_value_supplied headers ts name :
  match checksum_value headers ts name with
  | None => supplied headers ts name = None
  | Some (Ok s) => supplied headers ts name = Some s
  | Some (Err _) => True
  end.
Proof.
  unfold checksum_value, supplied. rewrite hm_get_spec. destruct (hm_get_all headers name) as [|v vs]; simpl.
  - by destruct (btree_get name ts).
  - destruct (hv_to_str v) as [s|] eqn:Hs; simpl; [|done]. by apply hv_to_str_id in Hs as ->.
Qed.

Lemma supplied_value headers ts name v :
  supplied headers ts name = Some v →
  ∃ r, checksum_value headers ts name = Some r ∧ ∀ s, r = Ok s → s = v.
Proof.
  intros Hs. pose proof (checksum_value_supplied headers ts name) as Hc.
  destruct (checksum_value headers ts name) as [[s|e]|]; [|by exists (Err e)|congruence].
  exists (Ok s). split; [done|]. intros s' [= <-]. congruence.
Qed.

(** The values of an upload are those the client supplied. *)
Lemma checksum_values_fold headers ts n cs : ∀ l m,
  NoDup cs → btree_ok m →
  collect (omap (λ c, match checksum_value headers ts (header_name c) with
    | None => None
    | Some v => Some (value ← v; Ok (header_name c, value))
    end) cs) = Ok l →
  btree_get (header_name n) (foldl (λ m p, btree_insert p.1 p.2 m) m l) =
    match (if decide (n ∈ cs) then supplied headers ts (header_name n) else None) with
    | Some v => Some v
    | None => btree_get (header_name n) m
    end.
Proof.
  induction cs as [|c cs IH]; intros l m Hnd Hok Hc; simpl in Hc; [by injection Hc as <-|].
  apply NoDup_cons in Hnd as [Hc' Hnd]. pose proof (checksum_value_supplied headers ts (header_name c)) as Hv.
  destruct (checksum_value headers ts (header_name c)) as [[s|e]|]; simpl in Hc; [| |].
  - unfold_result. destruct (collect _) as [l'|] eqn:Hl; [|done]. injection Hc as <-. cbn [foldl fst snd].
    rewrite (IH l') by (done || by apply btree_insert_ok). destruct (decide (n = c)) as [->|Hne].
    + rewrite (decide_True (P := c ∈ c :: cs)) by by left. rewrite decide_False by done. by rewrite Hv, btree_get_insert_eq.
    + rewrite btree_get_insert_ne by first [done|intros Heq; apply Hne; by destruct n, c].
      rewrite (decide_ext (n ∈ c :: cs) (n ∈ cs)) by set_solver. done.
  - done.
  - rewrite (IH l) by done. destruct (decide (n = c)) as [->|Hne].
    + rewrite decide_False by done. rewrite decide_True by by left. by rewrite Hv.
    + by rewrite (decide_ext (n ∈ c :: cs) (n ∈ cs)) by set_solver.
Qed.
Lemma checksum_values_get headers ts m n :
  checksum_values headers ts = Ok m → btree_get (header_name n) m = supplied headers ts (header_name n).
Proof.
  unfold checksum_values. intros Hm. unfold_result. destruct (collect _) as [l|] eqn:Hl; [|done]. injection Hm as <-.
  rewrite (checksum_values_fold headers ts n CHECKSUM_NAMES l []).
  - rewrite decide_True; [|destruct n; set_solver]. by destruct (supplied _ _ _).
  - apply (bool_decide_unpack _). by vm_compute.
  - apply btree_ok_nil.
  - done.
Qed.

(** The checksums [f] gives, under their header names and in the order of these. *)
Definition listed_checksums (f : ChecksumName → option str) : btree str str :=
  omap (λ n, v ← f n; Some (header_name n, v)) [Crc32; Crc32c; Sha1N; Sha256N; Sha512N].

Ltac by_algorithms f :=
  destruct (f Crc32); destruct (f Crc32c); destruct (f Sha1N); destruct (f Sha256N); destruct (f Sha512N).

Lemma collect_supplied headers ts cs : ∀ l,
  collect (omap (λ c, match checksum_value headers ts (header_name c) with
    | None => None
    | Some v => Some (value ← v; Ok (header_name c, value))
    end) cs) = Ok l →
  l = omap (λ n, v ← supplied headers ts (header_name n); Some (header_name n, v)) cs.
Proof.
  induction cs as [|c cs IH]; intros l Hl; simpl in Hl |- *; [by injection Hl as <-|].
  pose proof (checksum_value_supplied headers ts (header_name c)) as Hf.
  destruct (checksum_value headers ts (header_name c)) as [[s|e]|]; simpl in Hl; [|done|].
  - unfold_result. destruct (collect _) as [l'|]; [|done]. injection Hl as <-. rewrite Hf. simpl.
    f_equal. by apply IH.
  - rewrite Hf. simpl. by apply IH.
Qed.

Lemma checksum_values_listed headers ts m :
  checksum_values headers ts = Ok m → m = listed_checksums (λ n, supplied headers ts (header_name n)).
Proof.
  unfold checksum_values. cbn [mbind result_bind].
  destruct (collect _) as [l|] eqn:Hl; [|done]. intros [= <-]. apply collect_supplied in Hl as ->.
  set (f := λ n, supplied headers ts (header_name n)).
  change (omap _ CHECKSUM_NAMES) with (listed_checksums f).
  unfold listed_checksums. cbn [omap list_omap]. by_algorithms f; reflexivity.
Qed.

Lemma requested_headers_listed f d :
  checksum_values_for_requested_headers (listed_checksums f) d =
  listed_checksums (λ n, _ ← btree_get (header_name n) (listed_checksums f); Some (b64_encode (digest_bytes n d))).
Proof.
  unfold checksum_values_for_requested_headers, listed_checksums, encode_digest. cbn [omap list_omap].
  by_algorithms f; reflexivity.
Qed.

Lemma digest_values_listed r d :
  checksum_values_for_digests r d =
  listed_checksums (λ n, _ ← requested r n; Some (b64_encode (digest_bytes n d))).
Proof.
  unfold checksum_values_for_digests, insert_requested, listed_checksums, encode_digest. cbn [omap list_omap fst snd].
  cbn [requested]. destruct r as [? [] [] [] [] [] ?]; reflexivity.
Qed.

(** Declared names are the trimmed, lowercased elements of the list. *)
Lemma declare_trailer_ok ts declared raw d :
  declare_trailer ts declared raw = Ok d → d = set_insert (to_ascii_lowercase (trim raw)) declared.
Proof. unfold declare_trailer. intros Hd. repeat (case_match_in Hd; [done|]). by injection Hd as <-. Qed.

Lemma declare_trailers_from ts l : ∀ declared declared',
  btree_ok declared → try_fold (declare_trailer ts) declared l = Ok declared' →
  ∀ x, set_contains x declared' = true →
    set_contains x declared = true ∨ ∃ raw, raw ∈ l ∧ to_ascii_lowercase (trim raw) = x.
Proof.
  induction l as [|raw l IH]; simpl; intros declared declared' Hok Hf x Hx; [left; by injection Hf as ->|].
  unfold_result. destruct (declare_trailer ts declared raw) as [d1|] eqn:Hd; [|done].
  apply declare_trailer_ok in Hd as ->.
  destruct (IH _ declared' (btree_insert_ok _ _ _ Hok) Hf x Hx) as [Hx1|(raw' & Hin & Heq)].
  - unfold set_contains, set_insert in *.
    destruct (decide (to_ascii_lowercase (trim raw) = x)) as [<-|Hne].
    + right. exists raw. rewrite elem_of_cons. auto.
    + left. unfold btree_contains in *. by rewrite btree_get_insert_ne in Hx1.
  - right. exists raw'. rewrite elem_of_cons. auto.
Qed.

(** A checksum trailer that was accepted had been declared in the header. *)
Lemma received_trailer_declared headers ts n :
  validate_declared_checksum_trailers headers ts = Ok () →
  is_Some (btree_get (header_name n) ts) →
  ∃ value s raw, hm_get headers "x-amz-trailer" = Some value ∧ hv_to_str value = Some s ∧
    raw ∈ split ","%char s ∧ to_ascii_lowercase (trim raw) = header_name n.
Proof.
  unfold validate_declared_checksum_trailers. intros Hv Hts%btree_contains_spec.
  assert (∀ declared, reject_undeclared_checksum_trailers declared ts = Ok () →
            set_contains (header_name n) declared = true) as Hrej.
  { intros declared Hr. unfold reject_undeclared_checksum_trailers in Hr. rewrite try_iter_ok in Hr.
    rewrite Forall_forall in Hr. specialize (Hr n). rewrite Hts in Hr. simpl in Hr.
    destruct (set_contains (header_name n) declared); [done|]. discriminate Hr. by destruct n; set_solver. }
  rewrite hm_get_spec. destruct (hm_get_all headers "x-amz-trailer") as [|value [|]]; [by apply Hrej in Hv; destruct n| |done].
  unfold_result. destruct (hv_to_str value) as [s|] eqn:Hs; [|done].
  destruct (try_fold _ _ _) as [declared|] eqn:Hf; [|done]. apply Hrej in Hv.
  destruct (declare_trailers_from _ _ _ _ btree_ok_nil Hf _ Hv) as [Hc|(raw & Hin & Heq)]; [by destruct n|].
  by exists value, s, raw.
Qed.
End WithCodec.
