(* ===== verification/Upload.v ===== *)
(** * Upload bodies (body/upload.rs)

    [write_upload_body] streams a plain or an aws-chunked request body to a
    writer while it computes the digests, then checks the payload hash and the
    checksums the client supplied. The theorem [upload_integrity] says what a
    successful upload guarantees about the bytes written. *)

From S2P Require Import Prelude RustStd BTree S3Error Externals Reference Types.
From S2P Require Import Chunked ChunkedProofs ChunkedSpec Checksum.
From Stdlib Require Import ZArith Lia.
Local Open Scope Z_scope.

(* @src src/src/auth.rs 632-642 StreamingSigningContext *)
Record StreamingSigningContext := mkSigning {
  ss_signing_key : bytes;
  ss_seed_signature : str;
  ss_amz_date : str;
  ss_credential_scope : str;
}.

(* @src src/src/body/upload.rs 29-34 UploadedBody *)
Record UploadedBody := mkUploaded {
  ub_size : ContentLength;
  ub_md5_digest : bytes;
  ub_checksums : btree str str;
}.

(* @src src/src/body/upload.rs 36-40 FinalUploadBody *)
Record FinalUploadBody := mkFinal { fu_size : ContentLength; fu_digests : ChecksumDigests }.

Section Upload.
Context `{HttpLib} `{CodecLib} `{CryptoLib}.

(** ** Headers *)

(* @src src/src/body/upload.rs 789-801 optional_singleton_header *)
Definition optional_singleton_header (headers : HeaderMap) (name : str)
  : result S3Error (option bytes) :=
  match hm_get_all headers name with
  | [] => Ok None
  | [v] => Ok (Some v)
  | _ :: _ :: _ => Err (invalid_request (name ++ " must not appear more than once"))
  end.

(** A header holding a comma-separated list names [name], ignoring case. *)
Definition header_lists (headers : HeaderMap) (header name : str) : bool :=
  match value ← hm_get headers header; hv_to_str value with
  | None => false
  | Some value => existsb (λ x, eq_ignore_ascii_case (trim x) name) (split ","%char value)
  end.

(* @src src/src/body/upload.rs 752-761 is_aws_chunked_request *)
Definition is_aws_chunked_request (headers : HeaderMap) : bool :=
  header_lists headers "content-encoding" "aws-chunked".

(* @src src/src/body/upload.rs 428-437 checksum_trailer_declares *)
Definition checksum_trailer_declares (headers : HeaderMap) (name : str) : bool :=
  header_lists headers "x-amz-trailer" name.

(* @src src/src/body/upload.rs 424-426 checksum_header_or_declared_trailer *)
Definition checksum_header_or_declared_trailer (headers : HeaderMap) (name : str) : bool :=
  hm_contains_key headers name || checksum_trailer_declares headers name.

(* @src src/src/body/upload.rs 763-774 decoded_content_length *)
Definition decoded_content_length (headers : HeaderMap) : result S3Error (option ContentLength) :=
  v ← optional_singleton_header headers "x-amz-decoded-content-length";
  match v with
  | None => Ok None
  | Some value =>
      value ← ok_or (hv_to_str value)
        (invalid_request "x-amz-decoded-content-length must be valid ASCII");
      l ← map_err (λ _, invalid_request "x-amz-decoded-content-length must be an integer")
            (parse_content_length value);
      Ok (Some l)
  end.

(* @src src/src/body/upload.rs 776-787 content_length *)
Definition content_length (headers : HeaderMap) : result S3Error (option ContentLength) :=
  match hm_get headers "content-length" with
  | None => Ok None
  | Some value =>
      value ← ok_or (hv_to_str value) (invalid_request "Content-Length must be valid ASCII");
      l ← map_err (λ _, invalid_request "Content-Length must be an integer") (parse_content_length value);
      Ok (Some l)
  end.

(** ** Payload hash modes *)

(* @src src/src/body/upload.rs 179-187 payload_hash_mode *)
Definition payload_hash_mode (headers : HeaderMap) : result S3Error PayloadHashMode :=
  v ← optional_singleton_header headers "x-amz-content-sha256";
  value ← match v with
          | None => Ok None
          | Some v => s ← ok_or (hv_to_str v) (invalid_request "x-amz-content-sha256 must be valid ASCII");
                      Ok (Some s)
          end;
  map_err (λ _, invalid_request "Unsupported x-amz-content-sha256 payload mode")
    (parse_payload_hash_mode value).

(* @src src/src/body/upload.rs 189-210 validate_payload_hash_mode *)
Definition validate_payload_hash_mode (headers : HeaderMap) : result S3Error () :=
  mode ← payload_hash_mode headers;
  if is_aws_chunked_request headers then
    match mode with
    | StreamingSignedPayload | StreamingSignedPayloadTrailer | StreamingUnsignedPayloadTrailer => Ok ()
    | _ => Err (invalid_request "Unsupported x-amz-content-sha256 payload mode for aws-chunked upload")
    end
  else
    match mode with
    | PHMissing | UnsignedPayload | FixedSha256 _ _ => Ok ()
    | _ => Err (invalid_request "Unsupported x-amz-content-sha256 payload mode")
    end.

(* @src src/src/body/upload.rs 238-256 validate_fixed_sha256_payload_hash *)
Definition validate_fixed_sha256_payload_hash (headers : HeaderMap) (actual_digest : bytes)
  : result S3Error () :=
  mode ← payload_hash_mode headers;
  match mode with
  | PHMissing | UnsignedPayload => Ok ()
  | FixedSha256 _ digest =>
      if negb (str_eqb digest actual_digest) then
        Err (bad_digest "The provided x-amz-content-sha256 header does not match what was computed.")
      else Ok ()
  | _ => Err (invalid_request "Unsupported x-amz-content-sha256 payload mode")
  end.

(** After the early return the source repeats the match of
    [validate_fixed_sha256_payload_hash]. *)
(* @src src/src/body/upload.rs 213-235 validate_actual_sha256_payload_hash *)
Definition validate_actual_sha256_payload_hash (headers : HeaderMap) (actual_digest : bytes)
  : result S3Error () :=
  if is_aws_chunked_request headers then Ok ()
  else validate_fixed_sha256_payload_hash headers actual_digest.

(* @src src/src/body/upload.rs 414-422 requires_actual_sha256_payload_hash *)
Definition requires_actual_sha256_payload_hash (headers : HeaderMap) : bool :=
  if is_aws_chunked_request headers then false
  else match payload_hash_mode headers with Ok (FixedSha256 _ _) => true | _ => false end.

(** ** The body state *)

(* @src src/src/body/upload.rs 362-378 UploadBodyState::new *)
Definition new_body_state (headers : HeaderMap) : UploadBodyState :=
  let wanted name := checksum_header_or_declared_trailer headers name in {|
  bs_md5 := sh_new Md5;
  bs_sha256 := if requires_actual_sha256_payload_hash headers || wanted "x-amz-checksum-sha256"
               then Some (sh_new Sha256) else None;
  bs_sha1 := if wanted "x-amz-checksum-sha1" then Some (sh_new Sha1) else None;
  bs_sha512 := if wanted "x-amz-checksum-sha512" then Some (sh_new Sha512) else None;
  bs_crc32 := if wanted "x-amz-checksum-crc32" then Some (sh_new CRC32) else None;
  bs_crc32c := if wanted "x-amz-checksum-crc32c" then Some (sh_new CRC32C) else None;
  bs_size := 0;
|}.

(** [digest.map(finalize).unwrap_or_default()]. *)
Definition finalize_or {Out} (h : StreamHash Out) (default : Out) (o : option (sh_state h)) : Out :=
  from_option (sh_finalize h) default o.

(* @src src/src/body/upload.rs 141-169 write_upload_body *)
Definition final_digests (st : UploadBodyState) : ChecksumDigests := {|
  cd_md5 := sh_finalize Md5 (bs_md5 st);
  cd_sha1 := finalize_or Sha1 [] (bs_sha1 st);
  cd_sha256 := finalize_or Sha256 [] (bs_sha256 st);
  cd_sha512 := finalize_or Sha512 [] (bs_sha512 st);
  cd_crc32 := finalize_or CRC32 0 (bs_crc32 st);
  cd_crc32c := finalize_or CRC32C 0 (bs_crc32c st);
|}.

(** ** Lengths *)

(* @src src/src/body/upload.rs 297-307 validate_decoded_content_length *)
Definition validate_decoded_content_length (headers : HeaderMap) (actual_length : Z)
  : result S3Error () :=
  o ← decoded_content_length headers;
  expected ← ok_or o
    (invalid_request "x-amz-decoded-content-length is required for aws-chunked uploads");
  if negb (content_length_get expected =? actual_length) then
    Err (invalid_request "x-amz-decoded-content-length does not match decoded body length")
  else Ok ().

Definition length_mismatch : S3Error :=
  invalid_request "Content-Length does not match request body length".

(* @src src/src/body/upload.rs 322-335 validate_plain_body_chunk_length *)
Definition validate_plain_body_chunk_length (expected : option ContentLength)
    (bytes_read next_chunk_len : Z) : result S3Error () :=
  match expected with
  | Some e => if sat_add_u64 bytes_read next_chunk_len >? content_length_get e
              then Err length_mismatch else Ok ()
  | None => Ok ()
  end.

(* @src src/src/body/upload.rs 337-349 validate_plain_content_length *)
Definition validate_plain_content_length (expected : option ContentLength) (actual_length : Z)
  : result S3Error () :=
  match expected with
  | Some e => if negb (content_length_get e =? actual_length) then Err length_mismatch else Ok ()
  | None => Ok ()
  end.

(** ** Signatures *)

(* @src src/src/body/upload.rs 675-683 AwsChunkSignatureVerifier::new *)
Definition new_verifier (ctx : StreamingSigningContext) (mode : StreamingSignatureMode)
  : AwsChunkSignatureVerifier := {|
  v_signing_key := ss_signing_key ctx;
  v_previous_signature := ss_seed_signature ctx;
  v_amz_date := ss_amz_date ctx;
  v_credential_scope := ss_credential_scope ctx;
  v_mode := mode;
|}.

(* @src src/src/body/upload.rs 646-664 streaming_signature_verifier *)
Definition streaming_signature_verifier (headers : HeaderMap) (signing : option StreamingSigningContext)
  : result S3Error (option AwsChunkSignatureVerifier) :=
  mode ← payload_hash_mode headers;
  let with_mode m :=
    match signing with
    | None => Err signature_does_not_match
    | Some ctx => Ok (Some (new_verifier ctx m))
    end in
  match mode with
  | StreamingSignedPayload => with_mode Payload
  | StreamingSignedPayloadTrailer => with_mode PayloadTrailer
  | _ => Ok None
  end.

(** ** Bodies *)

Section WithWriter.
Context {W : Type} `{Writer W}.

(** A plain body: every chunk is checked against the announced length and the
    size limit before it is written. *)
(* @src src/src/body/upload.rs 128-135 write_upload_body *)
Fixpoint plain_body (expected : option ContentLength) (write_target : str) (max_decoded_size : Z)
    (body : list (result str bytes)) (st : UploadBodyState) (w : W)
  : result S3Error (UploadBodyState * W) :=
  match body with
  | [] => Ok (st, w)
  | Err err :: _ => Err (invalid_request ("failed to read request body: " ++ err))
  | Ok chunk :: body =>
      _ ← validate_plain_body_chunk_length expected (bs_size st) (len chunk);
      _ ← validate_decoded_size_limit (bs_size st) (len chunk) max_decoded_size;
      '(w, st) ← write_body_chunk w chunk st write_target;
      plain_body expected write_target max_decoded_size body st w
  end.

(** [None] is running out of fuel, which does not happen
    ([write_upload_body_total]). *)
(* @src src/src/body/upload.rs 258-295 write_aws_chunked_upload_body *)
Definition write_aws_chunked_upload_body (headers : HeaderMap) (body : list (result str bytes))
    (st : UploadBodyState) (w : W) (write_target : str) (signing : option StreamingSigningContext)
    (max_decoded_size : Z) : option (result S3Error (btree str str * UploadBodyState * W)) :=
  match streaming_signature_verifier headers signing with
  | Err e => Some (Err e)
  | Ok v =>
      r ← drive write_target max_decoded_size body (mkCtx (new_parser v) st w);
      Some ('(ts, c) ← r;
            _ ← validate_decoded_content_length headers (bs_size (bx c));
            Ok (ts, bx c, wx c))
  end.

(* @src src/src/body/upload.rs 113-138 write_upload_body *)
Definition receive_body (headers : HeaderMap) (body : list (result str bytes))
    (st : UploadBodyState) (w : W) (write_target : str) (signing : option StreamingSigningContext)
    (max_decoded_size : Z) : option (result S3Error (btree str str * UploadBodyState * W)) :=
  if is_aws_chunked_request headers then
    write_aws_chunked_upload_body headers body st w write_target signing max_decoded_size
  else Some (
    expected ← content_length headers;
    '(st, w) ← plain_body expected write_target max_decoded_size body st w;
    _ ← validate_plain_content_length expected (bs_size st);
    Ok ([], st, w)).

(** The checks after the body has been received. *)
(* @src src/src/body/upload.rs 140-175 write_upload_body *)
Definition check_received (headers : HeaderMap) (ts : btree str str) (st : UploadBodyState)
  : result S3Error UploadedBody :=
  let d := final_digests st in
  _ ← validate_actual_sha256_payload_hash headers (cd_sha256 d);
  req ← from_headers_and_trailers headers ts;
  _ ← validate req d;
  Ok (mkUploaded (mkContentLength (bs_size st)) (cd_md5 d) (cr_checksum_values req)).

(* @src src/src/body/upload.rs 98-176 write_upload_body *)
Definition write_upload_body (headers : HeaderMap) (body : list (result str bytes)) (w : W)
    (write_target : str) (signing : option StreamingSigningContext) (max_decoded_size : Z)
  : option (result S3Error (UploadedBody * W)) :=
  match validate_payload_hash_mode headers with
  | Err e => Some (Err e)
  | Ok _ =>
      r ← receive_body headers body (new_body_state headers) w write_target signing max_decoded_size;
      Some ('(ts, st, w) ← r; up ← check_received headers ts st; Ok (up, w))
  end.
End WithWriter.

(** ** Re-reading a staged upload *)

(** The [read] calls on the staged file, each with the bytes it returned; a
    read of no bytes ends the file. *)
(* @src src/src/body/upload.rs 62-77 summarize_staged_upload *)
Fixpoint summarize_reads (reads : list (result str bytes)) (st : UploadBodyState)
  : result S3Error UploadBodyState :=
  match reads with
  | [] => Ok st
  | Err err :: _ => Err (internal ("failed to read staged upload: " ++ err))
  | Ok [] :: _ => Ok st
  | Ok chunk :: reads =>
      let st' := absorb st chunk in
      summarize_reads reads {|
        bs_md5 := bs_md5 st'; bs_sha256 := bs_sha256 st'; bs_sha1 := bs_sha1 st';
        bs_sha512 := bs_sha512 st'; bs_crc32 := bs_crc32 st'; bs_crc32c := bs_crc32c st';
        bs_size := sat_add_u64 (bs_size st) (len chunk) |}
  end.

Definition all_digests : UploadBodyState := {|
  bs_md5 := sh_new Md5; bs_sha256 := Some (sh_new Sha256); bs_sha1 := Some (sh_new Sha1);
  bs_sha512 := Some (sh_new Sha512); bs_crc32 := Some (sh_new CRC32);
  bs_crc32c := Some (sh_new CRC32C); bs_size := 0 |}.

(* @src src/src/body/upload.rs 46-91 summarize_staged_upload *)
Definition summarize_staged_upload (file : result str (list (result str bytes)))
  : result S3Error FinalUploadBody :=
  reads ← map_err (λ err, internal ("failed to open staged upload: " ++ err)) file;
  st ← summarize_reads reads all_digests;
  Ok (mkFinal (mkContentLength (bs_size st)) (final_digests st)).

(** ** What a successful upload guarantees *)

(** The digest of an algorithm on the whole data. *)
Definition true_digest (n : ChecksumName) (data : bytes) : bytes :=
  match n with
  | Crc32 => to_be_bytes_u32 (sh_hash CRC32 data)
  | Crc32c => to_be_bytes_u32 (sh_hash CRC32C data)
  | Sha1N => sh_hash Sha1 data
  | Sha256N => sh_hash Sha256 data
  | Sha512N => sh_hash Sha512 data
  end.

Lemma foldl_feed {Out} (h : StreamHash Out) ds o :
  foldl (λ o b, feed h b o) o ds = (λ s, foldl (sh_update h) s ds) <$> o.
Proof.
  revert o. induction ds as [|d ds IH]; intros o; [by destruct o|]. simpl. rewrite IH. by destruct o.
Qed.

Lemma foldl_absorb ds st :
  let st' := foldl absorb st ds in
  bs_md5 st' = foldl (sh_update Md5) (bs_md5 st) ds ∧
  bs_sha256 st' = foldl (λ o b, feed Sha256 b o) (bs_sha256 st) ds ∧
  bs_sha1 st' = foldl (λ o b, feed Sha1 b o) (bs_sha1 st) ds ∧
  bs_sha512 st' = foldl (λ o b, feed Sha512 b o) (bs_sha512 st) ds ∧
  bs_crc32 st' = foldl (λ o b, feed CRC32 b o) (bs_crc32 st) ds ∧
  bs_crc32c st' = foldl (λ o b, feed CRC32C b o) (bs_crc32c st) ds.
Proof.
  revert st. induction ds as [|d ds IH]; intros st; [done|]. exact (IH (absorb st d)).
Qed.

Lemma finalize_fed {Out} (h : StreamHash Out) (default : Out) (b : bool) ds :
  b = true →
  finalize_or h default (foldl (λ o b, feed h b o) (if b then Some (sh_new h) else None) ds)
  = sh_hash h (concat ds).
Proof. intros ->. rewrite foldl_feed. apply sh_chunks. Qed.

(** A digest the client asked for has been computed. *)
Lemma digest_computed headers ds n :
  checksum_header_or_declared_trailer headers (header_name n) = true →
  digest_bytes n (final_digests (foldl absorb (new_body_state headers) ds)) = true_digest n (concat ds).
Proof.
  intros Hw. destruct (foldl_absorb ds (new_body_state headers)) as (_ & H256 & Hsha1 & H512 & Hc & Hcc).
  destruct n; simpl in *; rewrite ?H256, ?Hsha1, ?H512, ?Hc, ?Hcc.
  - by rewrite finalize_fed.
  - by rewrite finalize_fed.
  - by rewrite finalize_fed.
  - rewrite finalize_fed; [done|]. by rewrite Hw, orb_true_r.
  - by rewrite finalize_fed.
Qed.

Lemma sha256_computed headers ds :
  requires_actual_sha256_payload_hash headers = true →
  cd_sha256 (final_digests (foldl absorb (new_body_state headers) ds)) = sh_hash Sha256 (concat ds).
Proof.
  intros Hw. destruct (foldl_absorb ds (new_body_state headers)) as (_ & H256 & _). simpl in *.
  rewrite H256, finalize_fed; [done|]. by rewrite Hw.
Qed.

Lemma md5_computed headers ds :
  cd_md5 (final_digests (foldl absorb (new_body_state headers) ds)) = sh_hash Md5 (concat ds).
Proof.
  destruct (foldl_absorb ds (new_body_state headers)) as (Hm & _). simpl in *. rewrite Hm. apply sh_chunks.
Qed.

(** A checksum the client supplied, in a header or in an accepted trailer, is
    one that [UploadBodyState::new] prepared for. *)
Lemma supplied_is_wanted headers ts n v :
  validate_declared_checksum_trailers headers ts = Ok () →
  checksum_value headers ts (header_name n) = Some v →
  checksum_header_or_declared_trailer headers (header_name n) = true.
Proof.
  intros Hd. unfold checksum_value, checksum_header_or_declared_trailer.
  destruct (hm_get headers (header_name n)) as [x|] eqn:Hg.
  - intros _. by rewrite (proj2 (hm_contains_get _ _)) by eauto.
  - intros Hv. destruct (btree_get (header_name n) ts) eqn:Ht; [|done].
    destruct (received_trailer_declared headers ts n) as (value & s & raw & Hx & Hs & Hin & Heq); [done|eauto|].
    unfold checksum_trailer_declares, header_lists. rewrite Hx. simpl. rewrite Hs.
    apply orb_true_iff. right. apply existsb_exists. exists raw.
    split; [by apply list_elem_of_In|]. unfold eq_ignore_ascii_case.
    by rewrite Heq, header_name_lower, str_eqb_refl.
Qed.

(** The request announces an aws-chunked body. *)
Definition announces_aws_chunked (headers : HeaderMap) : Prop :=
  ∃ value vs s coding, hm_get_all headers "content-encoding" = value :: vs ∧ hv_to_str value = Some s ∧
    coding ∈ split ","%char s ∧ to_ascii_lowercase (trim coding) = "aws-chunked".

Lemma is_aws_chunked_spec headers : is_aws_chunked_request headers = true ↔ announces_aws_chunked headers.
Proof.
  unfold is_aws_chunked_request, header_lists, announces_aws_chunked. rewrite hm_get_spec.
  destruct (hm_get_all headers "content-encoding") as [|value vs]; simpl; [split; [done|by intros (? & ? & ? & ? & ? & _)]|].
  destruct (hv_to_str value) as [s|] eqn:Hs; simpl.
  - rewrite existsb_exists. split.
    + intros (c & Hc%list_elem_of_In & He). exists value, vs, s, c. split_and!; [done..|].
      unfold eq_ignore_ascii_case in He. by apply str_eqb_eq in He.
    + intros (v & vs' & s' & c & [= <- <-] & Hs' & Hc & He). assert (s' = s) as -> by congruence. exists c. split; [by apply list_elem_of_In|].
      unfold eq_ignore_ascii_case. by apply str_eqb_eq.
  - split; [done|]. intros (v & vs' & s' & c & [= <- <-] & Hs' & _). congruence.
Qed.

(** The [data] and trailers [ts] that a body carries: an aws-chunked body is what
    [decode_aws_chunked_body] decodes, up to the piece in which it ends; any other
    body is the bytes of all its pieces. *)
Definition carries (headers : HeaderMap) (body : list (result str bytes)) (ts : btree str str) (data : bytes) : Prop :=
  (announces_aws_chunked headers → ∃ pieces rest, body = (Ok <$> pieces) ++ rest ∧
     decode_aws_chunked_body (concat pieces) = Some (Ok (mkDecoded data ts))) ∧
  (¬ announces_aws_chunked headers → ts = [] ∧ ∃ pieces, body = Ok <$> pieces ∧ data = concat pieces).

(** The length the request announces for the data, if any. *)
Definition announced_length (headers : HeaderMap) (name : str) (data : bytes) : Prop :=
  ∀ v vs, hm_get_all headers name = v :: vs → ∃ s, hv_to_str v = Some s ∧ parse_content_length s = Ok (mkContentLength (len data)).

Lemma plain_body_wrote {W} `{Writer W} expected wt max body : ∀ st w st' w',
  max < u64_max → 0 ≤ bs_size st ≤ max →
  plain_body expected wt max body st w = Ok (st', w') →
  ∃ ds, body = Ok <$> ds ∧ written w' = written w ++ concat ds ∧ st' = foldl absorb st ds ∧
    bs_size st' = bs_size st + len (concat ds) ∧ bs_size st' ≤ max.
Proof.
  intros st w st' w' Hm. revert st w.
  induction body as [|[chunk|e] body IH]; simpl; intros st w Hs Hp; [| |done].
  - injection Hp as <- <-. exists []. rewrite app_nil_r. unfold len. simpl. split_and!; [done|done|done|lia|lia].
  - unfold_result. destruct (validate_plain_body_chunk_length _ _ _); [|done].
    destruct (validate_decoded_size_limit _ _ _) eqn:Hl; [|done].
    destruct (write_body_chunk w chunk st wt) as [[w1 st1]|] eqn:Hw; [|done].
    pose (c := mkCtx (new_parser None) st w).
    destruct (write_chunk_wrote wt max Hm c chunk w1 st1 (new_parser None) _ Hl Hw) as (Hw1 & Hb1 & Hs1).
    simpl in *. destruct (Hs1 Hs) as [Hs2 Hs3]. rewrite app_nil_r in *.
    destruct (IH st1 w1) as (ds & -> & Hw' & -> & Hs' & Hs''); [unfold len in *; lia|done|].
    exists (chunk :: ds). simpl. subst st1. rewrite Hw', Hw1, (assoc_L (++)).
    unfold len in *. rewrite length_app. split_and!; [done|done|done|lia|done].
Qed.

(** What has been received and written. *)
Definition received {W} `{Writer W} headers body (w : W) max ts st (w' : W) : Prop :=
  ∃ ds, written w' = written w ++ concat ds ∧ st = foldl absorb (new_body_state headers) ds ∧
    bs_size st = len (concat ds) ∧ bs_size st ≤ max ∧ carries headers body ts (concat ds) ∧
    (announces_aws_chunked headers → hm_get_all headers "x-amz-decoded-content-length" ≠ [] ∧
       announced_length headers "x-amz-decoded-content-length" (concat ds)) ∧
    (¬ announces_aws_chunked headers → announced_length headers "content-length" (concat ds)).

Lemma received_chunked {W} `{Writer W} headers body (w : W) wt signing max ts st w' :
  0 ≤ max < u64_max → is_aws_chunked_request headers = true →
  write_aws_chunked_upload_body headers body (new_body_state headers) w wt signing max = Some (Ok (ts, st, w')) →
  received headers body w max ts st w'.
Proof.
  intros Hm Hac Hr. unfold write_aws_chunked_upload_body in Hr.
  destruct (streaming_signature_verifier headers signing) as [v|]; [|done].
  destruct (drive _ _ _ _) as [r|] eqn:Hd; [|done]. simpl in Hr. injection Hr as Hr.
  unfold_result. destruct r as [[ts1 c]|]; [|done].
  destruct (validate_decoded_content_length _ _) as [[]|] eqn:Hl; [|done]. simplify_eq.
  pose proof Hd as (pre & post & Hbody & Hp)%one_shot_of_drive; [|apply new_parser_at_rest].
  apply (pushed_body_decodes wt max v) in Hp as (data & Hdec & Hw').
  apply drive_finished in Hd as (ds & v1 & _ & (Hw & Hb & Hs) & _); [|lia].
  destruct Hs as [Hs1 Hs2]; [simpl; lia|]. simpl in Hw, Hw', Hb. rewrite Hw in Hw'. apply app_inv_head in Hw' as <-.
  pose proof (proj1 (is_aws_chunked_spec headers) Hac) as Hann.
  exists ds. split_and!; [done|done|done|done| |intros _|done].
  - split; [|done]. intros _. by exists pre, post.
  - unfold validate_decoded_content_length, decoded_content_length, optional_singleton_header in Hl. unfold_result.
    destruct (hm_get_all headers "x-amz-decoded-content-length") as [|x [|]] eqn:Hx; [done| |done].
    split; [done|]. intros ? ? Hy. rewrite Hx in Hy. injection Hy as <- _.
    destruct (hv_to_str x) as [s|]; [|done]. simpl in Hl. exists s. split; [done|].
    destruct (parse_content_length s) as [[l]|]; [|done]. simpl in Hl.
    destruct (l =? _) eqn:He; [|done]. apply Z.eqb_eq in He as ->. do 2 f_equal. rewrite Hs1. simpl. lia.
Qed.

Lemma receive_wrote {W} `{Writer W} headers body (w : W) wt signing max ts st w' :
  0 ≤ max < u64_max →
  receive_body headers body (new_body_state headers) w wt signing max = Some (Ok (ts, st, w')) →
  received headers body w max ts st w'.
Proof.
  intros Hm Hr. unfold receive_body in Hr. destruct (is_aws_chunked_request headers) eqn:Hac; [by eapply received_chunked|].
  assert (¬ announces_aws_chunked headers) as Hno by (rewrite <- is_aws_chunked_spec; congruence).
  injection Hr as Hr. unfold_result. unfold content_length in Hr. rewrite hm_get_spec in Hr.
  unfold_result. destruct (match head _ with Some _ => _ | None => _ end) as [expected|] eqn:He; [|done].
  destruct (plain_body _ _ _ _ _ _) as [[st1 w1]|] eqn:Hp; [|done].
  destruct (validate_plain_content_length _ _) as [[]|] eqn:Hl; [|done]. simplify_eq.
  apply plain_body_wrote in Hp as (ds & -> & Hw & -> & Hs & Hs'); [|lia|simpl; lia].
  simpl in Hs. exists ds. split_and!; [done|done|lia|done| |done|intros _ x xs Hx].
  - split; [done|]. intros _. split; [done|]. by exists ds.
  - rewrite Hx in He. simpl in He. destruct (hv_to_str x) as [s|]; [|done]. simpl in He. exists s. split; [done|].
    destruct (parse_content_length s) as [[l]|]; [|done]. injection He as <-. simpl in Hl.
    destruct (l =? _) eqn:Heq; [|done]. apply Z.eqb_eq in Heq as ->. by rewrite Hs.
Qed.

(** A payload hash in the header of a body that is not aws-chunked. *)
Lemma fixed_hash_checked headers ds v u u1 :
  validate_payload_hash_mode headers = Ok u →
  validate_actual_sha256_payload_hash headers
    (cd_sha256 (final_digests (foldl absorb (new_body_state headers) ds))) = Ok u1 →
  ¬ announces_aws_chunked headers → hm_get_all headers "x-amz-content-sha256" = [v] →
  v ≠ "UNSIGNED-PAYLOAD" → hex_decode v = Some (sh_hash Sha256 (concat ds)).
Proof.
  intros Hmode Hsha Hna Hv Hne. rewrite <- is_aws_chunked_spec in Hna. apply not_true_is_false in Hna.
  unfold validate_payload_hash_mode in Hmode. unfold validate_actual_sha256_payload_hash in Hsha. rewrite Hna in *.
  unfold validate_fixed_sha256_payload_hash in Hsha. pose proof (sha256_computed headers ds) as Hcomp.
  unfold requires_actual_sha256_payload_hash in Hcomp. rewrite Hna in Hcomp.
  destruct (payload_hash_mode headers) as [m|] eqn:Hm; [|done]. unfold_result.
  unfold payload_hash_mode, optional_singleton_header in Hm. rewrite Hv in Hm. unfold_result.
  destruct (hv_to_str v) as [s|] eqn:Hs; [|done]. apply hv_to_str_id in Hs as ->. cbn [ok_or] in Hm.
  destruct (parse_payload_hash_mode (Some v)) as [m'|] eqn:Hp; [|done]. injection Hm as ->.
  pose proof (parse_payload_hash_mode_ok _ _ Hp) as Hcan.
  destruct m as [| |hex d| | |]; try done; [by injection Hcan as <-|]. injection Hcan as ->.
  destruct (str_eqb d _) eqn:He; [|done]. apply str_eqb_eq in He. rewrite Hcomp in He by done. subst d.
  unfold parse_payload_hash_mode in Hp. unfold_result. by repeat (case_match_in Hp; simplify_eq/=; try done).
Qed.
End Upload.

Section Claims.
Context `{HttpLib} `{CodecLib} `{CryptoLib} {W : Type} `{Writer W}.

(** The checksums of an upload are some of the five. *)
Lemma upload_checksums_listed headers body (w : W) wt signing max up w' :
  write_upload_body headers body w wt signing max = Some (Ok (up, w')) → ∃ f, ub_checksums up = listed_checksums f.
Proof.
  unfold write_upload_body, check_received. intros Hu.
  destruct (validate_payload_hash_mode headers); [|done]. destruct (receive_body _ _ _ _ _ _ _) as [r|]; [|done].
  cbn [mbind option_bind] in Hu. injection Hu as Hu. unfold_result. destruct r as [[[ts st] w1]|]; [|done].
  destruct (validate_actual_sha256_payload_hash _ _); [|done].
  destruct (from_headers_and_trailers headers ts) as [req|] eqn:Hreq; [|done].
  destruct (validate req _); [|done]. simplify_eq/=. apply from_headers_spec in Hreq as (_ & _ & _ & _ & _ & Hv & _).
  eexists. by apply checksum_values_listed in Hv.
Qed.

(* @prop safety 7 : write_upload_body receive_body check_received new_body_state final_digests plain_body write_aws_chunked_upload_body from_headers_and_trailers validate optional_checksum optional_base64_header validate_declared_checksum_trailers declare_trailer reject_undeclared_checksum_trailers checksum_header_or_declared_trailer checksum_trailer_declares validate_actual_sha256_payload_hash requires_actual_sha256_payload_hash payload_hash_mode *)
(** C7: a successful upload is intact. The bytes written are the data the body
    carries: all its bytes, or, when the request announces aws-chunked, what the
    reference decoder [decode_aws_chunked_body] makes of it. The announced length,
    the reported size and the reported MD5 are those of the data, which is within
    the limit. Every checksum the client supplied, as a header or else as a
    trailer, as well as Content-MD5 and, for a body that is not aws-chunked, an
    x-amz-content-sha256 other than UNSIGNED-PAYLOAD, decodes to the digest of
    exactly these bytes; and the checksums that are reported are those supplied. *)
Theorem upload_integrity headers body (w : W) wt signing max up w' :
  0 ≤ max < u64_max →
  write_upload_body headers body w wt signing max = Some (Ok (up, w')) →
  ∃ ts data,
    carries headers body ts data ∧ written w' = written w ++ data ∧
    (announces_aws_chunked headers → hm_get_all headers "x-amz-decoded-content-length" ≠ [] ∧
       announced_length headers "x-amz-decoded-content-length" data) ∧
    (¬ announces_aws_chunked headers → announced_length headers "content-length" data) ∧
    content_length_get (ub_size up) = len data ∧ len data ≤ max ∧
    ub_md5_digest up = sh_hash Md5 data ∧
    (∀ v, supplied headers ts "content-md5" = Some v → b64_decode v = Some (sh_hash Md5 data)) ∧
    (∀ n v, supplied headers ts (header_name n) = Some v → b64_decode v = Some (true_digest n data)) ∧
    (∀ v, ¬ announces_aws_chunked headers → hm_get_all headers "x-amz-content-sha256" = [v] →
       v ≠ "UNSIGNED-PAYLOAD" → hex_decode v = Some (sh_hash Sha256 data)) ∧
    (∀ n, btree_get (header_name n) (ub_checksums up) = supplied headers ts (header_name n)).
Proof.
  intros Hm Hu. unfold write_upload_body in Hu.
  destruct (validate_payload_hash_mode headers) as [u|] eqn:Hmode; [|done].
  destruct (receive_body _ _ _ _ _ _ _) as [r|] eqn:Hr; [|done]. simpl in Hu. injection Hu as Hu.
  unfold_result. destruct r as [[[ts st] w1]|]; [|done].
  destruct (check_received headers ts st) as [up1|] eqn:Hc; [|done]. simplify_eq.
  destruct (receive_wrote _ _ _ _ _ _ _ _ _ Hm Hr) as (ds & Hw & -> & Hs & Hs' & Hcar & Hlc & Hlp).
  unfold check_received in Hc. unfold_result.
  destruct (validate_actual_sha256_payload_hash _ _) as [u1|] eqn:Hsha; [|done].
  destruct (from_headers_and_trailers headers ts) as [req|] eqn:Hreq; [|done].
  destruct (validate req _) as [u2|] eqn:Hval; [|done]. injection Hc as <-.
  apply validate_ok in Hval as [Hmd5 Hdig].
  apply from_headers_spec in Hreq as (_ & _ & Hdecl & Hb64 & Hopt & Hvals & _).
  exists ts, (concat ds). split_and!; [done|done|done|done|done|lia|apply md5_computed|..].
  - intros v (r & Hv & Hrv)%supplied_value. destruct (optional_base64_ok _ _ _ _ _ _ Hb64 Hv) as (s & d & -> & Hd & _ & Ho).
    rewrite <- (Hrv s eq_refl), Hd, (Hmd5 d Ho). f_equal. apply md5_computed.
  - intros n v (r & Hv & Hrv)%supplied_value. destruct (optional_base64_ok _ _ _ _ _ _ (Hopt n) Hv) as (s & d & -> & Hd & _ & Ho).
    rewrite <- (Hrv s eq_refl), Hd, (Hdig n d Ho). f_equal.
    apply digest_computed. by eapply supplied_is_wanted.
  - intros v Hna Hv Hne. by eapply fixed_hash_checked.
  - intros n. by apply checksum_values_get.
Qed.

(** An upload always ends with a result, whatever the headers, the body
    chunks and the transport errors. *)
Theorem write_upload_body_total headers body (w : W) wt signing max :
  ∃ r, write_upload_body headers body w wt signing max = Some r.
Proof.
  unfold write_upload_body, receive_body, write_aws_chunked_upload_body.
  destruct (validate_payload_hash_mode headers); [|by eexists].
  destruct (is_aws_chunked_request headers); [|by eexists].
  destruct (streaming_signature_verifier headers signing) as [v|]; [|by eexists].
  destruct (drive_total wt max body (mkCtx (new_parser v) (new_body_state headers) w)) as [r ->].
  by eexists.
Qed.
End Claims.

(** ** The staged file *)

Section Staged.
Context `{HttpLib} `{CodecLib} `{CryptoLib}.

(** The digests do not depend on the size counted so far. *)
Lemma final_digests_size st st' ds :
  bs_md5 st = bs_md5 st' → bs_sha256 st = bs_sha256 st' → bs_sha1 st = bs_sha1 st' →
  bs_sha512 st = bs_sha512 st' → bs_crc32 st = bs_crc32 st' → bs_crc32c st = bs_crc32c st' →
  final_digests (foldl absorb st ds) = final_digests (foldl absorb st' ds).
Proof.
  intros E1 E2 E3 E4 E5 E6. unfold final_digests.
  destruct (foldl_absorb ds st) as (-> & -> & -> & -> & -> & ->).
  destruct (foldl_absorb ds st') as (-> & -> & -> & -> & -> & ->). congruence.
Qed.

Lemma summarize_reads_spec chunks rest st :
  Forall (λ c, c ≠ []) chunks → 0 ≤ bs_size st ≤ u64_max →
  ∃ st', summarize_reads ((Ok <$> chunks) ++ Ok [] :: rest) st = Ok st' ∧
    final_digests st' = final_digests (foldl absorb st chunks) ∧
    bs_size st' = Z.min (bs_size st + len (concat chunks)) u64_max.
Proof.
  intros Hne. revert st. induction Hne as [|c chunks Hc Hne IH]; intros st Hs.
  { exists st. split_and!; [done|done|]. unfold len. simpl. lia. }
  destruct c as [|x c]; [done|]. cbn [fmap list_fmap app summarize_reads foldl].
  match goal with |- context [ summarize_reads _ ?s ] => destruct (IH s) as (st' & -> & Hd & Hz) end.
  { simpl. unfold sat_add_u64, len in *. lia. }
  exists st'. split_and!; [done| |].
  - rewrite Hd. by apply final_digests_size.
  - rewrite Hz. cbn [bs_size concat]. unfold sat_add_u64, len. rewrite length_app. lia.
Qed.

(** All the digests of the data. *)
Definition true_digests (data : bytes) : ChecksumDigests := {|
  cd_md5 := sh_hash Md5 data; cd_sha1 := sh_hash Sha1 data; cd_sha256 := sh_hash Sha256 data;
  cd_sha512 := sh_hash Sha512 data; cd_crc32 := sh_hash CRC32 data; cd_crc32c := sh_hash CRC32C data |}.

(** The entity tag of the data: the hex digits of its MD5 in quotes. *)
Definition md5_etag (data : bytes) : ETag := mkETag ("034"%char :: hex_encode (sh_hash Md5 data) ++ ["034"%char]).

Lemma digest_bytes_true n data : digest_bytes n (true_digests data) = true_digest n data.
Proof. by destruct n. Qed.

(** The checksums of an upload that a processor may have rewritten: the same
    algorithms, of the bytes there are now. *)
Definition recomputed (given : btree str str) (data : bytes) : btree str str :=
  listed_checksums (λ n, _ ← btree_get (header_name n) given; Some (b64_encode (true_digest n data))).

Lemma recomputed_spec given data :
  (∃ f, given = listed_checksums f) → checksum_values_for_requested_headers given (true_digests data) = recomputed given data.
Proof. intros [f ->]. by rewrite requested_headers_listed. Qed.

Lemma staged_summary chunks rest :
  Forall (λ c, c ≠ []) chunks →
  summarize_staged_upload (Ok ((Ok <$> chunks) ++ Ok [] :: rest)) =
  Ok (mkFinal (mkContentLength (Z.min (len (concat chunks)) u64_max)) (true_digests (concat chunks))).
Proof.
  intros Hne. unfold summarize_staged_upload. unfold_result.
  destruct (summarize_reads_spec chunks rest all_digests Hne) as (st & -> & Hd & Hz); [done|].
  rewrite Hd, Hz. do 2 f_equal. unfold final_digests, true_digests.
  destruct (foldl_absorb chunks all_digests) as (-> & -> & -> & -> & -> & ->).
  cbn [all_digests bs_md5 bs_crc32 bs_crc32c bs_sha1 bs_sha256 bs_sha512].
  by rewrite (finalize_fed CRC32 0 true), (finalize_fed CRC32C 0 true), (finalize_fed Sha1 [] true),
    (finalize_fed Sha256 [] true), (finalize_fed Sha512 [] true), sh_chunks.
Qed.

(** Re-reading a staged upload in reads of any size computes the size and
    the digests of exactly the bytes before the end of the file. *)
Theorem staged_summary_exact chunks rest :
  Forall (λ c, c ≠ []) chunks → len (concat chunks) ≤ u64_max →
  ∃ f, summarize_staged_upload (Ok ((Ok <$> chunks) ++ Ok [] :: rest)) = Ok f ∧
    content_length_get (fu_size f) = len (concat chunks) ∧
    cd_md5 (fu_digests f) = sh_hash Md5 (concat chunks) ∧
    ∀ n, digest_bytes n (fu_digests f) = true_digest n (concat chunks).
Proof.
  intros Hne Hlen. rewrite staged_summary by done. eexists. split; [done|].
  split_and!; [simpl; lia|done|by intros []].
Qed.
End Staged.

(** ** Witnesses *)

Section Witnesses.
Local Existing Instances ref_http ref_codec ref_crypto mem_writer.

Definition w_header_list : list (str * bytes) :=
  [("Content-Length", "11"); ("content-md5", b64_encode (sh_hash Md5 "hello world"));
   ("x-amz-checksum-crc32", b64_encode (true_digest Crc32 "hello world"));
   ("x-amz-content-sha256", hex_encode (sh_hash Sha256 "hello world"))].
Definition w_headers : HeaderMap := w_header_list.
Definition w_plain_body : list (result str bytes) := [Ok "hello"; Ok ""; Ok " world"].
Definition w_uploaded : UploadedBody := {|
  ub_size := mkContentLength 11; ub_md5_digest := sh_hash Md5 "hello world";
  ub_checksums := [("x-amz-checksum-crc32", b64_encode (true_digest Crc32 "hello world"))] |}.

Lemma upload_integrity_witness :
  write_upload_body w_headers w_plain_body ([] : bytes) "object" None 100 = Some (Ok (w_uploaded, "hello world")) ∧
  ∃ ts, carries w_headers w_plain_body ts "hello world" ∧
    ∀ n, btree_get (header_name n) (ub_checksums w_uploaded) = supplied w_headers ts (header_name n).
Proof.
  assert (0 ≤ 100 < u64_max) as Hm by done.
  assert (write_upload_body w_headers w_plain_body ([] : bytes) "object" None 100 = Some (Ok (w_uploaded, "hello world")))
    as Hu by vm_refl.
  split; [exact Hu|].
  pose proof (upload_integrity w_headers w_plain_body ([] : bytes) "object" None 100 w_uploaded "hello world"
    Hm Hu) as Hi.
  destruct Hi as (ts & data & Hc & Hw & _ & _ & _ & _ & _ & _ & _ & _ & Hv).
  change ("hello world" = data) in Hw. destruct Hw. exists ts. exact (conj Hc Hv).
Defined.

Lemma staged_summary_exact_witness :
  ∃ f, summarize_staged_upload (Ok ((Ok <$> ["ab"; "c"]) ++ [Ok []])) = Ok f ∧
    content_length_get (fu_size f) = len (concat ["ab"; "c"]) ∧
    cd_md5 (fu_digests f) = sh_hash Md5 (concat ["ab"; "c"]) ∧
    ∀ n, digest_bytes n (fu_digests f) = true_digest n (concat ["ab"; "c"]).
Proof. apply (staged_summary_exact ["ab"; "c"] []); [by repeat constructor|by vm_compute]. Defined.
End Witnesses.
