(* ===== verification/Config.v ===== *)
(** * Configuration (config.rs)

    Upload limits, I/O tuning, credentials and their validation, and the
    request-time authentication state built from a validated configuration. *)

From S2P Require Import Prelude RustStd BTree S3Error Externals Reference Types.
From Stdlib Require Import ZArith Lia.
Local Open Scope Z_scope.

(* @src src/src/config.rs 487-500 ConfigError *)
Inductive ConfigError :=
| InvalidUploadLimit (msg : str)
| InvalidIoTuning (msg : str)
| InvalidAuthConfig (msg : str).

(** ** I/O tuning *)

(* @src src/src/config.rs 108-116 IoTuning *)
Record IoTuning := mkIoTuning {
  upload_summary_buffer_size : Z;
  multipart_complete_buffer_size : Z;
  object_stream_buffer_size : Z;
}.

(* @src src/src/config.rs 119-127 IoTuning::default *)
Definition default_io_tuning : IoTuning :=
  let DEFAULT_BUFFER_SIZE := 64 * 1024 in
  mkIoTuning DEFAULT_BUFFER_SIZE DEFAULT_BUFFER_SIZE DEFAULT_BUFFER_SIZE.

(* @src src/src/config.rs 138-155 IoTuning::validate *)
Definition validate_io_tuning (t : IoTuning) : result ConfigError () :=
  if upload_summary_buffer_size t =? 0 then
    Err (InvalidIoTuning "upload_summary_buffer_size must be greater than 0")
  else if multipart_complete_buffer_size t =? 0 then
    Err (InvalidIoTuning "multipart_complete_buffer_size must be greater than 0")
  else if object_stream_buffer_size t =? 0 then
    Err (InvalidIoTuning "object_stream_buffer_size must be greater than 0")
  else Ok ().

(** ** Multipart life cycle *)

(* @src src/src/config.rs 190-200 MultipartLifecycle *)
Record MultipartLifecycle := mkLifecycle {
  cleanup_on_startup : bool;
  remove_terminal_uploads_on_startup : bool;
  remove_stale_temp_files_on_startup : bool;
  abort_incomplete_after : option Z;
}.

(* @src src/src/config.rs 202-211 MultipartLifecycle::default *)
Definition default_lifecycle : MultipartLifecycle := mkLifecycle true true true None.

(** ** Upload limits *)

(* @src src/src/config.rs 266-282 UploadLimits *)
Record UploadLimits := mkLimits {
  max_object_size : Z;
  max_part_size : Z;
  min_non_final_part_size : Z;
  max_concurrent_s3_requests : Z;
  max_active_object_writers : Z;
  max_active_multipart_part_writers : Z;
  max_active_aws_chunked_decoders : Z;
}.

Definition MIB : Z := 1024 * 1024.
Definition GIB : Z := 1024 * 1024 * 1024.

(* @src src/src/config.rs 284-298 UploadLimits::default *)
Definition default_upload_limits : UploadLimits := {|
  max_object_size := 10000 * 5 * GIB; max_part_size := 5 * GIB; min_non_final_part_size := 5 * MIB;
  max_concurrent_s3_requests := 256; max_active_object_writers := 64;
  max_active_multipart_part_writers := 128; max_active_aws_chunked_decoders := 64 |}.

(* @src src/src/config.rs 314-325 UploadLimits::local_development *)
Definition local_development : UploadLimits := {|
  max_object_size := 1024 * MIB; max_part_size := 512 * MIB; min_non_final_part_size := 5 * MIB;
  max_concurrent_s3_requests := 64; max_active_object_writers := 16;
  max_active_multipart_part_writers := 32; max_active_aws_chunked_decoders := 16 |}.

(** [PositiveUploadLimit] and [PositiveAdmissionLimit] wrap a non-zero
    integer. *)
(* @src src/src/config.rs 438-442 PositiveUploadLimit::new *)
Definition positive_limit (value : Z) (error : str) : result ConfigError Z :=
  if value =? 0 then Err (InvalidUploadLimit error) else Ok value.

(** The limits after validation have the same fields. *)
(* @src src/src/config.rs 344-375 UploadLimits::validated *)
Definition validated (l : UploadLimits) : result ConfigError UploadLimits :=
  a ← positive_limit (max_object_size l) "max_object_size must be greater than 0";
  b ← positive_limit (max_part_size l) "max_part_size must be greater than 0";
  c ← positive_limit (min_non_final_part_size l) "min_non_final_part_size must be greater than 0";
  d ← positive_limit (max_concurrent_s3_requests l) "max_concurrent_s3_requests must be greater than 0";
  e ← positive_limit (max_active_object_writers l) "max_active_object_writers must be greater than 0";
  f ← positive_limit (max_active_multipart_part_writers l)
        "max_active_multipart_part_writers must be greater than 0";
  g ← positive_limit (max_active_aws_chunked_decoders l)
        "max_active_aws_chunked_decoders must be greater than 0";
  Ok (mkLimits a b c d e f g).

(* @src src/src/config.rs 331-339 UploadLimits::validate *)
Definition validate_limits (l : UploadLimits) : result ConfigError () :=
  limits ← validated l;
  if min_non_final_part_size limits >? max_part_size limits then
    Err (InvalidUploadLimit "min_non_final_part_size must be less than or equal to max_part_size")
  else Ok ().

(** ** Actions *)

(* @src src/src/config.rs 1086-1099 S3Action::as_str *)
Definition action_str (a : S3Action) : str :=
  match a with
  | ActPutObject => "s3:PutObject"
  | ActGetObject => "s3:GetObject"
  | ActHeadObject => "s3:HeadObject"
  | ActDeleteObject => "s3:DeleteObject"
  | ActCreateMultipartUpload => "s3:CreateMultipartUpload"
  | ActUploadPart => "s3:UploadPart"
  | ActCompleteMultipartUpload => "s3:CompleteMultipartUpload"
  | ActAbortMultipartUpload => "s3:AbortMultipartUpload"
  | ActListMultipartUploadParts => "s3:ListMultipartUploadParts"
  | ActHeadBucket => "s3:HeadBucket"
  end.

(** The spellings [from_str] accepts for each action. *)
Definition action_names : list (S3Action * list str) :=
  [(ActPutObject, ["s3:PutObject"; "PutObject"; "put-object"]);
   (ActGetObject, ["s3:GetObject"; "GetObject"; "get-object"]);
   (ActHeadObject, ["s3:HeadObject"; "HeadObject"; "head-object"]);
   (ActDeleteObject, ["s3:DeleteObject"; "DeleteObject"; "delete-object"]);
   (ActCreateMultipartUpload,
      ["s3:CreateMultipartUpload"; "CreateMultipartUpload"; "create-multipart-upload"]);
   (ActUploadPart, ["s3:UploadPart"; "UploadPart"; "upload-part"]);
   (ActCompleteMultipartUpload,
      ["s3:CompleteMultipartUpload"; "CompleteMultipartUpload"; "complete-multipart-upload"]);
   (ActAbortMultipartUpload,
      ["s3:AbortMultipartUpload"; "AbortMultipartUpload"; "abort-multipart-upload"]);
   (ActListMultipartUploadParts,
      ["s3:ListMultipartUploadParts"; "ListMultipartUploadParts"; "list-multipart-upload-parts"]);
   (ActHeadBucket, ["s3:HeadBucket"; "HeadBucket"; "head-bucket"])].

(* @src src/src/config.rs 1105-1129 S3Action::from_str *)
Definition action_from_str (value : str) : result ConfigError S3Action :=
  match List.find (λ p, existsb (str_eqb value) p.2) action_names with
  | Some (a, _) => Ok a
  | None => Err (InvalidAuthConfig "allowed_actions must contain supported S3 action names")
  end.

(** ** Credentials *)

(** The state of the scan is the last byte read. *)
(* @src src/src/config.rs 1132-1150 is_valid_region *)
Definition is_valid_region (region : str) : bool :=
  match region with
  | [] => false
  | first :: rest =>
      let alnum c := is_ascii_lowercase c || is_ascii_digit c in
      alnum first
      && forallb (λ c, alnum c || bool_decide (c = "-"%char)) rest
      && alnum (List.last rest first)
  end.

(* @src src/src/config.rs 1152-1167 validate_access_key_id *)
Definition validate_access_key_id (value : str) : result ConfigError () :=
  if is_empty value then Err (InvalidAuthConfig "access_key_id must not be empty")
  else if existsb (λ c, is_ascii_control c || is_ascii_whitespace c) value then
    Err (InvalidAuthConfig "access_key_id must not contain whitespace or control characters")
  else Ok ().

(* @src src/src/config.rs 1169-1181 validate_secret_key *)
Definition validate_secret_key (value : str) : result ConfigError () :=
  if is_empty value then Err (InvalidAuthConfig "secret_key must not be empty")
  else if existsb is_ascii_control value then
    Err (InvalidAuthConfig "secret_key must not contain control characters")
  else Ok ().

(* @src src/src/config.rs 1183-1190 validate_session_token *)
Definition validate_session_token (value : option str) : result ConfigError () :=
  match value with
  | Some [] => Err (InvalidAuthConfig "session_token must not be empty when configured")
  | _ => Ok ()
  end.

(** Bucket allow-lists are sets of strings; action allow-lists are only tested
    for emptiness and membership. *)
(* @src src/src/config.rs 915-929 AccessKeyConfig *)
Record AccessKeyConfig := mkAccessKey {
  ak_access_key_id : str;
  ak_secret_key : str;
  ak_session_token : option str;
  ak_active : bool;
  ak_allowed_buckets : btset str;
  ak_allowed_actions : list S3Action;
}.

Definition validate_buckets (buckets : btset str) : result ConfigError () :=
  try_iter (λ bucket,
    map_err (λ _, InvalidAuthConfig "allowed_buckets must contain valid bucket names")
      (_ ← parse_bucket bucket; Ok ())) (btree_keys buckets).

(* @src src/src/config.rs 966-976 AccessKeyConfig::validate *)
Definition validate_access_key (c : AccessKeyConfig) : result ConfigError () :=
  _ ← validate_access_key_id (ak_access_key_id c);
  _ ← validate_secret_key (ak_secret_key c);
  _ ← validate_session_token (ak_session_token c);
  validate_buckets (ak_allowed_buckets c).

(* @src src/src/config.rs 556-576 AuthConfig *)
Record AuthConfig := mkAuth {
  ac_allow_anonymous : bool;
  ac_access_key_id : str;
  ac_secret_key : str;
  ac_session_token : option str;
  ac_region : str;
  ac_max_skew_seconds : Z;
  ac_allowed_buckets : btset str;
  ac_allowed_actions : list S3Action;
  ac_credentials : list AccessKeyConfig;
}.

(* @src src/src/config.rs 599-612 AuthConfig::default *)
Definition default_auth_config : AuthConfig := {|
  ac_allow_anonymous := false; ac_access_key_id := "test"; ac_secret_key := "testsecret";
  ac_session_token := None; ac_region := "us-east-1"; ac_max_skew_seconds := 900;
  ac_allowed_buckets := []; ac_allowed_actions := []; ac_credentials := [] |}.

(* @src src/src/config.rs 627-656 AuthConfig::validate *)
Definition validate_auth (c : AuthConfig) : result ConfigError () :=
  _ ← validate_access_key_id (ac_access_key_id c);
  _ ← validate_secret_key (ac_secret_key c);
  _ ← validate_session_token (ac_session_token c);
  if negb (is_valid_region (ac_region c)) then
    Err (InvalidAuthConfig "region must be a non-empty lowercase AWS region identifier")
  else if ac_max_skew_seconds c <? 0 then
    Err (InvalidAuthConfig "max_skew_seconds must be greater than or equal to 0")
  else
    _ ← validate_buckets (ac_allowed_buckets c);
    _ ← try_fold (λ ids credential,
          _ ← validate_access_key credential;
          if set_contains (ak_access_key_id credential) ids then
            Err (InvalidAuthConfig "credential access_key_id values must be unique")
          else Ok (set_insert (ak_access_key_id credential) ids))
        (set_insert (ac_access_key_id c) []) (ac_credentials c);
    Ok ().

(* @src src/src/config.rs 659-662 AuthConfig::permits *)
Definition permits (c : AuthConfig) (bucket : BucketName) (action : S3Action) : bool :=
  (is_empty (ac_allowed_buckets c) || set_contains (bucket_str bucket) (ac_allowed_buckets c))
  && (is_empty (ac_allowed_actions c) || bool_decide (action ∈ ac_allowed_actions c)).

(** ** The request-time state *)

(** [ConfiguredAccessKey] is a borrowed view of the same fields. *)
(* @src src/src/config.rs 891-899 StoredAccessKey *)
Record StoredAccessKey := mkStored {
  sk_access_key_id : str;
  sk_secret_key : str;
  sk_session_token : option str;
  sk_active : bool;
  sk_allowed_buckets : btset str;
  sk_allowed_actions : list S3Action;
}.

(* @src src/src/config.rs 787-794 AuthState *)
Record AuthState := mkAuthState {
  as_allow_anonymous : bool;
  as_region : str;
  as_max_skew_seconds : Z;
  as_anonymous_allowed_buckets : btset str;
  as_credentials : gmap str StoredAccessKey;
}.

(* @src src/src/config.rs 511-515 AccessKeyId::parse *)
Definition parse_access_key_id (value : str) : result ConfigError str :=
  _ ← validate_access_key_id value; Ok value.
(* @src src/src/config.rs 537-541 SecretKey::parse *)
Definition parse_secret_key (value : str) : result ConfigError str :=
  _ ← validate_secret_key value; Ok value.

(* @src src/src/config.rs 825-835 AuthState::new *)
Definition insert_credential (m : gmap str StoredAccessKey) (c : AccessKeyConfig)
  : result ConfigError (gmap str StoredAccessKey) :=
  id ← parse_access_key_id (ak_access_key_id c);
  secret ← parse_secret_key (ak_secret_key c);
  Ok (<[id := mkStored id secret (ak_session_token c) (ak_active c)
                (ak_allowed_buckets c) (ak_allowed_actions c)]> m).

(** The primary credential as an entry of the list: it is always active. *)
Definition primary_key (c : AuthConfig) : AccessKeyConfig :=
  mkAccessKey (ac_access_key_id c) (ac_secret_key c) (ac_session_token c) true
    (ac_allowed_buckets c) (ac_allowed_actions c).

(* @src src/src/config.rs 813-844 AuthState::new *)
Definition new_auth_state (c : AuthConfig) : result ConfigError AuthState :=
  _ ← validate_auth c;
  m ← insert_credential ∅ (primary_key c);
  m ← try_fold insert_credential m (ac_credentials c);
  Ok (mkAuthState (ac_allow_anonymous c) (ac_region c) (ac_max_skew_seconds c)
        (ac_allowed_buckets c) m).

(* @src src/src/config.rs 862-865 AuthState::permits_anonymous_bucket *)
Definition permits_anonymous_bucket (s : AuthState) (bucket : BucketName) : bool :=
  is_empty (as_anonymous_allowed_buckets s)
  || set_contains (bucket_str bucket) (as_anonymous_allowed_buckets s).

(* @src src/src/config.rs 868-872 AuthState::credential *)
Definition credential (s : AuthState) (access_key_id : str) : option StoredAccessKey :=
  as_credentials s !! access_key_id.

(* @src src/src/config.rs 875-888 AuthState::permits_credential *)
Definition permits_credential (s : AuthState) (access_key_id : str) (bucket : BucketName)
    (action : S3Action) : bool :=
  match credential s access_key_id with
  | None => false
  | Some c =>
      (is_empty (sk_allowed_buckets c) || set_contains (bucket_str bucket) (sk_allowed_buckets c))
      && (is_empty (sk_allowed_actions c) || bool_decide (action ∈ sk_allowed_actions c))
  end.

(* @src src/src/config.rs 16-26 Config *)
Record Config := mkConfig {
  storage_root : str;
  cfg_auth : AuthConfig;
  virtual_host_base_domain : option str;
  upload_limits : UploadLimits;
}.

(* @src src/src/config.rs 30-37 Config::new *)
Definition new_config (root : str) : Config :=
  mkConfig root default_auth_config None default_upload_limits.

(* @src src/src/config.rs 44-47 Config::validate *)
Definition validate_config (c : Config) : result ConfigError () :=
  _ ← validate_limits (upload_limits c);
  validate_auth (cfg_auth c).

(** ** A validated configuration yields exactly its credentials *)

Definition stored (c : AccessKeyConfig) : StoredAccessKey :=
  mkStored (ak_access_key_id c) (ak_secret_key c) (ak_session_token c) (ak_active c)
    (ak_allowed_buckets c) (ak_allowed_actions c).

(** A credential whose strings are acceptable. *)
Definition key_valid (c : AccessKeyConfig) : Prop :=
  validate_access_key_id (ak_access_key_id c) = Ok () ∧ validate_secret_key (ak_secret_key c) = Ok ().

Lemma insert_credential_ok m c :
  key_valid c → insert_credential m c = Ok (<[ak_access_key_id c := stored c]> m).
Proof.
  intros [Hi Hs]. unfold insert_credential, parse_access_key_id, parse_secret_key.
  unfold_result. by rewrite Hi, Hs.
Qed.

Lemma insert_credentials_ok l : ∀ m,
  Forall key_valid l → NoDup (ak_access_key_id <$> l) →
  Forall (λ c, m !! ak_access_key_id c = None) l →
  ∃ m', try_fold insert_credential m l = Ok m' ∧
    ∀ id k, m' !! id = Some k ↔
      m !! id = Some k ∨ ∃ c, c ∈ l ∧ id = ak_access_key_id c ∧ k = stored c.
Proof.
  induction l as [|c l IH]; intros m Hv Hnd Hm.
  { exists m. split; [done|]. set_solver. }
  apply Forall_cons in Hv as [Hc Hv]. apply Forall_cons in Hm as [Hmc Hm].
  simpl in Hnd. apply NoDup_cons in Hnd as [Hni Hnd].
  destruct (IH (<[ak_access_key_id c := stored c]> m) Hv Hnd) as (m' & Hf & Hspec).
  { rewrite Forall_forall in Hm |- *. intros d Hd. rewrite lookup_insert_ne; [by apply Hm|].
    intros Heq. apply Hni. rewrite Heq. by apply list_elem_of_fmap_2. }
  exists m'. simpl. unfold_result. rewrite insert_credential_ok by done. split; [done|].
  intros id k. rewrite Hspec, lookup_insert_Some. split.
  - intros [[[<- <-]|[_ Hk]]|(d & Hd & -> & ->)]; [right; exists c|by left|right; exists d]; set_solver.
  - intros [Hk|(d & [->|Hd]%elem_of_cons & -> & ->)]; [|by left; left|by right; exists d].
    left. right. split; [|done]. intros Heq. congruence.
Qed.

(** What the loop over the additional credentials checks. *)
Lemma unique_ids l : ∀ ids r,
  btree_ok ids →
  try_fold (λ ids credential,
      _ ← validate_access_key credential;
      if set_contains (ak_access_key_id credential) ids then
        Err (InvalidAuthConfig "credential access_key_id values must be unique")
      else Ok (set_insert (ak_access_key_id credential) ids)) ids l = Ok r →
  Forall key_valid l ∧ NoDup (ak_access_key_id <$> l) ∧
  Forall (λ c, set_contains (ak_access_key_id c) ids = false) l.
Proof.
  induction l as [|c l IH]; intros ids r Hok Hf; [split_and!; constructor|].
  simpl in Hf. unfold_result. destruct (validate_access_key c) as [u|] eqn:Hv; [|done].
  destruct (set_contains _ ids) eqn:Hc; [done|].
  destruct (IH _ _ (btree_insert_ok _ _ _ Hok) Hf) as (Hkv & Hnd & Hfresh).
  rewrite Forall_forall in Hfresh. simpl.
  assert (∀ d, d ∈ l → ak_access_key_id d ≠ ak_access_key_id c ∧
            set_contains (ak_access_key_id d) ids = false) as Hd.
  { intros d Hd%Hfresh. unfold set_contains, set_insert, btree_contains in *.
    destruct (decide (ak_access_key_id d = ak_access_key_id c)) as [Heq|Hne].
    - by rewrite Heq, btree_get_insert_eq in Hd.
    - by rewrite btree_get_insert_ne in Hd by congruence. }
  split_and!.
  - constructor; [|done]. unfold validate_access_key in Hv. unfold_result.
    unfold key_valid. destruct (validate_access_key_id _) as [[]|]; [|done].
    by destruct (validate_secret_key _) as [[]|].
  - apply NoDup_cons. split; [|done]. intros (d & Heq & Hin)%list_elem_of_fmap.
    by apply (Hd d).
  - constructor; [done|]. apply Forall_forall. intros d Hin. by apply Hd.
Qed.

Lemma validate_auth_keys c :
  validate_auth c = Ok () →
  Forall key_valid (primary_key c :: ac_credentials c) ∧
  NoDup (ak_access_key_id <$> primary_key c :: ac_credentials c).
Proof.
  unfold validate_auth. intros Hv. unfold_result.
  destruct (validate_access_key_id _) as [[]|] eqn:Hi; [|done].
  destruct (validate_secret_key _) as [[]|] eqn:Hs; [|done].
  destruct (validate_session_token _); [|done].
  destruct (negb _); [done|]. destruct (_ <? 0); [done|].
  destruct (validate_buckets _); [|done]. destruct (try_fold _ _ _) as [r|] eqn:Hf; [|done].
  apply unique_ids in Hf as (Hkv & Hnd & Hfresh); [|by apply btree_insert_ok, btree_ok_nil].
  split; [by constructor|]. constructor; [|done].
  intros (d & Heq & Hin)%list_elem_of_fmap. rewrite Forall_forall in Hfresh.
  specialize (Hfresh d Hin). simpl in Heq. rewrite <- Heq in Hfresh.
  unfold set_contains, set_insert, btree_contains in Hfresh. by rewrite btree_get_insert_eq in Hfresh.
Qed.

(** The credentials of a state built from a configuration. *)
Definition holds_exactly (s : AuthState) (c : AuthConfig) : Prop :=
  ∀ id k, credential s id = Some k ↔
    ∃ ak, ak ∈ primary_key c :: ac_credentials c ∧ id = ak_access_key_id ak ∧ k = stored ak.

Lemma new_auth_state_spec c :
  validate_auth c = Ok () →
  ∃ s, new_auth_state c = Ok s ∧
    as_region s = ac_region c ∧ as_allow_anonymous s = ac_allow_anonymous c ∧
    as_anonymous_allowed_buckets s = ac_allowed_buckets c ∧
    as_max_skew_seconds s = ac_max_skew_seconds c ∧ holds_exactly s c.
Proof.
  intros Hv. destruct (validate_auth_keys c Hv) as [Hkv Hnd].
  destruct (insert_credentials_ok (primary_key c :: ac_credentials c) ∅ Hkv Hnd) as (m & Hf & Hspec).
  { apply Forall_forall. intros d _. apply lookup_empty. }
  simpl in Hf. unfold_result. unfold new_auth_state. unfold_result. rewrite Hv.
  destruct (insert_credential ∅ (primary_key c)) as [m0|]; [|done]. rewrite Hf.
  eexists. split; [done|]. split_and!; [done..|].
  intros id k. unfold credential. simpl. rewrite Hspec, lookup_empty. set_solver.
Qed.

Lemma new_auth_state_inv c s :
  new_auth_state c = Ok s →
  as_allow_anonymous s = ac_allow_anonymous c ∧
  as_anonymous_allowed_buckets s = ac_allowed_buckets c ∧ holds_exactly s c.
Proof.
  intros Hs. destruct (validate_auth c) as [[]|] eqn:Hv.
  - destruct (new_auth_state_spec c Hv) as (s' & Hs' & _ & Ha & Hb & _ & Hh).
    rewrite Hs in Hs'. by injection Hs' as <-.
  - unfold new_auth_state in Hs. unfold_result. by rewrite Hv in Hs.
Qed.

(** A configuration that passes validation yields an authentication state,
    and looking an access key up in it finds exactly the primary credential
    (always active) and the additional ones with their own secret, token,
    activity flag and allow-lists: none is lost and none shadows another. *)
Theorem auth_state_faithful c :
  validate_auth c = Ok () →
  ∃ s, new_auth_state c = Ok s ∧
    as_region s = ac_region c ∧ as_allow_anonymous s = ac_allow_anonymous c ∧
    ∀ id k, credential s id = Some k ↔
      ∃ ak, ak ∈ primary_key c :: ac_credentials c ∧ id = ak_access_key_id ak ∧ k = stored ak.
Proof.
  intros Hv. destruct (new_auth_state_spec c Hv) as (s & Hs & Hr & Ha & _ & _ & Hh). by exists s.
Qed.

(** Upload limits are accepted exactly when none of them is zero and the
    minimum part size does not exceed the maximum part size; the built-in
    defaults are accepted, and their object size limit stays below 2^64 - 1. *)
Theorem limits_validation :
  (∀ l, validate_limits l = Ok () ↔
    Forall (λ z, z ≠ 0) [max_object_size l; max_part_size l; min_non_final_part_size l;
      max_concurrent_s3_requests l; max_active_object_writers l;
      max_active_multipart_part_writers l; max_active_aws_chunked_decoders l] ∧
    min_non_final_part_size l ≤ max_part_size l) ∧
  validate_limits default_upload_limits = Ok () ∧ validate_limits local_development = Ok () ∧
  max_object_size default_upload_limits < u64_max.
Proof.
  split_and!; [|done..]. intros l. unfold validate_limits, validated, positive_limit. unfold_result.
  rewrite !Forall_cons. split.
  - intros Hv. repeat (case_match_in Hv; try discriminate; simplify_eq/=).
    repeat match goal with Hz : (_ =? 0) = false |- _ => apply Z.eqb_neq in Hz end.
    match goal with Hz : (_ >? _) = false |- _ => rewrite Z.gtb_ltb in Hz; apply Z.ltb_ge in Hz end.
    by split_and!.
  - intros [(H1 & H2 & H3 & H4 & H5 & H6 & H7 & _) Hle].
    rewrite (proj2 (Z.eqb_neq _ _) H1), (proj2 (Z.eqb_neq _ _) H2), (proj2 (Z.eqb_neq _ _) H3),
      (proj2 (Z.eqb_neq _ _) H4), (proj2 (Z.eqb_neq _ _) H5), (proj2 (Z.eqb_neq _ _) H6),
      (proj2 (Z.eqb_neq _ _) H7). simpl.
    by rewrite Z.gtb_ltb, (proj2 (Z.ltb_ge _ _) Hle).
Qed.

(** ** Witnesses *)

Definition w_auth_config : AuthConfig := {|
  ac_allow_anonymous := false; ac_access_key_id := "primary"; ac_secret_key := "secret";
  ac_session_token := None; ac_region := "eu-west-1"; ac_max_skew_seconds := 900;
  ac_allowed_buckets := []; ac_allowed_actions := [];
  ac_credentials := [mkAccessKey "reader" "other" (Some "token") true [("photos", ())] [ActGetObject];
                     mkAccessKey "retired" "old" None false [] []] |}.

Lemma auth_state_faithful_witness :
  validate_auth w_auth_config = Ok () ∧
  ∃ s, new_auth_state w_auth_config = Ok s ∧
    as_region s = "eu-west-1" ∧ as_allow_anonymous s = false ∧
    ∀ id k, credential s id = Some k ↔
      ∃ ak, ak ∈ primary_key w_auth_config :: ac_credentials w_auth_config ∧
        id = ak_access_key_id ak ∧ k = stored ak.
Proof.
  assert (validate_auth w_auth_config = Ok ()) as Hv by vm_refl.
  split; [exact Hv|exact (auth_state_faithful w_auth_config Hv)].
Defined.
