(* ===== verification/Builders.v ===== *)
(** * The fluent builders of the configuration (config.rs)

    A chain of setter calls is a list of settings, applied in order to the
    defaults. The second half of the file is what [{:?}] shows of a
    configuration: the values handed to the standard library's debug formatters,
    not the text these make of them. *)

From S2P Require Import Prelude RustStd BTree S3Error Externals Reference Types Config.
From Stdlib Require Import ZArith Lia.
Local Open Scope Z_scope.

(** [collect] of strings into a [BTreeSet]. *)
Definition collect_set (l : list str) : btset str := foldl (λ s x, set_insert x s) [] l.
(** Sets of actions are lists without order; only membership is looked at. *)
Definition action_insert (a : S3Action) (l : list S3Action) : list S3Action :=
  if bool_decide (a ∈ l) then l else l ++ [a].
Definition collect_actions (l : list S3Action) : list S3Action := foldl (λ s a, action_insert a s) [] l.

(** ** I/O tuning, life cycle and limits

    One constructor for each setter of a builder. *)

Inductive IoSetting :=
| IoUploadSummaryBufferSize (value : Z)
| IoMultipartCompleteBufferSize (value : Z)
| IoObjectStreamBufferSize (value : Z).

(* @src src/src/config.rs 164-187 IoTuningBuilder *)
Definition io_setting (t : IoTuning) (x : IoSetting) : IoTuning :=
  match x with
  | IoUploadSummaryBufferSize value =>
      mkIoTuning value (multipart_complete_buffer_size t) (object_stream_buffer_size t)
  | IoMultipartCompleteBufferSize value =>
      mkIoTuning (upload_summary_buffer_size t) value (object_stream_buffer_size t)
  | IoObjectStreamBufferSize value =>
      mkIoTuning (upload_summary_buffer_size t) (multipart_complete_buffer_size t) value
  end.
(* @src src/src/config.rs 131-135 IoTuning::builder *)
Definition build_io_tuning (l : list IoSetting) : IoTuning := foldl io_setting default_io_tuning l.

Inductive LifecycleSetting :=
| CleanupOnStartup (enabled : bool)
| RemoveTerminalUploadsOnStartup (enabled : bool)
| RemoveStaleTempFilesOnStartup (enabled : bool)
| AbortIncompleteAfter (duration : Z)
| WithoutAbortIncompleteAfter.

(* @src src/src/config.rs 228-263 MultipartLifecycleBuilder *)
Definition lifecycle_setting (m : MultipartLifecycle) (x : LifecycleSetting) : MultipartLifecycle :=
  let '(mkLifecycle cleanup terminal stale abort) := m in
  match x with
  | CleanupOnStartup enabled => mkLifecycle enabled terminal stale abort
  | RemoveTerminalUploadsOnStartup enabled => mkLifecycle cleanup enabled stale abort
  | RemoveStaleTempFilesOnStartup enabled => mkLifecycle cleanup terminal enabled abort
  | AbortIncompleteAfter duration => mkLifecycle cleanup terminal stale (Some duration)
  | WithoutAbortIncompleteAfter => mkLifecycle cleanup terminal stale None
  end.
(* @src src/src/config.rs 215-219 MultipartLifecycle::builder *)
Definition build_lifecycle (l : list LifecycleSetting) : MultipartLifecycle := foldl lifecycle_setting default_lifecycle l.

Inductive LimitSetting :=
| MaxObjectSize (value : Z)
| MaxPartSize (value : Z)
| MinNonFinalPartSize (value : Z)
| MaxConcurrentS3Requests (value : Z)
| MaxActiveObjectWriters (value : Z)
| MaxActiveMultipartPartWriters (value : Z)
| MaxActiveAwsChunkedDecoders (value : Z).

(* @src src/src/config.rs 384-431 UploadLimitsBuilder *)
Definition limit_setting (l : UploadLimits) (x : LimitSetting) : UploadLimits :=
  let '(mkLimits object part min requests writers parts decoders) := l in
  match x with
  | MaxObjectSize value => mkLimits value part min requests writers parts decoders
  | MaxPartSize value => mkLimits object value min requests writers parts decoders
  | MinNonFinalPartSize value => mkLimits object part value requests writers parts decoders
  | MaxConcurrentS3Requests value => mkLimits object part min value writers parts decoders
  | MaxActiveObjectWriters value => mkLimits object part min requests value parts decoders
  | MaxActiveMultipartPartWriters value => mkLimits object part min requests writers value decoders
  | MaxActiveAwsChunkedDecoders value => mkLimits object part min requests writers parts value
  end.
(* @src src/src/config.rs 302-311 UploadLimits::builder *)
Definition build_limits (l : list LimitSetting) : UploadLimits := foldl limit_setting default_upload_limits l.

(** ** Credentials *)

Inductive AccessKeySetting :=
| KeySessionToken (session_token : str)
| KeyWithoutSessionToken
| KeyActive (active : bool)
| KeyAllowedBuckets (buckets : list str)
| KeyAllowBucket (bucket : str)
| KeyAllowedActions (actions : list S3Action)
| KeyAllowAction (action : S3Action).

(* @src src/src/config.rs 994-1048 AccessKeyConfigBuilder *)
Definition access_key_setting (k : AccessKeyConfig) (x : AccessKeySetting) : AccessKeyConfig :=
  let '(mkAccessKey id secret token active buckets actions) := k in
  match x with
  | KeySessionToken session_token => mkAccessKey id secret (Some session_token) active buckets actions
  | KeyWithoutSessionToken => mkAccessKey id secret None active buckets actions
  | KeyActive active => mkAccessKey id secret token active buckets actions
  | KeyAllowedBuckets buckets => mkAccessKey id secret token active (collect_set buckets) actions
  | KeyAllowBucket bucket => mkAccessKey id secret token active (set_insert bucket buckets) actions
  | KeyAllowedActions actions => mkAccessKey id secret token active buckets (collect_actions actions)
  | KeyAllowAction action => mkAccessKey id secret token active buckets (action_insert action actions)
  end.
(* @src src/src/config.rs 950-964 AccessKeyConfig::builder *)
Definition build_access_key (access_key_id secret_key : str) (l : list AccessKeySetting) : AccessKeyConfig :=
  foldl access_key_setting (mkAccessKey access_key_id secret_key None true [] []) l.

Inductive AuthSetting :=
| AuthAllowAnonymous (allow_anonymous : bool)
| AuthAccessKeyId (access_key_id : str)
| AuthSecretKey (secret_key : str)
| AuthPrimaryCredentials (access_key_id secret_key : str)
| AuthSessionToken (session_token : str)
| AuthWithoutSessionToken
| AuthRegion (region : str)
| AuthMaxSkewSeconds (seconds : Z)
| AuthAllowedBuckets (buckets : list str)
| AuthAllowBucket (bucket : str)
| AuthAllowedActions (actions : list S3Action)
| AuthAllowAction (action : S3Action)
| AuthCredentials (credentials : list AccessKeyConfig)
| AuthCredential (credential : AccessKeyConfig).

(* @src src/src/config.rs 680-784 AuthConfigBuilder *)
Definition auth_setting (c : AuthConfig) (x : AuthSetting) : AuthConfig :=
  let '(mkAuth anonymous id secret token region skew buckets actions credentials) := c in
  match x with
  | AuthAllowAnonymous anonymous => mkAuth anonymous id secret token region skew buckets actions credentials
  | AuthAccessKeyId id => mkAuth anonymous id secret token region skew buckets actions credentials
  | AuthSecretKey secret => mkAuth anonymous id secret token region skew buckets actions credentials
  | AuthPrimaryCredentials id secret => mkAuth anonymous id secret token region skew buckets actions credentials
  | AuthSessionToken t => mkAuth anonymous id secret (Some t) region skew buckets actions credentials
  | AuthWithoutSessionToken => mkAuth anonymous id secret None region skew buckets actions credentials
  | AuthRegion region => mkAuth anonymous id secret token region skew buckets actions credentials
  | AuthMaxSkewSeconds skew => mkAuth anonymous id secret token region skew buckets actions credentials
  | AuthAllowedBuckets l => mkAuth anonymous id secret token region skew (collect_set l) actions credentials
  | AuthAllowBucket b => mkAuth anonymous id secret token region skew (set_insert b buckets) actions credentials
  | AuthAllowedActions l => mkAuth anonymous id secret token region skew buckets (collect_actions l) credentials
  | AuthAllowAction a => mkAuth anonymous id secret token region skew buckets (action_insert a actions) credentials
  | AuthCredentials l => mkAuth anonymous id secret token region skew buckets actions l
  | AuthCredential k => mkAuth anonymous id secret token region skew buckets actions (credentials ++ [k])
  end.
(* @src src/src/config.rs 616-620 AuthConfig::builder *)
Definition build_auth (l : list AuthSetting) : AuthConfig := foldl auth_setting default_auth_config l.

Inductive ConfigSetting :=
| ConfigAuth (auth : AuthConfig)
| ConfigAllowAnonymous (allow_anonymous : bool)
| ConfigRegion (region : str)
| ConfigVirtualHostBaseDomain (domain : str)
| ConfigWithoutVirtualHostBaseDomain
| ConfigUploadLimits (upload_limits : UploadLimits).

(* @src src/src/config.rs 63-104 ConfigBuilder *)
Definition config_setting (c : Config) (x : ConfigSetting) : Config :=
  let '(mkConfig root auth domain limits) := c in
  match x with
  | ConfigAuth auth => mkConfig root auth domain limits
  | ConfigAllowAnonymous b => mkConfig root (auth_setting auth (AuthAllowAnonymous b)) domain limits
  | ConfigRegion r => mkConfig root (auth_setting auth (AuthRegion r)) domain limits
  | ConfigVirtualHostBaseDomain d => mkConfig root auth (Some d) limits
  | ConfigWithoutVirtualHostBaseDomain => mkConfig root auth None limits
  | ConfigUploadLimits limits => mkConfig root auth domain limits
  end.
(* @src src/src/config.rs 50-54 Config::builder *)
Definition build_config (root : str) (l : list ConfigSetting) : Config := foldl config_setting (new_config root) l.

(** ** Debug output *)

(** What an implementation of [Debug] passes to the formatter. The entries of a
    set of actions come in the order of the model's list, which the source sorts. *)
Inductive DebugValue :=
| DebugText (text : str)
| DebugBool (b : bool)
| DebugInt (z : Z)
| DebugStr (s : str)
| DebugOption (o : option DebugValue)
| DebugSeq (l : list DebugValue)
| DebugSet (l : list DebugValue)
| DebugStruct (name : str) (fields : list (str * DebugValue)).

Definition debug_strings (s : btset str) : DebugValue := DebugSet (DebugStr <$> btree_keys s).
(** The derived output of a constructor without fields. *)
(* @src src/src/config.rs 1060-1082 S3Action *)
Definition debug_action (a : S3Action) : DebugValue :=
  DebugText (drop 3 (action_str a)).
Definition REDACTED : DebugValue := DebugStr "<redacted>".

(* @src src/src/config.rs 549-553 SecretKey::fmt *)
Definition debug_secret_key (secret : str) : DebugValue := DebugText "<redacted>".

(* @src src/src/config.rs 931-945 AccessKeyConfig::fmt *)
Definition debug_access_key (k : AccessKeyConfig) : DebugValue :=
  DebugStruct "AccessKeyConfig" [
    ("access_key_id", DebugStr (ak_access_key_id k));
    ("secret_key", REDACTED);
    ("session_token", DebugOption ((λ _, REDACTED) <$> ak_session_token k));
    ("active", DebugBool (ak_active k));
    ("allowed_buckets", debug_strings (ak_allowed_buckets k));
    ("allowed_actions", DebugSet (debug_action <$> ak_allowed_actions k))].

(* @src src/src/config.rs 578-597 AuthConfig::fmt *)
Definition debug_auth (c : AuthConfig) : DebugValue :=
  DebugStruct "AuthConfig" [
    ("allow_anonymous", DebugBool (ac_allow_anonymous c));
    ("access_key_id", DebugStr (ac_access_key_id c));
    ("secret_key", REDACTED);
    ("session_token", DebugOption ((λ _, REDACTED) <$> ac_session_token c));
    ("region", DebugStr (ac_region c));
    ("max_skew_seconds", DebugInt (ac_max_skew_seconds c));
    ("allowed_buckets", debug_strings (ac_allowed_buckets c));
    ("allowed_actions", DebugSet (debug_action <$> ac_allowed_actions c));
    ("credentials", DebugSeq (debug_access_key <$> ac_credentials c))].

(* @src src/src/config.rs 671-678 AuthConfigBuilder::fmt *)
Definition debug_auth_builder (c : AuthConfig) : DebugValue :=
  DebugStruct "AuthConfigBuilder" [("config", debug_auth c)].
(* @src src/src/config.rs 985-992 AccessKeyConfigBuilder::fmt *)
Definition debug_access_key_builder (k : AccessKeyConfig) : DebugValue :=
  DebugStruct "AccessKeyConfigBuilder" [("config", debug_access_key k)].

(* @src src/src/config.rs 796-807 AuthState::fmt *)
Definition debug_auth_state (s : AuthState) : DebugValue :=
  DebugStruct "AuthState" [
    ("allow_anonymous", DebugBool (as_allow_anonymous s));
    ("region", DebugStr (as_region s));
    ("max_skew_seconds", DebugInt (as_max_skew_seconds s));
    ("anonymous_allowed_buckets", debug_strings (as_anonymous_allowed_buckets s));
    ("credential_count", DebugInt (Z.of_nat (size (as_credentials s))))].

(** The derived output of the other types. *)
(* @src src/src/config.rs 265-282 UploadLimits *)
Definition debug_limits (l : UploadLimits) : DebugValue :=
  DebugStruct "UploadLimits" [
    ("max_object_size", DebugInt (max_object_size l));
    ("max_part_size", DebugInt (max_part_size l));
    ("min_non_final_part_size", DebugInt (min_non_final_part_size l));
    ("max_concurrent_s3_requests", DebugInt (max_concurrent_s3_requests l));
    ("max_active_object_writers", DebugInt (max_active_object_writers l));
    ("max_active_multipart_part_writers", DebugInt (max_active_multipart_part_writers l));
    ("max_active_aws_chunked_decoders", DebugInt (max_active_aws_chunked_decoders l))].
(* @src src/src/config.rs 15-26 Config *)
Definition debug_config (c : Config) : DebugValue :=
  DebugStruct "Config" [
    ("storage_root", DebugStr (storage_root c));
    ("auth", debug_auth (cfg_auth c));
    ("virtual_host_base_domain", DebugOption (DebugStr <$> virtual_host_base_domain c));
    ("upload_limits", debug_limits (upload_limits c))].

(** ** What the builders build *)

(** Sets without duplicates, as the collections of the source are. *)
Definition key_ok (k : AccessKeyConfig) : Prop :=
  btree_ok (ak_allowed_buckets k) ∧ NoDup (ak_allowed_actions k).
Definition auth_ok (c : AuthConfig) : Prop :=
  btree_ok (ac_allowed_buckets c) ∧ NoDup (ac_allowed_actions c) ∧ Forall key_ok (ac_credentials c).

(** A setting that brings credentials brings built ones. *)
Definition setting_ok (x : AuthSetting) : Prop :=
  match x with
  | AuthCredentials l => Forall key_ok l
  | AuthCredential k => key_ok k
  | _ => True
  end.

Lemma collect_set_from (l : list str) : ∀ s : btset str, btree_ok s → btree_ok (foldl (λ s x, set_insert x s) s l).
Proof. induction l as [|x l IH]; intros s Hs; [done|]. by apply IH, btree_insert_ok. Qed.
Lemma collect_set_ok l : btree_ok (collect_set l).
Proof. apply collect_set_from, btree_ok_nil. Qed.

Lemma action_insert_ok a l : NoDup l → NoDup (action_insert a l).
Proof.
  intros Hl. unfold action_insert. case_bool_decide; [done|]. apply NoDup_app.
  split_and!; [done|set_solver|apply NoDup_singleton].
Qed.
Lemma collect_actions_from l : ∀ s, NoDup s → NoDup (foldl (λ s a, action_insert a s) s l).
Proof. induction l as [|a l IH]; intros s Hs; [done|]. by apply IH, action_insert_ok. Qed.
Lemma collect_actions_ok l : NoDup (collect_actions l).
Proof. apply collect_actions_from. constructor. Qed.

(** Collecting what is a set already gives it back. *)
Lemma collect_set_keys s : btree_ok s → collect_set (btree_keys s) = s.
Proof.
  assert (∀ l r : btset str, btree_ok (r ++ l) → foldl (λ s x, set_insert x s) r (btree_keys l) = r ++ l) as Hcollect.
  { induction l as [|[k []] l IH]; intros r Hok; simpl; [by rewrite app_nil_r|].
    unfold set_insert at 2. erewrite btree_insert_mid by done. rewrite IH; [by rewrite <- app_assoc|].
    by rewrite <- app_assoc. }
  intros Hs. apply (Hcollect s []). done.
Qed.

Lemma collect_actions_id l : NoDup l → collect_actions l = l.
Proof.
  assert (∀ l r, NoDup (r ++ l) → foldl (λ s a, action_insert a s) r l = r ++ l) as Hcollect.
  { clear. induction l as [|a l IH]; intros r Hok; simpl; [by rewrite app_nil_r|].
    unfold action_insert at 2. rewrite bool_decide_eq_false_2.
    - rewrite IH; by rewrite <- app_assoc.
    - apply NoDup_app in Hok as (_ & Hd & _). intros Ha. apply (Hd a Ha). by left. }
  intros Hl. by apply (Hcollect l []).
Qed.

Lemma auth_setting_ok c x : auth_ok c → setting_ok x → auth_ok (auth_setting c x).
Proof.
  destruct c, x; intros (Hb & Ha & Hc) Hx; split_and!; simpl in *; auto using collect_set_ok, collect_actions_ok,
    action_insert_ok, Forall_app_2, Forall_singleton; by apply btree_insert_ok.
Qed.

Lemma access_key_setting_ok k x : key_ok k → key_ok (access_key_setting k x).
Proof.
  destruct k, x; intros [Hb Ha]; split; simpl in *; auto using collect_set_ok, collect_actions_ok,
    action_insert_ok; by apply btree_insert_ok.
Qed.

Lemma build_access_key_ok id secret l : key_ok (build_access_key id secret l).
Proof.
  unfold build_access_key. assert (key_ok (mkAccessKey id secret None true [] [])) as Hok.
  { split; [apply btree_ok_nil|constructor]. }
  revert Hok. generalize (mkAccessKey id secret None true [] []).
  induction l as [|x l IH]; intros k Hk; [done|]. by apply IH, access_key_setting_ok.
Qed.

(** The chain that says everything about a configuration. *)
Definition auth_settings (c : AuthConfig) : list AuthSetting :=
  [AuthAllowAnonymous (ac_allow_anonymous c);
   AuthPrimaryCredentials (ac_access_key_id c) (ac_secret_key c);
   match ac_session_token c with Some t => AuthSessionToken t | None => AuthWithoutSessionToken end;
   AuthRegion (ac_region c); AuthMaxSkewSeconds (ac_max_skew_seconds c);
   AuthAllowedBuckets (btree_keys (ac_allowed_buckets c)); AuthAllowedActions (ac_allowed_actions c);
   AuthCredentials (ac_credentials c)].

(** The builder of the authentication configuration. Whatever chain of setters
    is called, the allow lists that are built are sets; and every configuration
    with such lists is built by a chain of setters. *)
Theorem auth_builder_exact :
  (∀ l, Forall setting_ok l → auth_ok (build_auth l)) ∧
  (∀ c, auth_ok c → build_auth (auth_settings c) = c).
Proof.
  split.
  - intros l. unfold build_auth. assert (auth_ok default_auth_config) as Hok.
    { split_and!; [apply btree_ok_nil|constructor|constructor]. }
    revert Hok. generalize default_auth_config. induction l as [|x l IH]; intros c Hc Hl; [done|].
    apply Forall_cons in Hl as [Hx Hl]. simpl. apply IH; [by apply auth_setting_ok|done].
  - intros [anonymous id secret token region skew buckets actions credentials] (Hb & Ha & _).
    unfold build_auth, auth_settings, default_auth_config. simpl in Hb, Ha.
    destruct token; cbn [foldl auth_setting ac_allow_anonymous ac_access_key_id ac_secret_key ac_session_token ac_region
      ac_max_skew_seconds ac_allowed_buckets ac_allowed_actions ac_credentials]; by rewrite collect_set_keys, collect_actions_id by done.
Qed.

(** An allow list is a restriction once it has an entry. Adding a bucket to a
    list that has one admits requests on that bucket besides those on the others;
    adding the first bucket to an empty list, which allows every bucket, leaves
    that bucket alone. *)
Theorem allow_bucket_exact c b bucket action :
  btree_ok (ac_allowed_buckets c) →
  permits (auth_setting c (AuthAllowBucket b)) bucket action =
    (str_eqb (bucket_str bucket) b
     || negb (is_empty (ac_allowed_buckets c)) && set_contains (bucket_str bucket) (ac_allowed_buckets c))
    && (is_empty (ac_allowed_actions c) || bool_decide (action ∈ ac_allowed_actions c)).
Proof.
  intros Hok. destruct c as [anonymous id secret token region skew buckets actions credentials].
  unfold permits. cbn [auth_setting ac_allowed_buckets ac_allowed_actions] in *. f_equal.
  assert (is_empty (set_insert b buckets) = false) as ->.
  { destruct (set_insert b buckets) eqn:He; [|done]. exfalso.
    assert (btree_get b (set_insert b buckets) = Some ()) as Hg by apply btree_get_insert_eq. by rewrite He in Hg. }
  cbn [orb]. unfold set_contains, set_insert, btree_contains.
  destruct (str_eqb (bucket_str bucket) b) eqn:Heq.
  - apply str_eqb_eq in Heq. by rewrite Heq, btree_get_insert_eq.
  - apply str_eqb_neq in Heq. rewrite btree_get_insert_ne by congruence. by destruct buckets.
Qed.

(** ** Secrets are not shown *)

Definition erase_key (k : AccessKeyConfig) : AccessKeyConfig :=
  mkAccessKey (ak_access_key_id k) [] ((λ _, []) <$> ak_session_token k) (ak_active k)
    (ak_allowed_buckets k) (ak_allowed_actions k).
Definition erase_auth (c : AuthConfig) : AuthConfig :=
  mkAuth (ac_allow_anonymous c) (ac_access_key_id c) [] ((λ _, []) <$> ac_session_token c) (ac_region c)
    (ac_max_skew_seconds c) (ac_allowed_buckets c) (ac_allowed_actions c) (erase_key <$> ac_credentials c).
Definition erase_config (c : Config) : Config :=
  mkConfig (storage_root c) (erase_auth (cfg_auth c)) (virtual_host_base_domain c) (upload_limits c).

Definition erase_stored (k : StoredAccessKey) : StoredAccessKey :=
  mkStored (sk_access_key_id k) [] ((λ _, []) <$> sk_session_token k) (sk_active k) (sk_allowed_buckets k) (sk_allowed_actions k).
Definition erase_state (s : AuthState) : AuthState :=
  mkAuthState (as_allow_anonymous s) (as_region s) (as_max_skew_seconds s) (as_anonymous_allowed_buckets s)
    (erase_stored <$> as_credentials s).

Lemma debug_access_key_erased k : debug_access_key (erase_key k) = debug_access_key k.
Proof. by destruct k as [? ? []]. Qed.
Lemma debug_auth_erased c : debug_auth (erase_auth c) = debug_auth c.
Proof.
  assert (debug_access_key <$> (erase_key <$> ac_credentials c) = debug_access_key <$> ac_credentials c) as Hc.
  { rewrite <- list_fmap_compose. apply list_fmap_ext. intros ? k ?. apply (debug_access_key_erased k). }
  destruct c as [? ? ? [] ? ? ? ? l]; unfold debug_auth, erase_auth; cbn in *; by rewrite Hc.
Qed.

(** The debug output of a configuration, of its builders and of the
    authentication state does not depend on secret keys or session tokens: two
    that differ in nothing else show the same. *)
Theorem debug_hides_secrets :
  (∀ c c', erase_config c = erase_config c' → debug_config c = debug_config c') ∧
  (∀ c c', erase_auth c = erase_auth c' → debug_auth_builder c = debug_auth_builder c') ∧
  (∀ k k', erase_key k = erase_key k' → debug_access_key_builder k = debug_access_key_builder k') ∧
  (∀ s s', erase_state s = erase_state s' → debug_auth_state s = debug_auth_state s') ∧
  (∀ x y, debug_secret_key x = debug_secret_key y).
Proof.
  split_and!.
  - intros c c' He. unfold debug_config. pose proof (f_equal storage_root He) as Hr.
    pose proof (f_equal cfg_auth He) as Ha. pose proof (f_equal virtual_host_base_domain He) as Hv.
    pose proof (f_equal upload_limits He) as Hl. cbn -[erase_auth] in Hr, Ha, Hv, Hl.
    by rewrite Hr, Hv, Hl, <- debug_auth_erased, Ha, debug_auth_erased.
  - intros c c' He. unfold debug_auth_builder. by rewrite <- debug_auth_erased, He, debug_auth_erased.
  - intros k k' He. unfold debug_access_key_builder.
    by rewrite <- debug_access_key_erased, He, debug_access_key_erased.
  - intros s s' He. unfold debug_auth_state. pose proof (f_equal as_credentials He) as Hc. simpl in Hc.
    rewrite <- (map_size_fmap erase_stored), Hc, map_size_fmap.
    by inversion He.
  - done.
Qed.
