(* ===== verification/Auth.v ===== *)
(** * Request authentication and authorization (auth.rs)

    AWS Signature Version 4 in the Authorization header and in presigned
    URLs: canonical requests, credential scopes, timestamps, signatures, the
    anonymous mode and the allow-lists. [Utc::now()] is an argument.

    [Duration::seconds] panics beyond i64::MAX milliseconds; durations are
    unbounded here. *)

From S2P Require Import Prelude RustStd BTree S3Error Externals Reference Types Config.
From S2P Require Import Chunked Checksum Upload.
From Stdlib Require Import ZArith Lia Sorting.Sorted.
Local Open Scope Z_scope.

(** [http::Uri] as far as it is used here. *)
Record Uri := mkUri { uri_path : str; uri_query : option str }.

(* @src src/src/auth.rs 19-27 PRESIGNED_AUTH_FIELDS *)
Definition PRESIGNED_AUTH_FIELDS : list str :=
  ["X-Amz-Algorithm"; "X-Amz-Credential"; "X-Amz-Date"; "X-Amz-Expires"; "X-Amz-SignedHeaders";
   "X-Amz-Signature"; "X-Amz-Security-Token"].

(* @src src/src/auth.rs 742-818 AuthError *)
Inductive AuthError :=
| UnsupportedAlgorithm
| MalformedAuthorization
| MissingAuthorizationField (name : str)
| DuplicateAuthorizationField (name : str)
| InvalidCredentialScope
| UnknownAccessKey
| InactiveAccessKey
| RegionMismatch
| CredentialDateMismatch
| InvalidTimestamp
| RequestTimeTooSkewed
| ExpiredPresignedUrl
| InvalidSessionToken
| MissingSignedHeader (name : str)
| InvalidSignedHeaders
| MissingPresignedField (name : str)
| DuplicatePresignedField (name : str)
| InvalidExpires
| InvalidQueryEncoding
| InvalidHeaderValue (name : str)
| AuthInvalidPayloadHashMode
| DuplicateHeader (name : str)
| SignatureMismatch
| InvalidSignature
| Crypto.

(* @src src/src/auth.rs 742-818 AuthError *)
Definition auth_error_msg (e : AuthError) : str :=
  match e with
  | UnsupportedAlgorithm => "unsupported authorization algorithm"
  | MalformedAuthorization => "malformed authorization header"
  | MissingAuthorizationField n => "authorization header is missing " ++ n
  | DuplicateAuthorizationField n =>
      "authorization header field " ++ n ++ " must not appear more than once"
  | InvalidCredentialScope => "invalid credential scope"
  | UnknownAccessKey => "unknown access key"
  | InactiveAccessKey => "inactive access key"
  | RegionMismatch => "credential region is not configured"
  | CredentialDateMismatch => "credential date does not match x-amz-date"
  | InvalidTimestamp => "request timestamp is invalid"
  | RequestTimeTooSkewed => "request time is too skewed"
  | ExpiredPresignedUrl => "presigned URL has expired"
  | InvalidSessionToken => "session token is missing or invalid"
  | MissingSignedHeader n => "missing signed header " ++ n
  | InvalidSignedHeaders => "signed headers are invalid"
  | MissingPresignedField n => "presigned URL is missing " ++ n
  | DuplicatePresignedField n => "presigned URL field " ++ n ++ " must not appear more than once"
  | InvalidExpires => "presigned URL expiration is invalid"
  | InvalidQueryEncoding => "query string contains invalid percent-encoded UTF-8"
  | InvalidHeaderValue n => "invalid signed header value for " ++ n
  | AuthInvalidPayloadHashMode => "unsupported x-amz-content-sha256 payload mode"
  | DuplicateHeader n => n ++ " must not appear more than once"
  | SignatureMismatch => "signature mismatch"
  | InvalidSignature => "signature must be lowercase 64-character hex"
  | Crypto => "failed to compute authentication HMAC"
  end.

(* @src src/src/auth.rs 598-611 map_auth_error *)
Definition map_auth_error (e : AuthError) : S3Error :=
  match e with
  | SignatureMismatch => signature_does_not_match
  | Crypto => internal "failed to compute authentication HMAC"
  | RequestTimeTooSkewed => request_time_too_skewed
  | ExpiredPresignedUrl => access_denied "Request has expired"
  | InvalidCredentialScope | RegionMismatch | CredentialDateMismatch =>
      authorization_header_malformed (auth_error_msg e)
  | other => access_denied (auth_error_msg other)
  end.

(** ** The Authorization header and the credential scope *)

(* @src src/src/auth.rs 586-596 validate_signature *)
Definition validate_signature (value : str) : result AuthError () :=
  if (len value =? 64) && forallb is_lower_hex value then Ok () else Err InvalidSignature.

(* @src src/src/auth.rs 669-673 ParsedAuthorization *)
Record ParsedAuthorization := mkParsed {
  pa_credential : str;
  pa_signed_headers : str;
  pa_signature : str;
}.

(* @src src/src/auth.rs 704-712 required_field *)
Definition required_field (fields : btree str str) (name : str) : result AuthError str :=
  ok_or (btree_get name fields) (MissingAuthorizationField name).

(* @src src/src/auth.rs 682-691 ParsedAuthorization::parse *)
Definition add_authorization_field (fields : btree str str) (part : str)
  : result AuthError (btree str str) :=
  match split_once "="%char (trim part) with
  | None => Err MalformedAuthorization
  | Some (name, value) =>
      if btree_contains name fields then Err (DuplicateAuthorizationField name)
      else Ok (btree_insert name value fields)
  end.

(* @src src/src/auth.rs 676-701 ParsedAuthorization::parse *)
Definition parse_authorization (value : str) : result AuthError ParsedAuthorization :=
  match strip_prefix "AWS4-HMAC-SHA256 " value with
  | None => Err UnsupportedAlgorithm
  | Some rest =>
      fields ← try_fold add_authorization_field [] (split ","%char rest);
      signature ← required_field fields "Signature";
      _ ← validate_signature signature;
      credential ← required_field fields "Credential";
      signed_headers ← required_field fields "SignedHeaders";
      Ok (mkParsed credential signed_headers signature)
  end.

(* @src src/src/auth.rs 714-720 CredentialScope *)
Record CredentialScope := mkScope {
  cs_access_key_id : str;
  cs_date : str;
  cs_region : str;
  cs_service : str;
  cs_terminal : str;
}.

(* @src src/src/auth.rs 723-739 CredentialScope::parse *)
Definition parse_credential_scope (value : str) : result AuthError CredentialScope :=
  match split "/"%char value with
  | [a; date; region; service; terminal] as parts =>
      if existsb is_empty parts then Err InvalidCredentialScope
      else if negb (len date =? 8) || negb (forallb is_ascii_digit date) then
        Err InvalidCredentialScope
      else Ok (mkScope a date region service terminal)
  | _ => Err InvalidCredentialScope
  end.

(** ** Canonical forms *)

(* @src src/src/auth.rs 657-661 CanonicalQueryMode *)
Inductive CanonicalQueryMode := IncludeAll | ExcludePresignedSignature.
(* @src src/src/auth.rs 663-667 PayloadHashSource *)
Inductive PayloadHashSource := HashFromHeader | HashUnsignedPayload.

(** The unreserved characters of RFC 3986. *)
Definition unreserved (c : ascii) : bool :=
  is_ascii_uppercase c || is_ascii_lowercase c || is_ascii_digit c
  || bool_decide (c = "-"%char) || bool_decide (c = "."%char)
  || bool_decide (c = "_"%char) || bool_decide (c = "~"%char).

Definition hex_upper (d : Z) : ascii := to_upper (digit_char d).
(** [format!("%{byte:02X}")]. *)
Definition pct (c : ascii) : str :=
  ["%"%char; hex_upper (byte_val c / 16); hex_upper (byte_val c mod 16)].

(* @src src/src/auth.rs 356-382 canonical_uri *)
Fixpoint canonical_uri (path : str) : str :=
  match path with
  | [] => []
  | c :: t =>
      if unreserved c || bool_decide (c = "/"%char) then c :: canonical_uri t
      else match t with
      | a :: (b :: u) =>
          if bool_decide (c = "%"%char) && is_ascii_hexdigit a && is_ascii_hexdigit b then
            "%"%char :: to_upper a :: to_upper b :: canonical_uri u
          else pct c ++ canonical_uri t
      | _ => pct c ++ canonical_uri t
      end
  end.

(* @src src/src/auth.rs 554-566 aws_uri_encode *)
Definition aws_uri_encode (s : bytes) (preserve_slash : bool) : str :=
  concat ((λ c, if unreserved c then [c]
                else if bool_decide (c = "/"%char) && preserve_slash then [c]
                else pct c) <$> s).

(** [Vec<(String, String)>::sort]. *)
Definition pair_compare (p q : str * str) : comparison :=
  match str_compare p.1 q.1 with Eq => str_compare p.2 q.2 | c => c end.
Fixpoint sort_insert (p : str * str) (l : list (str * str)) : list (str * str) :=
  match l with
  | [] => [p]
  | q :: l' => match pair_compare p q with Gt => q :: sort_insert p l' | _ => p :: l end
  end.
Definition sort_pairs (l : list (str * str)) : list (str * str) := foldr sort_insert [] l.

(** [pair.split_once('=').unwrap_or((pair, ""))]. *)
Definition split_param (pair : str) : str * str := default (pair, []) (split_once "="%char pair).

Section Auth.
Context `{HttpLib} `{CodecLib} `{CryptoLib} `{ChronoLib}.

(* @src src/src/auth.rs 547-552 percent_decode *)
Definition auth_percent_decode (value : str) : result AuthError str :=
  ok_or (percent_decode value) InvalidQueryEncoding.

(** One parameter: [None] when it is skipped. *)
(* @src src/src/auth.rs 390-401 canonical_query *)
Definition canonical_param (mode : CanonicalQueryMode) (pair : str)
  : result AuthError (option (str * str)) :=
  let '(name, value) := split_param pair in
  name ← auth_percent_decode name;
  if match mode with ExcludePresignedSignature => str_eqb name "X-Amz-Signature" | IncludeAll => false end
  then Ok None
  else value ← auth_percent_decode value;
       Ok (Some (aws_uri_encode name false, aws_uri_encode value false)).

Definition render_params (params : list (str * str)) : str :=
  join "&" ((λ p, p.1 ++ "=" ++ p.2) <$> sort_pairs params).

(* @src src/src/auth.rs 384-408 canonical_query *)
Definition canonical_query (query : str) (mode : CanonicalQueryMode) : result AuthError str :=
  if is_empty query then Ok []
  else params ← collect (canonical_param mode <$> split "&"%char query);
       Ok (render_params (omap id params)).

(* @src src/src/auth.rs 445-447 normalize_header_value *)
Definition normalize_header_value (value : str) : str := join " " (split_whitespace value).

(* @src src/src/auth.rs 413-429 canonical_headers *)
Definition canonical_header_value (headers : HeaderMap) (name : str) : result AuthError str :=
  match hm_get_all headers name with
  | [] => Err (MissingSignedHeader name)
  | vs => l ← collect ((λ v, s ← ok_or (hv_to_str v) (InvalidHeaderValue name);
                             Ok (normalize_header_value s)) <$> vs);
          Ok (join "," l)
  end.

(* @src src/src/auth.rs 410-435 canonical_headers *)
Definition canonical_headers (headers : HeaderMap) (signed : list str) : result AuthError str :=
  values ← try_fold (λ values name,
             value ← canonical_header_value headers name;
             Ok (btree_insert name value values)) [] signed;
  Ok (concat ((λ '(n, v), n ++ ":" ++ v ++ NL) <$> values)).

(** [previous >= *name] is the negation of the strict order. *)
(* @src src/src/auth.rs 315-328 validate_signed_headers *)
Definition check_signed_name (previous : option str) (name : str) : result AuthError (option str) :=
  if existsb (λ c, is_ascii_uppercase c || is_ascii_control c) name then Err InvalidSignedHeaders
  else match previous with
  | Some p => if negb (str_ltb p name) then Err InvalidSignedHeaders else Ok (Some name)
  | None => Ok (Some name)
  end.

(* @src src/src/auth.rs 310-333 validate_signed_headers *)
Definition validate_signed_headers (signed : list str) : result AuthError () :=
  if is_empty signed || existsb is_empty signed then Err InvalidSignedHeaders
  else
    _ ← try_fold check_signed_name None signed;
    if negb (existsb (str_eqb "host") signed) then Err (MissingSignedHeader "host")
    else Ok ().

(* @src src/src/auth.rs 335-345 validate_amz_headers_are_signed *)
Definition validate_amz_headers_are_signed (headers : HeaderMap) (signed : list str)
  : result AuthError () :=
  try_iter (λ name,
    if starts_with "x-amz-" name && negb (existsb (str_eqb name) signed) then
      Err (MissingSignedHeader name)
    else Ok ()) (hm_keys headers).

(* @src src/src/auth.rs 347-354 validate_singleton_auth_headers *)
Definition validate_singleton_auth_headers (headers : HeaderMap) : result AuthError () :=
  try_iter (λ name,
    if (1 <? length (hm_get_all headers name))%nat then Err (DuplicateHeader name) else Ok ())
    ["x-amz-date"; "x-amz-content-sha256"; "x-amz-security-token"].

(* @src src/src/auth.rs 274-308 canonical_request *)
Definition canonical_request (method : str) (uri : Uri) (headers : HeaderMap) (signed_headers : str)
    (query_mode : CanonicalQueryMode) (source : PayloadHashSource) : result AuthError str :=
  let curi := canonical_uri (uri_path uri) in
  cquery ← canonical_query (default [] (uri_query uri)) query_mode;
  let names := split ";"%char signed_headers in
  _ ← validate_signed_headers names;
  _ ← validate_amz_headers_are_signed headers names;
  _ ← validate_singleton_auth_headers headers;
  cheaders ← canonical_headers headers names;
  payload_hash ← match source with
    | HashFromHeader =>
        mode ← map_err (λ _, AuthInvalidPayloadHashMode) (payload_hash_mode headers);
        ok_or (canonical_value mode) (MissingSignedHeader "x-amz-content-sha256")
    | HashUnsignedPayload => Ok "UNSIGNED-PAYLOAD"
    end;
  Ok (method ++ NL ++ curi ++ NL ++ cquery ++ NL ++ cheaders ++ NL ++ signed_headers ++ NL ++ payload_hash).

(** ** Keys and signatures *)

(* @src src/src/auth.rs 575-579 hmac_sha256 *)
Definition auth_hmac (key data : bytes) : result AuthError bytes :=
  ok_or (hmac_sha256_raw key data) Crypto.

(* @src src/src/auth.rs 568-573 signing_key *)
Definition signing_key (secret_key date region : str) : result AuthError bytes :=
  k_date ← auth_hmac ("AWS4" ++ secret_key) date;
  k_region ← auth_hmac k_date region;
  k_service ← auth_hmac k_region "s3";
  auth_hmac k_service "aws4_request".

(* @src src/src/auth.rs 168-172 verify_header_auth *)
Definition request_string_to_sign (amz_date : str) (scope : CredentialScope) (creq : str) : str :=
  "AWS4-HMAC-SHA256" ++ NL ++ amz_date ++ NL ++ cs_date scope ++ "/" ++ cs_region scope
    ++ "/s3/aws4_request" ++ NL ++ hex_encode (sh_hash Sha256 creq).

(** ** Request checks *)

(* @src src/src/auth.rs 437-443 header_str *)
Definition header_str (headers : HeaderMap) (name : str) : result AuthError str :=
  v ← ok_or (hm_get headers name) (MissingSignedHeader name);
  ok_or (hv_to_str v) (InvalidHeaderValue name).

(* @src src/src/auth.rs 449-462 validate_header_session_token *)
Definition validate_header_session_token (expected : option str) (headers : HeaderMap)
  : result AuthError () :=
  match expected with
  | None => Ok ()
  | Some expected =>
      actual ← header_str headers "x-amz-security-token";
      if str_eqb actual expected then Ok () else Err InvalidSessionToken
  end.

(* @src src/src/auth.rs 537-545 required_query *)
Definition required_query (query : btree str str) (name : str) : result AuthError str :=
  ok_or (btree_get name query) (MissingPresignedField name).

(* @src src/src/auth.rs 464-477 validate_presigned_session_token *)
Definition validate_presigned_session_token (expected : option str) (query : btree str str)
  : result AuthError () :=
  match expected with
  | None => Ok ()
  | Some expected =>
      actual ← required_query query "X-Amz-Security-Token";
      if str_eqb actual expected then Ok () else Err InvalidSessionToken
  end.

(* @src src/src/auth.rs 509-513 parse_amz_date *)
Definition parse_amz_date (value : str) : result AuthError Z := ok_or (dt_parse_amz value) InvalidTimestamp.

(* @src src/src/auth.rs 479-492 validate_timestamp *)
Definition validate_timestamp (now : Z) (amz_date : str) (max_skew_seconds : Z) : result AuthError () :=
  request_time ← parse_amz_date amz_date;
  let skew := if request_time >? now then request_time - now else now - request_time in
  if skew >? dur_seconds max_skew_seconds then Err RequestTimeTooSkewed else Ok ().

(* @src src/src/auth.rs 494-507 validate_presigned_expiry *)
Definition validate_presigned_expiry (now request_time expires max_skew_seconds : Z)
  : result AuthError () :=
  if now + dur_seconds max_skew_seconds <? request_time then Err RequestTimeTooSkewed
  else if now >? request_time + dur_seconds expires then Err ExpiredPresignedUrl
  else Ok ().

(* @src src/src/auth.rs 517-524 query_fields *)
Definition add_query_field (fields : btree str str) (pair : str) : result AuthError (btree str str) :=
  let '(name, value) := split_param pair in
  name ← auth_percent_decode name;
  if existsb (str_eqb name) PRESIGNED_AUTH_FIELDS && btree_contains name fields then
    Err (DuplicatePresignedField name)
  else value ← auth_percent_decode value; Ok (btree_insert name value fields).

(* @src src/src/auth.rs 515-526 query_fields *)
Definition query_fields (query : str) : result AuthError (btree str str) :=
  try_fold add_query_field [] (split "&"%char query).

(* @src src/src/auth.rs 528-535 is_presigned_query *)
Definition is_presigned_query (query : str) : bool :=
  existsb (λ pair,
    let name := match split_once "="%char pair with Some (name, _) => name | None => pair end in
    match percent_decode name with Some name => str_eqb name "X-Amz-Algorithm" | None => false end)
    (split "&"%char query).

(** The scope checks shared by both signed modes. *)
(* @src src/src/auth.rs 139-151 verify_header_auth *)
Definition check_scope (config : AuthState) (scope : CredentialScope) : result AuthError StoredAccessKey :=
  key ← ok_or (credential config (cs_access_key_id scope)) UnknownAccessKey;
  if negb (sk_active key) then Err InactiveAccessKey
  else if negb (str_eqb (cs_region scope) (as_region config)) then Err RegionMismatch
  else if negb (str_eqb (cs_service scope) "s3") || negb (str_eqb (cs_terminal scope) "aws4_request") then
    Err InvalidCredentialScope
  else Ok key.

(* @src src/src/auth.rs 626-629 HeaderAuth *)
Record HeaderAuth := mkHeaderAuth { ha_access_key_id : str; ha_streaming_signing : StreamingSigningContext }.

(* @src src/src/auth.rs 130-195 verify_header_auth *)
Definition verify_header_auth (now : Z) (config : AuthState) (method : str) (uri : Uri)
    (headers : HeaderMap) (authorization : str) : result AuthError HeaderAuth :=
  parsed ← parse_authorization authorization;
  scope ← parse_credential_scope (pa_credential parsed);
  key ← check_scope config scope;
  amz_date ← header_str headers "x-amz-date";
  if negb (starts_with (cs_date scope) amz_date) then Err CredentialDateMismatch
  else
    _ ← validate_timestamp now amz_date (as_max_skew_seconds config);
    _ ← validate_header_session_token (sk_session_token key) headers;
    creq ← canonical_request method uri headers (pa_signed_headers parsed) IncludeAll HashFromHeader;
    skey ← signing_key (sk_secret_key key) (cs_date scope) (cs_region scope);
    mac ← auth_hmac skey (request_string_to_sign amz_date scope creq);
    if ct_eq (hex_encode mac) (pa_signature parsed) then
      Ok (mkHeaderAuth (sk_access_key_id key)
           (mkSigning skey (pa_signature parsed) amz_date
              (cs_date scope ++ "/" ++ cs_region scope ++ "/s3/aws4_request")))
    else Err SignatureMismatch.

(* @src src/src/auth.rs 197-272 verify_presigned_url *)
Definition verify_presigned_url (now : Z) (config : AuthState) (method : str) (uri : Uri)
    (headers : HeaderMap) : result AuthError str :=
  q ← ok_or (uri_query uri) (MissingPresignedField "X-Amz-Algorithm");
  query ← query_fields q;
  algorithm ← required_query query "X-Amz-Algorithm";
  if negb (str_eqb algorithm "AWS4-HMAC-SHA256") then Err UnsupportedAlgorithm
  else
    c ← required_query query "X-Amz-Credential";
    scope ← parse_credential_scope c;
    key ← check_scope config scope;
    amz_date ← required_query query "X-Amz-Date";
    if negb (starts_with (cs_date scope) amz_date) then Err CredentialDateMismatch
    else
      request_time ← parse_amz_date amz_date;
      _ ← validate_presigned_session_token (sk_session_token key) query;
      e ← required_query query "X-Amz-Expires";
      expires ← ok_or (parse_u32 e) InvalidExpires;
      if negb ((1 <=? expires) && (expires <=? 604800)) then Err InvalidExpires
      else
        _ ← validate_presigned_expiry now request_time expires (as_max_skew_seconds config);
        signed_headers ← required_query query "X-Amz-SignedHeaders";
        provided ← required_query query "X-Amz-Signature";
        _ ← validate_signature provided;
        creq ← canonical_request method uri headers signed_headers ExcludePresignedSignature
                 HashUnsignedPayload;
        skey ← signing_key (sk_secret_key key) (cs_date scope) (cs_region scope);
        mac ← auth_hmac skey (request_string_to_sign amz_date scope creq);
        if ct_eq (hex_encode mac) provided then Ok (sk_access_key_id key)
        else Err SignatureMismatch.

(* @src src/src/auth.rs 645-655 AuthMode *)
Inductive AuthMode := HeaderSigV4 | PresignedUrl | AnonymousMode | CustomMode.
Global Instance AuthMode_eq_dec : EqDecision AuthMode.
Proof. solve_decision. Defined.

(* @src src/src/hooks.rs 42-56 RequestPrincipal *)
Inductive RequestPrincipal :=
| AnonymousPrincipal
| AccessKeyPrincipal (access_key_id : str)
| CustomPrincipal (id : str).

(* @src src/src/auth.rs 614-624 AuthContext *)
Record AuthContext := mkAuthContext {
  actx_mode : AuthMode;
  actx_principal : RequestPrincipal;
  actx_access_key_id : option str;
  actx_streaming_signing : option StreamingSigningContext;
}.

(* @src src/src/auth.rs 37-88 authenticate *)
Definition authenticate (now : Z) (config : AuthState) (method : str) (uri : Uri) (headers : HeaderMap)
  : result S3Error AuthContext :=
  match hm_get_all headers "authorization" with
  | _ :: _ :: _ => Err (access_denied "Authorization header must not appear more than once")
  | [value] =>
      value ← ok_or (hv_to_str value) (access_denied "invalid Authorization header");
      ha ← map_err map_auth_error (verify_header_auth now config method uri headers value);
      Ok (mkAuthContext HeaderSigV4 (AccessKeyPrincipal (ha_access_key_id ha))
            (Some (ha_access_key_id ha)) (Some (ha_streaming_signing ha)))
  | [] =>
      if match uri_query uri with Some q => is_presigned_query q | None => false end then
        id ← map_err map_auth_error (verify_presigned_url now config method uri headers);
        Ok (mkAuthContext PresignedUrl (AccessKeyPrincipal id) (Some id) None)
      else if as_allow_anonymous config then
        Ok (mkAuthContext AnonymousMode AnonymousPrincipal None None)
      else Err (access_denied "Access Denied")
  end.

(* @src src/src/auth.rs 96-128 authorize *)
Definition authorize (config : AuthState) (auth : AuthContext) (bucket : BucketName) (action : S3Action)
  : result S3Error () :=
  if bool_decide (actx_mode auth = CustomMode) then Ok ()
  else if bool_decide (actx_mode auth = AnonymousMode) then
    if permits_anonymous_bucket config bucket then Ok ()
    else Err (access_denied ("Anonymous access is not authorized for bucket " ++ bucket_str bucket))
  else match actx_access_key_id auth with
  | None => Err (access_denied "Access Denied")
  | Some id =>
      if permits_credential config id bucket action then Ok ()
      else Err (access_denied ("Access key is not authorized for " ++ action_str action
                                ++ " on bucket " ++ bucket_str bucket))
  end.
End Auth.
