(* ===== verification/AuthProofs.v ===== *)
(** * Authentication: canonical forms and soundness

    Canonical URIs are stable, canonical queries identify exactly the
    requests with the same parameters, every [x-amz-*] header is covered by
    the signature, and a request that is served was signed with the secret of
    an active credential (or admitted anonymously) and allowed by the
    allow-lists. *)

From stdpp Require Import sorting.
From S2P Require Import Prelude RustStd BTree S3Error Externals Reference Types Config.
From S2P Require Import Chunked Checksum Upload Auth.
From Stdlib Require Import ZArith Lia.
Local Open Scope Z_scope.

(** ** Percent encoding *)

Definition hex_digit (c : ascii) : Z := default 0 (digit_val 16 c).
Definition unpct (a b : ascii) : ascii := ascii_of_Z (16 * hex_digit a + hex_digit b).

(** The decoder the encoded form is read back with. *)
Fixpoint uri_decode (s : str) : str :=
  match s with
  | [] => []
  | c :: t =>
      match t with
      | a :: (b :: u) => if bool_decide (c = "%"%char) then unpct a b :: uri_decode u else c :: uri_decode t
      | _ => c :: uri_decode t
      end
  end.

Lemma pct_facts c :
  is_ascii_hexdigit (hex_upper (byte_val c / 16)) = true ∧
  is_ascii_hexdigit (hex_upper (byte_val c mod 16)) = true ∧
  to_upper (hex_upper (byte_val c / 16)) = hex_upper (byte_val c / 16) ∧
  to_upper (hex_upper (byte_val c mod 16)) = hex_upper (byte_val c mod 16) ∧
  unpct (hex_upper (byte_val c / 16)) (hex_upper (byte_val c mod 16)) = c.
Proof. by all_bytes c. Qed.

Lemma unreserved_facts c : unreserved c || bool_decide (c = "/"%char) = true → c ≠ "%"%char.
Proof. by all_bytes c. Qed.

Lemma canonical_uri_plain c s :
  unreserved c || bool_decide (c = "/"%char) = true → canonical_uri (c :: s) = c :: canonical_uri s.
Proof. intros Hc. cbn [canonical_uri]. by rewrite Hc. Qed.

Lemma canonical_uri_escape a b s :
  is_ascii_hexdigit a = true → is_ascii_hexdigit b = true →
  canonical_uri ("%"%char :: a :: b :: s) = "%"%char :: to_upper a :: to_upper b :: canonical_uri s.
Proof. intros Ha Hb. cbn [canonical_uri]. rewrite Ha, Hb. done. Qed.

Lemma canonical_uri_pct c s : canonical_uri (pct c ++ s) = pct c ++ canonical_uri s.
Proof.
  destruct (pct_facts c) as (Ha & Hb & Hua & Hub & _). unfold pct. cbn [app].
  rewrite canonical_uri_escape by done. by rewrite Hua, Hub.
Qed.

Lemma upper_hexdigit a :
  is_ascii_hexdigit a = true → is_ascii_hexdigit (to_upper a) = true ∧ to_upper (to_upper a) = to_upper a.
Proof. by all_bytes a. Qed.

(** The three ways a path begins. *)
Lemma canonical_uri_cases s :
  s = [] ∨
  (∃ c t, s = c :: t ∧ unreserved c || bool_decide (c = "/"%char) = true) ∨
  (∃ a b t, s = "%"%char :: a :: b :: t ∧ is_ascii_hexdigit a = true ∧ is_ascii_hexdigit b = true) ∨
  (∃ c t, s = c :: t ∧ canonical_uri s = pct c ++ canonical_uri t).
Proof.
  destruct s as [|c t]; [by left|]. right.
  destruct (unreserved c || bool_decide (c = "/"%char)) eqn:Hc; [left; eauto|]. right.
  assert (∀ (P : Prop), canonical_uri (c :: t) = pct c ++ canonical_uri t →
    P ∨ ∃ c' t', c :: t = c' :: t' ∧ canonical_uri (c :: t) = pct c' ++ canonical_uri t') as Hr.
  { intros P Heq. right. by exists c, t. }
  destruct t as [|a [|b u]]; [by apply Hr; cbn [canonical_uri]; rewrite Hc..|].
  destruct (bool_decide (c = "%"%char)) eqn:Hp; [|by apply Hr; cbn [canonical_uri]; rewrite Hc, Hp].
  destruct (is_ascii_hexdigit a) eqn:Ha; [|by apply Hr; cbn [canonical_uri]; rewrite Hc, Hp, Ha].
  destruct (is_ascii_hexdigit b) eqn:Hb; [|by apply Hr; cbn [canonical_uri]; rewrite Hc, Hp, Ha, Hb].
  left. apply bool_decide_eq_true in Hp as ->. by exists a, b, u.
Qed.

(** The canonical form of a request path is stable: canonicalising it again
    changes nothing, so that clients that already percent-encode their paths
    and clients that do not sign the same string. *)
Theorem canonical_uri_idempotent path : canonical_uri (canonical_uri path) = canonical_uri path.
Proof.
  remember (length path) as n eqn:Hn. revert path Hn. induction (lt_wf n) as [n _ IH]. intros s ->.
  destruct (canonical_uri_cases s) as [->|[(c & t & -> & Hc)|[(a & b & t & -> & Ha & Hb)|(c & t & -> & Heq)]]].
  - done.
  - rewrite !canonical_uri_plain by done. f_equal. eapply IH; [|done]. simpl. lia.
  - rewrite canonical_uri_escape by done.
    destruct (upper_hexdigit a Ha) as [Ha1 Ha2], (upper_hexdigit b Hb) as [Hb1 Hb2].
    rewrite canonical_uri_escape by done. rewrite Ha2, Hb2. do 3 f_equal. eapply IH; [|done]. simpl. lia.
  - rewrite Heq, canonical_uri_pct. f_equal. eapply IH; [|done]. simpl. lia.
Qed.

Lemma uri_decode_plain c s : c ≠ "%"%char → uri_decode (c :: s) = c :: uri_decode s.
Proof. intros Hc. destruct s as [|a [|b u]]; [done..|]. cbn [uri_decode]. by rewrite bool_decide_eq_false_2. Qed.

Lemma uri_decode_encode s : uri_decode (aws_uri_encode s false) = s.
Proof.
  unfold aws_uri_encode. induction s as [|c s IH]; [done|]. cbn [fmap list_fmap concat].
  destruct (unreserved c) eqn:Hc.
  - cbn [app]. rewrite uri_decode_plain by (apply unreserved_facts; by rewrite Hc). by f_equal.
  - rewrite andb_false_r. unfold pct. cbn [app uri_decode]. rewrite bool_decide_eq_true_2 by done.
    destruct (pct_facts c) as (_ & _ & _ & _ & ->). by f_equal.
Qed.

Global Instance aws_uri_encode_inj : Inj (=) (=) (λ s, aws_uri_encode s false).
Proof. intros s t Heq. by rewrite <- (uri_decode_encode s), <- (uri_decode_encode t), Heq. Qed.

(** No separator of the query string survives encoding. *)
Lemma aws_uri_encode_clean s c :
  c ∈ aws_uri_encode s false → unreserved c = true ∨ c = "%"%char ∨ is_ascii_hexdigit c = true.
Proof.
  unfold aws_uri_encode. intros (l & Hl & Hc)%list_elem_of_In%in_concat.
  apply list_elem_of_In in Hc. apply list_elem_of_In, list_elem_of_fmap in Hl as (x & -> & _).
  destruct (unreserved x) eqn:Hx.
  - apply list_elem_of_singleton in Hc as ->. auto.
  - rewrite andb_false_r in Hc. destruct (pct_facts x) as (Ha & Hb & _).
    unfold pct in Hc. rewrite !elem_of_cons in Hc. destruct Hc as [->|[->|[->|Hc]]]; auto.
    by apply not_elem_of_nil in Hc.
Qed.

Lemma aws_uri_encode_no_sep s : "&"%char ∉ aws_uri_encode s false ∧ "="%char ∉ aws_uri_encode s false.
Proof. split; intros Hc; apply aws_uri_encode_clean in Hc as [|[|]]; done. Qed.

(** ** Sorted parameters *)

Definition pair_le (p q : str * str) : Prop := pair_compare p q ≠ Gt.

Lemma str_compare_cases s t : (str_compare s t = Eq ∧ s = t) ∨ str_compare s t = Lt ∨ str_compare s t = Gt.
Proof.
  destruct (str_compare s t) eqn:E; auto. left. split; [done|by apply str_compare_eq].
Qed.

Global Instance pair_le_trans : Transitive pair_le.
Proof.
  intros [a b] [c d] [e f]. unfold pair_le, pair_compare. simpl. intros H1 H2 H3.
  destruct (str_compare_cases a c) as [[E1 ->]|[E1|E1]], (str_compare_cases c e) as [[E2 ->]|[E2|E2]];
    try rewrite (str_compare_lt_trans _ _ _ E1 E2) in H3;
    rewrite ?str_compare_refl, ?E1, ?E2 in *; try done.
  destruct (str_compare_cases b d) as [[E3 ->]|[E3|E3]], (str_compare_cases d f) as [[E4 ->]|[E4|E4]];
    try rewrite (str_compare_lt_trans _ _ _ E3 E4) in H3;
    rewrite ?str_compare_refl, ?E3, ?E4 in *; done.
Qed.

Global Instance pair_le_antisym : AntiSymm (=) pair_le.
Proof.
  intros [a b] [c d]. unfold pair_le, pair_compare. simpl.
  rewrite (str_compare_antisym a c), (str_compare_antisym b d). intros H1 H2.
  destruct (str_compare_cases a c) as [[E1 ->]|[E1|E1]]; rewrite ?str_compare_refl, ?E1 in *; simpl in *; try done.
  destruct (str_compare_cases b d) as [[E3 ->]|[E3|E3]]; rewrite ?str_compare_refl, ?E3 in *; simpl in *; done.
Qed.

Lemma pair_gt_le p q : pair_compare p q = Gt → pair_le q p.
Proof.
  destruct p as [a b], q as [c d]. unfold pair_le, pair_compare. simpl.
  rewrite (str_compare_antisym a c), (str_compare_antisym b d).
  destruct (str_compare a c); simpl; try done. by intros ->.
Qed.

Lemma sort_insert_perm p l : sort_insert p l ≡ₚ p :: l.
Proof.
  induction l as [|q l IH]; [done|]. simpl. destruct (pair_compare p q); [done..|].
  rewrite IH. constructor.
Qed.

Lemma sort_pairs_perm l : sort_pairs l ≡ₚ l.
Proof. induction l as [|p l IH]; [done|]. simpl. by rewrite sort_insert_perm, IH. Qed.

Lemma sort_insert_sorted p l : Sorted pair_le l → Sorted pair_le (sort_insert p l).
Proof.
  induction 1 as [|q l Hs IH Hr]; simpl; [by repeat constructor|].
  destruct (pair_compare p q) eqn:E.
  - repeat constructor; try done. unfold pair_le. congruence.
  - repeat constructor; try done. unfold pair_le. congruence.
  - constructor; [done|]. apply pair_gt_le in E.
    destruct l as [|r l]; simpl in *; [by constructor|].
    destruct (pair_compare p r); constructor; try done; by inversion Hr.
Qed.

Lemma sort_pairs_sorted l : Sorted pair_le (sort_pairs l).
Proof. induction l as [|p l IH]; [constructor|]. by apply sort_insert_sorted. Qed.

Lemma sort_pairs_eq l1 l2 : sort_pairs l1 = sort_pairs l2 ↔ l1 ≡ₚ l2.
Proof.
  split.
  - intros Heq. by rewrite <- (sort_pairs_perm l1), <- (sort_pairs_perm l2), Heq.
  - intros Hp. apply (Sorted_unique pair_le); [apply sort_pairs_sorted..|].
    by rewrite !sort_pairs_perm.
Qed.

(** ** Canonical queries *)

Definition param_ok (p : str * str) : Prop := "&"%char ∉ p.1 ++ "=" ++ p.2 ∧ "="%char ∉ p.1.

Lemma render_inj l1 l2 :
  Forall param_ok l1 → Forall param_ok l2 → l1 ≠ [] → l2 ≠ [] →
  join "&" ((λ p, p.1 ++ "=" ++ p.2) <$> l1) = join "&" ((λ p, p.1 ++ "=" ++ p.2) <$> l2) → l1 = l2.
Proof.
  intros H1 H2 Hn1 Hn2 Heq. apply (f_equal (split "&"%char)) in Heq.
  rewrite !split_join in Heq; try (by destruct l1, l2); try (apply Forall_fmap; eapply Forall_impl; [done|]; by intros ? []).
  clear Hn1 Hn2. revert l2 H2 Heq. revert H1. induction l1 as [|[a b] l1 IH]; intros H1 [|[c d] l2] H2 Heq; try done.
  apply Forall_cons in H1 as [[_ Ha] H1], H2 as [[_ Hc] H2]. simpl in *. injection Heq as Hp Hrest.
  apply (f_equal (split_once "="%char)) in Hp.
  rewrite (split_once_app "="%char a b), (split_once_app "="%char c d) in Hp by done. injection Hp as -> ->.
  f_equal. by apply IH.
Qed.

(** [Result::map]. *)
Definition map_ok {E A B} (f : A → B) (r : result E A) : result E B :=
  match r with Ok a => Ok (f a) | Err e => Err e end.

Lemma collect_map_ok {E A B} (f : A → B) (l : list (result E A)) :
  collect (map_ok f <$> l) = map_ok (fmap f) (collect l).
Proof.
  induction l as [|[a|e] l IH]; [done| |done]. cbn [fmap list_fmap collect map_ok]. rewrite IH.
  by destruct (collect l).
Qed.

Section Queries.
Context `{CodecLib}.

(** The parameters of a query string, percent-decoded. *)
Definition decode_param (pair : str) : result AuthError (str * str) :=
  let '(name, value) := split_param pair in
  name ← auth_percent_decode name;
  value ← auth_percent_decode value;
  Ok (name, value).
Definition decoded_params (query : str) : result AuthError (list (str * str)) :=
  collect (decode_param <$> split "&"%char query).

Definition encode_param (p : str * str) : str * str := (aws_uri_encode p.1 false, aws_uri_encode p.2 false).

Lemma canonical_param_all pair :
  canonical_param IncludeAll pair = map_ok (λ p, Some (encode_param p)) (decode_param pair).
Proof.
  unfold canonical_param, decode_param. destruct (split_param pair) as [n v]. unfold_result.
  destruct (auth_percent_decode n) as [n'|]; [|done]. by destruct (auth_percent_decode v).
Qed.

Lemma canonical_query_decoded q l :
  q ≠ [] → decoded_params q = Ok l → canonical_query q IncludeAll = Ok (render_params (encode_param <$> l)).
Proof.
  intros Hq Hd. unfold canonical_query, decoded_params in *. destruct q as [|x q]; [done|].
  cbn [is_empty]. replace (canonical_param IncludeAll <$> split "&"%char (x :: q))
    with (map_ok (λ p, Some (encode_param p)) <$> (decode_param <$> split "&"%char (x :: q))).
  - rewrite collect_map_ok, Hd. simpl. unfold_result. do 2 f_equal. clear.
    induction l as [|p l IH]; [done|]. simpl. by f_equal.
  - rewrite <- list_fmap_compose. apply list_fmap_ext. intros i pair _. simpl. by rewrite canonical_param_all.
Qed.

Lemma decode_encode_params (l : list (str * str)) :
  (λ p, (uri_decode p.1, uri_decode p.2)) <$> (encode_param <$> l) = l.
Proof.
  induction l as [|[n v] l IH]; [done|]. cbn [fmap list_fmap] in *. rewrite IH. f_equal.
  simpl. by rewrite !uri_decode_encode.
Qed.

Lemma encode_param_ok p : param_ok (encode_param p).
Proof.
  destruct p as [n v]. unfold param_ok, encode_param. simpl.
  destruct (aws_uri_encode_no_sep n) as [Hn1 Hn2], (aws_uri_encode_no_sep v) as [Hv _].
  split; [|done]. rewrite not_elem_of_app, not_elem_of_cons. by split_and!.
Qed.

Lemma decoded_params_nonempty q l : decoded_params q = Ok l → l ≠ [].
Proof.
  unfold decoded_params. rewrite collect_ok. intros Heq ->. simpl in Heq.
  apply fmap_nil_inv in Heq. by apply (split_nonempty "&"%char q).
Qed.

(** The canonical query string identifies the parameters of a request: two
    query strings have the same canonical form exactly when they carry the same
    percent-decoded parameters with the same multiplicities, in any order. A
    signature therefore covers every parameter and no reordering or re-encoding
    invalidates it. *)
Theorem canonical_query_identifies q1 q2 l1 l2 :
  q1 ≠ [] → q2 ≠ [] → decoded_params q1 = Ok l1 → decoded_params q2 = Ok l2 →
  canonical_query q1 IncludeAll = canonical_query q2 IncludeAll ↔ l1 ≡ₚ l2.
Proof.
  intros Hq1 Hq2 Hl1 Hl2. rewrite (canonical_query_decoded q1 l1), (canonical_query_decoded q2 l2) by done.
  unfold render_params. split.
  - intros Heq. apply (inj Ok) in Heq. apply render_inj in Heq.
    + apply sort_pairs_eq, (fmap_Permutation (λ p, (uri_decode p.1, uri_decode p.2))) in Heq.
      by rewrite !decode_encode_params in Heq.
    + rewrite sort_pairs_perm. apply Forall_fmap, Forall_true. intros p. apply encode_param_ok.
    + rewrite sort_pairs_perm. apply Forall_fmap, Forall_true. intros p. apply encode_param_ok.
    + intros Hnil. apply (decoded_params_nonempty _ _ Hl1).
      pose proof (sort_pairs_perm (encode_param <$> l1)) as Hp. rewrite Hnil in Hp.
      by apply Permutation_nil, fmap_nil_inv in Hp.
    + intros Hnil. apply (decoded_params_nonempty _ _ Hl2).
      pose proof (sort_pairs_perm (encode_param <$> l2)) as Hp. rewrite Hnil in Hp.
      by apply Permutation_nil, fmap_nil_inv in Hp.
  - intros Hp. do 3 f_equal. apply sort_pairs_eq. by rewrite Hp.
Qed.
End Queries.

(** ** Signed requests *)

Section Signed.
Context `{HttpLib} `{CodecLib} `{CryptoLib} `{ChronoLib}.

(** The credential a scope refers to: known, active, of this region and of
    the S3 service. *)
Definition scope_valid (config : AuthState) (scope : CredentialScope) (key : StoredAccessKey) : Prop :=
  credential config (cs_access_key_id scope) = Some key ∧ sk_active key = true ∧
  cs_region scope = as_region config ∧ cs_service scope = "s3" ∧ cs_terminal scope = "aws4_request".

Lemma check_scope_ok config scope key : check_scope config scope = Ok key ↔ scope_valid config scope key.
Proof.
  unfold check_scope, scope_valid. unfold_result.
  destruct (credential config (cs_access_key_id scope)) as [k|];
    [|split; [done|by intros [? _]]].
  split.
  - intros Hc. repeat (case_match_in Hc; [done|]). simplify_eq.
    repeat match goal with
    | Hx : negb _ = false |- _ => apply negb_false_iff in Hx
    | Hx : _ || _ = false |- _ => apply orb_false_iff in Hx as [? ?]
    | Hx : str_eqb _ _ = true |- _ => apply str_eqb_eq in Hx
    end. by split_and!.
  - intros ([= ->] & -> & -> & -> & ->). by rewrite !str_eqb_refl.
Qed.

(** The request is signed: [sig] is the signature the secret key of [key]
    gives to the canonical request. *)
Definition signature_of (key : StoredAccessKey) (scope : CredentialScope) (amz_date creq : str)
    (skey : bytes) (sig : str) : Prop :=
  signing_key (sk_secret_key key) (cs_date scope) (cs_region scope) = Ok skey ∧
  ∃ mac, hmac_sha256_raw skey (request_string_to_sign amz_date scope creq) = Some mac ∧
         sig = hex_encode mac.

Definition within_skew (now : Z) (config : AuthState) (amz_date : str) : Prop :=
  ∃ t, dt_parse_amz amz_date = Some t ∧ Z.abs (t - now) ≤ dur_seconds (as_max_skew_seconds config).

Lemma validate_timestamp_ok now amz_date config u :
  validate_timestamp now amz_date (as_max_skew_seconds config) = Ok u ↔ within_skew now config amz_date.
Proof.
  destruct u. unfold validate_timestamp, parse_amz_date, within_skew. unfold_result.
  destruct (dt_parse_amz amz_date) as [t|]; [|naive_solver].
  assert ((if t >? now then t - now else now - t) = Z.abs (t - now)) as ->.
  { destruct (t >? now) eqn:Hc; rewrite Z.gtb_ltb in Hc; [apply Z.ltb_lt in Hc|apply Z.ltb_ge in Hc]; lia. }
  rewrite Z.gtb_ltb. destruct (Z.ltb_spec (dur_seconds (as_max_skew_seconds config)) (Z.abs (t - now))).
  - split; [done|]. intros (t' & [= <-] & Hle). lia.
  - split; [|done]. intros _. eauto.
Qed.

Lemma session_token_ok key headers u :
  validate_header_session_token (sk_session_token key) headers = Ok u ↔
  (∀ tok, sk_session_token key = Some tok → header_str headers "x-amz-security-token" = Ok tok).
Proof.
  destruct u. unfold validate_header_session_token. destruct (sk_session_token key) as [tok|]; [|naive_solver].
  unfold_result. destruct (header_str headers "x-amz-security-token") as [a|]; [|naive_solver].
  destruct (str_eqb a tok) eqn:He; [apply str_eqb_eq in He|apply str_eqb_neq in He]; naive_solver.
Qed.

Lemma sign_check skey data sig :
  (mac ← auth_hmac skey data; if ct_eq (hex_encode mac) sig then Ok () else Err SignatureMismatch) = Ok () ↔
  ∃ mac, hmac_sha256_raw skey data = Some mac ∧ sig = hex_encode mac.
Proof.
  unfold auth_hmac. unfold_result. destruct (hmac_sha256_raw skey data) as [mac|]; [|naive_solver].
  destruct (ct_eq (hex_encode mac) sig) eqn:Hc.
  - apply ct_eq_spec in Hc. naive_solver.
  - split; [done|]. intros (mac' & [= <-] & ->). by rewrite (proj2 (ct_eq_spec _ _) eq_refl) in Hc.
Qed.

(** The evidence for a header signature. *)
Definition header_signed (now : Z) (config : AuthState) (method : str) (uri : Uri) (headers : HeaderMap)
    (authorization : str) (key : StoredAccessKey) (signing : StreamingSigningContext) : Prop :=
  ∃ parsed scope amz_date creq skey,
    parse_authorization authorization = Ok parsed ∧
    parse_credential_scope (pa_credential parsed) = Ok scope ∧
    scope_valid config scope key ∧
    header_str headers "x-amz-date" = Ok amz_date ∧ starts_with (cs_date scope) amz_date = true ∧
    within_skew now config amz_date ∧
    (∀ tok, sk_session_token key = Some tok → header_str headers "x-amz-security-token" = Ok tok) ∧
    canonical_request method uri headers (pa_signed_headers parsed) IncludeAll HashFromHeader = Ok creq ∧
    signature_of key scope amz_date creq skey (pa_signature parsed) ∧
    signing = mkSigning skey (pa_signature parsed) amz_date
                (cs_date scope ++ "/" ++ cs_region scope ++ "/s3/aws4_request").

Lemma verify_header_auth_ok now config method uri headers authz ha :
  verify_header_auth now config method uri headers authz = Ok ha ↔
  ∃ key, header_signed now config method uri headers authz key (ha_streaming_signing ha) ∧
         ha_access_key_id ha = sk_access_key_id key.
Proof.
  unfold verify_header_auth, header_signed. unfold_result. split.
  - intros Hv. destruct (parse_authorization authz) as [parsed|]; [|done].
    destruct (parse_credential_scope _) as [scope|] eqn:Hscope; [|done].
    destruct (check_scope config scope) as [key|] eqn:Hk; [|done]. apply check_scope_ok in Hk.
    destruct (header_str headers "x-amz-date") as [d|] eqn:Hd; [|done].
    destruct (starts_with (cs_date scope) d) eqn:Hsd; [|done]. simpl in Hv.
    destruct (validate_timestamp _ _ _) eqn:Ht; [|done]. apply validate_timestamp_ok in Ht.
    destruct (validate_header_session_token _ _) eqn:Hst; [|done]. rewrite session_token_ok in Hst.
    destruct (canonical_request _ _ _ _ _ _) as [creq|] eqn:Hc; [|done].
    destruct (signing_key _ _ _) as [skey|] eqn:Hsk; [|done]. unfold auth_hmac in Hv. unfold_result.
    destruct (hmac_sha256_raw _ _) as [mac|] eqn:Hm; [|done].
    destruct (ct_eq _ _) eqn:Hct; [|done]. apply ct_eq_spec in Hct. injection Hv as <-. simpl.
    exists key. split; [|done]. exists parsed, scope, d, creq, skey. unfold signature_of. eauto 15.
  - intros (key & (parsed & scope & d & creq & skey & -> & Hsc & Hk & -> & Hsd & Ht & Hst & Hc & [Hsk (mac & Hm & Hsig)] & Hss) & Hid).
    rewrite Hsc, (proj2 (check_scope_ok _ _ _) Hk), Hsd. simpl.
    rewrite (proj2 (validate_timestamp_ok _ _ _ ()) Ht), (proj2 (session_token_ok _ _ ()) Hst), Hc, Hsk.
    unfold auth_hmac. rewrite Hm. simpl. rewrite Hsig in *.
    rewrite (proj2 (ct_eq_spec _ _) eq_refl). destruct ha. simpl in *. by subst.
Qed.

(** The evidence for a presigned URL. *)
Definition presigned (now : Z) (config : AuthState) (method : str) (uri : Uri) (headers : HeaderMap)
    (key : StoredAccessKey) : Prop :=
  ∃ q query c scope amz_date t expires e signed_headers creq skey sig,
    uri_query uri = Some q ∧ query_fields q = Ok query ∧
    btree_get "X-Amz-Algorithm" query = Some "AWS4-HMAC-SHA256" ∧
    btree_get "X-Amz-Credential" query = Some c ∧ parse_credential_scope c = Ok scope ∧
    scope_valid config scope key ∧
    btree_get "X-Amz-Date" query = Some amz_date ∧ starts_with (cs_date scope) amz_date = true ∧
    dt_parse_amz amz_date = Some t ∧
    (∀ tok, sk_session_token key = Some tok → btree_get "X-Amz-Security-Token" query = Some tok) ∧
    btree_get "X-Amz-Expires" query = Some e ∧ parse_u32 e = Some expires ∧ 1 ≤ expires ≤ 604800 ∧
    t - dur_seconds (as_max_skew_seconds config) ≤ now ≤ t + dur_seconds expires ∧
    btree_get "X-Amz-SignedHeaders" query = Some signed_headers ∧
    btree_get "X-Amz-Signature" query = Some sig ∧
    canonical_request method uri headers signed_headers ExcludePresignedSignature HashUnsignedPayload
      = Ok creq ∧
    signature_of key scope amz_date creq skey sig.

Lemma required_query_ok query name v : required_query query name = Ok v ↔ btree_get name query = Some v.
Proof. unfold required_query. unfold_result. destruct (btree_get name query); naive_solver. Qed.

Lemma presigned_token_ok key query u :
  validate_presigned_session_token (sk_session_token key) query = Ok u ↔
  (∀ tok, sk_session_token key = Some tok → btree_get "X-Amz-Security-Token" query = Some tok).
Proof.
  destruct u. unfold validate_presigned_session_token. destruct (sk_session_token key) as [tok|]; [|naive_solver].
  unfold_result. destruct (required_query query _) as [a|] eqn:Ha.
  - apply required_query_ok in Ha. rewrite Ha.
    destruct (str_eqb a tok) eqn:He; [apply str_eqb_eq in He|apply str_eqb_neq in He]; naive_solver.
  - unfold required_query in Ha. unfold_result. destruct (btree_get _ query); naive_solver.
Qed.

Lemma presigned_expiry_ok now t expires skew u :
  validate_presigned_expiry now t expires skew = Ok u ↔
  t - dur_seconds skew ≤ now ≤ t + dur_seconds expires.
Proof.
  destruct u. unfold validate_presigned_expiry. rewrite Z.gtb_ltb.
  destruct (Z.ltb_spec (now + dur_seconds skew) t); [split; [done|lia]|].
  destruct (Z.ltb_spec (t + dur_seconds expires) now); [split; [done|lia]|]. split; [lia|done].
Qed.

Lemma verify_presigned_ok now config method uri headers id :
  verify_presigned_url now config method uri headers = Ok id →
  ∃ key, presigned now config method uri headers key ∧ id = sk_access_key_id key.
Proof.
  unfold verify_presigned_url, presigned. unfold_result. intros Hv.
  destruct (uri_query uri) as [q|]; [|done].
  destruct (query_fields q) as [query|] eqn:Hq; [|done].
  destruct (required_query query "X-Amz-Algorithm") as [alg|] eqn:Halg; [apply required_query_ok in Halg|done].
  destruct (str_eqb alg _) eqn:Ha; [apply str_eqb_eq in Ha as ->|done]. simpl in Hv.
  destruct (required_query query "X-Amz-Credential") as [c|] eqn:Hc; [apply required_query_ok in Hc|done].
  destruct (parse_credential_scope c) as [scope|] eqn:Hsc; [|done].
  destruct (check_scope config scope) as [key|] eqn:Hk; [apply check_scope_ok in Hk|done].
  destruct (required_query query "X-Amz-Date") as [d|] eqn:Hd; [apply required_query_ok in Hd|done].
  destruct (starts_with (cs_date scope) d) eqn:Hsd; [|done]. simpl in Hv.
  unfold parse_amz_date in Hv. unfold_result. destruct (dt_parse_amz d) as [t|] eqn:Ht; [|done].
  destruct (validate_presigned_session_token _ _) eqn:Htok; [rewrite presigned_token_ok in Htok|done].
  destruct (required_query query "X-Amz-Expires") as [e|] eqn:He; [apply required_query_ok in He|done].
  destruct (parse_u32 e) as [expires|] eqn:Hex; [|done].
  destruct ((1 <=? expires) && (expires <=? 604800)) eqn:Hr; [|done]. simpl in Hv.
  apply andb_true_iff in Hr as [Hr1%Z.leb_le Hr2%Z.leb_le].
  destruct (validate_presigned_expiry _ _ _ _) eqn:Hexp; [apply presigned_expiry_ok in Hexp|done].
  destruct (required_query query "X-Amz-SignedHeaders") as [sh|] eqn:Hsh; [apply required_query_ok in Hsh|done].
  destruct (required_query query "X-Amz-Signature") as [sig|] eqn:Hsig; [apply required_query_ok in Hsig|done].
  destruct (validate_signature sig); [|done].
  destruct (canonical_request _ _ _ _ _ _) as [creq|] eqn:Hcr; [|done].
  destruct (signing_key _ _ _) as [skey|] eqn:Hsk; [|done]. unfold auth_hmac in Hv. unfold_result.
  destruct (hmac_sha256_raw _ _) as [mac|] eqn:Hm; [|done].
  destruct (ct_eq _ _) eqn:Hct; [|done]. apply ct_eq_spec in Hct. injection Hv as <-.
  exists key. split; [|done].
  exists q, query, c, scope, d, t, expires, e, sh, creq, skey, sig.
  split_and!; try done; try lia. split; [done|by exists mac].
Qed.
End Signed.

(** ** What the signature covers *)

Section Covered.
Context `{HttpLib} `{CodecLib} `{CryptoLib} `{ChronoLib}.

Lemma canonical_headers_keys headers : ∀ signed acc values,
  btree_ok acc →
  try_fold (λ values name,
    value ← canonical_header_value headers name; Ok (btree_insert name value values)) acc signed
  = Ok values →
  btree_ok values ∧
  (∀ n, n ∈ signed → ∃ v, canonical_header_value headers n = Ok v ∧ btree_get n values = Some v) ∧
  (∀ n, n ∉ signed → btree_get n values = btree_get n acc).
Proof.
  induction signed as [|name signed IH]; intros acc values Hok Hf; simpl in Hf.
  - injection Hf as <-. split_and!; [done| |done]. intros n Hn. by apply not_elem_of_nil in Hn.
  - unfold_result. destruct (canonical_header_value headers name) as [v|] eqn:Hv; [|done].
    destruct (IH _ _ (btree_insert_ok _ _ _ Hok) Hf) as (Hok' & Hin & Hout).
    split_and!; [done|..].
    + intros n [->|Hn]%elem_of_cons; [|by apply Hin].
      destruct (decide (name ∈ signed)) as [Hs|Hs]; [by apply Hin|].
      exists v. split; [done|]. by rewrite (Hout _ Hs), btree_get_insert_eq.
    + intros n Hn. rewrite not_elem_of_cons in Hn. rewrite Hout by tauto.
      apply btree_get_insert_ne; [done|]. naive_solver.
Qed.

Lemma concat_elem {A} (f : A → str) l x :
  x ∈ l → ∃ pre post, concat (f <$> l) = pre ++ f x ++ post.
Proof.
  intros (l1 & l2 & ->)%list_elem_of_split. exists (concat (f <$> l1)), (concat (f <$> l2)).
  by rewrite fmap_app, concat_app.
Qed.

(** Every signed header is a line of the canonical request. *)
Lemma canonical_headers_line headers signed s n :
  canonical_headers headers signed = Ok s → n ∈ signed →
  ∃ v pre post, canonical_header_value headers n = Ok v ∧ s = pre ++ (n ++ ":" ++ v ++ NL) ++ post.
Proof.
  unfold canonical_headers. unfold_result. intros Hs Hn.
  destruct (try_fold _ _ _) as [values|] eqn:Hf; [|done]. injection Hs as <-.
  destruct (canonical_headers_keys headers signed [] values btree_ok_nil Hf) as (Hok & Hin & _).
  destruct (Hin n Hn) as (v & Hv & Hg). apply btree_get_elem in Hg; [|done].
  destruct (concat_elem (λ '(n, v), n ++ ":" ++ v ++ NL) values (n, v) Hg) as (pre & post & Heq).
  by exists v, pre, post.
Qed.

Lemma amz_headers_listed headers signed n :
  validate_amz_headers_are_signed headers signed = Ok () → n ∈ hm_keys headers →
  starts_with "x-amz-" n = true → n ∈ signed.
Proof.
  unfold validate_amz_headers_are_signed. rewrite try_iter_ok, Forall_forall. intros Hs Hn Hp.
  specialize (Hs n Hn). simpl in Hs. rewrite Hp in Hs. simpl in Hs.
  destruct (existsb (str_eqb n) signed) eqn:He; [|done].
  apply existsb_exists in He as (m & Hm%list_elem_of_In & ->%str_eqb_eq). done.
Qed.

(** The signature covers the host header and every x-amz-* header of the
    request: each is a line [name:value] of the canonical request that was
    hashed, so that an intermediary can neither change nor add one. *)
Theorem amz_headers_covered method uri headers signed_headers qm src creq n :
  canonical_request method uri headers signed_headers qm src = Ok creq →
  n = "host" ∨ (n ∈ hm_keys headers ∧ starts_with "x-amz-" n = true) →
  n ∈ split ";"%char signed_headers ∧
  ∃ v pre post, canonical_header_value headers n = Ok v ∧ creq = pre ++ (n ++ ":" ++ v ++ NL) ++ post.
Proof.
  unfold canonical_request. unfold_result. intros Hc Hn.
  destruct (canonical_query _ _) as [cq|]; [|done].
  destruct (validate_signed_headers _) as [u|] eqn:Hv; [|done].
  destruct (validate_amz_headers_are_signed _ _) as [[]|] eqn:Ha; [|done].
  destruct (validate_singleton_auth_headers _); [|done].
  destruct (canonical_headers _ _) as [ch|] eqn:Hch; [|done].
  assert (n ∈ split ";"%char signed_headers) as Hin.
  { destruct Hn as [->|[Hk Hp]]; [|by eapply amz_headers_listed].
    unfold validate_signed_headers in Hv. destruct (_ || _); [done|]. unfold_result.
    destruct (try_fold _ _ _); [|done]. destruct (existsb _ _) eqn:He; [|done].
    by apply existsb_exists in He as (m & Hm%list_elem_of_In & <-%str_eqb_eq). }
  split; [done|]. destruct (canonical_headers_line _ _ _ n Hch Hin) as (v & pre & post & Hv1 & ->).
  match type of Hc with match ?p with _ => _ end = _ => destruct p as [ph|]; [|done] end.
  injection Hc as <-. exists v, (method ++ NL ++ canonical_uri (uri_path uri) ++ NL ++ cq ++ NL ++ pre),
    (post ++ NL ++ signed_headers ++ NL ++ ph). split; [done|]. by rewrite <- !app_assoc.
Qed.

(* @prop safety 15 : authenticate verify_header_auth verify_presigned_url check_scope parse_authorization parse_credential_scope header_str validate_timestamp validate_presigned_expiry validate_header_session_token validate_presigned_session_token signing_key request_string_to_sign canonical_request query_fields is_presigned_query *)
(** C15: nobody is authenticated without evidence: a header-signed context comes
    from a single Authorization header whose signature is the HMAC of this
    request's canonical form under the secret of a known, active credential of
    this region, within the time skew and with the session token when one is
    configured, and it carries exactly the derived streaming context; a
    presigned context from an unexpired URL with such a signature; an anonymous
    one only without any signature and with anonymous access enabled. *)
Theorem authentication_sound now config method uri headers ctx :
  authenticate now config method uri headers = Ok ctx →
  match actx_mode ctx with
  | HeaderSigV4 => ∃ v authorization key signing,
      hm_get_all headers "authorization" = [v] ∧ hv_to_str v = Some authorization ∧
      header_signed now config method uri headers authorization key signing ∧
      actx_principal ctx = AccessKeyPrincipal (sk_access_key_id key) ∧
      actx_access_key_id ctx = Some (sk_access_key_id key) ∧ actx_streaming_signing ctx = Some signing
  | PresignedUrl => ∃ key,
      hm_get_all headers "authorization" = [] ∧ presigned now config method uri headers key ∧
      actx_principal ctx = AccessKeyPrincipal (sk_access_key_id key) ∧
      actx_access_key_id ctx = Some (sk_access_key_id key) ∧ actx_streaming_signing ctx = None
  | AnonymousMode =>
      hm_get_all headers "authorization" = [] ∧ as_allow_anonymous config = true ∧
      (∀ q, uri_query uri = Some q → is_presigned_query q = false) ∧
      ctx = mkAuthContext AnonymousMode AnonymousPrincipal None None
  | CustomMode => False
  end.
Proof.
  unfold authenticate. destruct (hm_get_all headers "authorization") as [|v [|]]; [| |done].
  - destruct (match uri_query uri with Some q => is_presigned_query q | None => false end) eqn:Hp.
    + unfold_result. destruct (verify_presigned_url _ _ _ _ _) as [id|] eqn:Hv; [|done].
      intros [= <-]. apply verify_presigned_ok in Hv as (key & Hk & ->). simpl. by exists key.
    + destruct (as_allow_anonymous config) eqn:Ha; [|done]. intros [= <-]. simpl.
      split_and!; try done. intros q Hq. by rewrite Hq in Hp.
  - unfold_result. destruct (hv_to_str v) as [authz|] eqn:Ha; [|done].
    destruct (verify_header_auth _ _ _ _ _ _) as [ha|] eqn:Hv; [|done]. intros [= <-].
    apply verify_header_auth_ok in Hv as (key & Hk & Hid). simpl. rewrite Hid.
    by exists v, authz, key, (ha_streaming_signing ha).
Qed.

(** A request with one Authorization header is authenticated exactly when
    it carries the evidence of a header signature: every correctly signed
    request in its time window is accepted. *)
Theorem header_signature_exact now config method uri headers v authorization key signing :
  hm_get_all headers "authorization" = [v] → hv_to_str v = Some authorization →
  (authenticate now config method uri headers =
     Ok (mkAuthContext HeaderSigV4 (AccessKeyPrincipal (sk_access_key_id key))
           (Some (sk_access_key_id key)) (Some signing)) ↔
   ∃ key', header_signed now config method uri headers authorization key' signing ∧
           sk_access_key_id key' = sk_access_key_id key).
Proof.
  intros Hv Ha. unfold authenticate. rewrite Hv. unfold_result. rewrite Ha. split.
  - destruct (verify_header_auth _ _ _ _ _ _) as [ha|] eqn:Hh; [|done]. intros Heq. simplify_eq.
    apply verify_header_auth_ok in Hh as (key' & Hk & Hid). exists key'. by rewrite <- Hid.
  - intros (key' & Hk & Hid).
    rewrite (proj2 (verify_header_auth_ok now config method uri headers authorization
                      (mkHeaderAuth (sk_access_key_id key) signing))); [done|]. by exists key'.
Qed.

(** Who an authenticated context stands for. *)
Lemma authenticate_key now config method uri headers ctx :
  authenticate now config method uri headers = Ok ctx →
  (∃ id key, credential config id = Some key ∧ sk_active key = true ∧
     actx_mode ctx ≠ CustomMode ∧ actx_mode ctx ≠ AnonymousMode ∧
     actx_principal ctx = AccessKeyPrincipal (sk_access_key_id key) ∧
     actx_access_key_id ctx = Some (sk_access_key_id key)) ∨
  (hm_get_all headers "authorization" = [] ∧ as_allow_anonymous config = true ∧
     ctx = mkAuthContext AnonymousMode AnonymousPrincipal None None).
Proof.
  unfold authenticate. destruct (hm_get_all headers "authorization") as [|v [|]]; [| |done].
  - destruct (match uri_query uri with Some q => is_presigned_query q | None => false end).
    + unfold_result. destruct (verify_presigned_url _ _ _ _ _) as [id|] eqn:Hv; [|done].
      intros [= <-]. left.
      apply verify_presigned_ok in Hv as (key & (q & query & c & scope & d & t & ex & e & sh & creq & skey
        & sig & _ & _ & _ & _ & _ & (Hk & Ha & _) & _) & ->).
      by exists (cs_access_key_id scope), key.
    + destruct (as_allow_anonymous config); [|done]. intros [= <-]. by right.
  - unfold_result. destruct (hv_to_str v) as [authz|]; [|done].
    destruct (verify_header_auth _ _ _ _ _ _) as [ha|] eqn:Hv; [|done]. intros [= <-]. left.
    apply verify_header_auth_ok in Hv as (key & (? & scope & ? & ? & ? & ? & ? & (Hk & Ha & _) & _) & Hid).
    simpl. rewrite Hid. by exists (cs_access_key_id scope), key.
Qed.

(* @prop safety 16 : authenticate authorize permits_credential permits_anonymous_bucket credential new_auth_state *)
(** C16: a request that passes authentication and authorization under a state
    built from a configuration acts either for an active configured credential
    whose own bucket and action allow-lists permit the operation, or anonymously,
    with anonymous access enabled and the bucket on the global allow-list. *)
Theorem served_requests_authorized c s now method uri headers ctx bucket action :
  new_auth_state c = Ok s →
  authenticate now s method uri headers = Ok ctx →
  authorize s ctx bucket action = Ok () →
  (∃ ak, ak ∈ primary_key c :: ac_credentials c ∧ ak_active ak = true ∧
     actx_principal ctx = AccessKeyPrincipal (ak_access_key_id ak) ∧
     (ak_allowed_buckets ak = [] ∨ set_contains (bucket_str bucket) (ak_allowed_buckets ak) = true) ∧
     (ak_allowed_actions ak = [] ∨ action ∈ ak_allowed_actions ak)) ∨
  (actx_principal ctx = AnonymousPrincipal ∧ ac_allow_anonymous c = true ∧
     hm_get_all headers "authorization" = [] ∧
     (ac_allowed_buckets c = [] ∨ set_contains (bucket_str bucket) (ac_allowed_buckets c) = true)).
Proof.
  intros Hs Ha Hz. destruct (new_auth_state_inv c s Hs) as (Hanon & Hbuckets & Hheld).
  unfold authorize in Hz. apply authenticate_key in Ha
    as [(id & key & Hk & Hact & Hm1 & Hm2 & Hp & Hid)|(Hh & Hallow & ->)].
  - left. rewrite bool_decide_eq_false_2, bool_decide_eq_false_2, Hid in Hz by done.
    apply Hheld in Hk as (ak & Hin & -> & ->).
    assert (credential s (ak_access_key_id ak) = Some (stored ak)) as Hl by (apply Hheld; eauto).
    unfold permits_credential in Hz. simpl in Hz. rewrite Hl in Hz. simpl in Hz.
    destruct (_ && _) eqn:Hb; [|done]. apply andb_true_iff in Hb as [Hb1%orb_true_iff Hb2%orb_true_iff].
    rewrite !is_empty_true, bool_decide_eq_true in *. by exists ak.
  - right. simpl in Hz. unfold permits_anonymous_bucket in Hz. rewrite Hbuckets in Hz.
    destruct (_ || _) eqn:Hb; [|done]. apply orb_true_iff in Hb. rewrite is_empty_true in Hb.
    by rewrite <- Hanon.
Qed.
End Covered.

(** ** The Authorization header a client sends *)

Definition render_scope (s : CredentialScope) : str :=
  join "/" [cs_access_key_id s; cs_date s; cs_region s; cs_service s; cs_terminal s].
Definition render_authorization (p : ParsedAuthorization) : str :=
  "AWS4-HMAC-SHA256 Credential=" ++ pa_credential p ++ ", SignedHeaders=" ++ pa_signed_headers p
    ++ ", Signature=" ++ pa_signature p.

(** A field value: visible characters without a comma. *)
Definition field_ok (s : str) : Prop := forallb is_graphic s = true ∧ ","%char ∉ s.

Lemma trim_space s : trim (" "%char :: s) = trim s.
Proof. done. Qed.

Lemma add_field_parse fields name v :
  forallb is_graphic name = true → "="%char ∉ name → forallb is_graphic v = true →
  btree_contains name fields = false →
  add_authorization_field fields (name ++ "="%char :: v) = Ok (btree_insert name v fields) ∧
  add_authorization_field fields (" "%char :: name ++ "="%char :: v) = Ok (btree_insert name v fields).
Proof.
  intros Hg He Hv Hc. unfold add_authorization_field. rewrite trim_space.
  rewrite trim_graphic by (rewrite forallb_app, Hg; simpl; by rewrite Hv).
  rewrite split_once_app by done. by rewrite Hc.
Qed.

(** A concrete character does not occur in a concrete string, or in a string
    built from one and from strings known not to contain it. *)
Ltac no_char := apply (bool_decide_unpack _); vm_compute; exact I.
Ltac fresh_char :=
  rewrite ?not_elem_of_cons, ?not_elem_of_app, ?not_elem_of_cons; split_and!;
  first [done|no_char].

(** The Authorization header a client renders from its credential scope,
    signed header list and signature is parsed back to exactly these values. *)
Theorem authorization_roundtrip scope signed_headers signature :
  Forall (λ s, field_ok s ∧ s ≠ [] ∧ "/"%char ∉ s)
    [cs_access_key_id scope; cs_date scope; cs_region scope; cs_service scope; cs_terminal scope] →
  length (cs_date scope) = 8%nat → forallb is_ascii_digit (cs_date scope) = true →
  field_ok signed_headers → length signature = 64%nat → forallb is_lower_hex signature = true →
  let p := mkParsed (render_scope scope) signed_headers signature in
  parse_authorization (render_authorization p) = Ok p ∧
  parse_credential_scope (pa_credential p) = Ok scope.
Proof.
  intros Hf Hd8 Hdd [Hsg Hsc] Hl Hx p. split.
  - assert (field_ok (render_scope scope)) as [Hcg Hcc].
    { unfold field_ok, render_scope. cbn [join]. rewrite !forallb_app, !not_elem_of_app.
      rewrite !Forall_cons in Hf. unfold field_ok in Hf. destruct_and!.
      repeat match goal with Hg : forallb is_graphic _ = true |- _ => rewrite Hg; clear Hg end.
      split; [done|]. split_and!; try done; no_char. }
    pose proof (lower_hex_graphic signature Hx) as Hgg.
    pose proof (lower_hex_fresh ","%char signature Hx eq_refl) as Hgc.
    unfold parse_authorization.
    assert (strip_prefix "AWS4-HMAC-SHA256 " (render_authorization p) = Some
      (("Credential" ++ "="%char :: render_scope scope) ++ ","%char ::
       (" "%char :: "SignedHeaders" ++ "="%char :: signed_headers) ++ ","%char ::
       (" "%char :: "Signature" ++ "="%char :: signature))) as ->.
    { apply strip_prefix_Some. unfold render_authorization, p. cbn. by rewrite <- !app_assoc. }
    rewrite split_app, split_app, split_fresh by fresh_char.
    cbn [try_fold]. unfold mbind, result_bind.
    rewrite (proj1 (add_field_parse [] "Credential" _ eq_refl ltac:(no_char) Hcg eq_refl)).
    rewrite (λ f Hf, proj2 (add_field_parse f "SignedHeaders" _ eq_refl ltac:(no_char) Hsg Hf)) by reflexivity.
    rewrite (λ f Hf, proj2 (add_field_parse f "Signature" _ eq_refl ltac:(no_char) Hgg Hf)) by reflexivity.
    assert (validate_signature signature = Ok ()) as Hvs
      by (unfold validate_signature, len; by rewrite Hl, Hx).
    unfold required_field.
    match goal with |- context [btree_get "Signature" ?F] =>
      change (btree_get "Signature" F) with (Some signature);
      change (btree_get "Credential" F) with (Some (render_scope scope));
      change (btree_get "SignedHeaders" F) with (Some signed_headers) end.
    cbn [ok_or]. by rewrite Hvs.
  - unfold parse_credential_scope. cbn [pa_credential p]. unfold render_scope.
    rewrite split_join; [|done|]. 
    + rewrite !Forall_cons in Hf. destruct Hf as ((_ & H1 & _) & (_ & H2 & _) & (_ & H3 & _) & (_ & H4 & _) & (_ & H5 & _) & _).
      assert (∀ s : str, s ≠ [] → is_empty s = false) as He by by intros [].
      cbn [existsb]. rewrite !He by assumption. unfold len. rewrite Hd8, Hdd. by destruct scope.
    + eapply Forall_impl; [exact Hf|]. by intros s (_ & _ & Hs).
Qed.

(** ** Witnesses *)

Section Witnesses.
Local Existing Instances ref_http ref_codec ref_crypto ref_chrono.

Definition w_state : AuthState :=
  match new_auth_state w_auth_config with Ok s => s
  | Err _ => mkAuthState false [] 0 [] ∅ end.
Definition w_date : str := "20240101T000000Z".
Definition w_scope : CredentialScope := mkScope "primary" "20240101" "eu-west-1" "s3" "aws4_request".
Definition w_signed : str := "host;x-amz-content-sha256;x-amz-date".
Definition w_plain_headers : list (str * bytes) :=
  [("host", "s3.example.com"); ("x-amz-date", w_date); ("x-amz-content-sha256", "UNSIGNED-PAYLOAD")].
Definition w_uri : Uri := mkUri "/photos/a%20b" (Some "partNumber=2&uploadId=x").
Definition w_now : Z := default 0 (dt_parse_amz w_date).
Definition w_creq : str :=
  match canonical_request "PUT" w_uri (w_plain_headers : HeaderMap) w_signed IncludeAll HashFromHeader with
  | Ok c => c | Err _ => [] end.
Definition w_skey : bytes :=
  match signing_key "secret" "20240101" "eu-west-1" with Ok k => k | Err _ => [] end.
Definition w_sig : str :=
  hex_encode (default [] (hmac_sha256_raw w_skey (request_string_to_sign w_date w_scope w_creq))).
Definition w_authz : str := render_authorization (mkParsed (render_scope w_scope) w_signed w_sig).
Definition w_auth_headers : HeaderMap := (("Authorization", w_authz) :: w_plain_headers : list (str * bytes)).
Definition w_signing : StreamingSigningContext :=
  mkSigning w_skey w_sig w_date "20240101/eu-west-1/s3/aws4_request".
Definition w_ctx : AuthContext :=
  mkAuthContext HeaderSigV4 (AccessKeyPrincipal "primary") (Some "primary") (Some w_signing).

Lemma authentication_sound_witness :
  ∃ v authorization key signing,
    hm_get_all w_auth_headers "authorization" = [v] ∧ hv_to_str v = Some authorization ∧
    header_signed w_now w_state "PUT" w_uri w_auth_headers authorization key signing ∧
    AccessKeyPrincipal "primary" = AccessKeyPrincipal (sk_access_key_id key) ∧
    Some "primary" = Some (sk_access_key_id key) ∧ Some w_signing = Some signing.
Proof.
  apply (authentication_sound w_now w_state "PUT" w_uri w_auth_headers w_ctx). vm_refl.
Defined.

Lemma header_signature_exact_witness :
  ∃ key', header_signed w_now w_state "PUT" w_uri w_auth_headers w_authz key' w_signing ∧
          sk_access_key_id key' = sk_access_key_id (stored (primary_key w_auth_config)).
Proof.
  apply (header_signature_exact w_now w_state "PUT" w_uri w_auth_headers w_authz w_authz
    (stored (primary_key w_auth_config)) w_signing); [vm_refl|vm_refl|vm_refl].
Defined.

Lemma served_requests_authorized_witness :
  (∃ ak, ak ∈ primary_key w_auth_config :: ac_credentials w_auth_config ∧ ak_active ak = true ∧
     AccessKeyPrincipal "primary" = AccessKeyPrincipal (ak_access_key_id ak) ∧
     (ak_allowed_buckets ak = [] ∨ set_contains "photos" (ak_allowed_buckets ak) = true) ∧
     (ak_allowed_actions ak = [] ∨ ActPutObject ∈ ak_allowed_actions ak)) ∨
  (AccessKeyPrincipal "primary" = AnonymousPrincipal ∧ false = true ∧
     hm_get_all w_auth_headers "authorization" = [] ∧
     (ac_allowed_buckets w_auth_config = [] ∨
      set_contains "photos" (ac_allowed_buckets w_auth_config) = true)).
Proof.
  apply (served_requests_authorized w_auth_config w_state w_now "PUT" w_uri w_auth_headers w_ctx
    (mkBucketName "photos") ActPutObject); [vm_refl|vm_refl|vm_refl].
Defined.

Lemma amz_headers_covered_witness :
  "x-amz-date" ∈ split ";"%char w_signed ∧
  ∃ v pre post, canonical_header_value w_auth_headers "x-amz-date" = Ok v ∧
    w_creq = pre ++ ("x-amz-date" ++ ":" ++ v ++ NL) ++ post.
Proof.
  apply (amz_headers_covered "PUT" w_uri w_auth_headers w_signed IncludeAll HashFromHeader).
  - vm_refl.
  - right. split; [|done]. apply (bool_decide_unpack _). vm_compute. exact I.
Defined.

Lemma canonical_query_identifies_witness :
  canonical_query "b=1&a=%2f" IncludeAll = canonical_query "a=/&b=1" IncludeAll.
Proof.
  apply (canonical_query_identifies "b=1&a=%2f" "a=/&b=1" [("b", "1"); ("a", "/")] [("a", "/"); ("b", "1")]);
    [done|done|vm_refl|vm_refl|constructor].
Defined.

Lemma authorization_roundtrip_witness :
  parse_authorization w_authz = Ok (mkParsed (render_scope w_scope) w_signed w_sig) ∧
  parse_credential_scope (render_scope w_scope) = Ok w_scope.
Proof.
  apply (authorization_roundtrip w_scope w_signed w_sig); try (by vm_compute).
  - repeat constructor; try done; try (by vm_compute); no_char.
  - split; [by vm_compute|no_char].
Defined.
End Witnesses.
