(* ===== verification/Hooks.v ===== *)
(** * Hooks of the embedding application (hooks.rs)

    Tenant ids, the contexts that are handed to the application's policies, the
    outcome reported for a tenant, and the redaction of headers. *)

From S2P Require Import Prelude RustStd BTree S3Error Externals Reference Types Config Http.
From S2P Require Import Chunked Checksum Upload Auth.
From Stdlib Require Import ZArith Lia.
Local Open Scope Z_scope.

(** ** Tenants *)

(* @src src/src/hooks.rs 58-58 MAX_TENANT_ID_LEN *)
Definition MAX_TENANT_ID_LEN : Z := 256.

(* @src src/src/hooks.rs 65-66 TenantId *)
Record TenantId := mkTenantId { tenant_str : str }.

(* @src src/src/hooks.rs 119-130 TenantIdError *)
Inductive TenantIdError := TenantEmpty | TenantTooLong (max_len : Z) | TenantControlCharacter.

(* @src src/src/hooks.rs 132-144 TenantIdError::fmt *)
Definition tenant_id_error_msg (e : TenantIdError) : str :=
  match e with
  | TenantEmpty => "tenant ID must not be empty"
  | TenantTooLong max_len => "tenant ID must be at most " ++ show_u max_len ++ " bytes"
  | TenantControlCharacter => "tenant ID must not contain control characters"
  end.

(** [chars().any(char::is_control)] on the UTF-8 encoding: the ASCII control
    characters and U+0080 to U+009F. *)
Fixpoint has_control (s : str) : bool :=
  match s with
  | [] => false
  | a :: t =>
      is_ascii_control a
      || match t with
         | b :: _ => (byte_val a =? 194) && in_range 128 159 b
         | [] => false
         end
      || has_control t
  end.

(* @src src/src/hooks.rs 148-161 validate_tenant_id *)
Definition validate_tenant_id (value : str) : result TenantIdError () :=
  if is_empty value then Err TenantEmpty
  else if len value >? MAX_TENANT_ID_LEN then Err (TenantTooLong MAX_TENANT_ID_LEN)
  else if has_control value then Err TenantControlCharacter
  else Ok ().

(* @src src/src/hooks.rs 79-83 TenantId::parse *)
Definition parse_tenant (value : str) : result TenantIdError TenantId :=
  _ ← validate_tenant_id value; Ok (mkTenantId value).

(* @src src/src/hooks.rs 91-97 TenantId::from_principal *)
Definition tenant_from_principal (principal : RequestPrincipal) : result TenantIdError TenantId :=
  match principal with
  | AnonymousPrincipal => parse_tenant "anonymous"
  | AccessKeyPrincipal access_key_id => parse_tenant access_key_id
  | CustomPrincipal id => parse_tenant id
  end.

(* @src src/src/hooks.rs 100-110 TenantId::from *)
Definition tenant_of (principal : RequestPrincipal) : TenantId :=
  match principal with
  | AnonymousPrincipal => mkTenantId "anonymous"
  | AccessKeyPrincipal access_key_id => mkTenantId access_key_id
  | CustomPrincipal id => mkTenantId id
  end.

(** ** Custom authentication *)

(* @src src/src/hooks.rs 180-184 AuthenticationResult *)
Record AuthenticationResult := mkAuthResult {
  ar_principal : RequestPrincipal;
  ar_access_key_id : option str;
}.

(* @src src/src/hooks.rs 188-193 AuthenticationResult::anonymous *)
Definition auth_anonymous : AuthenticationResult := mkAuthResult AnonymousPrincipal None.
(* @src src/src/hooks.rs 196-203 AuthenticationResult::access_key *)
Definition auth_access_key (access_key_id : str) : AuthenticationResult :=
  mkAuthResult (AccessKeyPrincipal access_key_id) (Some access_key_id).
(* @src src/src/hooks.rs 210-215 AuthenticationResult::custom *)
Definition auth_custom (id : str) : AuthenticationResult := mkAuthResult (CustomPrincipal id) None.
(* @src src/src/hooks.rs 218-221 AuthenticationResult::try_custom *)
Definition auth_try_custom (id : str) : result TenantIdError AuthenticationResult :=
  tenant ← parse_tenant id; Ok (auth_custom (tenant_str tenant)).

(** ** Contexts *)

Section contexts.
Context `{HttpLib}.

(* @src src/src/hooks.rs 169-177 AuthenticationRequest *)
Record AuthenticationRequest := mkAuthRequest {
  areq_method : str; areq_uri : Uri; areq_headers : HeaderMap }.

(* @src src/src/hooks.rs 235-253 S3RequestContext *)
Record S3RequestContext := mkRequestContext {
  rc_request_id : RequestId;
  rc_method : str;
  rc_operation : str;
  rc_bucket : option BucketName;
  rc_key : option ObjectKey;
  rc_upload_id : option UploadId;
  rc_part_number : option PartNumber;
  rc_content_length : option Z;
}.

(* @src src/src/hooks.rs 256-262 S3ErrorContext *)
Record S3ErrorContext := mkErrorContext { ec_request_id : RequestId; ec_operation : str }.

(* @src src/src/hooks.rs 265-275 S3ResponseContext *)
Record S3ResponseContext := mkResponseContext {
  sc_request_id : RequestId;
  sc_operation : str;
  sc_bucket : option BucketName;
  sc_key : option ObjectKey;
}.

(* @src src/src/hooks.rs 278-288 AuthorizationContext *)
Record AuthorizationContext := mkAuthorization {
  az_principal : RequestPrincipal;
  az_bucket : BucketName;
  az_key : option ObjectKey;
  az_action : S3Action;
}.

(* @src src/src/hooks.rs 291-297 OperationContext *)
Record OperationContext := mkOperationContext { oc_operation : S3Operation; oc_action : S3Action }.

(* @src src/src/hooks.rs 300-308 TargetContext *)
Record TargetContext := mkTargetContext {
  tc_bucket : BucketName; tc_key : option ObjectKey; tc_action : S3Action }.

(* @src src/src/hooks.rs 315-327 UploadPolicyContext *)
Record UploadPolicyContext := mkUploadPolicy {
  upc_request_id : RequestId;
  upc_bucket : BucketName;
  upc_key : ObjectKey;
  upc_action : S3Action;
  upc_headers : HeaderMap;
}.

(* @src src/src/hooks.rs 353-377 TenantLimitContext *)
Record TenantLimitContext := mkTenantContext {
  tl_request_id : RequestId;
  tl_tenant : TenantId;
  tl_principal : RequestPrincipal;
  tl_method : str;
  tl_operation : S3Operation;
  tl_action : S3Action;
  tl_bucket : option BucketName;
  tl_key : option ObjectKey;
  tl_upload_id : option UploadId;
  tl_part_number : option PartNumber;
  tl_content_length : option Z;
}.

(** ** Redaction *)

(* @src src/src/hooks.rs 335-344 redacted_headers *)
Definition REDACTED_HEADERS : list str :=
  ["authorization"; "proxy-authorization"; "x-api-key"; "x-auth-token"; "x-amz-security-token";
   "x-amz-server-side-encryption-customer-key"; "x-amz-server-side-encryption-customer-key-md5";
   "x-amz-server-side-encryption-context"].

(* @src src/src/hooks.rs 333-350 redacted_headers *)
Definition redacted_headers (headers : HeaderMap) : HeaderMap :=
  foldl (λ redacted name,
    if hm_contains_key redacted name then hm_insert redacted name "<redacted>" else redacted)
    headers REDACTED_HEADERS.

Lemma redacted_fold names : ∀ headers name,
  Forall (λ n, to_ascii_lowercase n = n) names →
  hm_get_all (foldl (λ redacted n,
    if hm_contains_key redacted n then hm_insert redacted n "<redacted>" else redacted) headers names) name =
  if bool_decide (to_ascii_lowercase name ∈ names) && hm_contains_key headers name
  then ["<redacted>"] else hm_get_all headers name.
Proof.
  induction names as [|n names IH]; intros headers name Hlow; [done|].
  apply Forall_cons in Hlow as [Hn Hlow]. cbn [foldl]. rewrite IH by done. clear IH.
  set (h' := if hm_contains_key headers n then _ else headers).
  assert (hm_get_all h' name =
    if bool_decide (to_ascii_lowercase name = n) && hm_contains_key headers name
    then ["<redacted>"] else hm_get_all headers name) as Hh.
  { subst h'. rewrite !hm_contains_key_spec. destruct (decide (to_ascii_lowercase name = n)) as [<-|Hne].
    - rewrite bool_decide_eq_true_2, hm_get_all_lower by done.
      destruct (hm_get_all headers name) eqn:E; simpl; [by rewrite E|].
      by rewrite hm_insert_spec, to_ascii_lowercase_idemp, str_eqb_refl.
    - rewrite bool_decide_eq_false_2 by done. simpl. destruct (negb _); [|done].
      rewrite hm_insert_spec, Hn, (proj2 (str_eqb_neq _ _)) by done. done. }
  rewrite !(hm_contains_key_spec _ name), Hh, (hm_contains_key_spec headers name).
  rewrite (bool_decide_ext (_ ∈ n :: names) (to_ascii_lowercase name = n ∨ to_ascii_lowercase name ∈ names))
    by apply elem_of_cons.
  destruct (hm_get_all headers name) eqn:E; simpl; rewrite ?andb_false_r, ?andb_true_r; [done|].
  repeat case_bool_decide; simpl; naive_solver.
Qed.

(** Redaction hides every secret: in the redacted headers each secret header
    that was present has the one value [<redacted>], whatever the case it is
    looked up in, and every other header has exactly the values it had. *)
Theorem redacted_headers_exact headers name :
  hm_get_all (redacted_headers headers) name =
    if bool_decide (to_ascii_lowercase name ∈ REDACTED_HEADERS) && hm_contains_key headers name
    then ["<redacted>"] else hm_get_all headers name.
Proof. apply redacted_fold. by repeat constructor. Qed.
End contexts.

(** ** Outcomes and leases *)

(* @src src/src/hooks.rs 380-392 TenantOperationOutcome *)
Record TenantOperationOutcome := mkOutcome {
  to_status : Z;
  to_timed_out : bool;
  to_error_code : option str;
  to_error_message : option str;
  to_decoded_bytes : option Z;
}.

(* @src src/src/hooks.rs 396-404 TenantOperationOutcome::success *)
Definition outcome_success (status : Z) (decoded_bytes : option Z) : TenantOperationOutcome :=
  mkOutcome status false None None decoded_bytes.
(* @src src/src/hooks.rs 407-415 TenantOperationOutcome::error *)
Definition outcome_error (e : S3Error) (decoded_bytes : option Z) : TenantOperationOutcome :=
  mkOutcome (err_status e) false (Some (err_code e)) (Some (err_message e)) decoded_bytes.
(* @src src/src/hooks.rs 418-426 TenantOperationOutcome::timed_out *)
Definition outcome_timed_out (e : S3Error) : TenantOperationOutcome :=
  mkOutcome (err_status e) true (Some (err_code e)) (Some (err_message e)) None.

(** The permit a lease carries is released when the lease is dropped; only the
    timeout, in nanoseconds, is looked at. *)
(* @src src/src/hooks.rs 430-433 TenantOperationLease *)
Record TenantOperationLease := mkLease { lease_timeout : option Z }.
(* @src src/src/hooks.rs 437-442 TenantOperationLease::new *)
Definition new_lease : TenantOperationLease := mkLease None.
(* @src src/src/hooks.rs 450-453 TenantOperationLease::timeout *)
Definition set_timeout (lease : TenantOperationLease) (timeout : Z) : TenantOperationLease :=
  mkLease (Some timeout).
(* @src src/src/hooks.rs 445-447 TenantOperationLease::with_timeout *)
Definition lease_with_timeout (timeout : Z) : TenantOperationLease := set_timeout new_lease timeout.

(** The provider that limits nothing. *)
(* @src src/src/hooks.rs 561-566 NoopTenantLimitsProvider::begin_operation *)
Definition noop_begin_operation (context : TenantLimitContext) : result S3Error TenantOperationLease :=
  Ok new_lease.

(* @src src/src/hooks.rs 691-699 RequestPrincipal::fmt *)
Definition principal_to_string (p : RequestPrincipal) : str :=
  match p with
  | AnonymousPrincipal => "anonymous"
  | AccessKeyPrincipal access_key_id => access_key_id
  | CustomPrincipal id => id
  end.

(** ** The hook traits

    What an application supplies is a value of a type that implements the trait
    of the hook; closures implement the traits with one method by being called.
    The state keeps a hook as the function its method is ([Arc<dyn _>]). *)

Module Traits.
Section traits.
Context `{HttpLib} `{UuidLib}.

(* @src src/src/hooks.rs 477-480 RequestObserver *)
Class RequestObserver (O : Type) := { observe : O → S3RequestContext → () }.
(* @src src/src/hooks.rs 483-489 AuthenticationProvider *)
Class AuthenticationProvider (P : Type) := {
  authenticate : P → AuthenticationRequest → result S3Error AuthenticationResult }.
(* @src src/src/hooks.rs 515-518 ErrorMapper *)
Class ErrorMapper (M : Type) := { map_error : M → S3ErrorContext → S3Error → S3Error }.
(* @src src/src/hooks.rs 531-538 ResponseMapper *)
Class ResponseMapper (M : Type) := { map_response : M → S3ResponseContext → Response → Response }.
(* @src src/src/hooks.rs 541-554 TenantLimitsProvider *)
Class TenantLimitsProvider (P : Type) := {
  begin_operation : P → TenantLimitContext → result S3Error TenantOperationLease;
  finish_operation : P → TenantLimitContext → TenantOperationOutcome → ();
}.
(* @src src/src/hooks.rs 607-610 OperationPolicy *)
Class OperationPolicy (P : Type) := { allow_operation : P → OperationContext → result S3Error () }.
(* @src src/src/hooks.rs 622-625 TargetPolicy *)
Class TargetPolicy (P : Type) := { allow_target : P → TargetContext → result S3Error () }.
(* @src src/src/hooks.rs 637-640 UploadPolicy *)
Class UploadPolicy (P : Type) := { allow_upload : P → UploadPolicyContext → result S3Error () }.
(* @src src/src/hooks.rs 652-655 AuthorizationPolicy *)
Class AuthorizationPolicy (P : Type) := { authorize : P → AuthorizationContext → result S3Error () }.

(** A request id factory may draw random bits, a clock reads the time of the
    system: what they answer is a function of the fresh draw and of the time. *)
(* @src src/src/hooks.rs 592-595 RequestIdFactory *)
Class RequestIdFactory (F : Type) := { request_id : F → Uuid → RequestId }.
(* @src src/src/hooks.rs 667-670 Clock *)
Class Clock (C : Type) := { now : C → Z → Z }.

(* @src src/src/hooks.rs 504-512 RequestObserver::observe *)
Global Instance closure_observer : RequestObserver (S3RequestContext → ()) := { observe := λ f, f }.
(* @src src/src/hooks.rs 491-502 AuthenticationProvider::authenticate *)
Global Instance closure_authentication :
  AuthenticationProvider (AuthenticationRequest → result S3Error AuthenticationResult) := {
  authenticate := λ f, f }.
(* @src src/src/hooks.rs 520-528 ErrorMapper::map_error *)
Global Instance closure_error_mapper : ErrorMapper (S3ErrorContext → S3Error → S3Error) := {
  map_error := λ f, f }.
(* @src src/src/hooks.rs 577-589 ResponseMapper::map_response *)
Global Instance closure_response_mapper : ResponseMapper (S3ResponseContext → Response → Response) := {
  map_response := λ f, f }.
(* @src src/src/hooks.rs 612-619 OperationPolicy::allow_operation *)
Global Instance closure_operation_policy : OperationPolicy (OperationContext → result S3Error ()) := {
  allow_operation := λ f, f }.
(* @src src/src/hooks.rs 627-634 TargetPolicy::allow_target *)
Global Instance closure_target_policy : TargetPolicy (TargetContext → result S3Error ()) := {
  allow_target := λ f, f }.
(* @src src/src/hooks.rs 642-649 UploadPolicy::allow_upload *)
Global Instance closure_upload_policy : UploadPolicy (UploadPolicyContext → result S3Error ()) := {
  allow_upload := λ f, f }.
(* @src src/src/hooks.rs 657-664 AuthorizationPolicy::authorize *)
Global Instance closure_authorization_policy : AuthorizationPolicy (AuthorizationContext → result S3Error ()) := {
  authorize := λ f, f }.

(* @src src/src/hooks.rs 597-604 RequestIdFactory::request_id *)
Global Instance closure_request_id_factory : RequestIdFactory (Uuid → RequestId) := { request_id := λ f, f }.
(* @src src/src/hooks.rs 672-679 Clock::now *)
Global Instance closure_clock : Clock (Z → Z) := { now := λ f, f }.
(* @src src/src/hooks.rs 682-683 SystemClock *)
Inductive SystemClockType := SystemClock.
(* @src src/src/hooks.rs 685-689 Clock::now *)
Global Instance system_clock : Clock SystemClockType := { now := λ _ system_time, system_time }.

(* @src src/src/hooks.rs 557-558 NoopTenantLimitsProvider *)
Inductive NoopTenantLimitsProvider := NoopLimits.
(* @src src/src/hooks.rs 560-575 TenantLimitsProvider::finish_operation *)
Global Instance noop_limits : TenantLimitsProvider NoopTenantLimitsProvider := {
  begin_operation := λ _, noop_begin_operation;
  finish_operation := λ _ _ _, tt;
}.
End traits.
End Traits.
