(* ===== verification/Admission.v ===== *)
(** * Admission control (lib.rs)

    Four semaphores of tokio bound the requests, the object writers, the part
    writers and the aws-chunked decoders that are active at the same time. How a
    semaphore counts its permits is tokio's: the model has the number it was made
    with, and takes what it answers to a request as an argument ([Grants]). *)

From S2P Require Import Prelude RustStd BTree S3Error Externals Types Config.
From S2P Require Import Chunked Checksum Upload.
From Stdlib Require Import ZArith.
Local Open Scope Z_scope.

(** [Semaphore::new(permits)]. *)
Record Semaphore := semaphore_new { sem_permits : Z }.

(* @src src/src/lib.rs 622-627 AdmissionControl *)
Record AdmissionControl := mkAdmission {
  s3_requests : Semaphore;
  object_writers : Semaphore;
  multipart_part_writers : Semaphore;
  aws_chunked_decoders : Semaphore;
}.

(* @src src/src/lib.rs 630-641 AdmissionControl::new *)
Definition new_admission (limits : UploadLimits) : AdmissionControl := {|
  s3_requests := semaphore_new (max_concurrent_s3_requests limits);
  object_writers := semaphore_new (max_active_object_writers limits);
  multipart_part_writers := semaphore_new (max_active_multipart_part_writers limits);
  aws_chunked_decoders := semaphore_new (max_active_aws_chunked_decoders limits);
|}.

(** Whether [try_acquire_owned] grants a permit when the request asks for one, for
    each of the four semaphores. *)
Record Grants := mkGrants {
  grants_request : bool;
  grants_object_writer : bool;
  grants_part_writer : bool;
  grants_decoder : bool;
}.

(** [try_acquire_owned().map_err(|_| slow_down(message))]. *)
Definition acquired (granted : bool) (message : str) : result S3Error () :=
  if granted then Ok () else Err (slow_down message).

(* @src src/src/lib.rs 314-322 AppState::try_acquire_s3_request *)
Definition try_acquire_s3_request (g : Grants) : result S3Error () :=
  acquired (grants_request g) "too many active S3 requests; retry the request".

(* @src src/src/lib.rs 325-333 AppState::try_acquire_object_writer *)
Definition try_acquire_object_writer (g : Grants) : result S3Error () :=
  acquired (grants_object_writer g) "too many active object uploads; retry the request".

(* @src src/src/lib.rs 336-348 AppState::try_acquire_multipart_part_writer *)
Definition try_acquire_multipart_part_writer (g : Grants) : result S3Error () :=
  acquired (grants_part_writer g) "too many active multipart part uploads; retry the request".

(** [None]: the request needs no permit. *)
(* @src src/src/lib.rs 353-368 AppState::try_acquire_aws_chunked_decoder *)
Definition try_acquire_aws_chunked_decoder `{HttpLib} (g : Grants) (headers : HeaderMap)
  : result S3Error (option ()) :=
  if negb (is_aws_chunked_request headers) then Ok None
  else Some <$> acquired (grants_decoder g) "too many active aws-chunked uploads; retry the request".
