(* ===== verification/Routing.v ===== *)
(** * Operation detection and dispatch (handlers/s3.rs)

    Which S3 operation a request asks for, from its method, path, host and
    query string, and the order of the gates a detected operation passes. *)

From S2P Require Import Prelude RustStd BTree S3Error Externals Reference Types Target Config.
From S2P Require Import Chunked Checksum Upload Auth.
From Stdlib Require Import ZArith Lia.
Local Open Scope Z_scope.

Section Routing.
Context `{HttpLib} `{CodecLib} `{UuidLib}.

(** The head of an [http::Request]. *)
Record Request := mkReq {
  req_method : str;
  req_uri : Uri;
  req_headers : HeaderMap;
}.

(** ** Query parameters *)

(* @src src/src/handlers/s3.rs 707-714 percent_decode_checked *)
Definition percent_decode_checked (value : str) : result S3Error str :=
  ok_or (percent_decode value)
    (invalid_request "query string contains invalid percent-encoded UTF-8").

(** One pair: [None] when its decoded key is another one. *)
(* @src src/src/handlers/s3.rs 655-664 query_param_values_checked *)
Definition checked_pair (name pair : str) : option (result S3Error str) :=
  let '(key, value) := split_param pair in
  match percent_decode_checked key with
  | Ok key => if str_eqb key name then Some (percent_decode_checked value) else None
  | Err error => Some (Err error)
  end.

(* @src src/src/handlers/s3.rs 652-667 query_param_values_checked *)
Definition query_param_values_checked (query name : str) : result S3Error (list str) :=
  collect (omap (checked_pair name) (split "&"%char query)).

(* @src src/src/handlers/s3.rs 642-650 unique_query_param *)
Definition unique_query_param (query name : str) : result S3Error (option str) :=
  values ← query_param_values_checked query name;
  match values with
  | [] => Ok None
  | [v] => Ok (Some v)
  | _ => Err (invalid_request (name ++ " must not appear more than once"))
  end.

(* @src src/src/handlers/s3.rs 669-678 query_param_values *)
Definition query_param_values (query name : str) : list str :=
  omap (λ pair,
    let '(key, value) := split_param pair in
    key ← percent_decode key;
    if str_eqb key name then percent_decode value else None) (split "&"%char query).

(* @src src/src/handlers/s3.rs 637-639 query_param *)
Definition query_param (query name : str) : option str := head (query_param_values query name).

(** The flag of a pair: it counts when its value is empty. *)
(* @src src/src/handlers/s3.rs 680-698 unique_query_flag *)
Definition unique_query_flag (query name : str) : result S3Error bool :=
  count ← try_fold (λ count pair,
    let '(key, value) := split_param pair in
    key ← percent_decode_checked key;
    if str_eqb key name && is_empty value then Ok (count + 1) else Ok count) 0 (split "&"%char query);
  if count >? 1 then Err (invalid_request (name ++ " must not appear more than once"))
  else Ok (count =? 1).

(* @src src/src/handlers/s3.rs 598-600 parse_upload_id_value *)
Definition parse_upload_id_value (value : str) : result S3Error UploadId :=
  map_err (λ _, invalid_request "invalid upload ID") (parse_upload_id value).

(* @src src/src/handlers/s3.rs 602-608 parse_part_number_value *)
Definition parse_part_number_value (value : str) : result S3Error PartNumber :=
  n ← ok_or (parse_u16 value) (invalid_request "partNumber must be an integer");
  map_err (λ _, invalid_request "partNumber must be in 1..=10000") (parse_part_number n).

(** ** Routes *)

(* @src src/src/handlers/s3.rs 617-620 has_object_route *)
Definition request_host (r : Request) : option str :=
  v ← hm_get (req_headers r) "host"; hv_to_str v.

(* @src src/src/handlers/s3.rs 610-631 has_object_route *)
Definition has_object_route (r : Request) (base : option str) : bool :=
  let path := strip_slash (uri_path (req_uri r)) in
  let hosted :=
    match request_host r, base with
    | Some host, Some base_domain => has_virtual_hosted_bucket host base_domain
    | _, _ => false
    end in
  if hosted then negb (is_empty path)
  else match split_once "/"%char path with
       | Some (bucket, key) => negb (is_empty bucket) && negb (is_empty key)
       | None => false
       end.

(* @src src/src/handlers/s3.rs 481-487 DetectedOperation *)
Inductive DetectedOperation :=
| Implemented (op : S3Operation)
| ListObjectsV2
| Unsupported
| MethodNotAllowed.

(* @src src/src/handlers/s3.rs 490-497 DetectedOperation::name *)
Definition detected_name (d : DetectedOperation) : str :=
  match d with
  | Implemented op => operation_name op
  | ListObjectsV2 => "ListObjectsV2"
  | Unsupported => "Unsupported"
  | MethodNotAllowed => "MethodNotAllowed"
  end.

(** The [POST] block: [None] when it falls through. *)
(* @src src/src/handlers/s3.rs 513-533 detect_operation *)
Definition detect_post (query : str) : result S3Error (option DetectedOperation) :=
  has_uploads ← unique_query_flag query "uploads";
  upload_id ← unique_query_param query "uploadId";
  match has_uploads, upload_id with
  | true, Some _ => Err (invalid_request "multipart operation query is ambiguous")
  | true, None => Ok (Some (Implemented CreateMultipartUpload))
  | false, Some u => u ← parse_upload_id_value u; Ok (Some (Implemented (CompleteMultipartUpload u)))
  | false, None => Ok None
  end.

(* @src src/src/handlers/s3.rs 538-557 detect_operation *)
Definition detect_put (part_number upload_id : option str) : result S3Error DetectedOperation :=
  match upload_id, part_number with
  | Some _, None => Err (invalid_request "partNumber is required")
  | None, Some _ => Err (invalid_request "uploadId is required")
  | Some u, Some p =>
      u ← parse_upload_id_value u;
      p ← parse_part_number_value p;
      Ok (Implemented (UploadPart u p))
  | None, None => Ok (Implemented PutObject)
  end.

(* @src src/src/handlers/s3.rs 500-596 detect_operation *)
Definition detect_operation (r : Request) (base : option str) (query : str)
  : result S3Error DetectedOperation :=
  let method := req_method r in
  if str_eqb method "HEAD" then
    if has_object_route r base then Ok (Implemented HeadObject) else Ok (Implemented HeadBucket)
  else
    posted ← (if str_eqb method "POST" then detect_post query else Ok None);
    match posted with
    | Some d => Ok d
    | None =>
        part_number ← unique_query_param query "partNumber";
        upload_id ← unique_query_param query "uploadId";
        if str_eqb method "PUT" then detect_put part_number upload_id
        else if str_eqb method "DELETE" then
          match upload_id with
          | Some u => u ← parse_upload_id_value u; Ok (Implemented (AbortMultipartUpload u))
          | None => if has_object_route r base then Ok (Implemented DeleteObject) else Ok MethodNotAllowed
          end
        else if str_eqb method "GET" then
          match upload_id with
          | Some u => u ← parse_upload_id_value u; Ok (Implemented (ListParts u))
          | None =>
              list_type ← unique_query_param query "list-type";
              match list_type with
              | Some t => if str_eqb t "2" then Ok ListObjectsV2 else Ok Unsupported
              | None => if has_object_route r base then Ok (Implemented GetObject) else Ok MethodNotAllowed
              end
          end
        else Ok MethodNotAllowed
    end.

(** What [dispatch] answers without running an operation. *)
(* @src src/src/handlers/s3.rs 322-327 dispatch *)
Definition unimplemented_error (d : DetectedOperation) : option S3Error :=
  match d with
  | Implemented _ => None
  | ListObjectsV2 => Some (not_implemented "ListObjectsV2 is not implemented")
  | Unsupported => Some (invalid_argument "list-type must be 2")
  | MethodNotAllowed => Some method_not_allowed
  end.

(** ** The log context *)

(* @src src/src/handlers/s3.rs 207-215 RequestLogContext *)
Record RequestLogContext := mkLogContext {
  lc_bucket : option BucketName;
  lc_key : option ObjectKey;
  lc_key_sha256 : option str;
  lc_upload_id : option UploadId;
  lc_part_number : option PartNumber;
}.

Context `{CryptoLib}.

(* @src src/src/handlers/s3.rs 227-229 object_key_sha256 *)
Definition object_key_sha256 (key : ObjectKey) : str := hex_encode (sh_hash Sha256 (key_str key)).

(* @src src/src/handlers/s3.rs 231-258 request_log_context *)
Definition request_log_context (r : Request) (base : option str) (query : str) : RequestLogContext :=
  let uid := v ← query_param query "uploadId"; result_ok (parse_upload_id v) in
  let pn := v ← query_param query "partNumber"; result_ok (part_number_from_str v) in
  match resolve_s3_target (uri_path (req_uri r)) (request_host r) base with
  | Ok t => mkLogContext (Some (target_bucket t)) (Some (target_key t))
              (Some (object_key_sha256 (target_key t))) uid pn
  | Err _ =>
      match resolve_bucket_name (uri_path (req_uri r)) (request_host r) base with
      | Ok b => mkLogContext (Some b) None None uid pn
      | Err _ => mkLogContext None None None uid pn
      end
  end.

(** ** Lemmas *)

Lemma hosted_bucket_agrees r base :
  match request_host r, base with
  | Some host, Some base_domain => has_virtual_hosted_bucket host base_domain
  | _, _ => false
  end = bool_decide (is_Some (hosted_bucket (request_host r) base)).
Proof.
  unfold hosted_bucket, has_virtual_hosted_bucket. destruct (request_host r) as [h|], base as [b|]; try done.
  simpl. by destruct (virtual_host_bucket h b).
Qed.

Lemma decode_key_nonempty s k : decode_key s = Ok k → s ≠ [].
Proof.
  intros Hk ->. unfold decode_key, percent_decode_target in Hk. unfold_result.
  by rewrite (percent_decode_plain []) in Hk by done || (intros Hin; inversion Hin).
Qed.

Lemma decode_bucket_nonempty s b : decode_bucket s = Ok b → s ≠ [].
Proof.
  intros Hb ->. unfold decode_bucket, percent_decode_target in Hb. unfold_result.
  by rewrite (percent_decode_plain []) in Hb by done || (intros Hin; inversion Hin).
Qed.

(** The HTTP method of an operation. *)
Definition method_of (op : S3Operation) : str :=
  match op with
  | HeadObject | HeadBucket => "HEAD"
  | CreateMultipartUpload | CompleteMultipartUpload _ => "POST"
  | PutObject | UploadPart _ _ => "PUT"
  | DeleteObject | AbortMultipartUpload _ => "DELETE"
  | GetObject | ListParts _ => "GET"
  end.

(** The upload ID is canonical and the part number in range. *)
Definition operation_wf (op : S3Operation) : Prop :=
  match op with
  | UploadPart u p => parse_upload_id (upload_id_str u) = Ok u ∧ part_number_ok p
  | CompleteMultipartUpload u | AbortMultipartUpload u | ListParts u =>
      parse_upload_id (upload_id_str u) = Ok u
  | _ => True
  end.

Lemma parse_upload_id_value_ok v u : parse_upload_id_value v = Ok u → parse_upload_id (upload_id_str u) = Ok u.
Proof.
  unfold parse_upload_id_value. unfold_result. destruct (parse_upload_id v) eqn:Hp; [|done].
  intros [= <-]. unfold parse_upload_id in Hp. destruct (uuid_parse_str v) eqn:Hu; [|done].
  destruct (str_eqb _ _) eqn:He; [|done]. injection Hp as <-. simpl.
  unfold parse_upload_id. rewrite Hu, He. done.
Qed.

Lemma parse_part_number_value_ok v p : parse_part_number_value v = Ok p → part_number_ok p.
Proof.
  unfold parse_part_number_value. unfold_result. destruct (parse_u16 v) as [n|] eqn:Hn; [|done].
  destruct (parse_part_number n) eqn:Hp; [|done]. intros [= <-].
  apply parse_u16_bounds in Hn. apply parse_part_number_ok in Hp as [_ [|]]; [|done].
  unfold is_u16 in Hn. lia.
Qed.

Lemma detect_post_ok query op :
  detect_post query = Ok (Some (Implemented op)) → method_of op = "POST" ∧ operation_wf op.
Proof.
  unfold detect_post. unfold_result. destruct (unique_query_flag _ _) as [flag|]; [|done].
  destruct (unique_query_param _ _) as [[u|]|]; [| |done]; destruct flag; try done.
  - destruct (parse_upload_id_value u) eqn:Hu; [|done]. intros [= <-].
    split; [done|exact (parse_upload_id_value_ok _ _ Hu)].
  - by intros [= <-].
Qed.

Lemma detect_put_ok pn uid op :
  detect_put pn uid = Ok (Implemented op) → method_of op = "PUT" ∧ operation_wf op.
Proof.
  unfold detect_put. unfold_result. destruct uid as [u|], pn as [p|]; try done.
  - destruct (parse_upload_id_value u) eqn:Hu; [|done].
    destruct (parse_part_number_value p) eqn:Hp; [|done]. intros [= <-].
    split; [done|]. split; [exact (parse_upload_id_value_ok _ _ Hu)|].
    exact (parse_part_number_value_ok _ _ Hp).
  - by intros [= <-].
Qed.

Lemma object_route_resolves r base t :
  resolve_s3_target (uri_path (req_uri r)) (request_host r) base = Ok t → has_object_route r base = true.
Proof.
  unfold resolve_s3_target, has_object_route. rewrite hosted_bucket_agrees.
  destruct (hosted_bucket (request_host r) base) as [b|]; simpl.
  - unfold_result. destruct (decode_bucket b); [|done]. destruct (decode_key _) eqn:Hk; [|done].
    intros _. apply decode_key_nonempty in Hk. by destruct (strip_slash _).
  - unfold resolve_path_style. unfold_result. destruct (split_once _ _) as [[b k]|]; [|done].
    destruct (decode_bucket b) eqn:Hb; [|done]. destruct (decode_key k) eqn:Hk; [|done].
    intros _. apply decode_bucket_nonempty in Hb. apply decode_key_nonempty in Hk. by destruct b, k.
Qed.

(** ** The log context of an operation *)

Lemma checked_values name pairs : ∀ vs,
  collect (omap (checked_pair name) pairs) = Ok vs →
  omap (λ pair, let '(key, value) := split_param pair in
    key ← percent_decode key; if str_eqb key name then percent_decode value else None) pairs = vs.
Proof.
  induction pairs as [|pair pairs IH]; intros vs Hc; simpl in Hc |- *; [by injection Hc as <-|].
  revert Hc. unfold checked_pair at 1, percent_decode_checked. destruct (split_param pair) as [key value].
  destruct (percent_decode key) as [k|]; simpl; [|done]. destruct (str_eqb k name); [|apply IH].
  destruct (percent_decode value) as [v|]; simpl; [|done]. unfold_result.
  destruct (collect _) as [l|]; [|done]. intros [= <-]. f_equal. by apply IH.
Qed.
Lemma unique_query_param_first query name v :
  unique_query_param query name = Ok (Some v) → query_param query name = Some v.
Proof.
  unfold unique_query_param, query_param_values_checked, query_param, query_param_values. cbn [mbind result_bind].
  destruct (collect _) as [vs|] eqn:Hc; [|done]. cbn [mbind result_bind]. apply checked_values in Hc. rewrite Hc.
  destruct vs as [|w []]; [done| |done]. by intros [= ->].
Qed.

(** The upload id and the part number an operation is about. *)
Definition operation_ids (op : S3Operation) (upload_id : option UploadId) (part_number : option PartNumber) : Prop :=
  match op with
  | UploadPart u p => upload_id = Some u ∧ part_number = Some p
  | CompleteMultipartUpload u | AbortMultipartUpload u | ListParts u => upload_id = Some u
  | _ => True
  end.

Lemma logged_upload_id query v u :
  unique_query_param query "uploadId" = Ok (Some v) → parse_upload_id_value v = Ok u →
  (v ← query_param query "uploadId"; result_ok (parse_upload_id v)) = Some u.
Proof.
  intros ->%unique_query_param_first Hu. unfold parse_upload_id_value in Hu. simpl.
  destruct (parse_upload_id v); [|done]. by injection Hu as ->.
Qed.
Lemma logged_part_number query v p :
  unique_query_param query "partNumber" = Ok (Some v) → parse_part_number_value v = Ok p →
  (v ← query_param query "partNumber"; result_ok (part_number_from_str v)) = Some p.
Proof.
  intros ->%unique_query_param_first Hp. unfold parse_part_number_value in Hp. simpl.
  unfold part_number_from_str. unfold_result. destruct (parse_u16 v); [|done]. cbn [ok_or] in *.
  destruct (parse_part_number _); [|done]. by injection Hp as ->.
Qed.

Lemma request_log_ids r base query :
  lc_upload_id (request_log_context r base query) = (v ← query_param query "uploadId"; result_ok (parse_upload_id v)) ∧
  lc_part_number (request_log_context r base query) = (v ← query_param query "partNumber"; result_ok (part_number_from_str v)).
Proof.
  unfold request_log_context. destruct (resolve_s3_target _ _ _); [done|]. by destruct (resolve_bucket_name _ _ _).
Qed.

(** What is logged of an operation is what the operation is about. *)
Lemma logged_operation r base query op :
  detect_operation r base query = Ok (Implemented op) →
  operation_ids op (lc_upload_id (request_log_context r base query)) (lc_part_number (request_log_context r base query)).
Proof.
  destruct (request_log_ids r base query) as [-> ->]. unfold detect_operation. unfold_result.
  destruct (str_eqb (req_method r) "HEAD"); [destruct (has_object_route r base); by intros [= <-]|].
  assert (∀ v u, unique_query_param query "uploadId" = Ok (Some v) → parse_upload_id_value v = Ok u →
    (v ← query_param query "uploadId"; result_ok (parse_upload_id v)) = Some u) as Hlog by apply logged_upload_id.
  destruct (if str_eqb (req_method r) "POST" then detect_post query else Ok None) as [[d|]|] eqn:Hpost; [| |done].
  { intros [= ->]. destruct (str_eqb (req_method r) "POST"); [|done]. revert Hpost. unfold detect_post. unfold_result.
    destruct (unique_query_flag _ _) as [flag|]; [|done].
    destruct (unique_query_param query "uploadId") as [[v|]|]; [| |done]; destruct flag; try done.
    - destruct (parse_upload_id_value v) as [u|] eqn:Hu; [|done]. intros [= <-]. by apply (Hlog v).
    - by intros [= <-]. }
  destruct (unique_query_param query "partNumber") as [pn|] eqn:Hpn; [|done].
  destruct (unique_query_param query "uploadId") as [[v|]|] eqn:Huid; [| |done].
  - unfold detect_put. unfold_result.
    destruct (parse_upload_id_value v) as [u|] eqn:Hu.
    + specialize (Hlog v u eq_refl Hu). destruct (str_eqb (req_method r) "PUT").
      { destruct pn as [p|]; [|done]. destruct (parse_part_number_value p) as [n|] eqn:Hp; [|done]. intros [= <-].
        split; [done|]. by eapply logged_part_number. }
      destruct (str_eqb (req_method r) "DELETE"); [by intros [= <-]|].
      destruct (str_eqb (req_method r) "GET"); [by intros [= <-]|done].
    + destruct (str_eqb (req_method r) "PUT"); [by destruct pn|].
      destruct (str_eqb (req_method r) "DELETE"); [done|]. by destruct (str_eqb (req_method r) "GET").
  - unfold detect_put. destruct (str_eqb (req_method r) "PUT"); [destruct pn; [done|by intros [= <-]]|].
    destruct (str_eqb (req_method r) "DELETE"); [destruct (has_object_route r base); by intros [= <-]|].
    destruct (str_eqb (req_method r) "GET"); [|done]. unfold_result.
    destruct (unique_query_param query "list-type") as [[t|]|]; [by destruct (str_eqb t "2")| |done].
    by destruct (has_object_route r base); intros [= <-].
Qed.

(** Routing is type-correct: whatever the query string, a detected
    operation belongs to the request's HTTP method, its upload ID is a canonical
    UUID and its part number lies in 1..=10000. *)
Theorem detected_operation_wf r base query op :
  detect_operation r base query = Ok (Implemented op) →
  method_of op = req_method r ∧ operation_wf op.
Proof.
  unfold detect_operation. unfold_result.
  destruct (str_eqb (req_method r) "HEAD") eqn:Hm; [apply str_eqb_eq in Hm as ->|].
  { destruct (has_object_route r base); by intros [= <-]. }
  destruct (str_eqb (req_method r) "POST") eqn:Hp.
  { apply str_eqb_eq in Hp as ->. destruct (detect_post query) as [[d|]|] eqn:Hd; [| |done].
    - intros [= ->]. by eapply detect_post_ok.
    - destruct (unique_query_param query "partNumber"); [|done].
      by destruct (unique_query_param query "uploadId"). }
  destruct (unique_query_param query "partNumber") as [pn|]; [|done].
  destruct (unique_query_param query "uploadId") as [uid|]; [|done].
  destruct (str_eqb (req_method r) "PUT") eqn:Hput; [apply str_eqb_eq in Hput as ->; apply detect_put_ok|].
  destruct (str_eqb (req_method r) "DELETE") eqn:Hdel; [apply str_eqb_eq in Hdel as ->|].
  { destruct uid as [u|]; [|by destruct (has_object_route r base); intros [= <-]].
    destruct (parse_upload_id_value u) eqn:Hu; [|done]. intros [= <-].
    split; [done|exact (parse_upload_id_value_ok _ _ Hu)]. }
  destruct (str_eqb (req_method r) "GET") eqn:Hget; [apply str_eqb_eq in Hget as ->|done].
  destruct uid as [u|].
  { destruct (parse_upload_id_value u) eqn:Hu; [|done]. intros [= <-].
    split; [done|exact (parse_upload_id_value_ok _ _ Hu)]. }
  destruct (unique_query_param query "list-type") as [[t|]|]; [by destruct (str_eqb t "2")| |done].
  by destruct (has_object_route r base); intros [= <-].
Qed.

(** Routing agrees with target resolution: a request whose path and host
    resolve to a bucket and key is never taken for a bucket request. Without
    query parameters HEAD, GET, DELETE and PUT on it are the object operations. *)
Theorem object_requests_routed r base t :
  resolve_s3_target (uri_path (req_uri r)) (request_host r) base = Ok t →
  has_object_route r base = true ∧
  ∀ op, op = HeadObject ∨ op = GetObject ∨ op = DeleteObject ∨ op = PutObject →
    req_method r = method_of op → detect_operation r base [] = Ok (Implemented op).
Proof.
  intros Ht. apply object_route_resolves in Ht. split; [done|].
  assert (∀ name, name ≠ [] → unique_query_param [] name = Ok None) as Hq.
  { intros name Hn. unfold unique_query_param, query_param_values_checked. unfold_result.
    unfold checked_pair, split_param, percent_decode_checked. simpl.
    rewrite (percent_decode_plain []) by done || (intros Hin; inversion Hin). simpl.
    by rewrite (proj2 (str_eqb_neq [] name)) by done. }
  intros op [->|[->|[->| ->]]] Hm; unfold detect_operation; rewrite Hm, Ht; unfold_result; try done;
    rewrite !Hq by done; done.
Qed.
End Routing.

(** ** Witnesses *)

Section Witnesses.
Local Existing Instances ref_http ref_codec ref_uuid.

Definition w_host_headers : HeaderMap := ([("host", "photos.s3.example.com")] : list (str * bytes)).
Definition w_get : Request := mkReq "GET" (mkUri "/2024/cat.jpg" None) w_host_headers.
Definition w_target : S3Target :=
  mkTarget (mkBucketName "photos") (mkObjectKey "2024/cat.jpg") true.
Definition w_put_part : Request :=
  mkReq "PUT" (mkUri "/photos/cat.jpg" (Some ("partNumber=7&uploadId=" ++ sample_upload_id))) w_host_headers.

Lemma detected_operation_wf_witness :
  method_of (UploadPart (mkUploadId sample_upload_id) (mkPartNumber 7)) = "PUT" ∧
  operation_wf (UploadPart (mkUploadId sample_upload_id) (mkPartNumber 7)).
Proof.
  apply (detected_operation_wf w_put_part None ("partNumber=7&uploadId=" ++ sample_upload_id)). vm_refl.
Defined.

Lemma object_requests_routed_witness :
  has_object_route w_get (Some "s3.example.com") = true ∧
  detect_operation w_get (Some "s3.example.com") [] = Ok (Implemented GetObject).
Proof.
  destruct (object_requests_routed w_get (Some "s3.example.com") w_target) as [Hr Hop]; [vm_refl|].
  split; [exact Hr|apply Hop; auto].
Defined.
End Witnesses.
