(* ===== verification/StoreModel.v ===== *)
(** * Stored data (storage/model.rs, storage/checksum.rs, storage/mod.rs)

    The records the stores persist, the store errors, and the interface of the
    JSON serializer they are persisted with. *)

From S2P Require Import Prelude RustStd BTree S3Error Externals Reference Types.
From Stdlib Require Import ZArith Lia.
Local Open Scope Z_scope.

(** [std::io::Error] by its kind. *)
Inductive IoError := NotFound | AlreadyExists | OtherIo (msg : str).

(* @src src/src/storage/mod.rs 248-288 StoreError *)
Inductive StoreError :=
| Io (e : IoError)
| Json
| InvalidPath (path : list str)
| StoreInvalidUploadId
| NoSuchUpload
| InvalidPart
| EntityTooSmall
| EntityTooLarge
| ChecksumError (e : S3Error)
| Processor (e : S3Error).

(* @src src/src/storage/checksum.rs 4-21 ChecksumAlgorithm *)
Inductive ChecksumAlgorithm := AlgCrc32 | AlgCrc32c | AlgSha1 | AlgSha256 | AlgSha512.
(* @src src/src/storage/checksum.rs 24-32 ChecksumType *)
Inductive ChecksumType := Composite | FullObject.

(* @src src/src/storage/model.rs 14-53 ObjectMetadata *)
Record ObjectMetadata := mkObjectMetadata {
  om_bucket : BucketName;
  om_key : ObjectKey;
  om_size : Z;
  om_etag : ETag;
  om_content_type : option str;
  om_content_encoding : option str;
  om_content_disposition : option str;
  om_content_language : option str;
  om_cache_control : option str;
  om_expires : option str;
  om_tagging : option str;
  om_user_metadata : btree str str;
  om_checksums : btree str str;
  om_last_modified : Z;
}.

(* @src src/src/storage/model.rs 56-88 UploadMetadata *)
Record UploadMetadata := mkUploadMetadata {
  um_content_type : option str;
  um_content_encoding : option str;
  um_content_disposition : option str;
  um_content_language : option str;
  um_cache_control : option str;
  um_expires : option str;
  um_tagging : option str;
  um_checksum_algorithm : option ChecksumAlgorithm;
  um_checksum_type : option ChecksumType;
  um_user_metadata : btree str str;
}.

(* @src src/src/storage/model.rs 145-160 PartMetadata *)
Record PartMetadata := mkPartMetadata {
  pm_part_number : PartNumber;
  pm_size : Z;
  pm_etag : ETag;
  pm_md5 : bytes;
  pm_checksums : btree str str;
  pm_last_modified : Z;
}.

(* @src src/src/storage/model.rs 115-126 UploadState *)
Inductive UploadState := Open | Completing | Completed | Aborted.
Global Instance UploadState_eq_dec : EqDecision UploadState.
Proof. solve_decision. Defined.

(** The parts are keyed by the value of the part number. *)
(* @src src/src/storage/model.rs 91-112 UploadSession *)
Record UploadSession := mkSession {
  us_upload_id : UploadId;
  us_bucket : BucketName;
  us_key : ObjectKey;
  us_initiated : Z;
  us_state : UploadState;
  us_owner_access_key_id : option str;
  us_metadata : UploadMetadata;
  us_parts : btree Z PartMetadata;
}.

(* @src src/src/storage/model.rs 163-169 CompletedPart *)
Record CompletedPart := mkCompletedPart { cp_part_number : PartNumber; cp_etag : ETag }.

(* @src src/src/storage/model.rs 180-189 CommittedPart *)
Record CommittedPart := mkCommittedPart {
  cmp_size : Z; cmp_md5 : bytes; cmp_etag : ETag; cmp_checksums : btree str str }.

(* @src src/src/storage/model.rs 130-132 UploadSession::is_open *)
Definition is_open (s : UploadSession) : bool := bool_decide (us_state s = Open).

(* @src src/src/storage/model.rs 135-141 UploadSession::ensure_open *)
Definition ensure_open (s : UploadSession) : result StoreError () :=
  if is_open s then Ok () else Err NoSuchUpload.

Definition set_state (s : UploadSession) (st : UploadState) : UploadSession :=
  mkSession (us_upload_id s) (us_bucket s) (us_key s) (us_initiated s) st
    (us_owner_access_key_id s) (us_metadata s) (us_parts s).
Definition set_parts (s : UploadSession) (ps : btree Z PartMetadata) : UploadSession :=
  mkSession (us_upload_id s) (us_bucket s) (us_key s) (us_initiated s) (us_state s)
    (us_owner_access_key_id s) (us_metadata s) ps.

(** [serde_json]: what is written is read back. *)
Class JsonLib := {
  json_of_object : ObjectMetadata → option bytes;
  object_of_json : bytes → option ObjectMetadata;
  json_of_session : UploadSession → option bytes;
  session_of_json : bytes → option UploadSession;
  object_json_roundtrip : ∀ m b, json_of_object m = Some b → object_of_json b = Some m;
  session_json_roundtrip : ∀ s b, json_of_session s = Some b → session_of_json b = Some s;
}.
