(* ===== verification/Requests.v ===== *)
(** * Request bodies and upload metadata (handlers/mod.rs,
    handlers/upload_metadata.rs, handlers/put_object.rs)

    The framing a request must announce before its body is read, the headers
    that become the metadata of an object, and the features that are refused. *)

From S2P Require Import Prelude RustStd BTree S3Error Externals Reference Types.
From S2P Require Import Chunked Checksum Upload StoreModel.
From Stdlib Require Import ZArith Lia.
Local Open Scope Z_scope.

Section requests.
Context `{HttpLib}.

(** ** Framing *)

(* @src src/src/handlers/mod.rs 61-81 validate_content_length *)
Definition validate_content_length (headers : HeaderMap) : result S3Error (option ContentLength) :=
  match hm_get_all headers "content-length" with
  | _ :: _ :: _ => Err (invalid_request "Content-Length must not appear more than once")
  | [] => Ok None
  | [value] =>
      value ← ok_or (hv_to_str value) (invalid_request "Content-Length must be valid ASCII");
      Some <$> map_err (λ _, invalid_request "Content-Length must be an integer")
                 (parse_content_length value)
  end.

(* @src src/src/handlers/mod.rs 83-87 TransferEncodingValidation *)
Record TransferEncodingValidation := mkTransferEncoding { has_any : bool; has_chunked : bool }.

(** One of the codings of a header value. *)
Definition check_coding (st : TransferEncodingValidation) (coding : str)
  : result S3Error TransferEncodingValidation :=
  let encoding := trim coding in
  if is_empty encoding then
    Err (invalid_request "Transfer-Encoding must not contain empty values")
  else if negb (eq_ignore_ascii_case encoding "chunked") then
    Err (invalid_request "Unsupported Transfer-Encoding; only chunked is supported")
  else Ok (mkTransferEncoding true true).

(** One of the header values. *)
Definition check_value (st : TransferEncodingValidation) (value : bytes)
  : result S3Error TransferEncodingValidation :=
  value ← ok_or (hv_to_str value) (invalid_request "Transfer-Encoding must be valid ASCII");
  try_fold check_coding st (split ","%char value).

(* @src src/src/handlers/mod.rs 89-124 validate_transfer_encoding *)
Definition validate_transfer_encoding (headers : HeaderMap)
  : result S3Error TransferEncodingValidation :=
  try_fold check_value (mkTransferEncoding false false) (hm_get_all headers "transfer-encoding").

(* @src src/src/handlers/mod.rs 20-38 validate_supported_request_body_length *)
Definition validate_supported_request_body_length (headers : HeaderMap) : result S3Error () :=
  content_length ← validate_content_length headers;
  transfer_encoding ← validate_transfer_encoding headers;
  if has_chunked transfer_encoding then
    if bool_decide (is_Some content_length) && negb (is_aws_chunked_request headers) then
      Err (invalid_request
        "Content-Length must not be used with Transfer-Encoding for non aws-chunked uploads")
    else Ok ()
  else if bool_decide (is_Some content_length) then Ok ()
  else Err missing_content_length.

(* @src src/src/handlers/mod.rs 41-59 validate_empty_request_body_headers *)
Definition validate_empty_request_body_headers (headers : HeaderMap) (operation : str)
  : result S3Error () :=
  content_length ← validate_content_length headers;
  transfer_encoding ← validate_transfer_encoding headers;
  if has_any transfer_encoding then
    Err (invalid_request (operation ++ " does not support Transfer-Encoding"))
  else if match content_length with Some l => negb (content_length_get l =? 0) | None => false end then
    Err (invalid_request (operation ++ " requires Content-Length: 0"))
  else Ok ().

(** ** Unsupported features *)

(* @src src/src/handlers/put_object.rs 195-212 validate_upload_headers *)
Definition UNSUPPORTED_HEADERS : list str :=
  ["x-amz-server-side-encryption"; "x-amz-server-side-encryption-aws-kms-key-id";
   "x-amz-server-side-encryption-context"; "x-amz-server-side-encryption-customer-algorithm";
   "x-amz-server-side-encryption-customer-key"; "x-amz-server-side-encryption-customer-key-md5";
   "x-amz-object-lock-mode"; "x-amz-object-lock-retain-until-date"; "x-amz-object-lock-legal-hold";
   "x-amz-website-redirect-location"; "x-amz-copy-source"; "x-amz-copy-source-if-match";
   "x-amz-copy-source-if-none-match"; "x-amz-copy-source-if-modified-since";
   "x-amz-copy-source-if-unmodified-since"; "x-amz-copy-source-range"].

(* @src src/src/handlers/put_object.rs 194-223 validate_upload_headers *)
Definition validate_upload_headers (headers : HeaderMap) : result S3Error () :=
  try_iter (λ name,
    if hm_contains_key headers name
    then Err (invalid_request ("Unsupported upload header: " ++ name)) else Ok ()) UNSUPPORTED_HEADERS.

(** ** Metadata *)

(* @src src/src/handlers/upload_metadata.rs 43-59 optional_header *)
Definition optional_header (headers : HeaderMap) (name : str) : result S3Error (option str) :=
  match hm_get_all headers name with
  | _ :: _ :: _ => Err (invalid_request (name ++ " must not appear more than once"))
  | [] => Ok None
  | [value] => Some <$> ok_or (hv_to_str value) (invalid_request (name ++ " must be valid ASCII"))
  end.

(* @src src/src/handlers/upload_metadata.rs 30-41 content_encoding_metadata *)
Definition content_encoding_metadata (headers : HeaderMap) : result S3Error (option str) :=
  value ← optional_header headers "content-encoding";
  match value with
  | None => Ok None
  | Some value =>
      let encodings := List.filter (λ e, negb (eq_ignore_ascii_case e "aws-chunked"))
                         (List.filter (λ e, negb (is_empty e)) (map trim (split ","%char value))) in
      Ok (if negb (is_empty encodings) then Some (join ", " encodings) else None)
  end.

(* @src src/src/handlers/upload_metadata.rs 61-73 optional_checksum_algorithm *)
Definition optional_checksum_algorithm (headers : HeaderMap) : result S3Error (option ChecksumAlgorithm) :=
  value ← optional_header headers "x-amz-checksum-algorithm";
  match value with
  | None => Ok None
  | Some value =>
      let value := to_ascii_uppercase value in
      if str_eqb value "CRC32" then Ok (Some AlgCrc32)
      else if str_eqb value "CRC32C" then Ok (Some AlgCrc32c)
      else if str_eqb value "SHA1" then Ok (Some AlgSha1)
      else if str_eqb value "SHA256" then Ok (Some AlgSha256)
      else if str_eqb value "SHA512" then Ok (Some AlgSha512)
      else Err (invalid_request "Checksum algorithm not supported")
  end.

(* @src src/src/handlers/upload_metadata.rs 75-86 optional_checksum_type *)
Definition optional_checksum_type (headers : HeaderMap) : result S3Error (option ChecksumType) :=
  value ← optional_header headers "x-amz-checksum-type";
  match value with
  | None => Ok None
  | Some value =>
      let value := to_ascii_uppercase value in
      if str_eqb value "COMPOSITE" then Ok (Some Composite)
      else if str_eqb value "FULL_OBJECT" then Ok (Some FullObject)
      else Err (invalid_request "x-amz-checksum-type must be COMPOSITE or FULL_OBJECT")
  end.

(** One header: those whose name has not the prefix are passed over. *)
Definition add_user_metadata (metadata : btree str str) (field : str * bytes)
  : result S3Error (btree str str) :=
  let '(name, value) := field in
  if negb (starts_with "x-amz-meta-" name) then Ok metadata
  else
    value ← ok_or (hv_to_str value) (invalid_request (name ++ " must be valid ASCII"));
    if btree_contains name metadata then
      Err (invalid_request (name ++ " must not appear more than once"))
    else Ok (btree_insert name value metadata).

(* @src src/src/handlers/upload_metadata.rs 88-110 collect_user_metadata *)
Definition collect_user_metadata (headers : HeaderMap) : result S3Error (btree str str) :=
  try_fold add_user_metadata [] (hm_iter headers).

(* @src src/src/handlers/upload_metadata.rs 15-28 collect_upload_metadata *)
Definition collect_upload_metadata (headers : HeaderMap) : result S3Error UploadMetadata :=
  content_type ← optional_header headers "content-type";
  content_encoding ← content_encoding_metadata headers;
  content_disposition ← optional_header headers "content-disposition";
  content_language ← optional_header headers "content-language";
  cache_control ← optional_header headers "cache-control";
  expires ← optional_header headers "expires";
  tagging ← optional_header headers "x-amz-tagging";
  checksum_algorithm ← optional_checksum_algorithm headers;
  checksum_type ← optional_checksum_type headers;
  user_metadata ← collect_user_metadata headers;
  Ok (mkUploadMetadata content_type content_encoding content_disposition content_language
        cache_control expires tagging checksum_algorithm checksum_type user_metadata).
End requests.

(** ** Properties *)

Definition value_codings `{HttpLib} (v : bytes) : option (list str) :=
  s ← hv_to_str v; Some (map trim (split ","%char s)).
(** All the transfer codings of a request, trimmed. *)
Definition transfer_codings `{HttpLib} (headers : HeaderMap) : option (list str) :=
  (λ css, concat css) <$> mapM value_codings (hm_get_all headers "transfer-encoding").

Definition is_chunked (coding : str) : Prop := eq_ignore_ascii_case coding "chunked" = true.

Definition opt_list {A} (o : option A) : list A := match o with Some a => [a] | None => [] end.

Section facts.
Context `{HttpLib}.
Implicit Types (headers : HeaderMap).

Lemma check_coding_ok st c t :
  check_coding st c = Ok t ↔ is_chunked (trim c) ∧ t = mkTransferEncoding true true.
Proof.
  unfold check_coding, is_chunked. destruct (is_empty (trim c)) eqn:E.
  - apply is_empty_true in E. rewrite E. split; [done|]. by intros [? _].
  - destruct (eq_ignore_ascii_case _ _); simpl; naive_solver.
Qed.

Lemma check_codings_ok cs : ∀ st t, cs ≠ [] →
  try_fold check_coding st cs = Ok t ↔
  Forall is_chunked (map trim cs) ∧ t = mkTransferEncoding true true.
Proof.
  induction cs as [|c cs IH]; intros st t Hne; [done|]. cbn [try_fold map]. unfold_result.
  rewrite Forall_cons. destruct (check_coding st c) as [s|e] eqn:E.
  - apply check_coding_ok in E as [Hc ->]. destruct cs as [|d cs]; [simpl; naive_solver|].
    rewrite IH by done. naive_solver.
  - split; [done|]. intros [[Hc _] ->].
    assert (check_coding st c = Ok (mkTransferEncoding true true)); [by apply check_coding_ok|congruence].
Qed.

(** The coding flags of a list of header values that decode to [cs]. *)
Lemma transfer_encoding_ok headers t :
  validate_transfer_encoding headers = Ok t ↔
  ∃ cs, transfer_codings headers = Some cs ∧ Forall is_chunked cs ∧
    t = mkTransferEncoding (negb (is_empty cs)) (negb (is_empty cs)).
Proof.
  unfold validate_transfer_encoding, transfer_codings.
  assert (∀ vs st, 
    try_fold check_value st vs = Ok t ↔
    ∃ css, mapM value_codings vs = Some css ∧ Forall is_chunked (concat css) ∧
      t = if is_empty vs then st else mkTransferEncoding true true) as Hloop.
  { induction vs as [|v vs IH]; intros st; cbn [try_fold mapM].
    { simpl. split; [intros [= ->]; by exists []|by intros (css & _ & _ & ->)]. }
    pose proof (eq_refl (value_codings v)) as Hv. unfold value_codings at 2 in Hv.
    pose proof (eq_refl (check_value st v)) as Hc. unfold check_value at 2, ok_or in Hc.
    destruct (hv_to_str v) as [s|]; simpl in Hv, Hc; rewrite Hv, Hc; simpl;
      [|split; [done|by intros (? & ? & _)]]. clear Hc.
    destruct (try_fold check_coding st (split _ s)) as [st'|e] eqn:E.
    all: cbn [mbind result_bind].
    - apply check_codings_ok in E as [Hc ->]; [|apply split_nonempty]. rewrite IH. split.
      + intros (css & Hm & Hall & ->). exists (map trim (split ","%char s) :: css).
        rewrite Hm. split_and!; [done|by apply Forall_app|by destruct vs].
      + intros (css & Hm & Hall & ->). destruct (mapM value_codings vs) as [css'|]; [injection Hm as <-|done].
        exists css'. apply Forall_app in Hall as [_ Hall]. split_and!; [done|done|by destruct vs].
    - split; [done|]. intros (css & Hm & Hall & ->). destruct (mapM value_codings vs) as [css'|]; [injection Hm as <-|done].
      apply Forall_app in Hall as [Hall _].
      assert (try_fold check_coding st (split ","%char s) = Ok (mkTransferEncoding true true)); [|congruence].
      apply check_codings_ok; [apply split_nonempty|done]. }
  rewrite Hloop. clear Hloop.
  assert (∀ vs css, mapM value_codings vs = Some css → is_empty (concat css) = is_empty vs) as Hempty.
  { intros [|v vs] css Hm; simpl in Hm; [by injection Hm as <-|].
    pose proof (eq_refl (value_codings v)) as Hv. unfold value_codings at 2 in Hv.
    destruct (hv_to_str v) as [s|]; simpl in Hv; rewrite Hv in Hm; simpl in Hm; [|done].
    destruct (mapM value_codings vs) as [cs|]; [injection Hm as <-|done].
    pose proof (split_nonempty ","%char s). cbn [concat is_empty].
    destruct (split ","%char s) as [|x l]; done. }
  split.
  - intros (css & Hm & Hall & ->). exists (concat css). rewrite Hm, (Hempty _ _ Hm).
    split_and!; [done|done|]. by destruct (hm_get_all _ _).
  - destruct (mapM value_codings _) as [css|] eqn:Hm; [|naive_solver]. intros (cs & [= <-] & Hall & ->).
    exists css. rewrite (Hempty _ _ Hm). split_and!; [done|done|]. by destruct (hm_get_all _ _).
Qed.

(* @prop safety 38 : validate_supported_request_body_length validate_content_length validate_transfer_encoding *)
(** C38: the framing of an upload is unambiguous. A request with a body is
    accepted exactly when every transfer coding it names is [chunked] and it
    either has no Content-Length and is chunked, or has one single Content-Length
    that is a number and is not chunked unless the body is aws-chunked, whose
    own framing delimits it. So a plain upload may be chunked instead of having a
    Content-Length, though the comment of the function says that it must have
    one. *)
Theorem upload_framing_unambiguous headers :
  validate_supported_request_body_length headers = Ok () ↔
  ∃ cs, transfer_codings headers = Some cs ∧ Forall is_chunked cs ∧
    ((hm_get_all headers "content-length" = [] ∧ cs ≠ []) ∨
     ∃ v s l, hm_get_all headers "content-length" = [v] ∧ hv_to_str v = Some s ∧
       parse_content_length s = Ok l ∧ (cs = [] ∨ announces_aws_chunked headers)).
Proof.
  setoid_rewrite <- is_aws_chunked_spec. unfold validate_supported_request_body_length, validate_content_length.
  pose proof (transfer_encoding_ok headers) as Ht.
  destruct (validate_transfer_encoding headers) as [t|e].
  - destruct (proj1 (Ht t) eq_refl) as (cs & Hcs & Hall & ->). rewrite Hcs.
    destruct (hm_get_all headers "content-length") as [|v [|v' vs]]; unfold_result.
    + destruct cs as [|c cs]; simpl; (split; [try done|]).
      * intros (? & [= <-] & _ & [[_ ?]|(? & ? & ? & ? & _)]); done.
      * intros _. exists (c :: cs). eauto.
      * done.
    + destruct (hv_to_str v) as [s|] eqn:Hv; simpl; [destruct (parse_content_length s) as [l|] eqn:Hl; simpl|].
      2, 3: split; [done|]; intros (? & _ & _ & [[? _]|(? & s' & l' & [= <-] & Hs' & Hl' & _)]); congruence.
      transitivity (cs = [] ∨ is_aws_chunked_request headers = true).
      * destruct cs; simpl; [naive_solver|]. destruct (is_aws_chunked_request headers); simpl; naive_solver.
      * split; [intros Hcase; exists cs; split_and!; [done..|]; right; by exists v, s, l|].
        intros (? & [= <-] & _ & [[? _]|(? & ? & ? & _ & _ & _ & ?)]); done.
    + split; [done|]. by intros (? & _ & _ & [[? _]|(? & ? & ? & ? & _)]).
  - assert (¬ ∃ cs, transfer_codings headers = Some cs ∧ Forall is_chunked cs) as Hno.
    { intros (cs & Hcs & Hall). pose proof (proj2 (Ht _) (ex_intro _ cs (conj Hcs (conj Hall eq_refl)))). done. }
    split; [|by intros (cs & ? & ? & _); destruct Hno; exists cs].
    destruct (hm_get_all headers "content-length") as [|v [|v' vs]]; unfold_result; [done| |done].
    destruct (hv_to_str v) as [s|]; simpl; [|done]. by destruct (parse_content_length s).
Qed.

Lemma optional_header_ok headers name o :
  optional_header headers name = Ok o → hm_get_all headers name = opt_list o.
Proof.
  unfold optional_header. destruct (hm_get_all headers name) as [|v [|]]; unfold_result; [naive_solver| |done].
  destruct (hv_to_str v) eqn:E; simpl; [|done]. apply hv_to_str_id in E as ->. naive_solver.
Qed.

(** The loop over the headers keeps, for every name with the prefix, the one
    value seen so far. *)
Lemma add_user_metadata_ok l : ∀ m0 m,
  btree_ok m0 → try_fold add_user_metadata m0 l = Ok m →
  btree_ok m ∧ ∀ name,
    if starts_with "x-amz-meta-" name
    then opt_list (btree_get name m) = opt_list (btree_get name m0) ++ (filter (λ p, p.1 = name) l).*2
    else btree_get name m = btree_get name m0.
Proof.
  induction l as [|[n v] l IH]; intros m0 m Hok Hf; cbn [try_fold] in Hf.
  { simplify_eq/=. split; [done|]. intros name. by destruct (starts_with _ _); rewrite ?app_nil_r. }
  unfold add_user_metadata at 1 in Hf. unfold_result.
  destruct (starts_with "x-amz-meta-" n) eqn:Hp; simpl in Hf.
  - destruct (hv_to_str v) as [s|] eqn:Hv; simpl in Hf; [|done]. apply hv_to_str_id in Hv as ->.
    destruct (btree_contains n m0) eqn:Hc; [done|].
    apply IH in Hf as [Hm Hspec]; [|by apply btree_insert_ok]. split; [done|].
    intros name. specialize (Hspec name). rewrite filter_cons. cbn [fst].
    destruct (decide (n = name)) as [<-|Hne].
    + rewrite Hp in Hspec |- *. rewrite Hspec, btree_get_insert_eq.
      destruct (btree_get n m0) eqn:Hg; [|done].
      assert (btree_contains n m0 = true); [apply btree_contains_spec; by eexists|congruence].
    + by rewrite btree_get_insert_ne in Hspec by done.
  - apply IH in Hf as [Hm Hspec]; [|done]. split; [done|]. intros name. specialize (Hspec name).
    rewrite filter_cons. cbn [fst]. destruct (decide (n = name)) as [<-|Hne]; [|done].
    by rewrite Hp in Hspec |- *.
Qed.

(** A header that may be stored: at most one line, of readable characters. *)
Definition storable headers (name : str) : Prop :=
  ∃ o, hm_get_all headers name = opt_list o ∧ ∀ v, o = Some v → is_Some (hv_to_str v).

Lemma optional_header_is_ok headers name : is_ok (optional_header headers name) = true ↔ storable headers name.
Proof.
  unfold optional_header, storable. destruct (hm_get_all headers name) as [|v [|v' vs]]; unfold_result.
  - split; [|done]. intros _. by exists None.
  - destruct (hv_to_str v) as [s|] eqn:Hs; simpl; (split; [|done || intros (o & Ho & Hv)]).
    + intros _. exists (Some v). split; [done|]. by intros ? [= <-].
    + done.
    + destruct o as [x|]; [|done]. injection Ho as <-. destruct (Hv v eq_refl). congruence.
  - split; [done|]. intros (o & Ho & _). by destruct o.
Qed.

(** The content encoding to store: the codings the client lists without the
    transport coding aws-chunked, none if there are no others. *)
Definition stored_encoding (values : list bytes) : option str :=
  match filter (λ c, c ≠ [] ∧ eq_ignore_ascii_case c "aws-chunked" = false)
          (concat (map (λ v, map trim (split ","%char v)) values)) with
  | [] => None
  | codings => Some (join ", " codings)
  end.

Lemma filter_codings (l : list str) :
  List.filter (λ e, negb (eq_ignore_ascii_case e "aws-chunked")) (List.filter (λ e, negb (is_empty e)) l) =
  filter (λ c, c ≠ [] ∧ eq_ignore_ascii_case c "aws-chunked" = false) l.
Proof.
  induction l as [|c l IH]; [done|]. rewrite filter_cons. cbn [List.filter].
  destruct c as [|a c]; simpl negb; [by rewrite decide_False by (by intros [? _])|].
  cbn [List.filter]. destruct (eq_ignore_ascii_case (a :: c) "aws-chunked") eqn:E; simpl negb.
  - by rewrite decide_False by (by intros [_ ?]).
  - rewrite decide_True by done. by rewrite IH.
Qed.

Lemma content_encoding_ok headers o :
  content_encoding_metadata headers = Ok o → o = stored_encoding (hm_get_all headers "content-encoding").
Proof.
  unfold content_encoding_metadata, stored_encoding. unfold_result.
  destruct (optional_header _ _) as [[v|]|] eqn:Ho; simpl; [..|done]; apply optional_header_ok in Ho as ->; simpl.
  - rewrite filter_codings, app_nil_r. destruct (filter _ _); simpl; by intros [= <-].
  - by intros [= <-].
Qed.
Lemma content_encoding_is_ok headers :
  is_ok (content_encoding_metadata headers) = is_ok (optional_header headers "content-encoding").
Proof. unfold content_encoding_metadata. unfold_result. by destruct (optional_header _ _) as [[v|]|]. Qed.

(** The names a client may give to an algorithm and to a type of checksum. *)
Definition algorithm_names : list (str * ChecksumAlgorithm) :=
  [("CRC32", AlgCrc32); ("CRC32C", AlgCrc32c); ("SHA1", AlgSha1); ("SHA256", AlgSha256); ("SHA512", AlgSha512)].
Definition type_names : list (str * ChecksumType) := [("COMPOSITE", Composite); ("FULL_OBJECT", FullObject)].

(** The header [name] has one of the [names], in any case, or is absent. *)
Definition named {A : Type} (names : list (str * A)) headers (name : str) (o : option A) : Prop :=
  match o with
  | None => hm_get_all headers name = []
  | Some a => ∃ v, hm_get_all headers name = [v] ∧ (to_ascii_uppercase v, a) ∈ names
  end.
Definition nameable {A : Type} (names : list (str * A)) headers (name : str) : Prop :=
  storable headers name ∧ ∀ v, hm_get_all headers name = [v] → to_ascii_uppercase v ∈ names.*1.

(** A header with a name among [names], as the code finds it out. *)
Lemma named_header {A : Type} (names : list (str * A)) headers name (f : str → result S3Error (option A)) :
  (∀ v, match f v with
        | Ok o => ∃ a, o = Some a ∧ (to_ascii_uppercase v, a) ∈ names
        | Err _ => to_ascii_uppercase v ∉ names.*1
        end) →
  let res := value ← optional_header headers name; match value with None => Ok None | Some v => f v end in
  (is_ok res = true ↔ nameable names headers name) ∧ ∀ o, res = Ok o → named names headers name o.
Proof.
  intros Hf res. subst res. unfold nameable. rewrite <- optional_header_is_ok. unfold_result.
  destruct (optional_header headers name) as [[v|]|e] eqn:Ho; [..|split; [|done]; split; [done|by intros [? _]]];
    apply optional_header_ok in Ho; rewrite Ho; simpl.
  - specialize (Hf v). destruct (f v) as [o|e]; simpl.
    + destruct Hf as (a & -> & Hin). split; [|intros ? [= <-]; by exists v]. split; [|done]. intros _. split; [done|].
      intros v' [= <-]. apply list_elem_of_fmap. by exists (to_ascii_uppercase v, a).
    + split; [|done]. split; [done|]. intros [_ Hin]. by destruct Hf; apply Hin.
  - split; [|by intros ? [= <-]]. done.
Qed.

Ltac names_step v x := let E := fresh "E" in
  destruct (str_eqb (to_ascii_uppercase v) x) eqn:E;
    [apply str_eqb_eq in E; rewrite E; eexists; split; [reflexivity|set_solver]|apply str_eqb_neq in E].
Lemma checksum_algorithm_header headers :
  (is_ok (optional_checksum_algorithm headers) = true ↔ nameable algorithm_names headers "x-amz-checksum-algorithm") ∧
  ∀ o, optional_checksum_algorithm headers = Ok o → named algorithm_names headers "x-amz-checksum-algorithm" o.
Proof.
  apply named_header. intros v. cbv zeta. names_step v ("CRC32" : str). names_step v ("CRC32C" : str).
  names_step v ("SHA1" : str). names_step v ("SHA256" : str). names_step v ("SHA512" : str). set_solver.
Qed.
Lemma checksum_type_header headers :
  (is_ok (optional_checksum_type headers) = true ↔ nameable type_names headers "x-amz-checksum-type") ∧
  ∀ o, optional_checksum_type headers = Ok o → named type_names headers "x-amz-checksum-type" o.
Proof. apply named_header. intros v. cbv zeta. names_step v ("COMPOSITE" : str). names_step v ("FULL_OBJECT" : str). set_solver. Qed.

(** The [x-amz-meta-] headers of a request. *)
Definition meta_fields headers : list (str * bytes) :=
  filter (λ f, starts_with "x-amz-meta-" f.1 = true) (hm_iter headers).
Definition meta_storable headers : Prop :=
  Forall (λ f, is_Some (hv_to_str f.2)) (meta_fields headers) ∧ NoDup (meta_fields headers).*1.

Lemma add_user_metadata_is_ok l : ∀ m0, btree_ok m0 →
  is_ok (try_fold add_user_metadata m0 l) = true ↔
  let fields := filter (λ f : str * bytes, starts_with "x-amz-meta-" f.1 = true) l in
  Forall (λ f, is_Some (hv_to_str f.2)) fields ∧ NoDup fields.*1 ∧ Forall (λ f, btree_get f.1 m0 = None) fields.
Proof.
  induction l as [|[n v] l IH]; intros m0 Hok; cbn [try_fold]; [split; [intros _; repeat constructor|done]|]. rewrite filter_cons. cbn [fst].
  unfold add_user_metadata at 1. unfold_result. destruct (starts_with "x-amz-meta-" n) eqn:Hp; simpl negb.
  2: { rewrite decide_False by done. by apply IH. }
  rewrite decide_True by done. cbn zeta. rewrite fmap_cons, !Forall_cons, NoDup_cons. cbn [fst snd].
  destruct (hv_to_str v) as [s|] eqn:Hv; simpl; [|split; [done|by intros [[[] ?] _]]].
  destruct (btree_contains n m0) eqn:Hc.
  { apply btree_contains_spec in Hc as [x Hx]. split; [done|]. intros (_ & _ & ? & _). congruence. }
  assert (btree_get n m0 = None) as Hn.
  { destruct (btree_get n m0) eqn:Hg; [|done]. enough (btree_contains n m0 = true) by congruence.
    apply btree_contains_spec. by eexists. }
  rewrite IH by by apply btree_insert_ok. cbn zeta. set (fs := filter _ l).
  assert (Forall (λ f : str * bytes, btree_get f.1 (btree_insert n s m0) = None) fs ↔
    n ∉ fs.*1 ∧ Forall (λ f : str * bytes, btree_get f.1 m0 = None) fs) as ->; [|naive_solver].
  rewrite !Forall_forall. split.
  - intros Hf. split.
    + intros ([n' v'] & -> & Hin)%list_elem_of_fmap. specialize (Hf _ Hin). cbn [fst] in *. by rewrite btree_get_insert_eq in Hf.
    + intros f Hin. specialize (Hf f Hin). destruct (decide (n = f.1)) as [<-|Hne]; [done|].
      by rewrite btree_get_insert_ne in Hf.
  - intros [Hnot Hf] f Hin. rewrite btree_get_insert_ne; [by apply Hf|done|]. intros ->. apply Hnot, list_elem_of_fmap. by exists f.
Qed.

(* @prop functional 39 : collect_upload_metadata collect_user_metadata optional_header content_encoding_metadata optional_checksum_algorithm optional_checksum_type *)
(** C39: what is stored as metadata is what the client sent. The metadata is
    accepted exactly when each of its headers has at most one line, of readable
    characters, the checksum algorithm and type are known, and no [x-amz-meta-]
    header is repeated. Then every stored field is the value of its header, or
    none when there is none; the content encoding is the list the client sent
    without the transport coding aws-chunked, none only when nothing else is
    listed; and the user metadata is exactly the [x-amz-meta-] headers. *)
Theorem upload_metadata_exact headers :
  (is_ok (collect_upload_metadata headers) = true ↔
     Forall (storable headers) ["content-type"; "content-encoding"; "content-disposition"; "content-language";
       "cache-control"; "expires"; "x-amz-tagging"] ∧
     nameable algorithm_names headers "x-amz-checksum-algorithm" ∧
     nameable type_names headers "x-amz-checksum-type" ∧ meta_storable headers) ∧
  ∀ m, collect_upload_metadata headers = Ok m →
    hm_get_all headers "content-type" = opt_list (um_content_type m) ∧
    hm_get_all headers "content-disposition" = opt_list (um_content_disposition m) ∧
    hm_get_all headers "content-language" = opt_list (um_content_language m) ∧
    hm_get_all headers "cache-control" = opt_list (um_cache_control m) ∧
    hm_get_all headers "expires" = opt_list (um_expires m) ∧
    hm_get_all headers "x-amz-tagging" = opt_list (um_tagging m) ∧
    um_content_encoding m = stored_encoding (hm_get_all headers "content-encoding") ∧
    named algorithm_names headers "x-amz-checksum-algorithm" (um_checksum_algorithm m) ∧
    named type_names headers "x-amz-checksum-type" (um_checksum_type m) ∧
    ∀ name value, to_ascii_lowercase name = name →
      btree_get name (um_user_metadata m) = Some value ↔
      starts_with "x-amz-meta-" name = true ∧ hm_get_all headers name = [value].
Proof.
  destruct (checksum_algorithm_header headers) as [Ha Ha']. destruct (checksum_type_header headers) as [Ht Ht'].
  split.
  - rewrite !Forall_cons, Forall_nil, <- !optional_header_is_ok, <- Ha, <- Ht, <- content_encoding_is_ok.
    assert (is_ok (collect_user_metadata headers) = true ↔ meta_storable headers) as <-.
    { unfold collect_user_metadata. rewrite add_user_metadata_is_ok by apply btree_ok_nil. unfold meta_storable, meta_fields.
      split; [by intros (? & ? & _)|]. intros [? ?]. split_and!; [done..|]. by apply Forall_true. }
    unfold collect_upload_metadata. unfold_result.
    repeat match goal with |- context [match ?x with Ok _ => _ | Err _ => _ end] =>
      lazymatch x with context [match _ with Ok _ => _ | Err _ => _ end] => fail | _ => destruct x end end; simpl; naive_solver.
  - unfold collect_upload_metadata. intros m Hm. inv_result Hm.
    repeat match goal with Ho : optional_header _ _ = Ok _ |- _ => apply optional_header_ok in Ho end.
    repeat match goal with Ho : content_encoding_metadata _ = Ok _ |- _ => apply content_encoding_ok in Ho end.
    split_and!; [done..|by apply Ha'|by apply Ht'|]. intros name value Hl.
    match goal with Hu : collect_user_metadata _ = Ok _ |- _ => rename Hu into Hum end.
    apply add_user_metadata_ok in Hum as [_ Hu]; [|apply btree_ok_nil].
    specialize (Hu name). rewrite hm_iter_filter in Hu by done. simpl.
    destruct (starts_with _ name).
    + destruct (btree_get name _) as [w|]; simpl in Hu; rewrite <- Hu; naive_solver.
    + rewrite Hu. simpl. naive_solver.
Qed.
End facts.

Section witnesses.
Local Existing Instance ref_http.

Definition w_upload_headers : HeaderMap :=
  ([("Content-Type", "text/plain"); ("Content-Encoding", "aws-chunked, gzip");
    ("x-amz-meta-owner", "ann")] : list (str * bytes)).

Lemma upload_metadata_exact_witness :
  match collect_upload_metadata w_upload_headers with
  | Ok m => btree_get "x-amz-meta-owner" (um_user_metadata m) = Some "ann" ∧
            um_content_encoding m = stored_encoding ["aws-chunked, gzip"]
  | Err _ => False
  end.
Proof.
  destruct (collect_upload_metadata w_upload_headers) as [m|e] eqn:E; [|vm_compute in E; done].
  destruct (proj2 (upload_metadata_exact _) m E) as (_ & _ & _ & _ & _ & _ & He & _ & _ & Hu).
  split; [|exact He]. apply Hu; [vm_refl|]. split; vm_refl.
Defined.

(** A plain upload that is chunked and has no Content-Length. *)
Definition w_chunked_headers : HeaderMap := ([("Transfer-Encoding", "chunked")] : list (str * bytes)).
Lemma upload_framing_unambiguous_witness : validate_supported_request_body_length w_chunked_headers = Ok ().
Proof.
  apply (upload_framing_unambiguous w_chunked_headers). exists ["chunked"].
  split; [vm_refl|]. split; [repeat constructor|]. left. split; [vm_refl|done].
Defined.

Example chunked_needs_no_length :
  is_aws_chunked_request w_chunked_headers = false ∧
  hm_get_all w_chunked_headers "content-length" = [] ∧
  validate_supported_request_body_length w_chunked_headers = Ok ().
Proof. repeat split; vm_refl. Qed.
End witnesses.
