(* ===== verification/ReferenceJson.v ===== *)
(** * A concrete serializer

    An instance of [JsonLib], with which the theorems on the stores are
    evaluated. It is a tagged binary format: the endpoint relies on nothing but
    the round trip. *)

From S2P Require Import Prelude RustStd BTree S3Error Externals Reference Types StoreModel.
From Stdlib Require Import ZArith Lia.
Local Open Scope Z_scope.

(** A printer and a parser that reads back what was printed and no more. *)
Record Codec (A : Type) := mkCodec {
  c_enc : A → bytes;
  c_dec : bytes → option (A * bytes);
  c_law : ∀ a rest, c_dec (c_enc a ++ rest) = Some (a, rest);
}.
Arguments c_enc {A} c.
Arguments c_dec {A} c.
Arguments c_law {A} c.

Program Definition c_map {A B} (f : A → B) (g : B → A) (fg : ∀ b, f (g b) = b) (c : Codec A) : Codec B :=
  mkCodec B (λ b, c_enc c (g b))
    (λ s, '(a, rest) ← c_dec c s; Some (f a, rest)) _.
Next Obligation. intros A B f g fg c b rest; simpl. rewrite c_law; simpl. by rewrite fg. Qed.

Program Definition c_pair {A B} (c : Codec A) (d : Codec B) : Codec (A * B) :=
  mkCodec (A * B) (λ '(a, b), c_enc c a ++ c_enc d b)
    (λ s, '(a, s) ← c_dec c s; '(b, s) ← c_dec d s; Some ((a, b), s)) _.
Next Obligation.
  intros A B c d [a b] rest; simpl. rewrite <- app_assoc, c_law; simpl. by rewrite c_law.
Qed.

Definition dec_option {A} (d : bytes → option (A * bytes)) (s : bytes) : option (option A * bytes) :=
  match s with
  | "s"%char :: s => '(a, s) ← d s; Some (Some a, s)
  | "n"%char :: s => Some (None, s)
  | _ => None
  end.
Definition enc_option {A} (e : A → bytes) (o : option A) : bytes :=
  match o with Some a => "s"%char :: e a | None => ["n"%char] end.
Program Definition c_option {A} (c : Codec A) : Codec (option A) :=
  mkCodec (option A) (enc_option (c_enc c)) (dec_option (c_dec c)) _.
Next Obligation. intros A c [a|] rest; simpl; [by rewrite c_law|done]. Qed.

Fixpoint dec_list {A} (d : bytes → option (A * bytes)) (fuel : nat) (s : bytes) : option (list A * bytes) :=
  match fuel, s with
  | S fuel, ","%char :: s =>
      '(a, s) ← d s; '(l, s) ← dec_list d fuel s; Some (a :: l, s)
  | S _, "."%char :: s => Some ([], s)
  | _, _ => None
  end.

Definition enc_list {A} (c : Codec A) (l : list A) : bytes :=
  foldr (λ a s, ","%char :: c_enc c a ++ s) ["."%char] l.

Lemma dec_enc_list {A} (c : Codec A) l rest fuel :
  (length (enc_list c l ++ rest) ≤ fuel)%nat →
  dec_list (c_dec c) fuel (enc_list c l ++ rest) = Some (l, rest).
Proof.
  revert fuel. induction l as [|a l IH]; intros [|fuel] Hf; simpl in *; try lia; [done|].
  rewrite <- app_assoc, c_law; simpl. rewrite IH; [done|].
  rewrite !length_app in *. lia.
Qed.

Program Definition c_list {A} (c : Codec A) : Codec (list A) :=
  mkCodec (list A) (enc_list c) (λ s, dec_list (c_dec c) (length s) s) _.
Next Obligation. intros A c l rest; simpl. by apply dec_enc_list. Qed.

Program Definition c_char : Codec ascii :=
  mkCodec ascii (λ a, [a]) (λ s, match s with a :: s => Some (a, s) | [] => None end) _.
Next Obligation. done. Qed.

Definition c_str : Codec str := c_list c_char.

Fixpoint enc_pos (p : positive) : bytes :=
  match p with
  | xI p => "i"%char :: enc_pos p
  | xO p => "o"%char :: enc_pos p
  | xH => ["h"%char]
  end.
Fixpoint dec_pos (s : bytes) : option (positive * bytes) :=
  match s with
  | "i"%char :: s => '(p, s) ← dec_pos s; Some (xI p, s)
  | "o"%char :: s => '(p, s) ← dec_pos s; Some (xO p, s)
  | "h"%char :: s => Some (xH, s)
  | _ => None
  end.
Program Definition c_pos : Codec positive := mkCodec positive enc_pos dec_pos _.
Next Obligation. induction a as [p IH|p IH|]; intros; simpl; [by rewrite IH|by rewrite IH|done]. Qed.

Definition c_bool : Codec bool :=
  c_map (λ a, bool_decide (a = "+"%char)) (λ b : bool, if b then "+"%char else "-"%char)
    ltac:(by intros []) c_char.

Definition c_Z : Codec Z :=
  c_map (λ o, match o with None => 0 | Some (true, p) => Z.pos p | Some (false, p) => Z.neg p end)
    (λ z, match z with Z0 => None | Zpos p => Some (true, p) | Zneg p => Some (false, p) end)
    ltac:(by intros [| |]) (c_option (c_pair c_bool c_pos)).

Definition c_attrs : Codec (btree str str) := c_list (c_pair c_str c_str).
Definition c_bucket : Codec BucketName := c_map mkBucketName bucket_str ltac:(by intros []) c_str.
Definition c_key : Codec ObjectKey := c_map mkObjectKey key_str ltac:(by intros []) c_str.
Definition c_etag : Codec ETag := c_map mkETag etag_str ltac:(by intros []) c_str.

Definition c_object : Codec ObjectMetadata.
Proof.
  refine (c_map
    (λ '(b, k, z, e, (ct, ce, cd, cl), (cc, ex, tg), um, cs, lm),
       mkObjectMetadata b k z e ct ce cd cl cc ex tg um cs lm)
    (λ m, (om_bucket m, om_key m, om_size m, om_etag m,
           (om_content_type m, om_content_encoding m, om_content_disposition m, om_content_language m),
           (om_cache_control m, om_expires m, om_tagging m), om_user_metadata m, om_checksums m,
           om_last_modified m)) _
    (c_pair (c_pair (c_pair (c_pair (c_pair (c_pair (c_pair (c_pair c_bucket c_key) c_Z) c_etag)
      (c_pair (c_pair (c_pair (c_option c_str) (c_option c_str)) (c_option c_str)) (c_option c_str)))
      (c_pair (c_pair (c_option c_str) (c_option c_str)) (c_option c_str))) c_attrs) c_attrs) c_Z)).
  by intros [].
Defined.

Definition c_algorithm : Codec ChecksumAlgorithm :=
  c_map (λ c, match c with
              | "1"%char => AlgSha1 | "2"%char => AlgSha256 | "5"%char => AlgSha512
              | "c"%char => AlgCrc32c | _ => AlgCrc32
              end)
    (λ a, match a with
          | AlgSha1 => "1"%char | AlgSha256 => "2"%char | AlgSha512 => "5"%char
          | AlgCrc32c => "c"%char | AlgCrc32 => "3"%char
          end) ltac:(by intros []) c_char.
Definition c_type : Codec ChecksumType :=
  c_map (λ b : bool, if b then Composite else FullObject)
    (λ t, match t with Composite => true | FullObject => false end) ltac:(by intros []) c_bool.
Definition c_state : Codec UploadState :=
  c_map (λ c, match c with
              | "g"%char => Completing | "d"%char => Completed | "a"%char => Aborted | _ => Open
              end)
    (λ s, match s with
          | Completing => "g"%char | Completed => "d"%char | Aborted => "a"%char | Open => "o"%char
          end) ltac:(by intros []) c_char.

Definition c_upload_metadata : Codec UploadMetadata.
Proof.
  refine (c_map
    (λ '((ct, ce, cd, cl), (cc, ex, tg), ca, cy, um),
       mkUploadMetadata ct ce cd cl cc ex tg ca cy um)
    (λ m, ((um_content_type m, um_content_encoding m, um_content_disposition m, um_content_language m),
           (um_cache_control m, um_expires m, um_tagging m), um_checksum_algorithm m,
           um_checksum_type m, um_user_metadata m)) _
    (c_pair (c_pair (c_pair (c_pair
      (c_pair (c_pair (c_pair (c_option c_str) (c_option c_str)) (c_option c_str)) (c_option c_str))
      (c_pair (c_pair (c_option c_str) (c_option c_str)) (c_option c_str)))
      (c_option c_algorithm)) (c_option c_type)) c_attrs)).
  by intros [].
Defined.

Definition c_part : Codec PartMetadata.
Proof.
  refine (c_map
    (λ '(n, z, e, h, cs, lm), mkPartMetadata (mkPartNumber n) z e h cs lm)
    (λ p, (part_number_get (pm_part_number p), pm_size p, pm_etag p, pm_md5 p, pm_checksums p,
           pm_last_modified p)) _
    (c_pair (c_pair (c_pair (c_pair (c_pair c_Z c_Z) c_etag) c_str) c_attrs) c_Z)).
  by intros [[] ?????].
Defined.

Definition c_session : Codec UploadSession.
Proof.
  refine (c_map
    (λ '(u, b, k, i, s, o, m, ps), mkSession (mkUploadId u) b k i s o m ps)
    (λ s, (upload_id_str (us_upload_id s), us_bucket s, us_key s, us_initiated s, us_state s,
           us_owner_access_key_id s, us_metadata s, us_parts s)) _
    (c_pair (c_pair (c_pair (c_pair (c_pair (c_pair (c_pair c_str c_bucket) c_key) c_Z) c_state)
      (c_option c_str)) c_upload_metadata) (c_list (c_pair c_Z c_part)))).
  by intros [[] ???????].
Defined.

Lemma c_roundtrip {A} (c : Codec A) a b :
  Some (c_enc c a) = Some b → fst <$> c_dec c b = Some a.
Proof. intros [= <-]. rewrite <- (app_nil_r (c_enc c a)). by rewrite c_law. Qed.

Definition ref_json : JsonLib := {|
  json_of_object m := Some (c_enc c_object m);
  object_of_json b := fst <$> c_dec c_object b;
  json_of_session s := Some (c_enc c_session s);
  session_of_json b := fst <$> c_dec c_session b;
  object_json_roundtrip := c_roundtrip c_object;
  session_json_roundtrip := c_roundtrip c_session;
|}.
