(* ===== verification/FileSystem.v ===== *)
(** * The file system and storage/fs_util.rs

    A file system is a map from paths (lists of components below the storage
    root) to contents. Every call may fail: the world carries a schedule of
    faults, one entry per call. A write that fails may have created or
    truncated its file; a failed [remove_dir_all] may have removed some of the
    files. Renames and hard links take effect completely or not at all. Files
    are replaced by renames and never modified through a second link, so that a
    hard link is a copy. Directories exist as soon as they are needed. *)

From S2P Require Import Prelude RustStd BTree S3Error Externals Reference Types StoreModel.
From Stdlib Require Import ZArith Lia.
Local Open Scope Z_scope.

Abbreviation path := (list str).

(** What a failing call has done before it failed: the prefix of the bytes it
    has written, the files it has removed. *)
Record Fault := mkFault { f_error : str; f_written : option nat; f_removed : list path }.

(** The disk, the table of upload sessions the process keeps in memory, and
    the schedule of faults. *)
Record World := mkWorld {
  files : gmap path bytes;
  sessions : gmap str UploadSession;
  faults : list (option Fault);
}.

(** Code that may fail with an [E]. It is a tree of atomic steps on the world:
    between two steps other requests may run. A step hands the rest of the code
    back with the world it has made. *)
Inductive ioE (E A : Type) : Type :=
| Ended (r : result E A)
| Step (f : World → ioE E A * World).
Arguments Ended {E A} r.
Arguments Step {E A} f.
Abbreviation io := (ioE StoreError).

(** Running code to its end, with nothing in between. *)
Fixpoint run {E A : Type} (m : ioE E A) (w : World) : result E A * World :=
  match m with
  | Ended r => (r, w)
  | Step f => let '(m, w) := f w in run m w
  end.
Coercion run : ioE >-> Funclass.

Fixpoint io_bind_ {E A B : Type} (f : A → ioE E B) (m : ioE E A) : ioE E B :=
  match m with
  | Ended (Ok a) => f a
  | Ended (Err e) => Ended (Err e)
  | Step g => Step (λ w, let '(m, w) := g w in (io_bind_ f m, w))
  end.
Global Instance io_ret {E} : MRet (ioE E) := λ A a, Ended (Ok a).
Global Instance io_bind {E} : MBind (ioE E) := λ A B, io_bind_.

(** Changes the result of a computation, error included. *)
Fixpoint io_map {E F A B : Type} (g : result E A → result F B) (m : ioE E A) : ioE F B :=
  match m with
  | Ended r => Ended (g r)
  | Step f => Step (λ w, let '(m, w) := f w in (io_map g m, w))
  end.

Definition throw {E A} (e : E) : ioE E A := Ended (Err e).
(** Runs [m] and hands its result, error included, to the continuation. *)
Definition attempt {E F A} (m : ioE E A) : ioE F (result E A) := io_map Ok m.
(** [let _ = m.await]: the outcome is ignored. *)
Definition ignore {E F A} (m : ioE E A) : ioE F () := io_map (λ _, Ok ()) m.
(** [m.await.map_err(f)]. *)
Definition map_io_err {E F A} (f : E → F) (m : ioE E A) : ioE F A := io_map (map_err f) m.
(** A pure computation that may fail. *)
Definition lift {E A} (r : result E A) : ioE E A := Ended r.

(** One step that fails or not and changes the world. *)
Definition io_step {E A} (f : World → result E A * World) : ioE E A :=
  Step (λ w, let '(r, w) := f w in (Ended r, w)).
(** Code that runs while it holds a lock on everything it uses: one step. *)
Definition locked {E A} (m : ioE E A) : ioE E A := io_step (run m).

Definition get_sessions {E : Type} : ioE E (gmap str UploadSession) := io_step (λ w, (Ok (sessions w), w)).
Definition put_sessions {E : Type} (ss : gmap str UploadSession) : ioE E () :=
  io_step (λ w, (Ok (), mkWorld (files w) ss (faults w))).

(** One call: the next entry of the schedule decides whether it fails. *)
Definition call {A} (ok : gmap path bytes → result IoError A * gmap path bytes)
    (failed : Fault → gmap path bytes → gmap path bytes) : io A := io_step (λ w,
  match faults w with
  | Some f :: rest => (Err (Io (OtherIo (f_error f))), mkWorld (failed f (files w)) (sessions w) rest)
  | None :: rest => let '(r, fs) := ok (files w) in (map_err Io r, mkWorld fs (sessions w) rest)
  | [] => let '(r, fs) := ok (files w) in (map_err Io r, mkWorld fs (sessions w) [])
  end).

Definition unchanged : Fault → gmap path bytes → gmap path bytes := λ _ fs, fs.

Definition fs_create_dir_all (p : path) : io () := call (λ fs, (Ok (), fs)) unchanged.

Definition fs_write (p : path) (content : bytes) : io () :=
  call (λ fs, (Ok (), <[p := content]> fs))
       (λ f fs, match f_written f with Some n => <[p := take n content]> fs | None => fs end).

Definition fs_create (p : path) : io () :=
  call (λ fs, (Ok (), <[p := []]> fs)) unchanged.

(** [write_all] on a file opened for writing: a file that was unlinked in the
    meantime takes the bytes with it. *)
Definition fs_append (p : path) (content : bytes) : io () :=
  call (λ fs, (Ok (), match fs !! p with Some c => <[p := c ++ content]> fs | None => fs end))
       (λ f fs, match f_written f, fs !! p with
                | Some n, Some c => <[p := c ++ take n content]> fs
                | _, _ => fs
                end).
(** [flush]. *)
Definition fs_flush : io () := call (λ fs, (Ok (), fs)) unchanged.

(** Opening a file and reading it to its end is one call. *)
Definition fs_read (p : path) : io bytes :=
  call (λ fs, (ok_or (fs !! p) NotFound, fs)) unchanged.

Definition strictly_under (dir p : path) : bool :=
  bool_decide (take (length dir) p = dir) && bool_decide (length dir < length p)%nat.
Definition is_dir (fs : gmap path bytes) (p : path) : bool :=
  existsb (strictly_under p) (map_to_list fs).*1.

(** [fs::metadata(p)], of which only [is_file] is used. *)
Definition fs_metadata (p : path) : io bool :=
  call (λ fs, (match fs !! p with
               | Some _ => Ok true
               | None => if is_dir fs p then Ok false else Err NotFound
               end, fs)) unchanged.

(** The entries of a directory with their [is_file] flag; the calls that list
    them one by one are one call here. *)
Definition entry_of (dir p : path) : option (str * bool) :=
  if strictly_under dir p then
    match drop (length dir) p with
    | [name] => Some (name, true)
    | name :: _ => Some (name, false)
    | [] => None
    end
  else None.
Definition fs_read_dir (dir : path) : io (list (str * bool)) :=
  call (λ fs, (Ok (remove_dups (omap (entry_of dir) (map_to_list fs).*1)), fs)) unchanged.

Definition fs_rename (a b : path) : io () :=
  call (λ fs, match fs !! a with
              | Some c => (Ok (), <[b := c]> (delete a fs))
              | None => (Err NotFound, fs)
              end) unchanged.

Definition fs_hard_link (a b : path) : io () :=
  call (λ fs, match fs !! a, fs !! b with
              | None, _ => (Err NotFound, fs)
              | Some _, Some _ => (Err AlreadyExists, fs)
              | Some c, None => (Ok (), <[b := c]> fs)
              end) unchanged.

Definition fs_remove_file (p : path) : io () :=
  call (λ fs, match fs !! p with
              | Some _ => (Ok (), delete p fs)
              | None => (Err NotFound, fs)
              end) unchanged.

Definition under (dir p : path) : bool := bool_decide (take (length dir) p = dir).

Definition fs_remove_dir_all (dir : path) : io () :=
  call (λ fs, (Ok (), filter (λ kv, under dir kv.1 = false) fs))
       (λ f fs, filter (λ kv, under dir kv.1 = false ∨ kv.1 ∉ f_removed f) fs).

(** ** storage/fs_util.rs *)

(** [path.parent()] of a joined path is never missing. *)
(* @src src/src/storage/fs_util.rs 8-14 create_parent_dir *)
Definition create_parent_dir (p : path) : io () :=
  match p with
  | [] => throw (InvalidPath p)
  | _ => fs_create_dir_all (removelast p)
  end.

(* @src src/src/storage/fs_util.rs 17-23 remove_file_if_exists *)
Definition remove_file_if_exists (p : path) : io () :=
  r ← attempt (fs_remove_file p);
  match r with
  | Ok _ => mret ()
  | Err (Io NotFound) => mret ()
  | Err e => throw e
  end.

(* @src src/src/storage/fs_util.rs 28-34 backup_existing_file *)
Definition backup_existing_file (source backup : path) : io bool :=
  r ← attempt (fs_hard_link source backup);
  match r with
  | Ok _ => mret true
  | Err (Io NotFound) => mret false
  | Err e => throw e
  end.

(* @src src/src/storage/fs_util.rs 37-42 remove_backup_file *)
Definition remove_backup_file (p : path) (exists_ : bool) : io () :=
  if exists_ then remove_file_if_exists p else mret ().

(* @src src/src/storage/fs_util.rs 45-50 rollback_published_file *)
Definition rollback_published_file (p backup : path) (had_previous : bool) : io () :=
  _ ← ignore (remove_file_if_exists p);
  if had_previous then ignore (fs_rename backup p) else mret ().

Arguments remove_backup_file : simpl never.

(** A loop over a list whose body may fail. *)
Fixpoint io_for {A} (f : A → io ()) (l : list A) : io () :=
  match l with
  | [] => mret ()
  | a :: l => _ ← f a; io_for f l
  end.

(** The laws of [run]. *)
Lemma ioE_ind' {E A} (P : ioE E A → Prop) :
  (∀ r, P (Ended r)) → (∀ f, (∀ w, P (f w).1) → P (Step f)) → ∀ m, P m.
Proof.
  intros HD HS. fix IH 1. intros [r|f]; [apply HD|]. apply HS. intros w. destruct (f w) as [m w']. apply IH.
Qed.

Lemma run_bind {E A B} (m : ioE E A) (f : A → ioE E B) w :
  run (m ≫= f) w = match run m w with (Ok a, w) => run (f a) w | (Err e, w) => (Err e, w) end.
Proof.
  unfold mbind, io_bind. revert w. induction m as [[a|e]|g IH] using ioE_ind'; intros w; [done..|].
  simpl. specialize (IH w). destruct (g w) as [m w']. apply IH.
Qed.

Lemma run_io_map {E F A B} (g : result E A → result F B) (m : ioE E A) w :
  run (io_map g m) w = let '(r, w) := run m w in (g r, w).
Proof.
  revert w. induction m as [r|f IH] using ioE_ind'; intros w; [done|].
  simpl. specialize (IH w). destruct (f w) as [m w']. apply IH.
Qed.

Lemma run_lift {E A} (r : result E A) w : run (lift r) w = (r, w).
Proof. done. Qed.

Lemma run_ret {E A} (a : A) w : run (mret a : ioE E A) w = (Ok a, w).
Proof. done. Qed.

Lemma run_bind_ok {E A B} (m : ioE E A) (f : A → ioE E B) w b w' :
  run (m ≫= f) w = (Ok b, w') ↔ ∃ a w1, run m w = (Ok a, w1) ∧ run (f a) w1 = (Ok b, w').
Proof. rewrite run_bind. destruct (run m w) as [[a|e] w1]; naive_solver. Qed.

(** ** A program logic

    [wp m n fs ss Q]: run alone, with [n] faults left in the schedule, on the disk
    [fs] and the sessions [ss], [m] ends in a result, a number of remaining
    faults, a disk and sessions that satisfy [Q]. Storage code is a total
    function of the world, so that this is total correctness. *)

Definition budget (w : World) : nat := length (filter is_Some (faults w)).

Definition wp {E A : Type} (m : ioE E A) (n : nat) (fs : gmap path bytes) (ss : gmap str UploadSession)
    (Q : result E A → nat → gmap path bytes → gmap str UploadSession → Prop) : Prop :=
  ∀ fl, length (filter is_Some fl) = n →
    let '(r, w) := m (mkWorld fs ss fl) in Q r (budget w) (files w) (sessions w).

Section rules.
Context {E A B : Type}.
Implicit Types (n : nat) (fs : gmap path bytes) (ss : gmap str UploadSession).

Lemma wp_run (m : ioE E A) w r w' Q :
  m w = (r, w') → wp m (budget w) (files w) (sessions w) Q →
  Q r (budget w') (files w') (sessions w').
Proof.
  intros Hm Hwp. specialize (Hwp (faults w) eq_refl). destruct w; simpl in *.
  by rewrite Hm in Hwp.
Qed.

Lemma wp_mono (m : ioE E A) n fs ss Q Q' :
  wp m n fs ss Q → (∀ r n' fs' ss', Q r n' fs' ss' → Q' r n' fs' ss') → wp m n fs ss Q'.
Proof.
  intros Hwp HQ fl Hn. specialize (Hwp fl Hn).
  destruct (m _) as [r w]. by apply HQ.
Qed.

Lemma wp_ret (a : A) n fs ss (Q : result E A → nat → _ → _ → Prop) : Q (Ok a) n fs ss → wp (mret a) n fs ss Q.
Proof. intros HQ fl <-. exact HQ. Qed.

Lemma wp_throw e n fs ss (Q : result E A → nat → _ → _ → Prop) :
  Q (Err e) n fs ss → wp (throw e) n fs ss Q.
Proof. intros HQ fl <-. exact HQ. Qed.

Lemma wp_bind (m : ioE E A) (f : A → ioE E B) n fs ss Q :
  wp m n fs ss (λ r n' fs' ss',
    match r with Ok a => wp (f a) n' fs' ss' Q | Err e => Q (Err e) n' fs' ss' end) →
  wp (m ≫= f) n fs ss Q.
Proof.
  intros Hwp fl Hn. specialize (Hwp fl Hn). rewrite run_bind.
  destruct (run m _) as [[a|e] [fs' ss' fl']]; simpl in *; [by apply Hwp|done].
Qed.

Lemma wp_io_map {F B' : Type} (g : result E A → result F B') (m : ioE E A) n fs ss Q :
  wp m n fs ss (λ r, Q (g r)) → wp (io_map g m) n fs ss Q.
Proof.
  intros Hwp fl Hn. specialize (Hwp fl Hn). rewrite run_io_map. by destruct (run m _).
Qed.

Lemma wp_attempt {F : Type} (m : ioE E A) n fs ss Q :
  wp m n fs ss (λ r, Q (Ok r)) → wp (attempt (F := F) m) n fs ss Q.
Proof. apply wp_io_map. Qed.

Lemma wp_ignore {F : Type} (m : ioE E A) n fs ss Q :
  wp m n fs ss (λ _, Q (Ok ())) → wp (ignore (F := F) m) n fs ss Q.
Proof. apply wp_io_map. Qed.

Lemma wp_map_io_err {F : Type} (f : E → F) (m : ioE E A) n fs ss Q :
  wp m n fs ss (λ r, Q (map_err f r)) → wp (map_io_err f m) n fs ss Q.
Proof. apply wp_io_map. Qed.

Lemma wp_locked (m : ioE E A) n fs ss Q : wp m n fs ss Q → wp (locked m) n fs ss Q.
Proof.
  intros Hwp fl Hn. specialize (Hwp fl Hn). unfold locked, io_step. simpl. by destruct (run m _).
Qed.

Lemma wp_lift (r : result E A) n fs ss Q : Q r n fs ss → wp (lift r) n fs ss Q.
Proof. intros HQ fl <-. exact HQ. Qed.

(** A call either takes effect or uses up a fault. *)
Lemma wp_call ok failed n fs ss (Q : result StoreError A → nat → _ → _ → Prop) :
  Q (map_err Io (ok fs).1) n (ok fs).2 ss →
  (∀ f n', n = S n' → Q (Err (Io (OtherIo (f_error f)))) n' (failed f fs) ss) →
  wp (call ok failed) n fs ss Q.
Proof.
  intros Hok Hfail fl Hn. unfold call, io_step; simpl.
  destruct fl as [|[f|] fl]; simpl.
  - simpl in Hn. subst. by destruct (ok fs).
  - apply (Hfail f). rewrite filter_cons, decide_True in Hn by done. by subst.
  - rewrite filter_cons, decide_False in Hn by (intros []%is_Some_None).
    subst. by destruct (ok fs).
Qed.
End rules.

Lemma wp_get_sessions {E : Type} n fs ss (Q : result E _ → nat → _ → _ → Prop) : Q (Ok ss) n fs ss → wp get_sessions n fs ss Q.
Proof. intros HQ fl <-. exact HQ. Qed.
Lemma wp_put_sessions {E : Type} ss' n fs ss (Q : result E _ → nat → _ → _ → Prop) : Q (Ok ()) n fs ss' → wp (put_sessions ss') n fs ss Q.
Proof. intros HQ fl <-. exact HQ. Qed.

Section calls.
Implicit Types (n : nat) (fs : gmap path bytes) (ss : gmap str UploadSession) (p b : path).

Lemma wp_create_parent_dir p n fs ss Q :
  p ≠ [] →
  Q (Ok ()) n fs ss →
  (∀ (e : StoreError) n', n = S n' → Q (Err e) n' fs ss) →
  wp (create_parent_dir p) n fs ss Q.
Proof.
  intros Hp HQ HE. destruct p as [|x p]; [done|].
  apply wp_call; [done|]. intros f n' ->. by apply HE.
Qed.

Lemma wp_remove_file_if_exists p n fs ss Q :
  Q (Ok ()) n (delete p fs) ss →
  (∀ (e : StoreError) n', n = S n' → Q (Err e) n' fs ss) →
  wp (remove_file_if_exists p) n fs ss Q.
Proof.
  intros HQ HE. apply wp_bind, wp_attempt, wp_call; simpl.
  - destruct (fs !! p) eqn:Hp; simpl; apply wp_ret; [done|].
    by rewrite delete_id in HQ.
  - intros f n' ->. by apply wp_throw, HE.
Qed.

Lemma wp_backup_existing_file p b n fs ss Q :
  fs !! b = None →
  (∀ c, fs !! p = Some c → Q (Ok true) n (<[b := c]> fs) ss) →
  (fs !! p = None → Q (Ok false) n fs ss) →
  (∀ (e : StoreError) n', n = S n' → Q (Err e) n' fs ss) →
  wp (backup_existing_file p b) n fs ss Q.
Proof.
  intros Hb HT HF HE. apply wp_bind, wp_attempt, wp_call; simpl.
  - rewrite Hb. destruct (fs !! p) eqn:Hp; simpl; apply wp_ret; eauto.
  - intros f n' ->. by apply wp_throw, HE.
Qed.

Lemma wp_rename (a b : path) n fs ss Q :
  (∀ c, fs !! a = Some c → Q (Ok ()) n (<[b := c]> (delete a fs)) ss) →
  (fs !! a = None → Q (Err (Io NotFound)) n fs ss) →
  (∀ e n', n = S n' → Q (Err (Io e)) n' fs ss) →
  wp (fs_rename a b) n fs ss Q.
Proof.
  intros HT HF HE. apply wp_call; simpl.
  - destruct (fs !! a) eqn:Ha; simpl; eauto.
  - intros f n' ->. by apply HE.
Qed.

(** A failed write leaves its file as it was or with some of the contents. *)
Lemma wp_write p c n fs ss Q :
  Q (Ok ()) n (<[p := c]> fs) ss →
  (∀ (e : StoreError) n' fs', n = S n' → fs' = fs ∨ (∃ k, fs' = <[p := take k c]> fs) → Q (Err e) n' fs' ss) →
  wp (fs_write p c) n fs ss Q.
Proof.
  intros HQ HE. apply wp_call; simpl; [done|].
  intros f n' ->. destruct (f_written f); apply HE; eauto.
Qed.

Lemma wp_remove_backup_file p (b : bool) n fs ss Q :
  Q (Ok ()) n (if b then delete p fs else fs) ss →
  (∀ (e : StoreError) n', n = S n' → Q (Err e) n' fs ss) →
  wp (remove_backup_file p b) n fs ss Q.
Proof.
  intros HQ HE. destruct b; [by apply wp_remove_file_if_exists|by apply wp_ret].
Qed.

(** Without a fault the published file is withdrawn and the backup restored. *)
Lemma wp_rollback_calm p b (had : bool) fs ss Q :
  p ≠ b → had = bool_decide (is_Some (fs !! b)) →
  Q (Ok ()) 0%nat (partial_alter (λ _, fs !! b) p (delete b fs)) ss →
  wp (rollback_published_file p b had) 0 fs ss Q.
Proof.
  intros Hne Hhad HQ. apply wp_bind, wp_ignore, wp_remove_file_if_exists; [|done].
  destruct (fs !! b) as [c|] eqn:Hb; simpl in Hhad; subst had; simpl.
  - apply wp_ignore, wp_rename; [|by rewrite lookup_delete_ne, Hb by done|done].
    intros c'. rewrite lookup_delete_ne, Hb by done. intros [= <-].
    rewrite (delete_delete _ b p), insert_delete_eq. apply HQ.
  - apply wp_ret. rewrite delete_id in HQ by done. apply HQ.
Qed.

(** A best-effort removal. *)
Lemma wp_ignore_remove {E B : Type} p (k : ioE E B) n fs ss Q :
  (∀ n' fs', (n' ≤ n)%nat → (∀ q, q ≠ p → fs' !! q = fs !! q) → (n = 0%nat → fs' !! p = None) →
     wp k n' fs' ss Q) →
  wp (_ ← ignore (remove_file_if_exists p); k) n fs ss Q.
Proof.
  intros HQ. apply wp_bind, wp_ignore, wp_remove_file_if_exists; [|intros ? n' ->];
    (apply HQ; [lia| |]); intros; by simplify_map_eq.
Qed.

(** Whatever fails, a rollback touches only the file and its backup, and without
    a backup it makes no file. *)
Lemma wp_rollback_any p b (had : bool) n fs ss Q :
  (∀ n' fs', (n' ≤ n)%nat → (∀ q, q ≠ p → q ≠ b → fs' !! q = fs !! q) →
     (had = false → fs !! p = None → fs' !! p = None) → Q (Ok ()) n' fs' ss) →
  wp (rollback_published_file p b had) n fs ss Q.
Proof.
  intros HQ. apply wp_bind, wp_ignore, wp_remove_file_if_exists; [|intros ? n' ->];
    (destruct had; [apply wp_ignore, wp_rename; [intros c Hc|intros Hc|intros ? n'' ->]
                   |apply wp_ret]);
    (apply HQ; [lia|intros q Hp Hb; by simplify_map_eq|]); intros; by simplify_map_eq.
Qed.
End calls.

(** A loop without faults: an invariant of the disk that every iteration keeps. *)
Lemma wp_io_for {A : Type} (P : gmap path bytes → Prop) (f : A → io ()) l fs ss Q :
  (∀ a fs, a ∈ l → P fs → wp (f a) 0 fs ss (λ r n' fs' ss', r = Ok () ∧ n' = 0%nat ∧ ss' = ss ∧ P fs')) →
  P fs → (∀ fs', P fs' → Q (Ok ()) 0%nat fs' ss) → wp (io_for f l) 0 fs ss Q.
Proof.
  revert fs. induction l as [|a l IH]; intros fs Hf HP HQ; [by apply wp_ret, HQ|].
  apply wp_bind. eapply wp_mono; [apply Hf; [by left|done]|]. cbv beta.
  intros r n' fs' ss' (-> & -> & -> & HP'). apply IH; [|done|done].
  intros b fs'' Hb. apply Hf. by right.
Qed.

(** ** Code whose steps all respect a relation

    [all_steps R m]: every single step of [m], on whatever world the other
    requests have left for it, relates the world before and after by [R]. *)

Fixpoint all_steps {E A : Type} (R : World → World → Prop) (m : ioE E A) : Prop :=
  match m with
  | Ended _ => True
  | Step f => ∀ w, R w (f w).2 ∧ all_steps R (f w).1
  end.

Section all_steps.
Context {E F A B : Type} (R : World → World → Prop).

Lemma all_steps_bind (m : ioE E A) (f : A → ioE E B) :
  all_steps R m → (∀ a, all_steps R (f a)) → all_steps R (m ≫= f).
Proof.
  intros Hm Hf. unfold mbind, io_bind. induction m as [[a|e]|g IH] using ioE_ind'; [apply Hf|done|].
  simpl in *. intros w. destruct (Hm w) as [HR Hn]. specialize (IH w). destruct (g w). simpl in *. auto.
Qed.

Lemma all_steps_io_map (g : result E A → result F B) (m : ioE E A) :
  all_steps R m → all_steps R (io_map g m).
Proof.
  intros Hm. induction m as [r|f IH] using ioE_ind'; [done|].
  simpl in *. intros w. destruct (Hm w) as [HR Hn]. specialize (IH w). destruct (f w). simpl in *. auto.
Qed.

Lemma all_steps_step {E' A' : Type} (f : World → result E' A' * World) : (∀ w, R w (f w).2) → all_steps R (io_step f).
Proof. intros HR w. specialize (HR w). by destruct (f w). Qed.

Lemma all_steps_call {C : Type} (ok : gmap path bytes → result IoError C * gmap path bytes) failed :
  (∀ w fl, R w (mkWorld (ok (files w)).2 (sessions w) fl)) →
  (∀ w f fl, R w (mkWorld (failed f (files w)) (sessions w) fl)) → all_steps R (call ok failed).
Proof.
  intros Hok Hf. unfold call. apply all_steps_step. intros w. specialize (Hok w).
  destruct (faults w) as [|[f|] fl]; [|apply Hf|]; destruct (ok (files w)); apply Hok.
Qed.

Lemma all_steps_run `{!PreOrder R} (m : ioE E A) w : all_steps R m → R w (run m w).2.
Proof.
  revert w. induction m as [r|f IH] using ioE_ind'; intros w Hm; [reflexivity|].
  simpl in *. destruct (Hm w) as [HR Hn]. specialize (IH w). destruct (f w) as [m w'].
  etransitivity; [exact HR|]. by apply IH.
Qed.
End all_steps.

(** ** Code that leaves the session table alone *)

Definition same_sessions (w w' : World) : Prop := sessions w' = sessions w.
Global Instance same_sessions_preorder : PreOrder same_sessions.
Proof. split; [done|]. intros w1 w2 w3 H12 H23. unfold same_sessions in *. congruence. Qed.

Class SessionFree {E A : Type} (m : ioE E A) : Prop := session_free_steps : all_steps same_sessions m.

Section session_free.
Context {E F A B : Type}.

Lemma session_free (m : ioE E A) w : SessionFree m → sessions (run m w).2 = sessions w.
Proof. exact (all_steps_run _ m w). Qed.

Global Instance sf_ret (a : A) : SessionFree (mret a : ioE E A).
Proof. done. Qed.
Global Instance sf_throw (e : E) : SessionFree (throw e : ioE E A).
Proof. done. Qed.
Global Instance sf_lift (r : result E A) : SessionFree (lift r).
Proof. done. Qed.
Global Instance sf_call (ok : gmap path bytes → result IoError A * gmap path bytes) failed :
  SessionFree (call ok failed).
Proof. by apply all_steps_call. Qed.
Global Instance sf_bind (m : ioE E A) (f : A → ioE E B) :
  SessionFree m → (∀ a, SessionFree (f a)) → SessionFree (m ≫= f).
Proof. apply all_steps_bind. Qed.
Global Instance sf_attempt (m : ioE E A) : SessionFree m → SessionFree (attempt (F := F) m).
Proof. apply all_steps_io_map. Qed.
Global Instance sf_ignore (m : ioE E A) : SessionFree m → SessionFree (ignore (F := F) m).
Proof. apply all_steps_io_map. Qed.
Global Instance sf_map_io_err (f : E → F) (m : ioE E A) : SessionFree m → SessionFree (map_io_err f m).
Proof. apply all_steps_io_map. Qed.

Lemma wp_session_free (m : ioE E A) n fs ss Q :
  SessionFree m → (∀ r n' fs', Q r n' fs' ss) → wp m n fs ss Q.
Proof.
  intros Hm HQ fl Hn. pose proof (session_free m (mkWorld fs ss fl) Hm) as Hs.
  destruct (run m _) as [r w]. simpl in Hs. rewrite Hs. apply HQ.
Qed.
End session_free.

(** Resolves the calls and binds; what is left are the branches. *)
Ltac session_free := repeat (intros; first [apply _ | case_match | apply sf_bind | apply sf_attempt]).

Global Instance sf_create_parent_dir p : SessionFree (create_parent_dir p).
Proof. unfold create_parent_dir. session_free. Qed.
Global Instance sf_remove_file_if_exists p : SessionFree (remove_file_if_exists p).
Proof. unfold remove_file_if_exists. session_free. Qed.
Global Instance sf_backup_existing_file p b : SessionFree (backup_existing_file p b).
Proof. unfold backup_existing_file. session_free. Qed.
Global Instance sf_remove_backup_file p b : SessionFree (remove_backup_file p b).
Proof. unfold remove_backup_file. session_free. Qed.
Global Instance sf_rollback_published_file p b had : SessionFree (rollback_published_file p b had).
Proof. unfold rollback_published_file. session_free. Qed.

(** From here on proofs go through the rules and leave the trees folded. *)
Global Opaque io_step throw lift io_map io_bind_ io_ret.
