(* ===== verification/Interleaving.v ===== *)
(** * Requests at the same time

    The server runs every request as a task of its own. A pool is a list of
    tasks over one world; the scheduler lets any of them take its next step.
    Two ways to reason about a pool: tasks with disjoint footprints do not
    notice each other ([disjoint_tasks_independent]), and tasks that pass a
    token keep it exclusive ([token_exclusive]). *)

From S2P Require Import Prelude RustStd BTree S3Error Externals Reference Types StoreModel FileSystem.
From Stdlib Require Import ZArith Lia.
Local Open Scope Z_scope.

Section pool.
Context {E A : Type}.
Implicit Types (ts : list (ioE E A)) (m : ioE E A) (w : World).

(** One step of one task. *)
Inductive pool_step : list (ioE E A) * World → list (ioE E A) * World → Prop :=
| task_step ts i f w m w' : ts !! i = Some (Step f) → f w = (m, w') → pool_step (ts, w) (<[i := m]> ts, w').

Abbreviation interleaving := (rtc pool_step).

(** The tasks in the order of a schedule; a task that is done does nothing. *)
Fixpoint schedule (order : list nat) ts w : list (ioE E A) * World :=
  match order with
  | [] => (ts, w)
  | i :: order =>
      match ts !! i with
      | Some (Step f) => let '(m, w) := f w in schedule order (<[i := m]> ts) w
      | _ => schedule order ts w
      end
  end.

Lemma schedule_interleaving order ts w : interleaving (ts, w) (schedule order ts w).
Proof.
  revert ts w. induction order as [|i order IH]; intros ts w; simpl; [done|].
  destruct (ts !! i) as [[r|f]|] eqn:Hi; [apply IH| |apply IH].
  destruct (f w) as [m w'] eqn:Hf. eapply rtc_l; [by econstructor|apply IH].
Qed.

Lemma interleaving_length ts w ts' w' : interleaving (ts, w) (ts', w') → length ts' = length ts.
Proof.
  intros Hi. remember (ts, w) as a eqn:Ha. remember (ts', w') as b eqn:Hb.
  revert ts w ts' w' Ha Hb. induction Hi as [a|a b c Hab _ IH]; intros ts w ts' w' -> Heq; [by simplify_eq|].
  inversion Hab; subst. erewrite IH; [|done..]. apply length_insert.
Qed.

(** ** Every pool comes to its end

    Whatever the scheduler does, it can take only finitely many steps, and as
    long as a task is not done it can take one. *)

Definition is_done m : bool := match m with Ended _ => true | Step _ => false end.

Lemma pool_progress ts w : Exists (λ m, is_done m = false) ts → ∃ c, pool_step (ts, w) c.
Proof.
  intros (m & [i Hi]%list_elem_of_lookup & Hm)%Exists_exists. destruct m as [r|f]; [done|].
  destruct (f w) as [m w'] eqn:Hf. eexists. by econstructor.
Qed.

(** The order behind termination: a task shrinks to what one of its steps has
    left. *)
Definition task_smaller m' m : Prop := ∃ f w, m = Step f ∧ m' = (f w).1.

Lemma task_smaller_acc m : Acc task_smaller m.
Proof.
  induction m as [r|f IH] using ioE_ind'; constructor; intros m' (g & w & Heq & ->); [done|].
  injection Heq as <-. apply IH.
Qed.

Definition pool_smaller ts' ts : Prop := ∃ i m m', ts !! i = Some m ∧ task_smaller m' m ∧ ts' = <[i := m']> ts.

Lemma pool_smaller_acc ts : Acc pool_smaller ts.
Proof.
  induction ts as [|m ts IHts]; [by constructor; intros ts' (i & m & m' & Hi & _)|].
  revert ts IHts. induction (task_smaller_acc m) as [m _ IHm]. intros ts Hts.
  induction Hts as [ts Hacc IHts]. constructor. intros ts' (i & m0 & m' & Hi & Hlt & ->).
  destruct i as [|i]; simpl in *.
  - injection Hi as ->. apply IHm; [done|]. by constructor.
  - apply IHts. by exists i, m0, m'.
Qed.

Theorem pool_terminates c : Acc (flip pool_step) c.
Proof.
  destruct c as [ts w]. revert w. induction (pool_smaller_acc ts) as [ts _ IH]. intros w.
  constructor. intros c Hc. unfold flip in Hc. inversion Hc as [ts0 i f w0 m w' Hi Hf]; subst.
  apply IH. exists i, (Step f), m. split; [done|]. split; [|done]. exists f, w. by rewrite Hf.
Qed.

(** ** One task alone *)

Inductive alone : ioE E A → World → ioE E A → World → Prop :=
| alone_refl m w : alone m w m w
| alone_step m w f w1 m' w' : alone m w (Step f) w1 → f w1 = (m', w') → alone m w m' w'.

Lemma alone_run m w m' w' : alone m w m' w' → run m w = run m' w'.
Proof. induction 1 as [|m w f w1 m' w' _ IH Hf]; [done|]. rewrite IH. simpl. by rewrite Hf. Qed.

(** ** Disjoint footprints *)

Definition agree (P : path → Prop) w1 w2 : Prop := ∀ q, P q → files w1 !! q = files w2 !! q.

(** [local P m]: as long as no call fails, every step of [m] reads and changes
    only files in [P], and leaves the session table alone. *)
Fixpoint local (P : path → Prop) m : Prop :=
  match m with
  | Ended _ => True
  | Step f =>
      (∀ w, faults w = [] →
         faults (f w).2 = [] ∧ sessions (f w).2 = sessions w ∧
         (∀ q, ¬ P q → files (f w).2 !! q = files w !! q) ∧ local P (f w).1) ∧
      (∀ w1 w2, faults w1 = [] → faults w2 = [] → agree P w1 w2 →
         (f w1).1 = (f w2).1 ∧ agree P (f w1).2 (f w2).2)
  end.

Definition disjoint_footprints (Ps : list (path → Prop)) : Prop :=
  ∀ i j P Q q, i ≠ j → Ps !! i = Some P → Ps !! j = Some Q → P q → ¬ Q q.

(** What an interleaving of local tasks has come to: each is where it would be
    alone, on the files of its footprint. *)
Definition separate (Ps : list (path → Prop)) ts w ts' w' : Prop :=
  faults w' = [] ∧ sessions w' = sessions w ∧ length ts' = length ts ∧
  (∀ i P m m', Ps !! i = Some P → ts !! i = Some m → ts' !! i = Some m' →
     ∃ w1, alone m w m' w1 ∧ faults w1 = [] ∧ agree P w' w1 ∧ local P m') ∧
  (∀ q, (∀ i P, Ps !! i = Some P → ¬ P q) → files w' !! q = files w !! q).

Lemma separate_step Ps ts w ts1 w1 ts2 w2 :
  length Ps = length ts → disjoint_footprints Ps →
  separate Ps ts w ts1 w1 → pool_step (ts1, w1) (ts2, w2) → separate Ps ts w ts2 w2.
Proof.
  intros Hlen Hdis (Hfl & Hss & Hl & Htasks & Hout) Hstep.
  inversion Hstep as [ts0 j f w0 m2 w3 Hj Hf]; subst.
  assert (j < length ts1)%nat as Hlt by (by apply lookup_lt_is_Some; eexists).
  destruct (lookup_lt_is_Some_2 Ps j) as [Q HQ]; [lia|].
  destruct (lookup_lt_is_Some_2 ts j) as [m0 Hm0]; [lia|].
  destruct (Htasks j Q m0 (Step f) HQ Hm0 Hj) as (wj & Halone & Hflj & Hag & Hloc).
  simpl in Hloc. destruct Hloc as [Hown Hsame].
  destruct (Hown w1 Hfl) as (Hfl' & Hss' & Hout' & Hloc'). destruct (Hown wj Hflj) as (Hflj' & _ & _ & _).
  destruct (Hsame w1 wj Hfl Hflj Hag) as [Hm Hag'].
  rewrite Hf in Hfl', Hss', Hout', Hloc', Hm, Hag'. simpl in *. subst m2.
  split_and!; [done|congruence|by rewrite length_insert| |].
  - intros i P m m' HP Hi. destruct (decide (i = j)) as [->|Hne].
    + rewrite list_lookup_insert_eq by done. intros [= <-]. simplify_eq.
      exists (f wj).2. split_and!; [|done..]. eapply alone_step; [done|]. by destruct (f wj).
    + rewrite list_lookup_insert_ne by done. intros Hi'.
      destruct (Htasks i P m m' HP Hi Hi') as (wi & Ha & Hfi & Hagi & Hli). exists wi. split_and!; [done..| |done].
      intros q Hq. rewrite Hout'; [by apply Hagi|]. by apply (Hdis i j P Q q).
  - intros q Hq. rewrite Hout'; [by apply Hout|]. by apply (Hq j).
Qed.

(** Tasks with disjoint footprints are independent: in every interleaving, each
    has come as far as it would have come alone, and has done to the files of
    its footprint what it would have done. *)
Theorem disjoint_tasks_independent Ps ts w ts' w' :
  Forall2 local Ps ts → disjoint_footprints Ps → faults w = [] →
  interleaving (ts, w) (ts', w') → separate Ps ts w ts' w'.
Proof.
  intros Hloc Hdis Hfl Hi. pose proof (Forall2_length _ _ _ Hloc) as Hlen.
  assert (separate Ps ts w ts w) as Hsep.
  { split_and!; [done..| |done]. intros i P m m' HP Hm Hm'. simplify_eq.
    exists w. split_and!; [constructor|done|by intros q|]. by eapply Forall2_lookup_lr. }
  assert (∀ a b, rtc pool_step a b → separate Ps ts w a.1 a.2 → separate Ps ts w b.1 b.2) as Hrtc.
  { intros a0 b0 H0. induction H0 as [c|c d e Hcd _ IH]; [done|]. intros Hs. apply IH.
    destruct c as [c1 c2], d as [d1 d2]. by eapply separate_step. }
  exact (Hrtc (ts, w) (ts', w') Hi Hsep).
Qed.
End pool.
Abbreviation interleaving := (rtc pool_step).

(** What a computation may return, whatever happens around it. *)
Fixpoint returns {E A} (Q : A → Prop) (m : ioE E A) : Prop :=
  match m with
  | Ended (Ok a) => Q a
  | Ended (Err _) => True
  | Step f => ∀ w, returns Q (f w).1
  end.

(** ** Rules for [local] *)

#[local] Transparent io_step throw lift io_map io_bind_ io_ret.

Section local_rules.
Context {E F A B : Type} (P : path → Prop).

Lemma local_bind_returns (Q : A → Prop) (m : ioE E A) (f : A → ioE E B) :
  local P m → returns Q m → (∀ a, Q a → local P (f a)) → local P (m ≫= f).
Proof.
  intros Hm Hr Hf. unfold mbind, io_bind. induction m as [[a|e]|g IH] using ioE_ind'; [by apply Hf|done|].
  simpl in *. destruct Hm as [Hown Hsame]. split.
  - intros w Hw. destruct (Hown w Hw) as (? & ? & ? & Hl). specialize (IH w Hl (Hr w)).
    destruct (g w). by split_and!.
  - intros w1 w2 H1 H2 Hag. destruct (Hsame w1 w2 H1 H2 Hag) as [Heq Hag'].
    destruct (g w1), (g w2). simpl in *. by subst.
Qed.

Lemma local_bind (m : ioE E A) (f : A → ioE E B) :
  local P m → (∀ a, local P (f a)) → local P (m ≫= f).
Proof.
  intros Hm Hf. apply local_bind_returns with (λ _, True); [done| |auto]. clear Hm Hf.
  induction m as [[a|e]|g IH] using ioE_ind'; simpl; auto.
Qed.

Lemma local_io_map (g : result E A → result F B) (m : ioE E A) : local P m → local P (io_map g m).
Proof.
  intros Hm. induction m as [r|f IH] using ioE_ind'; [done|].
  simpl in *. destruct Hm as [Hown Hsame]. split.
  - intros w Hw. destruct (Hown w Hw) as (? & ? & ? & Hl). specialize (IH w Hl).
    destruct (f w). by split_and!.
  - intros w1 w2 H1 H2 Hag. destruct (Hsame w1 w2 H1 H2 Hag) as [Heq Hag'].
    destruct (f w1), (f w2). simpl in *. by subst.
Qed.

Lemma returns_then (Q : B → Prop) (m : ioE E A) (f : A → ioE E B) :
  (∀ a, returns Q (f a)) → returns Q (m ≫= f).
Proof.
  intros Hf. unfold mbind, io_bind. induction m as [[a|e]|g IH] using ioE_ind'; [apply Hf|done|].
  simpl. intros w. specialize (IH w). by destruct (g w).
Qed.

Lemma returns_map_err (Q : A → Prop) (g : E → F) (m : ioE E A) : returns Q m → returns Q (map_io_err g m).
Proof.
  unfold map_io_err. induction m as [[a|e]|f IH] using ioE_ind'; [done..|].
  simpl. intros Hm w. specialize (IH w (Hm w)). by destruct (f w).
Qed.

Lemma returns_ret (Q : A → Prop) a : Q a → returns Q (mret a : ioE E A).
Proof. done. Qed.
Lemma returns_throw (Q : A → Prop) e : returns Q (throw e : ioE E A).
Proof. done. Qed.

(** A check that fails ends the task. *)
Lemma local_check (r : result E A) (f : A → ioE E B) :
  (∀ a, r = Ok a → local P (f a)) → local P (lift r ≫= f).
Proof. destruct r as [a|e]; [|done]. intros Hf. by apply Hf. Qed.
End local_rules.

(** Calls on files of the footprint. *)
Section local_calls.
Variable P : path → Prop.

Lemma local_call {A} (ok : gmap path bytes → result IoError A * gmap path bytes) failed :
  (∀ fs q, ¬ P q → (ok fs).2 !! q = fs !! q) →
  (∀ fs1 fs2, (∀ q, P q → fs1 !! q = fs2 !! q) →
     (ok fs1).1 = (ok fs2).1 ∧ ∀ q, P q → (ok fs1).2 !! q = (ok fs2).2 !! q) →
  local P (call ok failed).
Proof.
  intros Hout Hsame. simpl. split.
  - intros w ->. specialize (Hout (files w)). by destruct (ok (files w)).
  - intros w1 w2 -> -> Hag. destruct (Hsame (files w1) (files w2) Hag) as [Heq Hag'].
    destruct (ok (files w1)), (ok (files w2)). simpl in *. by subst.
Qed.

Lemma local_lift {E A} (r : result E A) : local P (lift r).
Proof. done. Qed.

(** Both halves of a call's locality, by cases on the paths. *)
Ltac local_call :=
  apply local_call; simpl; [intros fs q Hq|intros fs1 fs2 Hag];
  repeat match goal with
  | Hag : ∀ q, P q → _ !! q = _, Hp : P ?p |- context [?fs !! ?p] => progress rewrite (Hag p Hp)
  end;
  repeat case_match; simplify_eq/=; try (split; [done|]; intros q Hq);
  repeat match goal with
  | |- context [<[?p := _]> _ !! ?q] =>
      destruct (decide (p = q)) as [->|]; [done || rewrite !lookup_insert_eq|rewrite !lookup_insert_ne by done]
  | |- context [delete ?p _ !! ?q] =>
      destruct (decide (p = q)) as [->|]; [done || rewrite !lookup_delete_eq|rewrite !lookup_delete_ne by done]
  end; auto.

Lemma local_create p : P p → local P (fs_create p).
Proof. intros Hp. local_call. Qed.
Lemma local_write p c : P p → local P (fs_write p c).
Proof. intros Hp. local_call. Qed.
Lemma local_append p c : P p → local P (fs_append p c).
Proof. intros Hp. local_call. Qed.
Lemma local_read p : P p → local P (fs_read p).
Proof. intros Hp. local_call. Qed.
Lemma local_flush : local P fs_flush.
Proof. local_call. Qed.
Lemma local_create_dir_all p : local P (fs_create_dir_all p).
Proof. local_call. Qed.
Lemma local_rename a b : P a → P b → local P (fs_rename a b).
Proof. intros Ha Hb. local_call. Qed.
Lemma local_hard_link a b : P a → P b → local P (fs_hard_link a b).
Proof. intros Ha Hb. local_call. Qed.
Lemma local_remove_file p : P p → local P (fs_remove_file p).
Proof. intros Hp. local_call. Qed.

Lemma is_dir_spec fs p : is_dir fs p = true ↔ ∃ q, strictly_under p q = true ∧ is_Some (fs !! q).
Proof.
  unfold is_dir. rewrite existsb_exists. split.
  - intros (q & Hq & Hu). apply list_elem_of_In, list_elem_of_fmap in Hq as ([q' c] & -> & Hq).
    exists q'. split; [done|]. exists c. by apply elem_of_map_to_list.
  - intros (q & Hu & [c Hc]). exists q. split; [|done]. apply list_elem_of_In, list_elem_of_fmap.
    exists (q, c). split; [done|]. by apply elem_of_map_to_list.
Qed.

(** [fs::metadata] looks at the files below the path, too. *)
Lemma local_metadata p : P p → (∀ q, strictly_under p q = true → P q) → local P (fs_metadata p).
Proof.
  intros Hp Hu. apply local_call; [done|]. intros fs1 fs2 Hag. simpl. split; [|done].
  rewrite (Hag p Hp). replace (is_dir fs1 p) with (is_dir fs2 p); [done|].
  apply eq_true_iff_eq. rewrite !is_dir_spec.
  split; intros (q & Hq & Hs); exists q; (split; [done|]); rewrite ?(Hag q (Hu q Hq)) in *; done.
Qed.
End local_calls.

(** Resolves the binds, calls and branches; what is left are the paths. *)
Create HintDb locality.
#[export] Hint Resolve local_lift local_create local_write local_append local_read local_flush
  local_create_dir_all local_rename local_hard_link local_remove_file local_metadata : locality.
#[export] Hint Extern 1 (local _ (mret _)) => exact I : locality.
#[export] Hint Extern 1 (local _ (throw _)) => exact I : locality.
Ltac local_steps :=
  repeat (intros; first
    [ solve [auto with locality] | apply local_bind | apply local_io_map
    | match goal with |- local _ (match ?x with _ => _ end) => destruct x end ]).

Section fs_util.
Variable P : path → Prop.

Lemma local_create_parent_dir p : local P (create_parent_dir p).
Proof. unfold create_parent_dir. local_steps. Qed.
Lemma local_remove_file_if_exists p : P p → local P (remove_file_if_exists p).
Proof. intros Hp. unfold remove_file_if_exists, attempt. local_steps. Qed.
Lemma local_backup_existing_file p b : P p → P b → local P (backup_existing_file p b).
Proof. intros Hp Hb. unfold backup_existing_file, attempt. local_steps. Qed.
Lemma local_remove_backup_file p had : P p → local P (remove_backup_file p had).
Proof. intros Hp. unfold remove_backup_file. destruct had; [by apply local_remove_file_if_exists|done]. Qed.
Lemma local_rollback_published_file p b had : P p → P b → local P (rollback_published_file p b had).
Proof.
  intros Hp Hb. unfold rollback_published_file, ignore. apply local_bind.
  - by apply local_io_map, local_remove_file_if_exists.
  - intros _. destruct had; [|done]. by apply local_io_map, local_rename.
Qed.
End fs_util.
#[export] Hint Resolve local_create_parent_dir local_remove_file_if_exists local_backup_existing_file
  local_remove_backup_file local_rollback_published_file : locality.

(** ** Tokens

    [open] is a property of the world that is the token while nobody keeps it.
    A step takes the token when it finds the world open and closes it; nobody
    may open the world but the holder, who gives the token back. *)
Section token.
Variable open : World → bool.

Definition may (b b' before after : bool) : Prop :=
  match b, b' with
  | false, true => before = true ∧ after = false
  | true, false => True
  | _, _ => after = true → before = true
  end.

(** [keeps Q b m]: from a state in which [m] keeps the token or not ([b]), every
    step of [m] keeps the rules, and [m] ends with a result and in a state that
    [Q] allows. *)
Fixpoint keeps {E A} (Q : bool → result E A → Prop) (b : bool) (m : ioE E A) : Prop :=
  match m with
  | Ended r => Q b r
  | Step f => ∀ w, ∃ b', may b b' (open w) (open (f w).2) ∧ keeps Q b' (f w).1
  end.

(** At most one task of a pool keeps the token, and then the world is not open. *)
Definition token_inv {E A} (Qs : list (bool → result E A → Prop)) (ts : list (ioE E A)) (w : World) : Prop :=
  ∃ bs, length bs = length ts ∧
    (∀ i Q b m, Qs !! i = Some Q → bs !! i = Some b → ts !! i = Some m → keeps Q b m) ∧
    (∀ i j, bs !! i = Some true → bs !! j = Some true → i = j) ∧
    (∀ i, bs !! i = Some true → open w = false).

Lemma token_inv_step {E A} Qs (ts : list (ioE E A)) w ts' w' :
  length Qs = length ts → token_inv Qs ts w → pool_step (ts, w) (ts', w') → token_inv Qs ts' w'.
Proof.
  intros Hlen (bs & Hl & Hh & Hone & Hclosed) Hstep. inversion Hstep as [ts0 j f w0 m w1 Hj Hf]; subst.
  assert (j < length ts)%nat as Hlt by (by apply lookup_lt_is_Some; eexists).
  destruct (lookup_lt_is_Some_2 Qs j) as [Q HQ]; [lia|]. destruct (lookup_lt_is_Some_2 bs j) as [b Hb]; [lia|].
  destruct (Hh j Q b (Step f) HQ Hb Hj w) as (b' & Hmay & Hholds). rewrite Hf in Hmay, Hholds. simpl in *.
  assert (∀ i, <[j := b']> bs !! i = Some true → (i = j ∧ b' = true) ∨ (i ≠ j ∧ bs !! i = Some true)) as Hbs.
  { intros i. destruct (decide (i = j)) as [->|Hne].
    - rewrite list_lookup_insert_eq by lia. intros [= ->]. by left.
    - rewrite list_lookup_insert_ne by done. by right. }
  exists (<[j := b']> bs). rewrite !length_insert. split_and!; [done| | |].
  - intros i Q' b0 m' HQ'. destruct (decide (i = j)) as [->|Hne].
    + rewrite !list_lookup_insert_eq by lia. intros [= <-] [= <-]. by simplify_eq.
    + rewrite !list_lookup_insert_ne by done. by apply Hh.
  - intros i k [[-> Hbi]|[Hi Hbi]]%Hbs [[-> Hbk]|[Hk Hbk]]%Hbs; [done| | |by apply Hone].
    + subst b'. destruct b; [by apply Hone|]. destruct Hmay as [Ho _]. by rewrite (Hclosed k Hbk) in Ho.
    + subst b'. destruct b; [by apply Hone|]. destruct Hmay as [Ho _]. by rewrite (Hclosed i Hbi) in Ho.
  - intros i [[-> ->]|[Hi Hbi]]%Hbs.
    + destruct b; [|by destruct Hmay]. apply not_true_is_false. intros Ho%Hmay. by rewrite (Hclosed j Hb) in Ho.
    + apply not_true_is_false. intros Ho. pose proof (Hclosed i Hbi) as Hc.
      destruct b; [by destruct Hi; apply Hone|].
      destruct b'; [by destruct Hmay as [Hw _]; rewrite Hc in Hw|]. apply Hmay in Ho. by rewrite Hc in Ho.
Qed.

(** Hence the holders of a pool exclude each other, in every interleaving. *)
Theorem token_exclusive {E A} Qs (ts : list (ioE E A)) w ts' w' :
  Forall2 (λ Q m, keeps Q false m) Qs ts → interleaving (ts, w) (ts', w') → token_inv Qs ts' w'.
Proof.
  intros Hts Hi. pose proof (Forall2_length _ _ _ Hts) as Hlen.
  assert (token_inv Qs ts w) as Hinv.
  { exists (replicate (length ts) false). split_and!; [by rewrite length_replicate| | |].
    - intros i Q b m HQ [-> _]%lookup_replicate Hm. by eapply Forall2_lookup_lr in Hts.
    - intros i j [? _]%lookup_replicate. done.
    - intros i [? _]%lookup_replicate. done. }
  assert (∀ a b, rtc pool_step a b → length Qs = length a.1 → token_inv Qs a.1 a.2 → token_inv Qs b.1 b.2) as Hrtc.
  { intros a b Hab. induction Hab as [a|a c d Hac _ IH]; [done|]. intros Hla Ha. destruct a, c. apply IH.
    - inversion Hac; subst. simpl. by rewrite length_insert.
    - by eapply token_inv_step. }
  exact (Hrtc (ts, w) (ts', w') Hi Hlen Hinv).
Qed.

(** *** Rules *)
Section token_rules.
Context {E F A B : Type}.

Lemma token_ret (Q : bool → result E A → Prop) b a : Q b (Ok a) → keeps Q b (mret a : ioE E A).
Proof. done. Qed.
Lemma token_throw (Q : bool → result E A → Prop) b e : Q b (Err e) → keeps Q b (throw e : ioE E A).
Proof. done. Qed.

Lemma token_bind (Q : bool → result E B → Prop) b (m : ioE E A) (f : A → ioE E B) :
  keeps (λ b r, match r with Ok a => keeps Q b (f a) | Err e => Q b (Err e) end) b m → keeps Q b (m ≫= f).
Proof.
  unfold mbind, io_bind. revert b. induction m as [[a|e]|g IH] using ioE_ind'; intros b Hm; [done..|].
  simpl in *. intros w. destruct (Hm w) as (b' & Hmay & Hh). exists b'. specialize (IH w b').
  destruct (g w). by split; [|apply IH].
Qed.

Lemma token_io_map (Q : bool → result F B → Prop) (g : result E A → result F B) b (m : ioE E A) :
  keeps (λ b r, Q b (g r)) b m → keeps Q b (io_map g m).
Proof.
  revert b. induction m as [r|f IH] using ioE_ind'; intros b Hm; [done|].
  simpl in *. intros w. destruct (Hm w) as (b' & Hmay & Hh). exists b'. specialize (IH w b').
  destruct (f w). by split; [|apply IH].
Qed.

Lemma token_mono (Q Q' : bool → result E A → Prop) b (m : ioE E A) :
  keeps Q b m → (∀ b r, Q b r → Q' b r) → keeps Q' b m.
Proof.
  intros Hm HQ. revert b Hm. induction m as [r|f IH] using ioE_ind'; intros b Hm; [by apply HQ|].
  simpl in *. intros w. destruct (Hm w) as (b' & Hmay & Hh). exists b'. auto.
Qed.

Lemma token_step (Q : bool → result E A → Prop) b (f : World → result E A * World) :
  (∀ w, ∃ b', may b b' (open w) (open (f w).2) ∧ Q b' (f w).1) → keeps Q b (io_step f).
Proof. intros Hf w. specialize (Hf w). by destruct (f w). Qed.

Lemma token_locked (Q : bool → result E A → Prop) b (l m : ioE E A) :
  l = locked m →
  (∀ w, ∃ b', may b b' (open w) (open (run l w).2) ∧ Q b' (run l w).1) → keeps Q b l.
Proof. intros -> Hl. apply token_step. intros w. specialize (Hl w). simpl in Hl. by destruct (run m w). Qed.

(** Code that never opens the world, by a holder or not. *)
Lemma token_quiet (Q : bool → result E A → Prop) b (m : ioE E A) :
  all_steps (λ w w', open w' = true → open w = true) m → (∀ r, Q b r) → keeps Q b m.
Proof.
  intros Hm HQ. induction m as [r|f IH] using ioE_ind'; [apply HQ|].
  simpl in *. intros w. destruct (Hm w) as [Hw Hn]. exists b. split; [by destruct b|]. by apply IH.
Qed.
End token_rules.
End token.
