(* ===== verification/ObjectStore.v ===== *)
(** * The object store (storage/object.rs, storage/temp.rs)

    Objects are a pair of files named by the SHA-256 digest of bucket and key:
    the contents and the JSON metadata. This file models staging, publication
    with rollback, lookup, deletion and the clean-up at start-up, over the file
    system of [FileSystem.v]. *)

From S2P Require Import Prelude RustStd BTree S3Error Externals Reference Types StoreModel.
From S2P Require Import FileSystem.
From Stdlib Require Import ZArith Lia.
Local Open Scope Z_scope.

(** A temporary object, being written or fully written: its id and its file.
    The clean-up guard of the source is [drop_guard] below. *)
(* @src src/src/storage/temp.rs 62-66 StagedObject *)
Record StagedObject `{UuidLib} := mkStaged { so_temp_id : Uuid; so_path : path }.
Arguments mkStaged {_} so_temp_id so_path.

(** A clean-up guard that is still armed when an error leaves the function: its
    file is removed, whatever comes of it. *)
(* @src src/src/storage/temp.rs 148-177 TempFileCleanup *)
Definition drop_guard {E A : Type} (guarded : path) (m : ioE E A) : ioE E A :=
  outcome ← attempt m;
  match outcome with
  | Ok a => mret a
  | Err e => _ ← ignore (remove_file_if_exists guarded); throw e
  end.

Section store.
Context `{CodecLib} `{CryptoLib} `{UuidLib} `{JsonLib}.

(* @src src/src/storage/object.rs 315-321 object_digest *)
Definition object_digest (bucket : BucketName) (key : ObjectKey) : str :=
  hex_encode (sh_finalize Sha256
    (sh_update Sha256 (sh_update Sha256 (sh_update Sha256 (sh_new Sha256)
      (bucket_str bucket)) ["000"%char]) (key_str key))).

(* @src src/src/storage/object.rs 206-209 FileObjectStore::object_path *)
Definition data_file (digest : str) : path := ["objects"; take 2 digest; digest ++ ".data"].
(* @src src/src/storage/object.rs 214-217 FileObjectStore::metadata_path *)
Definition json_file (digest : str) : path := ["metadata"; take 2 digest; digest ++ ".json"].

(* @src src/src/storage/object.rs 204-210 FileObjectStore::object_path *)
Definition object_path (bucket : BucketName) (key : ObjectKey) : path :=
  data_file (object_digest bucket key).

(* @src src/src/storage/object.rs 212-218 FileObjectStore::metadata_path *)
Definition metadata_path (bucket : BucketName) (key : ObjectKey) : path :=
  json_file (object_digest bucket key).

Definition tmp_file (temp_id : Uuid) (suffix : str) : path := ["tmp"; uuid_to_string temp_id ++ suffix].

(** [fresh] is the result of [Uuid::new_v4]. *)
(* @src src/src/storage/object.rs 48-65 FileObjectStore::create_temp_object *)
Definition create_temp_object (fresh : Uuid) : io StagedObject :=
  let p := tmp_file fresh ".part" in
  _ ← fs_create p;
  mret (mkStaged fresh p).

(** The bytes of the body, written through the buffered writer and flushed. *)
Definition write_temp (temp : StagedObject) (content : bytes) : io () :=
  fs_write (so_path temp) content.

(* @src src/src/storage/temp.rs 95-101 StagedObject::discard *)
Definition discard (staged : StagedObject) : io () := remove_file_if_exists (so_path staged).

(* @src src/src/storage/temp.rs 75-80 StagedObject::replacement_path *)
Definition replacement_path (staged : StagedObject) (replacement_id : Uuid) : path :=
  removelast (so_path staged) ++ [uuid_to_string replacement_id ++ ".replace"].

(* @src src/src/storage/temp.rs 83-92 StagedObject::replace_with *)
Definition replace_with (staged : StagedObject) (replacement : path) : io () :=
  is_file ← fs_metadata replacement;
  if negb is_file then throw (InvalidPath replacement)
  else
    _ ← remove_file_if_exists (so_path staged);
    fs_rename replacement (so_path staged).

(** The body of the publication, up to the first error. *)
(* @src src/src/storage/object.rs 107-127 FileObjectStore::commit_staged_object *)
Definition publish (temp_path object_path metadata_path metadata_tmp object_backup
    metadata_backup : path) (metadata : ObjectMetadata) : io () :=
  _ ← create_parent_dir object_path;
  _ ← create_parent_dir metadata_path;
  json ← (match json_of_object metadata with Some j => mret j | None => throw Json end);
  _ ← fs_write metadata_tmp json;
  had_object ← backup_existing_file object_path object_backup;
  had_metadata ← backup_existing_file metadata_path metadata_backup;
  _ ← fs_rename temp_path object_path;
  renamed ← attempt (fs_rename metadata_tmp metadata_path);
  match renamed with
  | Err error =>
      _ ← rollback_published_file object_path object_backup had_object;
      _ ← rollback_published_file metadata_path metadata_backup had_metadata;
      throw error
  | Ok _ =>
      _ ← remove_backup_file object_backup had_object;
      remove_backup_file metadata_backup had_metadata
  end.

(* @src src/src/storage/object.rs 85-137 FileObjectStore::commit_staged_object *)
Definition commit_staged_object (staged : StagedObject) (metadata : ObjectMetadata) : io () :=
  let temp_path := so_path staged in
  let metadata_tmp := tmp_file (so_temp_id staged) ".metadata.json" in
  let object_backup := tmp_file (so_temp_id staged) ".object.rollback.tmp" in
  let metadata_backup := tmp_file (so_temp_id staged) ".metadata.rollback.tmp" in
  result ← attempt (publish temp_path
    (object_path (om_bucket metadata) (om_key metadata))
    (metadata_path (om_bucket metadata) (om_key metadata))
    metadata_tmp object_backup metadata_backup metadata);
  match result with
  | Ok _ => mret ()
  | Err error =>
      _ ← ignore (remove_file_if_exists temp_path);
      _ ← ignore (remove_file_if_exists metadata_tmp);
      _ ← ignore (remove_file_if_exists object_backup);
      _ ← ignore (remove_file_if_exists metadata_backup);
      throw error
  end.

(* @src src/src/storage/object.rs 143-165 FileObjectStore::head_object *)
Definition head_object (bucket : BucketName) (key : ObjectKey) : io (option ObjectMetadata) :=
  read ← attempt (fs_read (metadata_path bucket key));
  match read with
  | Ok bytes =>
      match object_of_json bytes with
      | None => throw Json
      | Some metadata =>
          object ← attempt (fs_metadata (object_path bucket key));
          match object with
          | Ok true => mret (Some metadata)
          | Ok false => mret None
          | Err (Io NotFound) => mret None
          | Err e => throw e
          end
      end
  | Err (Io NotFound) => mret None
  | Err e => throw e
  end.

(** The opened file is its contents at the time of the call. *)
(* @src src/src/storage/object.rs 171-184 FileObjectStore::open_object *)
Definition open_object (bucket : BucketName) (key : ObjectKey) : io (option (ObjectMetadata * bytes)) :=
  found ← head_object bucket key;
  match found with
  | None => mret None
  | Some metadata =>
      opened ← attempt (fs_read (object_path bucket key));
      match opened with
      | Ok file => mret (Some (metadata, file))
      | Err (Io NotFound) => mret None
      | Err e => throw e
      end
  end.

(* @src src/src/storage/object.rs 189-202 FileObjectStore::delete_object *)
Definition delete_object (bucket : BucketName) (key : ObjectKey) : io () :=
  removed ← attempt (fs_remove_file (metadata_path bucket key));
  match removed with
  | Ok _ => remove_file_if_exists (object_path bucket key)
  | Err (Io NotFound) => mret ()
  | Err e => throw e
  end.

(** ** Start-up *)

(* @src src/src/storage/object.rs 220-228 FileObjectStore::cleanup_stale_temp_files *)
Definition cleanup_stale_temp_files : io () :=
  entries ← fs_read_dir ["tmp"];
  io_for (λ '(name, is_file),
    if (is_file : bool) then remove_file_if_exists ["tmp"; name] else mret ()) entries.

(* @src src/src/storage/object.rs 250-257 FileObjectStore::cleanup_orphaned_object_files *)
Definition digest_file (top suffix digest : str) : path :=
  if 2 <=? len digest then [top; take 2 digest; digest ++ suffix] else [top; digest ++ suffix].

(** One file of [top/prefix]: it is removed when its counterpart is missing. *)
(* @src src/src/storage/object.rs 239-267 FileObjectStore::cleanup_orphaned_object_files *)
Definition cleanup_orphan (top suffix other other_suffix prefix : str) (entry : str * bool) : io () :=
  let '(name, is_file) := entry in
  if negb is_file then mret ()
  else match from_utf8 name with
  | None => mret ()
  | Some file_name =>
      match strip_suffix suffix file_name with
      | None => mret ()
      | Some digest =>
          counterpart ← attempt (fs_metadata (digest_file other other_suffix digest));
          match counterpart with
          | Ok true => mret ()
          | Ok false => remove_file_if_exists [top; prefix; name]
          | Err (Io NotFound) => remove_file_if_exists [top; prefix; name]
          | Err e => throw e
          end
      end
  end.

(* @src src/src/storage/object.rs 231-269 FileObjectStore::cleanup_orphaned_object_files *)
Definition cleanup_orphans (top suffix other other_suffix : str) : io () :=
  prefixes ← fs_read_dir [top];
  io_for (λ '(prefix, is_file),
    if (is_file : bool) then mret ()
    else
      entries ← fs_read_dir [top; prefix];
      io_for (cleanup_orphan top suffix other other_suffix prefix) entries) prefixes.

(* @src src/src/storage/object.rs 230-270 FileObjectStore::cleanup_orphaned_object_files *)
Definition cleanup_orphaned_object_files : io () :=
  cleanup_orphans "objects" ".data" "metadata" ".json".

(* @src src/src/storage/object.rs 272-312 FileObjectStore::cleanup_orphaned_metadata_files *)
Definition cleanup_orphaned_metadata_files : io () :=
  cleanup_orphans "metadata" ".json" "objects" ".data".

(* @src src/src/storage/object.rs 31-42 FileObjectStore::new *)
Definition new_object_store : io () :=
  _ ← fs_create_dir_all ["objects"];
  _ ← fs_create_dir_all ["metadata"];
  _ ← fs_create_dir_all ["tmp"];
  _ ← cleanup_stale_temp_files;
  _ ← cleanup_orphaned_object_files;
  cleanup_orphaned_metadata_files.
End store.
