(* ===== verification/RelyGuarantee.v ===== *)
(** * Tasks that share files

    A way to reason about a pool whose tasks do touch the same files. Each task
    owns some files, which no other task changes; the other files they work on
    are shared, and all of them keep what is in a shared file within [Good].
    A task relies on both: what it finds in its own files is what it has left
    there, and what it finds in a shared file is [Good]. *)

From S2P Require Import Prelude RustStd BTree S3Error Externals Reference Types StoreModel FileSystem Interleaving.
From S2P Require Import ObjectStore.
From Stdlib Require Import ZArith Lia.
Local Open Scope Z_scope.

#[local] Transparent io_step throw lift io_map io_bind_ io_ret.

Section shared.
Variables (shared : path → Prop) (Good : path → bytes → Prop).
Implicit Types (own : path → Prop) (fs v : gmap path bytes) (w : World).

Definition good fs : Prop := ∀ p c, shared p → fs !! p = Some c → Good p c.

(** The view of a task on its own files. *)
Definition sees own fs v : Prop := ∀ p, own p → fs !! p = v !! p.

(** From the view [v], every step of [m] keeps the rules, whatever the other
    tasks and the scheduled faults do; and [m] ends with a result and a view
    that satisfy [Q]. *)
Fixpoint follows {E A} own (m : ioE E A) v (Q : result E A → gmap path bytes → Prop) : Prop :=
  match m with
  | Ended r => Q r v
  | Step f => ∀ w, good (files w) → sees own (files w) v →
      good (files (f w).2) ∧
      (∀ p, ¬ own p → ¬ shared p → files (f w).2 !! p = files w !! p) ∧
      ∃ v', sees own (files (f w).2) v' ∧ follows own (f w).1 v' Q
  end.

(** What counts is which files are owned. *)
Lemma follows_own {E A} own own' (m : ioE E A) v Q :
  (∀ p, own p ↔ own' p) → follows own m v Q → follows own' m v Q.
Proof.
  intros Hown. revert v. induction m as [r|f IH] using ioE_ind'; intros v Hm; [done|].
  simpl in *. intros w Hg Hv. destruct (Hm w Hg) as (Hg' & Hframe & v' & Hv' & Hm').
  { intros p Hp. by apply Hv, Hown. }
  split_and!; [done|intros p Hp; apply Hframe; by rewrite Hown|]. exists v'. split; [|by apply IH].
  intros p Hp. by apply Hv', Hown.
Qed.

(** ** Pools *)

Definition apart (owns : nat → path → Prop) : Prop :=
  (∀ i j p, i ≠ j → owns i p → ¬ owns j p) ∧ (∀ i p, owns i p → ¬ shared p).

Definition pool_follows {E A} (owns : nat → path → Prop) (Qs : nat → result E A → gmap path bytes → Prop)
    (ts : list (ioE E A)) w : Prop :=
  good (files w) ∧ ∀ i m, ts !! i = Some m → ∃ v, sees (owns i) (files w) v ∧ follows (owns i) m v (Qs i).

Lemma pool_follows_step {E A} owns Qs (ts : list (ioE E A)) w ts' w' :
  apart owns → pool_follows owns Qs ts w → pool_step (ts, w) (ts', w') → pool_follows owns Qs ts' w'.
Proof.
  intros [Hdis Hsh] [Hg Hts] Hstep. inversion Hstep as [ts0 j f w0 m w1 Hj Hf]; subst.
  destruct (Hts j (Step f) Hj) as (v & Hv & Hm). simpl in Hm.
  destruct (Hm w Hg Hv) as (Hg' & Hframe & v' & Hv' & Hm'). rewrite Hf in Hg', Hframe, Hv', Hm'. simpl in *.
  split; [done|]. intros i m0. destruct (decide (i = j)) as [->|Hne].
  - rewrite list_lookup_insert_eq by (by apply lookup_lt_is_Some; eexists). intros [= <-]. by exists v'.
  - rewrite list_lookup_insert_ne by done. intros Hi. destruct (Hts i m0 Hi) as (vi & Hvi & Hmi).
    exists vi. split; [|done]. intros p Hp. rewrite Hframe; [by apply Hvi| |by eapply Hsh].
    by eapply Hdis.
Qed.

(** In every interleaving the shared files are [Good], and every task that has
    ended has come to what it promised. *)
Theorem followed {E A} owns Qs (ts : list (ioE E A)) w ts' w' :
  apart owns → good (files w) → (∀ i m v, ts !! i = Some m → follows (owns i) m v (Qs i)) →
  interleaving (ts, w) (ts', w') →
  good (files w') ∧ ∀ i r, ts' !! i = Some (Ended r) → ∃ v, sees (owns i) (files w') v ∧ Qs i r v.
Proof.
  intros Hap Hg Hts Hi.
  assert (∀ a b, rtc pool_step a b → pool_follows owns Qs a.1 a.2 → pool_follows owns Qs b.1 b.2) as Hrtc.
  { intros a b Hab. induction Hab as [a|a c d Hac _ IH]; [done|]. intros Ha. apply IH. destruct a, c.
    by eapply pool_follows_step. }
  destruct (Hrtc _ _ Hi) as [Hg' Hts'].
  - split; [done|]. intros i m Hm. exists (files w). by split; [|apply Hts].
  - split; [done|]. intros i r Hr. exact (Hts' i _ Hr).
Qed.

(** ** Rules *)
Section rules.
Context {E F A B : Type} (own : path → Prop).
Hypothesis own_private : ∀ p, own p → ¬ shared p.

Lemma f_ret (a : A) v (Q : result E A → gmap path bytes → Prop) : Q (Ok a) v → follows own (mret a) v Q.
Proof. done. Qed.
Lemma f_lift (r : result E A) v (Q : result E A → gmap path bytes → Prop) : Q r v → follows own (lift r) v Q.
Proof. done. Qed.
Lemma f_throw (e : E) v (Q : result E A → gmap path bytes → Prop) : Q (Err e) v → follows own (throw e) v Q.
Proof. done. Qed.

Lemma f_bind (m : ioE E A) (f : A → ioE E B) v Q :
  follows own m v (λ r v, match r with Ok a => follows own (f a) v Q | Err e => Q (Err e) v end) →
  follows own (m ≫= f) v Q.
Proof.
  unfold mbind, io_bind. revert v. induction m as [[a|e]|g IH] using ioE_ind'; intros v Hm; [done..|].
  simpl in *. intros w Hg Hv. destruct (Hm w Hg Hv) as (Hg' & Hframe & v' & Hv' & Hm').
  specialize (IH w v' Hm'). destruct (g w). simpl in *. split_and!; [done..|]. by exists v'.
Qed.

Lemma f_io_map (g : result E A → result F B) (m : ioE E A) v (Q : result F B → gmap path bytes → Prop) :
  follows own m v (λ r, Q (g r)) → follows own (io_map g m) v Q.
Proof.
  revert v. induction m as [r|f IH] using ioE_ind'; intros v Hm; [done|].
  simpl in *. intros w Hg Hv. destruct (Hm w Hg Hv) as (Hg' & Hframe & v' & Hv' & Hm').
  specialize (IH w v' Hm'). destruct (f w). simpl in *. split_and!; [done..|]. by exists v'.
Qed.

Lemma f_mono (m : ioE E A) v (Q Q' : result E A → gmap path bytes → Prop) :
  follows own m v Q → (∀ r v, Q r v → Q' r v) → follows own m v Q'.
Proof.
  intros Hm HQ. revert v Hm. induction m as [r|f IH] using ioE_ind'; intros v Hm; [by apply HQ|].
  simpl in *. intros w Hg Hv. destruct (Hm w Hg Hv) as (? & ? & v' & ? & ?). split_and!; [done..|].
  exists v'. split; [done|]. by apply IH.
Qed.

(** A check that fails ends the task. *)
Lemma f_check (r : result E A) (f : A → ioE E B) v (Q : result E B → gmap path bytes → Prop) :
  (∀ a, r = Ok a → follows own (f a) v Q) → (∀ e, r = Err e → Q (Err e) v) → follows own (lift r ≫= f) v Q.
Proof. intros HOk HErr. apply f_bind, f_lift. destruct r; auto. Qed.
End rules.

(** *** Calls *)
Section calls.
Variable own : path → Prop.
Hypothesis own_private : ∀ p, own p → ¬ shared p.

(** What a call makes of the disk, and what the task then sees. *)
Definition moves fs fs' (K : gmap path bytes → Prop) : Prop :=
  good fs' ∧ (∀ p, ¬ own p → ¬ shared p → fs' !! p = fs !! p) ∧ ∃ v', sees own fs' v' ∧ K v'.

Lemma f_call {A} (ok : gmap path bytes → result IoError A * gmap path bytes) (failed : Fault → gmap path bytes → gmap path bytes) v
    (Q : result StoreError A → gmap path bytes → Prop) :
  (∀ fs, good fs → sees own fs v → moves fs (ok fs).2 (Q (map_err Io (ok fs).1))) →
  (∀ f fs, good fs → sees own fs v → moves fs (failed f fs) (Q (Err (Io (OtherIo (f_error f)))))) →
  follows own (call ok failed) v Q.
Proof.
  intros HOk HErr w Hg Hv. specialize (HOk (files w) Hg Hv).
  destruct (faults w) as [|[f|] fl]; simpl.
  - destruct (ok (files w)). exact HOk.
  - by apply HErr.
  - destruct (ok (files w)). exact HOk.
Qed.

Lemma moves_stay fs v (K : gmap path bytes → Prop) : good fs → sees own fs v → K v → moves fs fs K.
Proof. intros Hg Hv HK. split; [done|]. split; [done|]. by exists v. Qed.

Lemma moves_insert_own fs v (p : path) (c : bytes) (K : gmap path bytes → Prop) :
  own p → good fs → sees own fs v → K (<[p := c]> v) → moves fs (<[p := c]> fs) K.
Proof.
  intros Hp Hg Hv HK. split_and!.
  - intros q c' Hq. rewrite lookup_insert_ne by (intros <-; by eapply own_private). by apply Hg.
  - intros q Hq _. by rewrite lookup_insert_ne by (by intros <-).
  - exists (<[p := c]> v). split; [|done]. intros q Hq. destruct (decide (p = q)) as [->|];
      [by rewrite !lookup_insert_eq|rewrite !lookup_insert_ne by done; by apply Hv].
Qed.

Lemma moves_delete fs v (p : path) (K : gmap path bytes → Prop) :
  own p ∨ shared p → good fs → sees own fs v → (∀ v', (∀ q, q ≠ p → own q → v' !! q = v !! q) → K v') →
  moves fs (delete p fs) K.
Proof.
  intros Hp Hg Hv HK. split_and!.
  - intros q c Hq [_ Hc]%lookup_delete_Some. by apply Hg.
  - intros q Ho Hs. rewrite lookup_delete_ne; [done|]. intros <-. tauto.
  - exists (delete p fs). split; [done|]. apply HK. intros q Hq Ho. rewrite lookup_delete_ne by done. by apply Hv.
Qed.

Lemma moves_publish fs v (a b : path) (c : bytes) (K : gmap path bytes → Prop) :
  own a → shared b → good fs → sees own fs v → Good b c → K (delete a v) → moves fs (<[b := c]> (delete a fs)) K.
Proof.
  intros Ha Hb Hg Hv Hc HK. assert (a ≠ b) as Hne by (intros ->; by eapply own_private). split_and!.
  - intros q c' Hq. destruct (decide (b = q)) as [->|Hqb]; [rewrite lookup_insert_eq; by intros [= <-]|].
    rewrite lookup_insert_ne by done. intros [_ Hc']%lookup_delete_Some. by apply Hg.
  - intros q Ho Hs. rewrite lookup_insert_ne, lookup_delete_ne; [done|by intros <-..].
  - exists (delete a v). split; [|done]. intros q Hq. rewrite lookup_insert_ne by (intros ->; by eapply own_private).
    destruct (decide (a = q)) as [->|]; [by rewrite !lookup_delete_eq|rewrite !lookup_delete_ne by done; by apply Hv].
Qed.

(** Calls that change nothing. *)
Lemma f_quiet {A} (r : gmap path bytes → result IoError A) v (Q : result StoreError A → gmap path bytes → Prop) :
  (∀ fs, good fs → sees own fs v → Q (map_err Io (r fs)) v) → (∀ e, Q (Err e) v) →
  follows own (call (λ fs, (r fs, fs)) unchanged) v Q.
Proof.
  intros HOk HErr. apply f_call; [intros fs Hg Hv|intros f fs Hg Hv];
    (apply moves_stay with v; [done..|]); [by apply HOk|by apply HErr].
Qed.

Lemma f_any {A} (r : gmap path bytes → result IoError A) v (Q : result StoreError A → gmap path bytes → Prop) :
  (∀ r, Q r v) → follows own (call (λ fs, (r fs, fs)) unchanged) v Q.
Proof. intros HQ. by apply f_quiet. Qed.

Lemma f_create_parent_dir (p : path) v (Q : _ → gmap path bytes → Prop) : (∀ r, Q r v) → follows own (create_parent_dir p) v Q.
Proof. intros HQ. destruct p; [by apply f_throw|by apply f_any]. Qed.

Lemma f_read_own (p : path) v (Q : _ → gmap path bytes → Prop) :
  own p → (∀ r, (∀ c, r = Ok c → v !! p = Some c) → Q r v) → follows own (fs_read p) v Q.
Proof.
  intros Hp HQ. apply f_quiet; [|intros e; by apply HQ]. intros fs _ Hv. apply HQ. intros c.
  rewrite (Hv p Hp). by destruct (v !! p); intros [= ->].
Qed.

Lemma f_read_shared (p : path) v (Q : _ → gmap path bytes → Prop) :
  shared p → (∀ r, (∀ c, r = Ok c → Good p c) → Q r v) → follows own (fs_read p) v Q.
Proof.
  intros Hp HQ. apply f_quiet; [|intros e; by apply HQ]. intros fs Hg _. apply HQ. intros c.
  destruct (fs !! p) eqn:Hc; intros [= <-]. by apply Hg.
Qed.

Lemma f_create (p : path) v (Q : _ → gmap path bytes → Prop) :
  own p → Q (Ok ()) (<[p := []]> v) → (∀ e, Q (Err e) v) → follows own (fs_create p) v Q.
Proof.
  intros Hp HOk HErr. apply f_call; [intros fs Hg Hv; by apply moves_insert_own with v|].
  intros f fs Hg Hv. by apply moves_stay with v.
Qed.

Lemma f_write (p : path) (c : bytes) v (Q : _ → gmap path bytes → Prop) :
  own p → Q (Ok ()) (<[p := c]> v) → (∀ e v', Q (Err e) v') → follows own (fs_write p c) v Q.
Proof.
  intros Hp HOk HErr. apply f_call; [intros fs Hg Hv; by apply moves_insert_own with v|].
  intros f fs Hg Hv. destruct (f_written f); [by apply moves_insert_own with v|by apply moves_stay with v].
Qed.

Lemma f_append (p : path) (c b : bytes) v (Q : _ → gmap path bytes → Prop) :
  own p → v !! p = Some b → Q (Ok ()) (<[p := b ++ c]> v) → (∀ e v', Q (Err e) v') → follows own (fs_append p c) v Q.
Proof.
  intros Hp Hb HOk HErr. apply f_call; [intros fs Hg Hv|intros f fs Hg Hv]; simpl;
    rewrite (Hv p Hp), Hb; [by apply moves_insert_own with v|].
  destruct (f_written f); [by apply moves_insert_own with v|by apply moves_stay with v].
Qed.

Lemma f_publish (a b : path) v (Q : _ → gmap path bytes → Prop) :
  own a → shared b → (∀ c, v !! a = Some c → Good b c) →
  Q (Ok ()) (delete a v) → (∀ e, Q (Err e) v) → follows own (fs_rename a b) v Q.
Proof.
  intros Ha Hb Hgood HOk HErr. apply f_call; [|intros f fs Hg Hv; by apply moves_stay with v].
  intros fs Hg Hv. rewrite (Hv a Ha). destruct (v !! a) as [c|] eqn:Hc; simpl; [|by apply moves_stay with v].
  apply moves_publish with v; auto.
Qed.

Lemma f_remove (p : path) v (Q : _ → gmap path bytes → Prop) :
  own p ∨ shared p → (∀ r v', (∀ q, q ≠ p → own q → v' !! q = v !! q) → Q r v') →
  follows own (remove_file_if_exists p) v Q.
Proof.
  intros Hp HQ. apply f_bind, f_io_map, f_call.
  - intros fs Hg Hv. destruct (fs !! p) eqn:Hc; simpl.
    + apply moves_delete with v; [done..|]. intros v' Hv'. by apply f_ret, HQ.
    + apply moves_stay with v; [done..|]. by apply f_ret, HQ.
  - intros f fs Hg Hv. apply moves_stay with v; [done..|]. by apply f_throw, HQ.
Qed.

Lemma f_backup (p b : path) v (Q : _ → gmap path bytes → Prop) :
  shared p → own b → (∀ c, Good p c → Q (Ok true) (<[b := c]> v)) → Q (Ok false) v → (∀ e, Q (Err e) v) →
  follows own (backup_existing_file p b) v Q.
Proof.
  intros Hp Hb HT HF HE. apply f_bind, f_io_map, f_call.
  - intros fs Hg Hv. destruct (fs !! p) as [c|] eqn:Hc; [|by apply moves_stay with v].
    destruct (fs !! b); [apply moves_stay with v; [done..|]; by apply f_throw, HE|].
    apply moves_insert_own with v; [done..|]. apply f_ret, HT. by apply Hg.
  - intros f fs Hg Hv. apply moves_stay with v; [done..|]. by apply f_throw, HE.
Qed.

Lemma f_drop_guard {E A} (p : path) (m : ioE E A) v (Q : result E A → gmap path bytes → Prop) :
  own p → follows own m v (λ r v, match r with Ok a => Q (Ok a) v | Err e => ∀ v', Q (Err e) v' end) →
  follows own (drop_guard p m) v Q.
Proof.
  intros Hp Hm. apply f_bind, f_io_map. eapply f_mono; [exact Hm|]. intros [a|e] v' HQ; [done|].
  apply f_bind, f_io_map, f_remove; [by left|]. intros r v'' _. by apply f_throw.
Qed.

Lemma f_rollback (p b : path) (had : bool) v (Q : _ → gmap path bytes → Prop) :
  shared p → own b → (had = true → ∀ c, v !! b = Some c → Good p c) → 
  (∀ v', (∀ q, q ≠ b → own q → v' !! q = v !! q) → Q (Ok ()) v') →
  follows own (rollback_published_file p b had) v Q.
Proof.
  intros Hp Hb Hgood HQ. apply f_bind, f_io_map, f_remove; [by right|]. intros _ v' Hv'.
  assert (∀ q, own q → v' !! q = v !! q) as Hsame.
  { intros q Hq. apply Hv'; [intros ->; by eapply own_private|done]. }
  destruct had; [|apply f_ret, HQ; auto].
  apply f_io_map, f_publish; [done..|rewrite Hsame by done; by apply Hgood| |].
  - apply HQ. intros q Hne Hq. rewrite lookup_delete_ne by done. auto.
  - intros _. apply HQ. auto.
Qed.
End calls.
End shared.
