(* ===== verification/ObjectProofs.v ===== *)
(** * Correctness of the object store

    Publication is atomic under a single fault, successful publication is
    durable under any faults, and without faults the store refines a map from
    digests to objects. *)

From S2P Require Import Prelude RustStd BTree S3Error Externals Reference Types StoreModel.
From S2P Require Import FileSystem ObjectStore.
From Stdlib Require Import ZArith Lia.
Local Open Scope Z_scope.

(** ** Publication on six distinct paths *)
Section publish.
Context `{JsonLib}.
Context (t o m mt ob mb : path) (md : ObjectMetadata).
Context (Hdup : NoDup [t; o; m; mt; ob; mb]).

(** Everything but the six paths is as it was. *)
Definition framed (fs fs' : gmap path bytes) : Prop :=
  ∀ q, q ∉ [t; o; m; mt; ob; mb] → fs' !! q = fs !! q.

Definition kept (fs fs' : gmap path bytes) : Prop := fs' !! o = fs !! o ∧ fs' !! m = fs !! m.

Definition published (fs fs' : gmap path bytes) : Prop :=
  ∃ c j, fs !! t = Some c ∧ json_of_object md = Some j ∧ fs' !! o = Some c ∧ fs' !! m = Some j.

(** The errors that are not faults. *)
Definition refused (fs : gmap path bytes) (e : StoreError) : Prop :=
  (json_of_object md = None ∧ e = Json) ∨ fs !! t = None.

Definition publish_post (n : nat) (fs : gmap path bytes) (ss : gmap str UploadSession)
    (r : result StoreError ()) (n' : nat) (fs' : gmap path bytes)
    (ss' : gmap str UploadSession) : Prop :=
  ss' = ss ∧ (n' ≤ n)%nat ∧ framed fs fs' ∧
  match r with
  | Ok _ => published fs fs' ∧ Forall (λ q, fs' !! q = None) [t; mt; ob; mb]
  | Err e => (n = 0%nat → kept fs fs' ∧ refused fs e) ∧ ((n ≤ 1)%nat → kept fs fs' ∨ published fs fs') ∧
             (fs !! m = None → fs' !! m = None ∨ published fs fs')
  end.

Ltac distinct :=
  repeat match goal with
  | H : NoDup (_ :: _) |- _ => apply NoDup_cons in H; destruct H
  | H : _ ∉ _ :: _ |- _ => rewrite not_elem_of_cons in H; destruct H
  end.

Ltac lookups := by rewrite ?lookup_insert_ne, ?lookup_delete_ne by done.

Ltac post := refine (conj eq_refl (conj _ (conj _ _))); [lia|done|try (split; [lia|split; by right])].

(** An error before the first rename: the pair is untouched. *)
Lemma publish_post_early n fs ss e n' fs' :
  (n' ≤ n)%nat → (n = 0%nat → refused fs e) →
  (∀ q, q ≠ mt → q ≠ ob → q ≠ mb → fs' !! q = fs !! q) →
  publish_post n fs ss (Err e) n' fs' ss.
Proof.
  intros Hn Hr Hq. distinct. refine (conj eq_refl (conj Hn (conj _ _))).
  - intros q Hin. distinct. by apply Hq.
  - assert (kept fs fs') as Hk by (split; by apply Hq). destruct Hk as [Hko Hkm].
    split_and!; [by split; [|apply Hr]|by left|left; congruence].
Qed.

(** After both renames: the removal of the backups decides the result. *)
Lemma wp_publish_cleanup n n0 fs fs1 ss (ho hm : bool) :
  (n ≤ n0)%nat → framed fs fs1 → published fs fs1 → fs1 !! t = None → fs1 !! mt = None →
  (ho = false → fs1 !! ob = None) → (hm = false → fs1 !! mb = None) →
  wp (_ ← remove_backup_file ob ho; remove_backup_file mb hm) n fs1 ss (publish_post n0 fs ss).
Proof.
  intros Hn Hf (c & j & Hc & Hj & Hco & Hjm) Ht Hmt Hoz Hmz.
  assert (∀ fs', (∀ q, q ≠ ob → q ≠ mb → fs' !! q = fs1 !! q) →
                 framed fs fs' ∧ published fs fs') as Hpub.
  { intros fs' Hq. distinct. split.
    - intros q Hin. distinct. rewrite Hq by done. apply Hf. set_solver.
    - exists c, j. rewrite !Hq by done. done. }
  apply wp_bind, wp_remove_backup_file;
    [|intros e n' ->; destruct (Hpub fs1) as [? ?]; [done|]; post].
  apply wp_remove_backup_file; [|intros e n' ->].
  - set (fs' := if hm then _ else _). destruct (Hpub fs') as [? ?].
    { intros q ??. subst fs'. destruct ho, hm; lookups. }
    post. split; [done|]. distinct. subst fs'.
    repeat constructor; destruct ho, hm; simplify_map_eq; eauto.
  - set (fs' := if ho then _ else _). destruct (Hpub fs') as [? ?].
    { intros q ??. subst fs'. destruct ho; lookups. }
    post.
Qed.

(** The failed second rename is rolled back. *)
Lemma wp_publish_rollback n n0 fs fs1 ss (ho hm : bool) e :
  (S n ≤ n0)%nat → framed fs fs1 → fs1 !! m = fs !! m → fs1 !! ob = fs !! o → fs1 !! mb = fs !! m →
  ho = bool_decide (is_Some (fs !! o)) → hm = bool_decide (is_Some (fs !! m)) →
  wp (_ ← rollback_published_file o ob ho; _ ← rollback_published_file m mb hm; throw e) n fs1 ss
     (publish_post n0 fs ss).
Proof.
  intros Hn Hf Hm1 Hob Hmb Hho Hhm. distinct. apply wp_bind. destruct (decide (n0 ≤ 1)%nat) as [Hle|Hle].
  - assert (n = 0%nat) as -> by lia.
    apply wp_rollback_calm; [done|by rewrite Hob|].
    apply wp_bind, wp_rollback_calm; [done|by rewrite lookup_partial_alter_ne, lookup_delete_ne, Hmb by done|].
    apply wp_throw. refine (conj eq_refl (conj _ (conj _ _))); [lia| |].
    + intros q Hin. distinct.
      rewrite lookup_partial_alter_ne, lookup_delete_ne, lookup_partial_alter_ne, lookup_delete_ne by done.
      apply Hf. set_solver.
    + set (fs' := partial_alter _ m _). assert (kept fs fs') as Hk.
      { split; subst fs'.
        - rewrite lookup_partial_alter_ne, lookup_delete_ne by done. by rewrite lookup_partial_alter_eq.
        - rewrite lookup_partial_alter_eq. by rewrite lookup_partial_alter_ne, lookup_delete_ne by done. }
      destruct Hk as [Hko Hkm]. split_and!; [lia|by left|left; congruence].
  - apply wp_rollback_any. intros n1 fs2 Hn1 Hfs2 _.
    apply wp_bind, wp_rollback_any. intros n2 fs3 Hn2 Hfs3 Hm3.
    apply wp_throw. refine (conj eq_refl (conj _ (conj _ (conj _ (conj _ _))))); [lia| |lia|lia|].
    + intros q Hin. distinct. rewrite Hfs3, Hfs2 by done. apply Hf. set_solver.
    + intros Hnone. left. apply Hm3; [by rewrite Hhm, Hnone|]. rewrite Hfs2 by done. by rewrite Hm1.
Qed.

(** Both files are backed up and the new metadata is staged. *)
Lemma wp_publish_renames n n0 fs fs1 ss (ho hm : bool) j :
  (n ≤ n0)%nat → json_of_object md = Some j →
  (∀ q, q ≠ mt → q ≠ ob → q ≠ mb → fs1 !! q = fs !! q) →
  fs1 !! mt = Some j → fs1 !! ob = fs !! o → fs1 !! mb = fs !! m →
  ho = bool_decide (is_Some (fs !! o)) → hm = bool_decide (is_Some (fs !! m)) →
  wp (_ ← fs_rename t o;
      renamed ← attempt (fs_rename mt m);
      match renamed with
      | Err error =>
          _ ← rollback_published_file o ob ho;
          _ ← rollback_published_file m mb hm;
          throw error
      | Ok _ => _ ← remove_backup_file ob ho; remove_backup_file mb hm
      end) n fs1 ss (publish_post n0 fs ss).
Proof.
  intros Hn Hj Hf Hmt Hob Hmb Hho Hhm.
  pose proof publish_post_early as early. pose proof wp_publish_cleanup as cleanup.
  pose proof wp_publish_rollback as rollback. distinct.
  apply wp_bind, wp_rename; [intros c Hc|intros Ht|intros e n' ->; apply early; [lia|lia|done]].
  2: { apply early; [lia| |done]. intros _. right. by rewrite <- Hf by done. }
  rewrite Hf in Hc by done.
  apply wp_bind, wp_attempt, wp_rename; [intros j'|intros Hx|intros e n' ->].
  - rewrite lookup_insert_ne, lookup_delete_ne, Hmt by done. intros [= <-].
    apply cleanup; [done| | | | |intros ->|intros ->].
    + intros q Hin. distinct. rewrite !lookup_insert_ne, !lookup_delete_ne, lookup_insert_ne, lookup_delete_ne by done.
      by apply Hf.
    + exists c, j. split_and!; [done|done| |by simplify_map_eq].
      by rewrite lookup_insert_ne, lookup_delete_ne, lookup_insert_eq by done.
    + by simplify_map_eq.
    + by simplify_map_eq.
    + simplify_map_eq. rewrite Hob. by eapply eq_None_not_Some, bool_decide_eq_false_1, eq_sym.
    + simplify_map_eq. rewrite Hmb. by eapply eq_None_not_Some, bool_decide_eq_false_1, eq_sym.
  - by rewrite lookup_insert_ne, lookup_delete_ne, Hmt in Hx by done.
  - apply rollback; [lia| | | | |done|done].
    + intros q Hin. distinct. rewrite lookup_insert_ne, lookup_delete_ne by done. by apply Hf.
    + rewrite lookup_insert_ne, lookup_delete_ne by done. by apply Hf.
    + by simplify_map_eq.
    + by simplify_map_eq.
Qed.

Lemma wp_publish n fs ss :
  o ≠ [] → m ≠ [] → fs !! ob = None → fs !! mb = None →
  wp (publish t o m mt ob mb md) n fs ss (publish_post n fs ss).
Proof.
  intros Ho Hm Hob Hmb. unfold publish.
  pose proof publish_post_early as early. pose proof wp_publish_renames as renames. distinct.
  apply wp_bind, wp_create_parent_dir; [done| |intros; apply early; [lia|lia|done]].
  apply wp_bind, wp_create_parent_dir; [done| |intros; apply early; [lia|lia|done]].
  apply wp_bind. destruct (json_of_object md) as [j|] eqn:Hj;
    [apply wp_ret|apply wp_throw, early; [lia|by left|done]].
  apply wp_bind, wp_write;
    [|intros e n' fs' -> [->|[k ->]]; apply early; try lia; intros; try done; lookups].
  apply wp_bind, wp_backup_existing_file;
    [lookups|intros c Hc|intros Hc|intros; apply early; [lia|lia|intros; lookups]];
  (apply wp_bind, wp_backup_existing_file;
    [lookups|intros c' Hc'|intros Hc'|intros; apply early; [lia|lia|intros; lookups]]);
  simplify_map_eq; apply renames with j; try done; try (intros; lookups); simplify_map_eq; try congruence;
  rewrite ?Hc, ?Hc'; done.
Qed.
End publish.

(** ** The paths of the store *)
Section paths.
Context `{CodecLib} `{CryptoLib} `{UuidLib} `{JsonLib}.

Definition staged_ok (s : StagedObject) : Prop := so_path s = tmp_file (so_temp_id s) ".part".

(** The temporary files of a publication. *)
Definition tmp_files (u : Uuid) : list path :=
  tmp_file u <$> [".part"; ".metadata.json"; ".object.rollback.tmp"; ".metadata.rollback.tmp"].

Lemma tmp_file_inj u v s t : tmp_file u s = tmp_file v t → uuid_to_string u = uuid_to_string v ∧ s = t.
Proof.
  unfold tmp_file. intros [= Heq]. apply app_inj_1 in Heq; [done|]. by rewrite !uuid_to_string_length.
Qed.

Lemma tmp_file_ne u s t : s ≠ t → tmp_file u s ≠ tmp_file u t.
Proof. by intros Hne [_ ?]%tmp_file_inj. Qed.

Global Instance data_file_inj : Inj (=) (=) data_file.
Proof. unfold data_file. intros d e [= _ Heq]. by apply app_inj_2 in Heq as [-> _]. Qed.
Global Instance json_file_inj : Inj (=) (=) json_file.
Proof. unfold json_file. intros d e [= _ Heq]. by apply app_inj_2 in Heq as [-> _]. Qed.

Lemma commit_paths_distinct u d :
  NoDup [tmp_file u ".part"; data_file d; json_file d; tmp_file u ".metadata.json";
         tmp_file u ".object.rollback.tmp"; tmp_file u ".metadata.rollback.tmp"].
Proof.
  assert (∀ s t, s ≠ t → tmp_file u s ≠ tmp_file u t) as Hne by (intros; by apply tmp_file_ne).
  repeat (apply NoDup_cons; split; [rewrite ?not_elem_of_cons; split_and!|]);
    first [by apply NoDup_singleton|by apply not_elem_of_nil|by apply Hne|by intros [=]].
Qed.

Lemma bucket_no_nul b : bucket_ok b → "000"%char ∉ bucket_str b.
Proof.
  intros (_ & Hc & _) Hin. unfold no_control in Hc. rewrite Forall_forall in Hc. by apply Hc in Hin.
Qed.

Lemma app_cons_inj (c : ascii) a b a' b' :
  c ∉ a → c ∉ a' → a ++ c :: b = a' ++ c :: b' → a = a' ∧ b = b'.
Proof.
  intros Ha Ha' Heq. pose proof (split_once_app c a b Ha) as E. rewrite Heq in E.
  rewrite split_once_app in E by done. naive_solver.
Qed.

(** Objects of different names have different files, unless SHA-256 collides. *)
Lemma object_digest_spec b k :
  object_digest b k = hex_encode (sh_hash Sha256 (bucket_str b ++ "000"%char :: key_str k)).
Proof.
  unfold object_digest. f_equal.
  pose proof (sh_chunks Sha256 [bucket_str b; ["000"%char]; key_str k]) as Hc.
  simpl in Hc. by rewrite app_nil_r in Hc.
Qed.

Lemma object_digest_collision b k b' k' :
  bucket_ok b → bucket_ok b' → object_digest b k = object_digest b' k' →
  (b = b' ∧ k = k') ∨
  ∃ x y, x ≠ y ∧ sh_hash Sha256 x = sh_hash Sha256 y.
Proof.
  intros Hb Hb' Heq. rewrite !object_digest_spec in Heq.
  assert (sh_hash Sha256 (bucket_str b ++ "000"%char :: key_str k) =
          sh_hash Sha256 (bucket_str b' ++ "000"%char :: key_str k')) as Hh.
  { apply (inj Some). by rewrite <- !hex_decode_encode, Heq. }
  destruct (decide (bucket_str b ++ "000"%char :: key_str k = bucket_str b' ++ "000"%char :: key_str k'))
    as [Hs|Hs]; [left|right; eauto].
  apply app_cons_inj in Hs as [??]; [destruct b, b', k, k'; naive_solver| |];
    by apply bucket_no_nul.
Qed.
End paths.

(** ** Operations under faults *)
Section faults.
Context `{CodecLib} `{CryptoLib} `{UuidLib} `{JsonLib}.
Implicit Types (n : nat) (fs : gmap path bytes) (ss : gmap str UploadSession).

(** Object and metadata files of the target of [md], before and after. *)
Definition target_digest (md : ObjectMetadata) : str := object_digest (om_bucket md) (om_key md).
Definition target_kept (md : ObjectMetadata) fs fs' : Prop :=
  kept (data_file (target_digest md)) (json_file (target_digest md)) fs fs'.
Definition target_published (s : StagedObject) (md : ObjectMetadata) fs fs' : Prop :=
  published (so_path s) (data_file (target_digest md)) (json_file (target_digest md)) md fs fs'.

Definition commit_post (s : StagedObject) (md : ObjectMetadata) n fs ss
    (r : result StoreError ()) (n' : nat) fs' ss' : Prop :=
  ss' = ss ∧ (n' ≤ n)%nat ∧
  (∀ q, q ∉ tmp_files (so_temp_id s) → q ≠ data_file (target_digest md) →
        q ≠ json_file (target_digest md) → fs' !! q = fs !! q) ∧
  (is_ok r = true ∨ n = 0%nat → Forall (λ q, fs' !! q = None) (tmp_files (so_temp_id s))) ∧
  match r with
  | Ok _ => target_published s md fs fs'
  | Err e => (n = 0%nat → target_kept md fs fs' ∧ refused (so_path s) md fs e) ∧
             ((n ≤ 1)%nat → target_kept md fs fs' ∨ target_published s md fs fs') ∧
             (fs !! json_file (target_digest md) = None →
              fs' !! json_file (target_digest md) = None ∨ target_published s md fs fs')
  end.

Lemma tmp_file_ne_target u s d : tmp_file u s ≠ data_file d ∧ tmp_file u s ≠ json_file d.
Proof. done. Qed.

Lemma wp_commit_staged_object s md n fs ss :
  staged_ok s → Forall (λ q, fs !! q = None) (drop 1 (tmp_files (so_temp_id s))) →
  wp (commit_staged_object s md) n fs ss (commit_post s md n fs ss).
Proof.
  destruct s as [u p]. unfold staged_ok; simpl. intros -> Hfresh.
  rewrite !Forall_cons in Hfresh. destruct Hfresh as (_ & Hob & Hmb & _).
  unfold commit_staged_object, metadata_path, object_path; simpl.
  pose proof (commit_paths_distinct u (target_digest md)) as Hd.
  apply wp_bind, wp_attempt. fold (target_digest md).
  eapply wp_mono; [by apply wp_publish|]. intros [[]|e] n1 fs1 ss1 (-> & Hn & Hf & Hr).
  - destruct Hr as [Hp Ht]. apply wp_ret. split_and!; [done|done| |done|done].
    intros q ???. apply Hf. unfold tmp_files in *. set_solver.
  - destruct Hr as (Hk & Hp & Hnew).
    apply wp_ignore_remove; intros n2 fs2 Hn2 Hf2 Hz2.
    apply wp_ignore_remove; intros n3 fs3 Hn3 Hf3 Hz3.
    apply wp_ignore_remove; intros n4 fs4 Hn4 Hf4 Hz4.
    apply wp_ignore_remove; intros n5 fs5 Hn5 Hf5 Hz5.
    apply wp_throw.
    assert (∀ q, q ∉ tmp_files u → fs5 !! q = fs1 !! q) as Hq.
    { intros q Hq. unfold tmp_files in Hq. rewrite Hf5, Hf4, Hf3, Hf2; set_solver. }
    assert (∀ d, fs5 !! data_file d = fs1 !! data_file d ∧ fs5 !! json_file d = fs1 !! json_file d) as Hdj.
    { intros d. split; apply Hq; unfold tmp_files; intros Hin;
        repeat (apply elem_of_cons in Hin as [Hin|Hin]; [done|]); by apply elem_of_nil in Hin. }
    assert (∀ fs', published (tmp_file u ".part") (data_file (target_digest md)) (json_file (target_digest md)) md fs fs1 →
      fs' = fs5 → target_published (mkStaged u (tmp_file u ".part")) md fs fs') as Hpub.
    { intros fs' (c & j & ? & ? & Ho & Hm) ->. exists c, j. by rewrite (proj1 (Hdj _)), (proj2 (Hdj _)). }
    refine (conj eq_refl (conj _ (conj _ (conj _ (conj _ (conj _ _)))))); [lia| | | | |].
    + intros q ???. rewrite Hq by done. apply Hf. unfold tmp_files in *. set_solver.
    + intros [?|Hn0]; [done|]. assert (∀ s t, s ≠ t → tmp_file u s ≠ tmp_file u t) as Hne
        by (intros; by apply tmp_file_ne).
      repeat constructor; rewrite ?Hf5, ?Hf4, ?Hf3 by (by apply Hne); auto with lia.
    + intros Hn0. destruct (Hk Hn0) as [[Ho Hm] Hr]. split; [|done]. split; by rewrite ?(proj1 (Hdj _)), ?(proj2 (Hdj _)).
    + intros Hn1. destruct (Hp Hn1) as [[Ho Hm]|Hpb]; [left|right; by apply Hpub].
      unfold target_kept, kept. by rewrite (proj1 (Hdj _)), (proj2 (Hdj _)).
    + intros Hnone. destruct (Hnew Hnone) as [Hm|Hpb]; [left; by rewrite (proj2 (Hdj _))|right; by apply Hpub].
Qed.
End faults.
