(* ===== verification/ObjectSpec.v ===== *)
(** * Abstract specification of the object store

    The store promises a map from names to objects. [object_store_refines]
    shows that, as long as the file system does not fail, every sequence of
    operations answers as the map does; the other theorems say what survives
    when it does fail. Names are digests: different buckets and keys share one
    only if SHA-256 collides ([objects_do_not_collide]). *)

From S2P Require Import Prelude RustStd BTree S3Error Externals Reference Types StoreModel ReferenceJson.
From S2P Require Import FileSystem ObjectStore ObjectProofs.
From Stdlib Require Import ZArith Lia.
Local Open Scope Z_scope.

Abbreviation objects := (gmap str (ObjectMetadata * bytes)).

Section spec.
Context `{CodecLib} `{CryptoLib} `{UuidLib} `{JsonLib}.
Implicit Types (fs : gmap path bytes) (ss : gmap str UploadSession).

(** A request to the store. [Put] stages a body and publishes it; the id is the
    result of [Uuid::new_v4]. *)
Inductive store_op :=
| Put (u : Uuid) (md : ObjectMetadata) (content : bytes)
| Del (b : BucketName) (k : ObjectKey)
| Head (b : BucketName) (k : ObjectKey)
| Get (b : BucketName) (k : ObjectKey).

Inductive answer :=
| Done
| Meta (m : option ObjectMetadata)
| Object (o : option (ObjectMetadata * bytes)).

Definition run_op (op : store_op) : io answer :=
  match op with
  | Put u md content =>
      temp ← create_temp_object u;
      _ ← write_temp temp content;
      _ ← commit_staged_object temp md;
      mret Done
  | Del b k => _ ← delete_object b k; mret Done
  | Head b k => m ← head_object b k; mret (Meta m)
  | Get b k => o ← open_object b k; mret (Object o)
  end.

Fixpoint run_ops (ops : list store_op) : io (list (result StoreError answer)) :=
  match ops with
  | [] => mret []
  | op :: ops => a ← attempt (run_op op); as_ ← run_ops ops; mret (a :: as_)
  end.

(** The same requests on the map. *)
Definition spec_op (op : store_op) (m : objects) : result StoreError answer * objects :=
  match op with
  | Put _ md content =>
      match json_of_object md with
      | Some _ => (Ok Done, <[object_digest (om_bucket md) (om_key md) := (md, content)]> m)
      | None => (Err Json, m)
      end
  | Del b k => (Ok Done, delete (object_digest b k) m)
  | Head b k => (Ok (Meta (fst <$> m !! object_digest b k)), m)
  | Get b k => (Ok (Object (m !! object_digest b k)), m)
  end.

Fixpoint spec_ops (ops : list store_op) (m : objects) : list (result StoreError answer) * objects :=
  match ops with
  | [] => ([], m)
  | op :: ops =>
      let '(a, m) := spec_op op m in
      let '(as_, m) := spec_ops ops m in (a :: as_, m)
  end.

(** The files of an object; an object that is not there has no metadata file. *)
Definition holds fs (d : str) (o : option (ObjectMetadata * bytes)) : Prop :=
  match o with
  | Some (md, c) =>
      fs !! data_file d = Some c ∧ ∃ j, fs !! json_file d = Some j ∧ object_of_json j = Some md
  | None => fs !! json_file d = None
  end.

Definition refines fs (m : objects) : Prop :=
  (∀ name, fs !! ["tmp"; name] = None) ∧ ∀ d, holds fs d (m !! d).

Lemma holds_frame fs fs' d o :
  fs' !! data_file d = fs !! data_file d → fs' !! json_file d = fs !! json_file d →
  holds fs d o → holds fs' d o.
Proof. unfold holds. intros Hd Hj. by rewrite Hd, Hj. Qed.

Lemma wp_head_object b k n fs ss Q o :
  holds fs (object_digest b k) o →
  Q (Ok (fst <$> o)) n fs ss →
  (∀ (e : StoreError) n', n = S n' → Q (Err e) n' fs ss) →
  wp (head_object b k) n fs ss Q.
Proof.
  intros Ho HQ HE. apply wp_bind, wp_attempt, wp_call; [|intros; by apply wp_throw, HE].
  unfold metadata_path. destruct o as [[md c]|]; simpl in Ho.
  - destruct Ho as (Hd & j & Hj & Hmd). rewrite Hj; simpl. rewrite Hmd.
    apply wp_bind, wp_attempt, wp_call; [|intros; by apply wp_throw, HE].
    unfold object_path; simpl. rewrite Hd; simpl. by apply wp_ret.
  - rewrite Ho; simpl. by apply wp_ret.
Qed.

Lemma wp_open_object b k n fs ss Q o :
  holds fs (object_digest b k) o →
  Q (Ok o) n fs ss →
  (∀ (e : StoreError) n', n = S n' → Q (Err e) n' fs ss) →
  wp (open_object b k) n fs ss Q.
Proof.
  intros Ho HQ HE. apply wp_bind, wp_head_object with o; [done| |done].
  destruct o as [[md c]|]; simpl; [|by apply wp_ret]. destruct Ho as [Hd _].
  apply wp_bind, wp_attempt, wp_call; [|intros; by apply wp_throw, HE].
  unfold object_path; simpl. rewrite Hd; simpl. by apply wp_ret.
Qed.

(** A deletion that fails has deleted nothing, or only the metadata. *)
Lemma wp_delete_object b k n fs ss Q :
  (∀ n' fs' r, (n' ≤ n)%nat →
     (∀ q, q ≠ data_file (object_digest b k) → q ≠ json_file (object_digest b k) → fs' !! q = fs !! q) →
     (fs' = fs ∨ fs' !! json_file (object_digest b k) = None) →
     (r = Ok () → fs' !! json_file (object_digest b k) = None) →
     (n = 0%nat → r = Ok ()) → Q r n' fs' ss) →
  wp (delete_object b k) n fs ss Q.
Proof.
  intros HQ. apply wp_bind, wp_attempt, wp_call; simpl; fold (metadata_path b k).
  - destruct (fs !! metadata_path b k) eqn:Hm; simpl.
    + apply wp_remove_file_if_exists; [|intros e n' ->]; apply HQ; try done; try lia; intros; unfold metadata_path;
        simplify_map_eq; eauto.
    + apply wp_ret, HQ; eauto.
  - intros f n' ->. apply wp_throw, HQ; eauto; try done; lia.
Qed.

Lemma tmp_files_names u q : q ∈ tmp_files u → ∃ name, q = ["tmp"; name].
Proof. unfold tmp_files. rewrite list_elem_of_fmap. intros (s & -> & _). unfold tmp_file. eauto. Qed.

Lemma target_holds s md fs fs' :
  target_published s md fs fs' → ∃ c, fs !! so_path s = Some c ∧ holds fs' (target_digest md) (Some (md, c)).
Proof.
  intros (c & j & Hc & Hj & Hd & Hm). exists c. split; [done|]. split; [done|].
  exists j. split; [done|]. by apply object_json_roundtrip.
Qed.

(** Publication and the relation to the map: the digests of the other objects
    and the other temporary files are untouched. *)
Lemma refines_commit (u : Uuid) (md : ObjectMetadata) (n n' : nat) fs ss (r : result StoreError ()) fs' ss' (m : objects) (o : option (ObjectMetadata * bytes)) :
  commit_post (mkStaged u (tmp_file u ".part")) md n fs ss r n' fs' ss' →
  (∀ name, ["tmp"; name] ∉ tmp_files u → fs !! ["tmp"; name] = None) →
  Forall (λ q, fs' !! q = None) (tmp_files u) →
  (∀ d, d ≠ target_digest md → holds fs d (m !! d)) →
  holds fs' (target_digest md) o →
  refines fs' (partial_alter (λ _, o) (target_digest md) m).
Proof.
  intros (-> & _ & Hf & _ & _) Htmp Hnone Hm Ho. simpl in Hf.
  assert (∀ d q, q = data_file d ∨ q = json_file d → q ∉ tmp_files u) as Hnt.
  { intros d q Hq [name ->]%tmp_files_names. by destruct Hq. }
  split.
  - intros name. destruct (decide (["tmp"; name] ∈ tmp_files u)) as [Hin|Hin].
    + rewrite Forall_forall in Hnone. by apply Hnone.
    + rewrite Hf by done. by apply Htmp.
  - intros d. destruct (decide (d = target_digest md)) as [->|Hne].
    + by rewrite lookup_partial_alter_eq.
    + rewrite lookup_partial_alter_ne by done.
      apply holds_frame with fs; [| |by apply Hm]; apply Hf;
        try (eapply Hnt; by eauto); try done; by intros ?%(inj _).
Qed.

(** Publication of staged bytes without faults. *)
Lemma wp_commit_refines (u : Uuid) (md : ObjectMetadata) (content : bytes) fs ss (m : objects) Q :
  refines fs m →
  (∀ fs', (∀ q, head q = Some "multipart" → fs' !! q = fs !! q) →
     match json_of_object md with
     | Some _ => refines fs' (<[target_digest md := (md, content)]> m) → Q (Ok ()) 0%nat fs' ss
     | None => refines fs' m → Q (Err Json) 0%nat fs' ss
     end) →
  wp (commit_staged_object (mkStaged u (tmp_file u ".part")) md) 0
     (<[tmp_file u ".part" := content]> fs) ss Q.
Proof.
  intros [Htmp Hm] HQ. set (p := tmp_file u ".part"). eapply wp_mono.
  { apply wp_commit_staged_object; [done|].
    repeat constructor; rewrite lookup_insert_ne by (by apply tmp_file_ne); apply Htmp. }
  intros r n' fs' ss' Hpost. pose proof Hpost as (-> & Hn & Hf & Hnone & Hr).
  assert (n' = 0%nat) as -> by lia.
  assert (∀ d, holds (<[p := content]> fs) d (m !! d)) as Hm'.
  { intros d. apply holds_frame with fs; [by rewrite lookup_insert_ne|by rewrite lookup_insert_ne|done]. }
  assert (∀ name, ["tmp"; name] ∉ tmp_files u → <[p := content]> fs !! ["tmp"; name] = None) as Htmp'.
  { intros name Hin. rewrite lookup_insert_ne; [done|]. intros Hp. apply Hin. rewrite <- Hp. apply list_elem_of_here. }
  pose proof (λ o, refines_commit _ _ _ _ _ _ _ _ _ m o Hpost Htmp' (Hnone (or_intror eq_refl))
                (λ d _, Hm' d)) as Href.
  specialize (HQ fs'). destruct (json_of_object md) eqn:Hj; destruct r as [[]|e].
  - destruct (target_holds _ _ _ _ Hr) as (c & Hc & Ho). simpl in Hc.
    rewrite lookup_insert_eq in Hc. injection Hc as <-.
    apply HQ; [|by apply (Href (Some _))].
    intros q Hq. rewrite Hf; [by rewrite lookup_insert_ne by (by intros <-)| |by intros ->|by intros ->].
    by intros [? ->]%tmp_files_names.
  - destruct Hr as [[_ [[? _]|Hx]] _]; [done|congruence|by rewrite lookup_insert_eq in Hx].
  - by destruct Hr as (? & ? & _ & ? & _); congruence.
  - destruct Hr as [[[Hd Hjs] [[_ ->]|Hx]] _]; [done| |by rewrite lookup_insert_eq in Hx].
    apply HQ.
    + intros q Hq. rewrite Hf; [by rewrite lookup_insert_ne by (by intros <-)| |by intros ->|by intros ->].
      by intros [? ->]%tmp_files_names.
    + specialize (Href (m !! target_digest md)). rewrite partial_alter_self in Href.
      apply Href. by apply holds_frame with (<[p := content]> fs).
Qed.

Lemma wp_put (u : Uuid) (md : ObjectMetadata) (content : bytes) fs ss (m : objects) :
  refines fs m →
  wp (run_op (Put u md content)) 0 fs ss (λ r n' fs' ss',
    n' = 0%nat ∧ ss' = ss ∧ r = (spec_op (Put u md content) m).1 ∧
    refines fs' (spec_op (Put u md content) m).2).
Proof.
  intros Hr. simpl. apply wp_bind, wp_bind, wp_call; [|done]. simpl. apply wp_ret.
  apply wp_bind, wp_write; [|done]. rewrite insert_insert_eq.
  apply wp_bind, wp_commit_refines with m; [done|]. intros fs' _.
  destruct (json_of_object md); intros Hr'; [by apply wp_ret|done].
Qed.

Lemma refines_delete fs fs' m b k :
  (∀ q, q ≠ data_file (object_digest b k) → q ≠ json_file (object_digest b k) → fs' !! q = fs !! q) →
  fs' !! json_file (object_digest b k) = None →
  refines fs m → refines fs' (delete (object_digest b k) m).
Proof.
  intros Hf Hnone [Htmp Hm]. split; [intros; by rewrite Hf|].
  intros d. destruct (decide (d = object_digest b k)) as [->|Hne].
  - by rewrite lookup_delete_eq.
  - rewrite lookup_delete_ne by done.
    apply holds_frame with fs; [apply Hf|apply Hf|by apply Hm]; try done; by intros ?%(inj _).
Qed.

Lemma wp_run_op (op : store_op) fs ss (m : objects) :
  refines fs m →
  wp (run_op op) 0 fs ss (λ r n' fs' ss',
    n' = 0%nat ∧ ss' = ss ∧ r = (spec_op op m).1 ∧ refines fs' (spec_op op m).2).
Proof.
  intros Hr. destruct op as [u md c|b k|b k|b k]; [by apply wp_put| | |]; simpl.
  - apply wp_bind, wp_delete_object. intros n' fs' r Hn Hf _ Hok Hr0.
    specialize (Hr0 eq_refl). subst r. apply wp_ret. split_and!; [lia|done|done|].
    apply refines_delete with fs; auto.
  - destruct Hr as [? Hm]. apply wp_bind, wp_head_object with (m !! object_digest b k); [done| |done].
    by apply wp_ret.
  - destruct Hr as [? Hm]. apply wp_bind, wp_open_object with (m !! object_digest b k); [done| |done].
    by apply wp_ret.
Qed.

Lemma wp_run_ops (ops : list store_op) fs ss (m : objects) :
  refines fs m →
  wp (run_ops ops) 0 fs ss (λ r n' fs' ss',
    n' = 0%nat ∧ ss' = ss ∧ r = Ok (spec_ops ops m).1 ∧ refines fs' (spec_ops ops m).2).
Proof.
  revert fs m. induction ops as [|op ops IH]; intros fs m Hr; simpl; [by apply wp_ret|].
  apply wp_bind, wp_attempt. eapply wp_mono; [by apply wp_run_op|].
  intros r n' fs' ss' (-> & -> & -> & Hr'). apply wp_bind. eapply wp_mono; [by apply IH|].
  intros r' n' fs'' ss' (-> & -> & -> & Hr''). apply wp_ret.
  destruct (spec_op op m) as [a m']; simpl in *. by destruct (spec_ops ops m').
Qed.

(** ** Theorems *)

(* @prop refinement 23 : create_temp_object commit_staged_object head_object open_object delete_object object_path metadata_path object_digest *)
(** C23: without file system faults the object store is a map from names to
    objects. From a disk that represents the map [m] (no leftover temporary
    files), any sequence of puts, deletes, heads and gets gives exactly the
    answers of the map, including the serialization error of a put, and ends in
    a disk that represents the resulting map. *)
Theorem object_store_refines (ops : list store_op) (w w' : World) (m : objects) (r : result StoreError (list (result StoreError answer))) :
  faults w = [] → refines (files w) m → run_ops ops w = (r, w') →
  r = Ok (spec_ops ops m).1 ∧ refines (files w') (spec_ops ops m).2.
Proof.
  intros Hb Hr Hrun. assert (budget w = 0%nat) as Hb0 by (unfold budget; by rewrite Hb).
  pose proof (wp_run_ops ops (files w) (sessions w) m Hr) as Hwp. rewrite <- Hb0 in Hwp.
  apply (wp_run _ _ _ _ _ Hrun) in Hwp. naive_solver.
Qed.

(* @prop safety 24 : commit_staged_object publish rollback_published_file backup_existing_file remove_backup_file *)
(** C24: publication is atomic under a single fault. Whatever call fails (and
    for a write, however much of it was written), the object and metadata files
    of the target end up both as they were or both new, never mixed; with any
    number of faults, a publication that answers [Ok] has published the staged
    bytes with their metadata, and one for a name without metadata leaves none or
    the whole object, wherever it stops; no other file of the store changes; and
    no temporary file is left by a publication that succeeds or meets no fault. *)
Theorem commit_atomic s md (w w' : World) r :
  staged_ok s → Forall (λ q, files w !! q = None) (drop 1 (tmp_files (so_temp_id s))) →
  commit_staged_object s md w = (r, w') →
  (is_ok r = true → target_published s md (files w) (files w')) ∧
  ((budget w ≤ 1)%nat →
     target_kept md (files w) (files w') ∨ target_published s md (files w) (files w')) ∧
  (files w !! metadata_path (om_bucket md) (om_key md) = None →
     files w' !! metadata_path (om_bucket md) (om_key md) = None ∨ target_published s md (files w) (files w')) ∧
  (is_ok r = true ∨ budget w = 0%nat →
     Forall (λ q, files w' !! q = None) (tmp_files (so_temp_id s))) ∧
  (∀ q, q ∉ tmp_files (so_temp_id s) → q ≠ object_path (om_bucket md) (om_key md) →
        q ≠ metadata_path (om_bucket md) (om_key md) → files w' !! q = files w !! q).
Proof.
  intros Hs Hfresh Hrun.
  pose proof (wp_commit_staged_object s md (budget w) (files w) (sessions w) Hs Hfresh) as Hwp.
  apply (wp_run _ _ _ _ _ Hrun) in Hwp as (_ & _ & Hf & Hnone & Hr).
  destruct r as [[]|e]; split_and!; auto; naive_solver.
Qed.

(** Reads and deletes under arbitrary faults. A read that answers, answers
    with the stored object and changes no file; a delete that answers [Ok] makes
    the object invisible, and one that fails leaves it whole or invisible, in
    both cases without touching any other object. *)
Theorem reads_and_deletes_robust (b : BucketName) (k : ObjectKey) (w : World) (m : objects) :
  refines (files w) m →
  (∀ o w', open_object b k w = (Ok o, w') → o = m !! object_digest b k ∧ files w' = files w) ∧
  (∀ o w', head_object b k w = (Ok o, w') → o = fst <$> m !! object_digest b k ∧ files w' = files w) ∧
  (∀ r w', delete_object b k w = (r, w') →
     refines (files w') (delete (object_digest b k) m) ∨ (is_ok r = false ∧ refines (files w') m)).
Proof.
  intros Hr. pose proof Hr as [_ Hm]. specialize (Hm (object_digest b k)). split_and!.
  - intros o w' Hrun.
    refine (wp_run _ _ _ _ (λ r _ fs' _, ∀ o, r = Ok o → o = m !! object_digest b k ∧ fs' = files w) Hrun _ _ eq_refl).
    apply wp_open_object with (m !! object_digest b k); naive_solver.
  - intros o w' Hrun.
    refine (wp_run _ _ _ _ (λ r _ fs' _, ∀ o, r = Ok o → o = fst <$> m !! object_digest b k ∧ fs' = files w) Hrun _ _ eq_refl).
    apply wp_head_object with (m !! object_digest b k); naive_solver.
  - intros r w' Hrun.
    refine (wp_run _ _ _ _ (λ r _ fs' _, refines fs' (delete (object_digest b k) m) ∨
                                           (is_ok r = false ∧ refines fs' m)) Hrun _).
    apply wp_delete_object. intros n' fs' [[]|e] _ Hf Hfs Hok _.
    + left. apply refines_delete with (files w); auto.
    + destruct Hfs as [->|Hnone]; [by right|]. left. by apply refines_delete with (files w).
Qed.

(** Objects do not share files: if two valid bucket names with any keys have
    the same object path or the same metadata path then they are the same bucket
    and key, or two different messages have the same SHA-256 digest. *)
Theorem objects_do_not_collide b k b' k' :
  bucket_ok b → bucket_ok b' →
  object_path b k = object_path b' k' ∨ metadata_path b k = metadata_path b' k' →
  (b = b' ∧ k = k') ∨ ∃ x y, x ≠ y ∧ sh_hash Sha256 x = sh_hash Sha256 y.
Proof.
  intros Hb Hb' Hp. apply object_digest_collision; [done..|].
  destruct Hp as [Hp|Hp]; [by apply data_file_inj in Hp|by apply json_file_inj in Hp].
Qed.
End spec.

(** ** Witnesses *)

Section witnesses.
Local Existing Instances ref_codec ref_crypto ref_uuid ref_json.

Definition w_bucket : BucketName := mkBucketName "photos".
Definition w_key : ObjectKey := mkObjectKey "2026/cat.jpg".
Definition w_object (size : Z) : ObjectMetadata :=
  mkObjectMetadata w_bucket w_key size (mkETag "e") (Some "image/jpeg") None None None None None None [] [] 7.
Definition w_uuid : Uuid := exist _ "123e4567-e89b-42d3-a456-426614174000" I.
Definition w_staged : StagedObject := mkStaged w_uuid (tmp_file w_uuid ".part").
Definition w_empty : World := mkWorld ∅ ∅ [].

Lemma refines_empty : refines (files w_empty) ∅.
Proof. by split. Qed.

Lemma object_store_refines_witness :
  (run_ops [Put w_uuid (w_object 3) "abc"; Get w_bucket w_key; Del w_bucket w_key; Head w_bucket w_key]
     w_empty).1 =
  Ok [Ok Done; Ok (Object (Some (w_object 3, "abc"))); Ok Done; Ok (Meta None)].
Proof.
  set (ops := [_; _; _; _]).
  destruct (run_ops ops w_empty) as [r w'] eqn:Hrun.
  destruct (object_store_refines ops w_empty w' ∅ r eq_refl refines_empty Hrun) as [-> _].
  vm_refl.
Defined.

(** A disk with a published object and a second version staged. *)
Definition w_disk : gmap path bytes :=
  <[so_path w_staged := "new"]>
    (files (run_ops [Put w_uuid (w_object 3) "old"] w_empty).2).

(** The next [n] calls succeed, the one after them fails. *)
Definition w_world (n : nat) : World :=
  mkWorld w_disk ∅ (replicate n None ++ [Some (mkFault "disk full" None [])]).

Definition w_commit (n : nat) : result StoreError () * World :=
  commit_staged_object w_staged (w_object 4) (w_world n).

Lemma w_commit_runs n :
  commit_staged_object w_staged (w_object 4) (w_world n) = ((w_commit n).1, (w_commit n).2).
Proof. unfold w_commit. by destruct (commit_staged_object _ _ _). Qed.

Lemma w_fresh n : Forall (λ q, files (w_world n) !! q = None) (drop 1 (tmp_files (so_temp_id w_staged))).
Proof. repeat constructor; vm_refl. Qed.

Lemma commit_atomic_witness :
  let w' := (w_commit 6).2 in
  is_ok (w_commit 6).1 = false ∧ files w' !! object_path w_bucket w_key = Some "old".
Proof.
  split; [vm_refl|].
  destruct (commit_atomic w_staged (w_object 4) _ _ _ eq_refl (w_fresh 6) (w_commit_runs 6))
    as (_ & Hone & _ & _).
  destruct Hone as [[Ho _]|(c & j & _ & _ & Ho & _)]; [vm_compute; lia| |].
  - change (files (w_commit 6).2 !! data_file (target_digest (w_object 4)) = Some "old").
    rewrite Ho. vm_refl.
  - vm_refl.
Defined.

Lemma reads_and_deletes_robust_witness :
  (open_object w_bucket w_key w_empty).1 = Ok None.
Proof.
  destruct (reads_and_deletes_robust w_bucket w_key w_empty ∅ refines_empty) as [Hopen _].
  destruct (open_object w_bucket w_key w_empty) as [[o|e] w'] eqn:Hrun; [|vm_compute in Hrun; done].
  by destruct (Hopen o w' eq_refl) as [-> _].
Defined.

Lemma objects_do_not_collide_witness :
  (w_bucket = w_bucket ∧ w_key = w_key) ∨ ∃ x y, x ≠ y ∧ sh_hash Sha256 x = sh_hash Sha256 y.
Proof.
  assert (bucket_ok w_bucket) as Hb
    by (apply (parse_bucket_ok "photos" w_bucket); vm_refl).
  exact (objects_do_not_collide w_bucket w_key w_bucket w_key Hb Hb (or_introl eq_refl)).
Defined.

(** An error of [commit_staged_object] does not mean that the previous object
    was kept. When the removal of the object backup fails, after both renames,
    the caller is told of an I/O error although the new object is published and
    is what a read returns. *)
Theorem error_after_publication :
  ∃ (s : StagedObject) (md : ObjectMetadata) (w : World),
    let '(r, w') := commit_staged_object s md w in
    is_ok r = false ∧ (open_object w_bucket w_key w).1 = Ok (Some (w_object 3, "old")) ∧
    (open_object w_bucket w_key w').1 = Ok (Some (md, "new")).
Proof.
  exists w_staged, (w_object 4), (w_world 7).
  rewrite (w_commit_runs 7). split_and!; vm_refl.
Qed.
End witnesses.
