(* ===== verification/StoreTrait.v ===== *)
(** * The object store as its clients see it (storage/mod.rs)

    Handlers call the store through a trait, so that an application can supply a
    store of its own. [ObjectStoreOps] is the trait, [file_object_store] the store
    of the default configuration. [ObjectStoreContract] states what handlers
    rely on: the store keeps a map of objects, and staged bytes apart from it.
    What is proved of a handler against the contract holds with every store that
    keeps it; [file_object_contract] shows that the file store does. *)

From S2P Require Import Prelude RustStd BTree S3Error Externals Reference Types StoreModel ReferenceJson.
From S2P Require Import FileSystem ObjectStore ObjectProofs ObjectSpec.
From Stdlib Require Import ZArith Lia.
Local Open Scope Z_scope.

(** The id of the temporary object, which the file store draws itself, is an
    argument. Temporary objects can only be made by the file store, so that a
    custom store hands on those of a file store it wraps. *)
(* @src src/src/storage/mod.rs 42-77 ObjectStore *)
Class ObjectStoreOps `{UuidLib} := {
  store_create_temp_object : Uuid → BucketName → ObjectKey → io StagedObject;
  store_commit_staged_object : StagedObject → ObjectMetadata → io ();
  store_head_object : BucketName → ObjectKey → io (option ObjectMetadata);
  store_open_object : BucketName → ObjectKey → io (option (ObjectMetadata * bytes));
  store_delete_object : BucketName → ObjectKey → io ();
}.

Section store.
Context `{CodecLib} `{CryptoLib} `{UuidLib} `{JsonLib}.
Implicit Types (n : nat) (fs : gmap path bytes) (ss : gmap str UploadSession) (objs : objects).

(* @src src/src/storage/mod.rs 79-121 ObjectStore for FileObjectStore *)
#[export] Instance file_object_store : ObjectStoreOps := {
  store_create_temp_object fresh bucket key := create_temp_object fresh;
  store_commit_staged_object := commit_staged_object;
  store_head_object := head_object;
  store_open_object := open_object;
  store_delete_object := delete_object;
}.

(** [contains fs objs]: on the disk [fs] the store holds the objects [objs].
    [staging fs objs st c]: it does, and the staged file [st] has the bytes [c]. *)
Class ObjectStoreContract (St : ObjectStoreOps) := {
  contains : gmap path bytes → objects → Prop;
  staging : gmap path bytes → objects → StagedObject → bytes → Prop;
  head_law b k n fs ss objs Q :
    contains fs objs → Q (Ok (fst <$> objs !! object_digest b k)) n fs ss →
    (∀ (e : StoreError) n', n = S n' → Q (Err e) n' fs ss) → wp (store_head_object b k) n fs ss Q;
  open_law b k n fs ss objs Q :
    contains fs objs → Q (Ok (objs !! object_digest b k)) n fs ss →
    (∀ (e : StoreError) n', n = S n' → Q (Err e) n' fs ss) → wp (store_open_object b k) n fs ss Q;
  delete_law b k n fs ss objs Q :
    contains fs objs →
    (∀ r n' fs', (n' ≤ n)%nat →
       contains fs' (delete (object_digest b k) objs) ∨ (is_ok r = false ∧ contains fs' objs) →
       (n = 0%nat → r = Ok ()) → Q r n' fs' ss) → wp (store_delete_object b k) n fs ss Q;
  create_law u b k n fs ss objs Q :
    contains fs objs → (∀ st fs', staging fs' objs st [] → Q (Ok st) n fs' ss) →
    (∀ e n' fs', n = S n' → Q (Err e) n' fs' ss) → wp (store_create_temp_object u b k) n fs ss Q;
  commit_law st md c n fs ss objs Q :
    staging fs objs st c →
    (∀ n' fs', (n' ≤ n)%nat → contains fs' (<[target_digest md := (md, c)]> objs) → Q (Ok ()) n' fs' ss) →
    (∀ e n' fs', (n' ≤ n)%nat →
       (n = 0%nat → json_of_object md = None ∧ e = Json ∧ contains fs' objs) → Q (Err e) n' fs' ss) →
    wp (store_commit_staged_object st md) n fs ss Q;
  staging_bytes fs objs st c : staging fs objs st c → fs !! so_path st = Some c;
  staging_write fs objs st c c' : staging fs objs st c → staging (<[so_path st := c']> fs) objs st c';
  staging_drop fs objs st c : staging fs objs st c → contains (delete (so_path st) fs) objs;
}.

(** ** The file store keeps the contract *)

Definition file_staging fs objs (st : StagedObject) (c : bytes) : Prop :=
  ∃ u fs0, refines fs0 objs ∧ st = mkStaged u (tmp_file u ".part") ∧ fs = <[so_path st := c]> fs0.

Lemma wp_commit_any u md c n fs ss objs Q :
  refines fs objs →
  (∀ n' fs', (n' ≤ n)%nat → refines fs' (<[target_digest md := (md, c)]> objs) → Q (Ok ()) n' fs' ss) →
  (∀ e n' fs', (n' ≤ n)%nat →
     (n = 0%nat → json_of_object md = None ∧ e = Json ∧ refines fs' objs) → Q (Err e) n' fs' ss) →
  wp (commit_staged_object (mkStaged u (tmp_file u ".part")) md) n (<[tmp_file u ".part" := c]> fs) ss Q.
Proof.
  intros Hr HOk HErr. set (p := tmp_file u ".part"). destruct (decide (n = 0%nat)) as [->|Hn].
  { apply wp_commit_refines with objs; [done|]. intros fs' _. destruct (json_of_object md) eqn:Hj; intros Hr'.
    - by apply HOk.
    - by apply HErr. }
  pose proof Hr as [Htmp Hm]. eapply wp_mono.
  { apply wp_commit_staged_object; [done|].
    repeat constructor; rewrite lookup_insert_ne by (by apply tmp_file_ne); apply Htmp. }
  intros [[]|e] n' fs' ss' Hpost; pose proof Hpost as (-> & Hle & _ & Hnone & Hres); [|by apply HErr].
  apply HOk; [done|]. destruct (target_holds _ _ _ _ Hres) as (c' & Hc & Ho). simpl in Hc.
  rewrite lookup_insert_eq in Hc. injection Hc as <-.
  refine (refines_commit u md _ _ _ _ _ _ _ objs (Some (md, c)) Hpost _ (Hnone (or_introl eq_refl)) _ Ho).
  - intros name Hin. rewrite lookup_insert_ne; [apply Htmp|]. intros Hp. apply Hin. rewrite <- Hp. apply list_elem_of_here.
  - intros d _. apply holds_frame with fs; [by rewrite lookup_insert_ne|by rewrite lookup_insert_ne|done].
Qed.

#[export] Program Instance file_object_contract : ObjectStoreContract file_object_store := {
  contains := refines;
  staging := file_staging;
}.
Next Obligation. intros b k n fs ss objs Q [_ Hm] HQ HE. by apply wp_head_object with (objs !! object_digest b k). Qed.
Next Obligation. intros b k n fs ss objs Q [_ Hm] HQ HE. by apply wp_open_object with (objs !! object_digest b k). Qed.
Next Obligation.
  intros b k n fs ss objs Q Hr HQ. apply wp_delete_object. intros n' fs' r Hle Hf Hfs Hok Hz.
  apply HQ; [done| |done]. destruct r as [[]|e]; [left; apply refines_delete with fs; auto|].
  destruct Hfs as [->|Hnone]; [by right|]. left. by apply refines_delete with fs.
Qed.
Next Obligation.
  intros u b k n fs ss objs Q Hr HOk HErr. apply wp_bind, wp_call; simpl.
  - apply wp_ret, HOk. by exists u, fs.
  - intros f n' ->. by apply HErr.
Qed.
Next Obligation.
  intros st md c n fs ss objs Q (u & fs0 & Hr & -> & ->) HOk HErr. by apply wp_commit_any with objs.
Qed.
Next Obligation. intros fs objs st c (u & fs0 & _ & -> & ->). by rewrite lookup_insert_eq. Qed.
Next Obligation.
  intros fs objs st c c' (u & fs0 & Hr & -> & ->). exists u, fs0. by rewrite insert_insert_eq.
Qed.
Next Obligation.
  intros fs objs st c (u & fs0 & Hr & -> & ->). cbn [so_path]. rewrite delete_insert_eq, delete_id; [done|]. apply Hr.
Qed.
End store.
