(* ===== verification/Middleware.v ===== *)
(** * Upload processors (middleware.rs)

    Processors run one after the other on the staged bytes; each may keep them
    or replace them by a file it has written. The processors themselves are the
    embedding application's: they are arguments here. *)

From S2P Require Import Prelude RustStd BTree S3Error Externals Reference Types StoreModel ReferenceJson.
From S2P Require Import FileSystem ObjectStore ObjectProofs.
From Stdlib Require Import ZArith Lia.
Local Open Scope Z_scope.

(* @src src/src/middleware.rs 30-36 UploadProcessorOperation *)
Inductive UploadProcessorOperation := OpPutObject | OpCompleteMultipartUpload.

(* @src src/src/middleware.rs 39-55 UploadProcessorContext *)
Record UploadProcessorContext := mkContext {
  pc_request_id : RequestId;
  pc_bucket : BucketName;
  pc_key : ObjectKey;
  pc_operation : UploadProcessorOperation;
  pc_original_size : ContentLength;
  pc_content_type : option str;
  pc_user_metadata : btree str str;
}.

(* @src src/src/middleware.rs 58-65 UploadProcessorRequest *)
Record UploadProcessorRequest := mkProcessorRequest {
  pr_context : UploadProcessorContext;
  pr_current_path : path;
  pr_replacement_path : path;
}.

(* @src src/src/middleware.rs 147-153 UploadProcessorAction *)
Inductive UploadProcessorAction := Keep | Replace.

(* @src src/src/middleware.rs 156-163 UploadProcessorError *)
Inductive UploadProcessorError := Rejected (message : str) | Failed (message : str).

(* @src src/src/middleware.rs 176-182 UploadProcessor *)
Definition UploadProcessor : Type :=
  UploadProcessorRequest → ioE UploadProcessorError UploadProcessorAction.

(** The messages of [StoreError] and [io::Error]. *)
Definition io_error_msg (e : IoError) : str :=
  match e with
  | NotFound => "entity not found"
  | AlreadyExists => "entity already exists"
  | OtherIo msg => msg
  end.
(* @src src/src/storage/mod.rs 248-288 StoreError *)
Definition store_error_msg (e : StoreError) : str :=
  match e with
  | Io _ => "storage I/O failed"
  | Json => "failed to encode or decode storage metadata"
  | InvalidPath p => "invalid storage path: " ++ join "/" p
  | StoreInvalidUploadId => "invalid upload ID"
  | NoSuchUpload => "multipart upload does not exist"
  | InvalidPart => "multipart upload part is invalid"
  | EntityTooSmall => "multipart upload part is smaller than the minimum allowed size"
  | EntityTooLarge => "entity is larger than the maximum allowed size"
  | ChecksumError _ => "checksum validation failed"
  | Processor _ => "upload processor failed"
  end.

(* @src src/src/middleware.rs 265-272 map_processor_error *)
Definition map_processor_error (error : UploadProcessorError) : S3Error :=
  match error with
  | Rejected message => access_denied message
  | Failed message => internal ("upload processor failed: " ++ message)
  end.

(* @src src/src/middleware.rs 274-282 remove_unused_replacement *)
Definition remove_unused_replacement (p : path) : ioE S3Error () :=
  removed ← attempt (fs_remove_file p);
  match removed with
  | Ok _ => mret ()
  | Err (Io NotFound) => mret ()
  | Err e =>
      throw (internal ("failed to remove unused upload processor replacement file: " ++
        match e with Io e => io_error_msg e | e => store_error_msg e end))
  end.

Section process.
Context `{UuidLib}.

(** One processor; [replacement_id] is the result of [Uuid::new_v4]. *)
(* @src src/src/middleware.rs 227-261 process_staged_upload *)
Definition process_one (staged : StagedObject) (context : UploadProcessorContext)
    (replacement_id : Uuid) (processor : UploadProcessor) : ioE S3Error () :=
  let replacement := replacement_path staged replacement_id in
  outcome ← attempt (processor (mkProcessorRequest context (so_path staged) replacement));
  match outcome with
  | Err error =>
      _ ← drop_guard (so_path staged) (remove_unused_replacement replacement);
      _ ← ignore (discard staged);
      throw (map_processor_error error)
  | Ok Keep => drop_guard (so_path staged) (remove_unused_replacement replacement)
  | Ok Replace =>
      replaced ← attempt (replace_with staged replacement);
      match replaced with
      | Ok _ => mret ()
      | Err error =>
          _ ← ignore (discard staged);
          throw (internal ("failed to replace staged upload: " ++ store_error_msg error))
      end
  end.

(** The processors in order, each with the fresh id of its replacement file. *)
(* @src src/src/middleware.rs 223-263 process_staged_upload *)
Fixpoint process_staged_upload (processors : list (Uuid * UploadProcessor)) (staged : StagedObject)
    (context : UploadProcessorContext) : ioE S3Error StagedObject :=
  match processors with
  | [] => mret staged
  | (replacement_id, processor) :: processors =>
      _ ← process_one staged context replacement_id processor;
      process_staged_upload processors staged context
  end.

(* @src src/src/middleware.rs 297-299 processors_are_empty *)
Definition processors_are_empty (processors : list (Uuid * UploadProcessor)) : bool :=
  is_empty processors.

(** ** Processors as functions

    [runs_as p f]: on staged bytes [c], the processor [p] does what [f c] says
    (keep, replace by new bytes, or an error) and writes no file but the
    replacement file reserved for it. *)
Definition runs_as (p : UploadProcessor) (f : bytes → result UploadProcessorError (option bytes)) : Prop :=
  ∀ ctx cur rep fs ss c, fs !! cur = Some c → cur ≠ rep →
    wp (p (mkProcessorRequest ctx cur rep)) 0 fs ss (λ r n' fs' ss',
      n' = 0%nat ∧ ss' = ss ∧ (∀ q, q ≠ rep → fs' !! q = fs !! q) ∧
      match f c with
      | Ok None => r = Ok Keep
      | Ok (Some c') => r = Ok Replace ∧ fs' !! rep = Some c'
      | Err e => r = Err e
      end).

Fixpoint run_processors (funs : list (bytes → result UploadProcessorError (option bytes))) (c : bytes)
  : result UploadProcessorError bytes :=
  match funs with
  | [] => Ok c
  | f :: funs => o ← f c; run_processors funs (default c o)
  end.

Lemma replacement_ne s u : staged_ok s → so_path s ≠ replacement_path s u.
Proof.
  unfold staged_ok, replacement_path, tmp_file. intros ->. simpl. intros [= Heq].
  apply app_inj_1 in Heq as [_ Heq]; [done|]. by rewrite !uuid_to_string_length.
Qed.

Lemma wp_drop_guard {E A : Type} (p : path) (m : ioE E A) fs ss Q :
  wp m 0 fs ss (λ r n' fs' ss',
    match r with Ok a => Q (Ok a) n' fs' ss' | Err e => n' = 0%nat ∧ Q (Err e) 0%nat (delete p fs') ss' end) →
  wp (drop_guard p m) 0 fs ss Q.
Proof.
  intros Hwp. apply wp_bind, wp_attempt. eapply wp_mono; [exact Hwp|].
  intros [a|e] n' fs' ss' HQ; simpl; [by apply wp_ret|]. destruct HQ as [-> HQ].
  apply wp_bind, wp_ignore, wp_remove_file_if_exists; [by apply wp_throw|done].
Qed.

Lemma wp_remove_unused_replacement p fs ss Q :
  Q (Ok ()) 0%nat (delete p fs) ss → wp (remove_unused_replacement p) 0 fs ss Q.
Proof.
  intros HQ. apply wp_bind, wp_attempt, wp_call; [|done]. simpl.
  destruct (fs !! p) eqn:Hp; simpl; apply wp_ret; [done|]. by rewrite delete_id in HQ.
Qed.

Lemma wp_process_one s ctx u p f fs ss c :
  staged_ok s → runs_as p f → fs !! so_path s = Some c →
  wp (process_one s ctx u p) 0 fs ss (λ r n' fs' ss',
    n' = 0%nat ∧ ss' = ss ∧ fs' !! replacement_path s u = None ∧
    (∀ q, q ≠ so_path s → q ≠ replacement_path s u → fs' !! q = fs !! q) ∧
    match f c with
    | Ok o => r = Ok () ∧ fs' !! so_path s = Some (default c o)
    | Err e => r = Err (map_processor_error e) ∧ fs' !! so_path s = None
    end).
Proof.
  intros Hs Hp Hc. pose proof (replacement_ne s u Hs) as Hne.
  apply wp_bind, wp_attempt. eapply wp_mono; [by apply Hp|]. cbv beta.
  intros r n' fs' ss' (-> & -> & Hf & Hr).
  pose proof (Hf (so_path s) Hne) as Hc'. rewrite Hc in Hc'.
  destruct (f c) as [[c'|]|e].
  - destruct Hr as [-> Hrep]. apply wp_bind, wp_attempt.
    apply wp_bind, wp_call; [|done]. simpl. rewrite Hrep; simpl.
    apply wp_bind, wp_remove_file_if_exists; [|done].
    apply wp_rename; [|by rewrite lookup_delete_ne, Hrep by done|done].
    intros c''. rewrite lookup_delete_ne, Hrep by done. intros [= <-]. apply wp_ret.
    split_and!; auto; try (by simplify_map_eq);
      intros q ??; rewrite ?lookup_insert_ne, ?lookup_delete_ne by done; by apply Hf.
  - subst r. apply wp_drop_guard, wp_remove_unused_replacement.
    split_and!; auto; try (by simplify_map_eq);
      intros q ??; rewrite ?lookup_insert_ne, ?lookup_delete_ne by done; by apply Hf.
  - subst r. apply wp_bind, wp_drop_guard, wp_remove_unused_replacement.
    apply wp_bind, wp_ignore, wp_remove_file_if_exists; [|done]. apply wp_throw.
    split_and!; auto; try (by simplify_map_eq);
      intros q ??; rewrite ?lookup_insert_ne, ?lookup_delete_ne by done; by apply Hf.
Qed.

Lemma wp_process_staged_upload s ctx procs funs fs ss c :
  staged_ok s → Forall2 (λ up f, runs_as up.2 f) procs funs → fs !! so_path s = Some c →
  wp (process_staged_upload procs s ctx) 0 fs ss (λ r n' fs' ss',
    n' = 0%nat ∧ ss' = ss ∧
    (∀ q, q ≠ so_path s → fs' !! q = fs !! q ∨ (q ∈ replacement_path s <$> procs.*1 ∧ fs' !! q = None)) ∧
    match run_processors funs c with
    | Ok c' => r = Ok s ∧ fs' !! so_path s = Some c'
    | Err e => r = Err (map_processor_error e) ∧ fs' !! so_path s = None
    end).
Proof.
  intros Hs Hps. revert fs c. induction Hps as [|[u p] f procs funs Hp Hps IH]; intros fs c Hc; simpl.
  { apply wp_ret. split_and!; auto. }
  apply wp_bind. eapply wp_mono; [by apply wp_process_one|]. cbv beta.
  intros r n' fs' ss' (-> & -> & Hnone & Hf & Hr).
  destruct (f c) as [o|e]; destruct Hr as [-> Hc']; simpl.
  - eapply wp_mono; [by apply IH|]. cbv beta. intros r n' fs'' ss' (-> & -> & Hf' & Hr').
    split_and!; [done|done| |done]. intros q Hq.
    destruct (Hf' q Hq) as [->|[Hin Hn]]; [|right; split; [by right|done]].
    destruct (decide (q = replacement_path s u)) as [->|Hne]; [right; split; [by left|done]|left; auto].
  - split_and!; auto. intros q Hq.
    destruct (decide (q = replacement_path s u)) as [->|Hne]; [right; split; [by left|done]|left; auto].
Qed.

(** Upload processors compose. When the processors behave as the functions
    [funs] and the file system does not fail, the staged file ends up with the
    bytes the functions give in sequence; if one of them rejects or fails, the
    upload fails with its error (access denied for a rejection, internal for a
    failure), the later processors are not run and the staged file is gone.
    Every other file is as it was, except that replacement files are removed. *)
Theorem processors_compose s ctx procs funs (w w' : World) r c :
  staged_ok s → faults w = [] → Forall2 (λ up f, runs_as up.2 f) procs funs →
  files w !! so_path s = Some c → process_staged_upload procs s ctx w = (r, w') →
  (∀ q, q ≠ so_path s →
     files w' !! q = files w !! q ∨ (q ∈ replacement_path s <$> procs.*1 ∧ files w' !! q = None)) ∧
  match run_processors funs c with
  | Ok c' => r = Ok s ∧ files w' !! so_path s = Some c'
  | Err e => r = Err (map_processor_error e) ∧ files w' !! so_path s = None
  end.
Proof.
  intros Hs Hfl Hps Hc Hrun. assert (budget w = 0%nat) as Hb by (unfold budget; by rewrite Hfl).
  pose proof (wp_process_staged_upload s ctx procs funs _ (sessions w) c Hs Hps Hc) as Hwp.
  rewrite <- Hb in Hwp. by apply (wp_run _ _ _ _ _ Hrun) in Hwp as (_ & _ & ? & ?).
Qed.
End process.

(** ** Witness: a processor that replaces the bytes, then one that rejects *)
Section witnesses.
Local Existing Instances ref_uuid.

Definition w_replace : UploadProcessor := λ req,
  _ ← map_io_err (λ e, Failed (store_error_msg e)) (fs_write (pr_replacement_path req) "clean");
  mret Replace.
Definition w_reject : UploadProcessor := λ _, throw (Rejected "virus").

Lemma w_replace_runs : runs_as w_replace (λ _, Ok (Some "clean")).
Proof.
  intros ctx cur rep fs ss c Hc Hne. apply wp_bind, wp_map_io_err, wp_write; [|done]. simpl.
  apply wp_ret. split_and!; auto; intros; by simplify_map_eq.
Qed.
Lemma w_reject_runs : runs_as w_reject (λ _, Err (Rejected "virus")).
Proof. intros ctx cur rep fs ss c Hc Hne. by apply wp_throw. Qed.

Definition w_id : Uuid := exist _ "123e4567-e89b-42d3-a456-426614174000" I.
Definition w_upload : StagedObject := mkStaged w_id (tmp_file w_id ".part").
Definition w_context : UploadProcessorContext :=
  mkContext (mkRequestId "r") (mkBucketName "b") (mkObjectKey "k") OpPutObject (mkContentLength 5) None [].
Definition w_staged_world : World := mkWorld {[ so_path w_upload := "dirty" ]} ∅ [].

Lemma processors_compose_witness :
  (process_staged_upload [(w_id, w_replace); (w_id, w_reject)] w_upload w_context w_staged_world).1 =
  Err (access_denied "virus").
Proof.
  destruct (process_staged_upload _ _ _ _) as [r w'] eqn:Hrun.
  destruct (processors_compose w_upload w_context [(w_id, w_replace); (w_id, w_reject)]
    [λ _, Ok (Some "clean"); λ _, Err (Rejected "virus")] w_staged_world w' r "dirty") as [_ Hr];
    [done|done| |done|done|].
  - constructor; [apply w_replace_runs|]. constructor; [apply w_reject_runs|constructor].
  - simpl in Hr. by destruct Hr as [-> _].
Defined.
End witnesses.
