(* ===== verification/ProcessorHandle.v ===== *)
(** * Closure-backed upload processors (middleware.rs)

    The handle a closure works with, the adapter that makes a processor of the
    closure, and what closures written with the handle compute. *)

From S2P Require Import Prelude RustStd BTree S3Error Externals Reference Types StoreModel ReferenceJson.
From S2P Require Import FileSystem ObjectStore ObjectProofs Middleware.
From Stdlib Require Import ZArith Lia.
Local Open Scope Z_scope.

(* @src src/src/middleware.rs 67-73 UploadProcessorHandle *)
Record UploadProcessorHandle := mkHandle {
  uh_context : UploadProcessorContext;
  uh_current_path : path;
  uh_replacement_path : path;
}.

(* @src src/src/middleware.rs 75-82 UploadProcessorHandle::from_request *)
Definition from_request (request : UploadProcessorRequest) : UploadProcessorHandle :=
  mkHandle (pr_context request) (pr_current_path request) (pr_replacement_path request).

(* @src src/src/middleware.rs 165-171 UploadProcessorError::fmt *)
Definition processor_error_message (e : UploadProcessorError) : str :=
  match e with Rejected message | Failed message => message end.
(* @src src/src/middleware.rs 284-288 From<StoreError> *)
Definition processor_error_from_store (error : StoreError) : UploadProcessorError := Failed (store_error_msg error).
(** The calls of tokio give [Io] errors only. *)
(* @src src/src/middleware.rs 290-294 From<io::Error> *)
Definition processor_error_from_io (error : StoreError) : UploadProcessorError :=
  Failed (match error with Io error => io_error_msg error | error => store_error_msg error end).

(* @src src/src/middleware.rs 99-107 UploadProcessorHandle::read_current *)
Definition read_current (h : UploadProcessorHandle) : ioE UploadProcessorError bytes :=
  map_io_err processor_error_from_io (fs_read (uh_current_path h)).
(* @src src/src/middleware.rs 109-117 UploadProcessorHandle::write_replacement *)
Definition write_replacement (h : UploadProcessorHandle) (content : bytes) : ioE UploadProcessorError () :=
  map_io_err processor_error_from_io (fs_write (uh_replacement_path h) content).
(* @src src/src/middleware.rs 119-122 UploadProcessorHandle::keep *)
Definition keep (h : UploadProcessorHandle) : UploadProcessorAction := Keep.
(* @src src/src/middleware.rs 124-127 UploadProcessorHandle::replace *)
Definition replace (h : UploadProcessorHandle) : UploadProcessorAction := Replace.
(* @src src/src/middleware.rs 129-135 UploadProcessorHandle::reject *)
Definition reject (h : UploadProcessorHandle) (message : str) : result UploadProcessorError UploadProcessorAction :=
  Err (Rejected message).
(* @src src/src/middleware.rs 137-143 UploadProcessorHandle::fail *)
Definition fail (h : UploadProcessorHandle) (message : str) : result UploadProcessorError UploadProcessorAction :=
  Err (Failed message).

(* @src src/src/middleware.rs 184-201 UploadProcessorFn *)
Record UploadProcessorFn := mkProcessorFn {
  pf_name : str;
  pf_handler : UploadProcessorHandle → ioE UploadProcessorError UploadProcessorAction;
}.
(* @src src/src/middleware.rs 203-215 UploadProcessorFn::process *)
Definition process_fn (p : UploadProcessorFn) : UploadProcessor :=
  λ request, let handle := from_request request in pf_handler p handle.

(** ** Closures that use the handle only

    A closure that reads the staged bytes, writes replacement bytes and returns,
    in any order and any number of times, its errors passed on with [?]. *)
Inductive HandleProgram :=
| HReturn (finish : UploadProcessorHandle → result UploadProcessorError UploadProcessorAction)
| HRead (next : bytes → HandleProgram)
| HWrite (content : bytes) (next : HandleProgram).

Fixpoint handler_of (p : HandleProgram) (h : UploadProcessorHandle) : ioE UploadProcessorError UploadProcessorAction :=
  match p with
  | HReturn finish => lift (finish h)
  | HRead next => c ← read_current h; handler_of (next c) h
  | HWrite content next => _ ← write_replacement h content; handler_of next h
  end.

(** What it computes on staged bytes [c], when [written] is the replacement
    written last: [None] when it replaces without having written. What a
    closure returns does not depend on the paths of its handle. *)
Fixpoint denotes (p : HandleProgram) (written : option bytes) (c : bytes)
    (o : result UploadProcessorError (option bytes)) : Prop :=
  match p with
  | HReturn finish =>
      ∀ h, match o with
           | Ok None => finish h = Ok Keep
           | Ok (Some c') => finish h = Ok Replace ∧ written = Some c'
           | Err e => finish h = Err e
           end
  | HRead next => denotes (next c) written c o
  | HWrite content next => denotes next (Some content) c o
  end.

Lemma wp_handler_of (p : HandleProgram) (h : UploadProcessorHandle) (fs : gmap path bytes) ss c written o :
  denotes p written c o → fs !! uh_current_path h = Some c → uh_current_path h ≠ uh_replacement_path h →
  (∀ c', written = Some c' → fs !! uh_replacement_path h = Some c') →
  wp (handler_of p h) 0 fs ss (λ r n' fs' ss',
    n' = 0%nat ∧ ss' = ss ∧ (∀ q, q ≠ uh_replacement_path h → fs' !! q = fs !! q) ∧
    match o with
    | Ok None => r = Ok Keep
    | Ok (Some c') => r = Ok Replace ∧ fs' !! uh_replacement_path h = Some c'
    | Err e => r = Err e
    end).
Proof.
  intros Hp Hc Hne. revert fs written Hp Hc.
  induction p as [finish|next IH|content next IH]; intros fs written Hp Hc Hw; simpl in *.
  - apply wp_lift. split_and!; auto. specialize (Hp h). destruct o as [[c'|]|e]; auto.
    destruct Hp as [-> Hp]. auto.
  - apply wp_bind, wp_map_io_err, wp_call; [|done]. simpl. rewrite Hc. simpl. by eapply IH.
  - apply wp_bind, wp_map_io_err, wp_write; [|done]. simpl. eapply wp_mono.
    + eapply (IH _ (Some content)); [done|by rewrite lookup_insert_ne|].
      intros c' [= ->]. by rewrite lookup_insert_eq.
    + cbv beta. intros r n' fs' ss' (-> & -> & Hf & Hr). split_and!; auto. intros q Hq.
      by rewrite Hf, lookup_insert_ne.
Qed.

(** A closure that uses its handle only is a processor that behaves as the
    function it denotes, so [processors_compose] and the theorems on uploads
    with processors apply to it. *)
Theorem closure_runs_as name (p : HandleProgram) f :
  (∀ c, denotes p None c (f c)) → runs_as (process_fn (mkProcessorFn name (handler_of p))) f.
Proof.
  intros Hp ctx cur rep fs ss c Hc Hne.
  apply (wp_handler_of p (from_request (mkProcessorRequest ctx cur rep)) fs ss c None); auto. by intros.
Qed.

Section process.
Context `{UuidLib}.

(** A processor that answers Replace and has written no replacement fails the
    upload, and the staged bytes are gone. *)
Theorem replace_without_file s ctx u name fs ss c :
  staged_ok s → fs !! so_path s = Some c → fs !! replacement_path s u = None →
  is_dir fs (replacement_path s u) = false →
  wp (process_one s ctx u (process_fn (mkProcessorFn name (λ h, lift (Ok (replace h)))))) 0 fs ss (λ r n' fs' ss',
    n' = 0%nat ∧ ss' = ss ∧ r = Err (internal "failed to replace staged upload: storage I/O failed") ∧
    fs' = delete (so_path s) fs).
Proof.
  intros Hs Hc Hr Hd. apply wp_bind, wp_attempt, wp_lift. apply wp_bind, wp_attempt, wp_bind, wp_call; [|done].
  simpl. rewrite Hr, Hd. simpl. apply wp_bind, wp_ignore, wp_remove_file_if_exists; [by apply wp_throw|done].
Qed.
End process.

(** The processor of the documentation that upper-cases what is uploaded. *)
Definition w_uppercase : HandleProgram :=
  HRead (λ c, HWrite (to_ascii_uppercase c) (HReturn (λ h, Ok (replace h)))).
Lemma closure_runs_as_witness :
  runs_as (process_fn (mkProcessorFn "uppercase" (handler_of w_uppercase))) (λ c, Ok (Some (to_ascii_uppercase c))).
Proof. apply closure_runs_as. by split. Defined.
