(* ===== verification/Assembly.v ===== *)
(** * Reading and assembling files (storage/complete_checksum.rs)

    The digests computed while the parts of a multipart upload are assembled,
    and the summary of a staged file, read from the file system in pieces of
    the configured buffer size. *)

From S2P Require Import Prelude RustStd BTree S3Error Externals Reference Types StoreModel.
From S2P Require Import Chunked ChunkedProofs Checksum Upload FileSystem ObjectStore ObjectProofs Middleware.
From Stdlib Require Import ZArith Lia.
Local Open Scope Z_scope.

(** The successive reads of a file with a buffer of [size] bytes. *)
Fixpoint chunks_fuel (fuel : nat) (size : nat) (content : bytes) : list bytes :=
  match fuel, content with
  | S fuel, _ :: _ =>
      if (size =? 0)%nat then [] else take size content :: chunks_fuel fuel size (drop size content)
  | _, _ => []
  end.
Definition file_chunks (size : Z) (content : bytes) : list bytes :=
  chunks_fuel (length content) (Z.to_nat size) content.

Section assembly.
Context `{CryptoLib}.

(* @src src/src/storage/complete_checksum.rs 11-18 MultipartCompleteChecksumState *)
Record MultipartCompleteChecksumState := mkCompleteState {
  mc_md5 : option (sh_state Md5);
  mc_sha1 : option (sh_state Sha1);
  mc_sha256 : option (sh_state Sha256);
  mc_sha512 : option (sh_state Sha512);
  mc_crc32 : option (sh_state CRC32);
  mc_crc32c : option (sh_state CRC32C);
}.

(** [condition.then(new)]. *)
Definition then_new {Out} (wanted : bool) (h : StreamHash Out) : option (sh_state h) :=
  if wanted then Some (sh_new h) else None.

(* @src src/src/storage/complete_checksum.rs 22-31 MultipartCompleteChecksumState::new *)
Definition new_complete_state (r : ChecksumRequest) : MultipartCompleteChecksumState := {|
  mc_md5 := then_new (requires_md5 r) Md5;
  mc_sha1 := then_new (requires_sha1 r) Sha1;
  mc_sha256 := then_new (requires_sha256 r) Sha256;
  mc_sha512 := then_new (requires_sha512 r) Sha512;
  mc_crc32 := then_new (requires_crc32 r) CRC32;
  mc_crc32c := then_new (requires_crc32c r) CRC32C;
|}.

(* @src src/src/storage/complete_checksum.rs 36-55 MultipartCompleteChecksumState::update *)
Definition update_complete (st : MultipartCompleteChecksumState) (b : bytes) : MultipartCompleteChecksumState := {|
  mc_md5 := (λ h, sh_update Md5 h b) <$> mc_md5 st;
  mc_sha1 := (λ h, sh_update Sha1 h b) <$> mc_sha1 st;
  mc_sha256 := (λ h, sh_update Sha256 h b) <$> mc_sha256 st;
  mc_sha512 := (λ h, sh_update Sha512 h b) <$> mc_sha512 st;
  mc_crc32 := (λ h, sh_update CRC32 h b) <$> mc_crc32 st;
  mc_crc32c := (λ h, sh_update CRC32C h b) <$> mc_crc32c st;
|}.

(* @src src/src/storage/complete_checksum.rs 58-85 MultipartCompleteChecksumState::finalize *)
Definition finalize_complete (st : MultipartCompleteChecksumState) : ChecksumDigests := {|
  cd_md5 := finalize_or Md5 [] (mc_md5 st);
  cd_sha1 := finalize_or Sha1 [] (mc_sha1 st);
  cd_sha256 := finalize_or Sha256 [] (mc_sha256 st);
  cd_sha512 := finalize_or Sha512 [] (mc_sha512 st);
  cd_crc32 := finalize_or CRC32 0 (mc_crc32 st);
  cd_crc32c := finalize_or CRC32C 0 (mc_crc32c st);
|}.

(** [summarize_staged_upload] on a file of the file system. *)
(* @src src/src/body/upload.rs 46-91 summarize_staged_upload *)
Definition summarize_file (p : path) (buffer_size : Z) : ioE S3Error FinalUploadBody :=
  opened ← attempt (fs_read p);
  lift (summarize_staged_upload
    match opened with
    | Ok content => Ok ((Ok <$> file_chunks buffer_size content) ++ [Ok []])
    | Err (Io e) => Err (io_error_msg e)
    | Err e => Err (store_error_msg e)
    end).

(** ** Facts *)

Lemma chunks_fuel_spec fuel size c :
  (0 < size)%nat → (length c ≤ fuel)%nat →
  concat (chunks_fuel fuel size c) = c ∧ Forall (λ x, x ≠ []) (chunks_fuel fuel size c).
Proof.
  intros Hs. revert c. induction fuel as [|fuel IH]; intros [|a c] Hl; simpl in *; try lia; [done|done|].
  destruct size as [|size]; [lia|]. simpl. destruct (IH (drop size c)) as [IHc IHn].
  { rewrite length_drop. lia. }
  rewrite IHc, take_drop. split; [done|]. by constructor.
Qed.

Lemma file_chunks_spec size c :
  0 < size → concat (file_chunks size c) = c ∧ Forall (λ x, x ≠ []) (file_chunks size c).
Proof. intros Hs. apply chunks_fuel_spec; lia. Qed.

(** The digest of an enabled algorithm is that of the whole data. *)
Lemma fold_enabled {Out} (h : StreamHash Out) (d : Out) (wanted : bool) cs :
  wanted = true →
  finalize_or h d (foldl (λ o b, (λ s, sh_update h s b) <$> o) (then_new wanted h) cs) = sh_hash h (concat cs).
Proof.
  intros ->. unfold then_new. rewrite <- sh_chunks. generalize (sh_new h) as s.
  induction cs as [|c cs IH]; intros s; simpl; [done|]. apply IH.
Qed.

Lemma fold_update_complete cs st :
  foldl update_complete st cs = {|
    mc_md5 := foldl (λ o b, (λ s, sh_update Md5 s b) <$> o) (mc_md5 st) cs;
    mc_sha1 := foldl (λ o b, (λ s, sh_update Sha1 s b) <$> o) (mc_sha1 st) cs;
    mc_sha256 := foldl (λ o b, (λ s, sh_update Sha256 s b) <$> o) (mc_sha256 st) cs;
    mc_sha512 := foldl (λ o b, (λ s, sh_update Sha512 s b) <$> o) (mc_sha512 st) cs;
    mc_crc32 := foldl (λ o b, (λ s, sh_update CRC32 s b) <$> o) (mc_crc32 st) cs;
    mc_crc32c := foldl (λ o b, (λ s, sh_update CRC32C s b) <$> o) (mc_crc32c st) cs |}.
Proof. revert st. induction cs as [|c cs IH]; intros st; simpl; [by destruct st|]. by rewrite IH. Qed.

(** Validation looks only at the digests that were requested, which are the
    ones computed. *)
Lemma validate_enabled r cs :
  validate r (finalize_complete (foldl update_complete (new_complete_state r) cs)) =
  validate r (true_digests (concat cs)).
Proof.
  rewrite fold_update_complete. unfold validate, finalize_complete, new_complete_state, check_digest.
  cbn [mc_md5 mc_sha1 mc_sha256 mc_sha512 mc_crc32 mc_crc32c cd_md5 cd_sha1 cd_sha256 cd_sha512 cd_crc32
    cd_crc32c true_digests].
  destruct (content_md5 r) eqn:H1, (checksum_crc32 r) eqn:H2, (checksum_crc32c r) eqn:H3,
    (checksum_sha1 r) eqn:H4, (checksum_sha256 r) eqn:H5, (checksum_sha512 r) eqn:H6;
    repeat rewrite fold_enabled
      by (unfold requires_md5, requires_crc32, requires_crc32c, requires_sha1, requires_sha256, requires_sha512;
          rewrite ?H1, ?H2, ?H3, ?H4, ?H5, ?H6; done); done.
Qed.

Lemma wp_summarize_file p size fs ss c Q :
  0 < size → fs !! p = Some c →
  Q (Ok (mkFinal (mkContentLength (Z.min (len c) u64_max)) (true_digests c))) 0%nat fs ss →
  wp (summarize_file p size) 0 fs ss Q.
Proof.
  intros Hs Hc HQ. apply wp_bind, wp_attempt, wp_call; [|done]. simpl. rewrite Hc; simpl.
  destruct (file_chunks_spec size c Hs) as [Hcat Hne].
  apply wp_lift. rewrite staged_summary by done. by rewrite Hcat.
Qed.
End assembly.
