(* ===== verification/MultipartStore.v ===== *)
(** * The multipart store (storage/multipart.rs)

    An upload session lives in the session table and, as JSON, in the directory
    of the upload, beside its parts. The operations are sequences of atomic
    steps on table and disk, in the order of the source. Ids made by
    [Uuid::new_v4] and times read from the clock are arguments. *)

From S2P Require Import Prelude RustStd BTree S3Error Externals Reference Types StoreModel.
From S2P Require Import Config Chunked ChunkedProofs Checksum Upload.
From S2P Require Import FileSystem ObjectStore ObjectProofs ObjectSpec StoreTrait Middleware Assembly.
From Stdlib Require Import ZArith Lia.
Local Open Scope Z_scope.

Section multipart.
Context `{HttpLib} `{CodecLib} `{CryptoLib} `{UuidLib} `{JsonLib}.

(* @src src/src/storage/multipart.rs 520-522 FileMultipartStore::upload_dir *)
Definition upload_dir (upload_id : UploadId) : path := ["multipart"; upload_id_str upload_id].
(* @src src/src/storage/multipart.rs 524-526 FileMultipartStore::parts_dir *)
Definition parts_dir (upload_id : UploadId) : path := upload_dir upload_id ++ ["parts"].
(* @src src/src/storage/multipart.rs 528-531 FileMultipartStore::part_path *)
Definition part_path (upload_id : UploadId) (part_number : PartNumber) : path :=
  parts_dir upload_id ++ [show_pad5 (part_number_get part_number) ++ ".part"].
(* @src src/src/storage/multipart.rs 533-535 FileMultipartStore::session_path *)
Definition session_path (upload_id : UploadId) : path := upload_dir upload_id ++ ["session.json"].

(** ** The session table *)

(* @src src/src/storage/multipart.rs 109-111 FileMultipartStore::get_upload *)
Definition get_upload (upload_id : UploadId) : io (option UploadSession) :=
  ss ← get_sessions; mret (ss !! upload_id_str upload_id).

(* @src src/src/storage/multipart.rs 113-121 FileMultipartStore::get_open_upload *)
Definition get_open_upload (upload_id : UploadId) : io UploadSession :=
  found ← get_upload upload_id;
  session ← lift (ok_or found NoSuchUpload);
  _ ← lift (ensure_open session);
  mret session.

Definition insert_session (session : UploadSession) (upload_id : UploadId) : io () := locked (
  ss ← get_sessions; put_sessions (<[upload_id_str upload_id := session]> ss)).

Definition remove_session (upload_id : UploadId) : io () := locked (
  ss ← get_sessions; put_sessions (delete (upload_id_str upload_id) ss)).

(** [sessions.get_mut(upload_id)], changed by [f] while the entry is locked. *)
Definition modify_session (upload_id : UploadId) (f : UploadSession → UploadSession) : io (option UploadSession) := locked (
  found ← get_upload upload_id;
  match found with
  | None => mret None
  | Some session => _ ← insert_session (f session) upload_id; mret (Some (f session))
  end).

(* @src src/src/storage/multipart.rs 514-518 FileMultipartStore::mark_upload_state *)
Definition mark_upload_state (upload_id : UploadId) (state : UploadState) : io (option UploadSession) :=
  modify_session upload_id (λ s, set_state s state).

(** ** Persistence *)

Definition session_tmp (upload_id : UploadId) (fresh : Uuid) : path :=
  upload_dir upload_id ++ ["session." ++ uuid_to_string fresh ++ ".tmp"].

(* @src src/src/storage/multipart.rs 537-554 FileMultipartStore::persist_session *)
Definition persist_session (fresh : Uuid) (session : UploadSession) : io () :=
  let session_path := session_path (us_upload_id session) in
  _ ← create_parent_dir session_path;
  let tmp_path := session_tmp (us_upload_id session) fresh in
  json ← lift (ok_or (json_of_session session) Json);
  result ← attempt (_ ← fs_write tmp_path json; fs_rename tmp_path session_path);
  match result with
  | Ok _ => mret ()
  | Err e => _ ← ignore (remove_file_if_exists tmp_path); throw e
  end.

(* @src src/src/storage/multipart.rs 84-106 FileMultipartStore::create_upload *)
Definition create_upload (fresh persist_id : Uuid) (now : Z) (bucket : BucketName) (key : ObjectKey)
    (owner : option str) (metadata : UploadMetadata) : io UploadSession :=
  let upload_id := new_upload_id fresh in
  let session := mkSession upload_id bucket key now Open owner metadata [] in
  _ ← fs_create_dir_all (parts_dir upload_id);
  _ ← persist_session persist_id session;
  _ ← insert_session session upload_id;
  mret session.

(** ** Parts *)

Definition insert_part (part : PartMetadata) (s : UploadSession) : UploadSession :=
  set_parts s (btree_insert (part_number_get (pm_part_number part)) part (us_parts s)).
Definition remove_part (n : PartNumber) (s : UploadSession) : UploadSession :=
  set_parts s (btree_remove (part_number_get n) (us_parts s)).

(** The entry of the session, checked to be open and changed under its lock. *)
(* @src src/src/storage/multipart.rs 237-243 FileMultipartStore::commit_part *)
Definition record_part (upload_id : UploadId) (part : PartMetadata) : io UploadSession := locked (
  found ← get_upload upload_id;
  session ← lift (ok_or found NoSuchUpload);
  _ ← lift (ensure_open session);
  _ ← insert_session (insert_part part session) upload_id;
  mret (insert_part part session)).

(* @src src/src/storage/multipart.rs 127-161 FileMultipartStore::write_part *)
Definition write_part (persist_id : Uuid) (now : Z) (upload_id : UploadId) (part_number : PartNumber)
    (content md5 : bytes) (etag : ETag) (checksums : btree str str) : io PartMetadata :=
  _ ← get_open_upload upload_id;
  let p := part_path upload_id part_number in
  _ ← create_parent_dir p;
  _ ← fs_write p content;
  let part := mkPartMetadata part_number (len content) etag md5 checksums now in
  session_snapshot ← record_part upload_id part;
  _ ← persist_session persist_id session_snapshot;
  mret part.

Definition part_tmp (upload_id : UploadId) (part_number : PartNumber) (fresh : Uuid) (suffix : str) : path :=
  upload_dir upload_id ++ [show_pad5 (part_number_get part_number) ++ "." ++ uuid_to_string fresh ++ suffix].

(** The temporary part is its path; the body is written through its writer. *)
(* @src src/src/storage/multipart.rs 164-183 FileMultipartStore::create_temp_part *)
Definition create_temp_part (fresh : Uuid) (upload_id : UploadId) (part_number : PartNumber) : io path :=
  _ ← get_open_upload upload_id;
  let p := part_tmp upload_id part_number fresh ".tmp" in
  _ ← create_parent_dir p;
  _ ← fs_create p;
  mret p.

(* @src src/src/storage/temp.rs 125-134 TempPartWriter::discard *)
Definition discard_part (temp : path) : io () := remove_file_if_exists temp.

(** Publication of a part: the backup of the previous one, then the rename. *)
(* @src src/src/storage/multipart.rs 211-219 FileMultipartStore::commit_part *)
Definition publish_part (temp_path final_path : path) (backup_path : option path) : io () :=
  _ ← create_parent_dir final_path;
  _ ← match backup_path with
      | Some backup => fs_hard_link final_path backup
      | None => mret ()
      end;
  fs_rename temp_path final_path.

Definition ignore_remove_opt (p : option path) : io () :=
  match p with Some p => ignore (remove_file_if_exists p) | None => mret () end.

(* @src src/src/storage/multipart.rs 245-258 FileMultipartStore::commit_part *)
Definition rollback_part (upload_id : UploadId) (part_number : PartNumber) (final_path : path)
    (backup_path : option path) (previous_part : option PartMetadata) : io () :=
  _ ← ignore (remove_file_if_exists final_path);
  _ ← match backup_path with
      | Some backup => ignore (fs_rename backup final_path)
      | None => mret ()
      end;
  _ ← modify_session upload_id
        match previous_part with
        | Some previous => λ s, set_parts s (btree_insert (part_number_get part_number) previous (us_parts s))
        | None => remove_part part_number
        end;
  mret ().

(* @src src/src/storage/multipart.rs 190-263 FileMultipartStore::commit_part *)
Definition commit_part (backup_id persist_id : Uuid) (now : Z) (upload_id : UploadId)
    (part_number : PartNumber) (temp_path : path) (part : CommittedPart) : io PartMetadata :=
  session ← get_open_upload upload_id;
  let final_path := part_path upload_id part_number in
  let previous_part := btree_get (part_number_get part_number) (us_parts session) in
  let backup_path := (λ _, part_tmp upload_id part_number backup_id ".rollback.tmp") <$> previous_part in
  publish_result ← attempt (publish_part temp_path final_path backup_path);
  match publish_result with
  | Err error =>
      _ ← ignore (remove_file_if_exists temp_path);
      _ ← ignore_remove_opt backup_path;
      throw error
  | Ok _ =>
      let part := mkPartMetadata part_number (cmp_size part) (cmp_etag part) (cmp_md5 part)
                    (cmp_checksums part) now in
      session_snapshot ← record_part upload_id part;
      persisted ← attempt (persist_session persist_id session_snapshot);
      match persisted with
      | Err error =>
          _ ← rollback_part upload_id part_number final_path backup_path previous_part;
          throw error
      | Ok _ =>
          _ ← match backup_path with
              | Some backup => remove_file_if_exists backup
              | None => mret ()
              end;
          mret part
      end
  end.

(** ** Abort *)

(* @src src/src/storage/multipart.rs 269-287 FileMultipartStore::abort_upload *)
Definition abort_upload (persist_id : Uuid) (upload_id : UploadId) : io () :=
  session ← get_open_upload upload_id;
  let session := set_state session Aborted in
  _ ← persist_session persist_id session;
  _ ← insert_session session upload_id;
  removed ← attempt (fs_remove_dir_all (upload_dir upload_id));
  match removed with
  | Ok _ => remove_session upload_id
  | Err (Io NotFound) => remove_session upload_id
  | Err e => throw e
  end.

(** ** Completion *)

(* @src src/src/storage/mod.rs 124-139 CompleteUploadRequest *)
Record CompleteUploadRequest := mkComplete {
  cu_upload_id : UploadId;
  cu_requested_parts : list CompletedPart;
  cu_checksum_request : ChecksumRequest;
  cu_upload_limits : UploadLimits;
  cu_io_tuning : IoTuning;
  cu_request_id : RequestId;
  cu_processors : list (Uuid * UploadProcessor);
}.

(** The ids a completion makes: to persist the transition, for the temporary
    object, to persist the completed state and to persist the restored one. *)
Record CompletionIds := mkCompletionIds {
  ci_begin : Uuid; ci_temp : Uuid; ci_completed : Uuid; ci_restore : Uuid }.

(* @src src/src/storage/multipart.rs 483-490 FileMultipartStore::begin_completion *)
Definition mark_completing (upload_id : UploadId) : io UploadSession := locked (
  found ← get_upload upload_id;
  session ← lift (ok_or found NoSuchUpload);
  _ ← lift (ensure_open session);
  _ ← insert_session (set_state session Completing) upload_id;
  mret (set_state session Completing)).

(* @src src/src/storage/multipart.rs 482-499 FileMultipartStore::begin_completion *)
Definition begin_completion (persist_id : Uuid) (upload_id : UploadId) : io UploadSession :=
  session_snapshot ← mark_completing upload_id;
  _ ← ignore (persist_session persist_id session_snapshot);
  mret session_snapshot.

(* @src src/src/storage/multipart.rs 501-512 FileMultipartStore::restore_open_upload *)
Definition restore_open_upload (persist_id : Uuid) (upload_id : UploadId) : io () :=
  marked ← mark_upload_state upload_id Open;
  match marked with
  | None => mret ()
  | Some session_snapshot => ignore (persist_session persist_id session_snapshot)
  end.

(** The loop over the requested parts; [total] is their number. *)
(* @src src/src/storage/multipart.rs 323-338 FileMultipartStore::complete_upload_after_transition *)
Fixpoint validate_parts (session : UploadSession) (limits : UploadLimits) (total index : Z)
    (requested_parts : list CompletedPart) : result StoreError (list PartMetadata) :=
  match requested_parts with
  | [] => Ok []
  | requested :: rest =>
      part ← ok_or (btree_get (part_number_get (cp_part_number requested)) (us_parts session)) InvalidPart;
      if negb (bool_decide (pm_etag part = cp_etag requested)) then Err InvalidPart
      else if (index + 1 <? total) && (pm_size part <? min_non_final_part_size limits) then Err EntityTooSmall
      else
        validated ← validate_parts session limits total (index + 1) rest;
        Ok (part :: validated)
  end.

(** [discard_temp_object] on the error path, then the error. *)
(* @src src/src/storage/temp.rs 179-187 discard_temp_object *)
Definition discarding {E A : Type} (temp : StagedObject) (m : ioE E A) : ioE E A :=
  drop_guard (so_path temp) m.

(* @src src/src/storage/multipart.rs 355-372 FileMultipartStore::complete_upload_after_transition *)
Fixpoint copy_chunks (temp : StagedObject) (chunks : list bytes) (st : MultipartCompleteChecksumState)
  : io MultipartCompleteChecksumState :=
  match chunks with
  | [] => mret st
  | chunk :: chunks =>
      _ ← fs_append (so_path temp) chunk;
      copy_chunks temp chunks (update_complete st chunk)
  end.

(* @src src/src/storage/multipart.rs 347-380 FileMultipartStore::complete_upload_after_transition *)
Fixpoint copy_parts (request : CompleteUploadRequest) (temp : StagedObject) (parts : list PartMetadata)
    (st : MultipartCompleteChecksumState) (multipart_md5 : sh_state Md5) (total_size : Z)
  : io (MultipartCompleteChecksumState * sh_state Md5 * Z) :=
  match parts with
  | [] => mret (st, multipart_md5, total_size)
  | part :: parts =>
      content ← discarding temp (fs_read (part_path (cu_upload_id request) (pm_part_number part)));
      st ← discarding temp
             (copy_chunks temp (file_chunks (multipart_complete_buffer_size (cu_io_tuning request)) content) st);
      let multipart_md5 := sh_update Md5 multipart_md5 (pm_md5 part) in
      let total_size := wrap_u64 (total_size + pm_size part) in
      if total_size >? max_object_size (cu_upload_limits request)
      then discarding temp (throw EntityTooLarge)
      else copy_parts request temp parts st multipart_md5 total_size
  end.

(** The metadata of the completed object. *)
(* @src src/src/storage/multipart.rs 423-448 FileMultipartStore::complete_upload_after_transition *)
Definition completed_metadata (now : Z) (session : UploadSession) (request : CompleteUploadRequest)
    (multipart_md5 : sh_state Md5) (final_body : FinalUploadBody) : ObjectMetadata :=
  let no_processors := processors_are_empty (cu_processors request) in
  let m := us_metadata session in {|
    om_bucket := us_bucket session;
    om_key := us_key session;
    om_size := content_length_get (fu_size final_body);
    om_etag := if no_processors
               then etag_from_multipart_md5 (hex_encode (sh_finalize Md5 multipart_md5))
                      (Z.of_nat (length (cu_requested_parts request)))
               else etag_from_hex_md5 (hex_encode (cd_md5 (fu_digests final_body)));
    om_content_type := um_content_type m;
    om_content_encoding := um_content_encoding m;
    om_content_disposition := um_content_disposition m;
    om_content_language := um_content_language m;
    om_cache_control := um_cache_control m;
    om_expires := um_expires m;
    om_tagging := um_tagging m;
    om_user_metadata := um_user_metadata m;
    om_checksums := if no_processors then cr_checksum_values (cu_checksum_request request)
                    else checksum_values_for_digests (cu_checksum_request request) (fu_digests final_body);
    om_last_modified := now |}.

(** The object store that receives the object is a field of the request. *)
Section completion.
Context `{!ObjectStoreOps}.

(** From the transition to the staged object and its metadata. *)
(* @src src/src/storage/multipart.rs 314-448 FileMultipartStore::complete_upload_after_transition *)
Definition assemble (ids : CompletionIds) (now : Z) (session : UploadSession)
    (request : CompleteUploadRequest) : io (StagedObject * ObjectMetadata) :=
  validated_parts ← lift (validate_parts session (cu_upload_limits request)
    (Z.of_nat (length (cu_requested_parts request))) 0 (cu_requested_parts request));
  temp ← store_create_temp_object (ci_temp ids) (us_bucket session) (us_key session);
  '(checksum_state, multipart_md5, total_size) ←
    copy_parts request temp validated_parts (new_complete_state (cu_checksum_request request)) (sh_new Md5) 0;
  _ ← discarding temp (lift (map_err ChecksumError
        (validate (cu_checksum_request request) (finalize_complete checksum_state))));
  _ ← discarding temp fs_flush;
  _ ← drop_guard (so_path temp) fs_flush;
  let context := mkContext (cu_request_id request) (us_bucket session) (us_key session)
    OpCompleteMultipartUpload (mkContentLength total_size) (um_content_type (us_metadata session))
    (um_user_metadata (us_metadata session)) in
  staged ← map_io_err Processor (process_staged_upload (cu_processors request) temp context);
  final_body ← discarding staged (map_io_err Processor
    (summarize_file (so_path staged) (upload_summary_buffer_size (cu_io_tuning request))));
  if content_length_get (fu_size final_body) >? max_object_size (cu_upload_limits request)
  then discarding staged (throw EntityTooLarge)
  else mret (staged, completed_metadata now session request multipart_md5 final_body).

(** What follows the publication; its failures are only logged. *)
(* @src src/src/storage/multipart.rs 453-478 FileMultipartStore::complete_upload_after_transition *)
Definition retire_upload (ids : CompletionIds) (upload_id : UploadId) : io () :=
  marked ← mark_upload_state upload_id Completed;
  _ ← match marked with
      | Some completed_session => ignore (persist_session (ci_completed ids) completed_session)
      | None => mret ()
      end;
  _ ← ignore (remove_file_if_exists (session_path upload_id));
  _ ← remove_session upload_id;
  ignore (fs_remove_dir_all (upload_dir upload_id)).

(* @src src/src/storage/multipart.rs 309-480 FileMultipartStore::complete_upload_after_transition *)
Definition complete_upload_after_transition (ids : CompletionIds) (now : Z) (session : UploadSession)
    (request : CompleteUploadRequest) : io ObjectMetadata :=
  '(staged, metadata) ← assemble ids now session request;
  _ ← store_commit_staged_object staged metadata;
  _ ← retire_upload ids (cu_upload_id request);
  mret metadata.

(* @src src/src/storage/multipart.rs 294-307 FileMultipartStore::complete_upload *)
Definition complete_upload (ids : CompletionIds) (now : Z) (request : CompleteUploadRequest)
  : io ObjectMetadata :=
  session ← begin_completion (ci_begin ids) (cu_upload_id request);
  result ← attempt (complete_upload_after_transition ids now session request);
  match result with
  | Ok metadata => mret metadata
  | Err e => _ ← restore_open_upload (ci_restore ids) (cu_upload_id request); throw e
  end.
End completion.

(** ** Start-up *)

(** Ages are compared in nanoseconds; an upload from the future has no age. *)
(* @src src/src/storage/multipart.rs 618-627 FileMultipartStore::incomplete_upload_is_expired *)
Definition incomplete_upload_is_expired (lifecycle : MultipartLifecycle) (now : Z) (session : UploadSession) : bool :=
  match abort_incomplete_after lifecycle with
  | None => false
  | Some max_age =>
      let age := now - us_initiated session in (0 <=? age) && (age >? max_age)
  end.

(* @src src/src/storage/multipart.rs 629-639 FileMultipartStore::remove_upload_dir_on_startup *)
Definition remove_upload_dir_on_startup (dir : path) : io () := ignore (fs_remove_dir_all dir).

(* @src src/src/storage/multipart.rs 559-588 FileMultipartStore::load_sessions *)
Definition load_session (lifecycle : MultipartLifecycle) (now : Z) (entry : str * bool) : io () :=
  let '(name, is_file) := entry in
  if (is_file : bool) then mret ()
  else
    let dir := ["multipart"; name] in
    read ← attempt (fs_read (dir ++ ["session.json"]));
    match read with
    | Ok bytes =>
        session ← lift (ok_or (session_of_json bytes) Json);
        if negb (is_open session) then
          if cleanup_on_startup lifecycle && remove_terminal_uploads_on_startup lifecycle
          then remove_upload_dir_on_startup dir else mret ()
        else if incomplete_upload_is_expired lifecycle now session then
          if cleanup_on_startup lifecycle then remove_upload_dir_on_startup dir else mret ()
        else insert_session session (us_upload_id session)
    | Err (Io NotFound) => mret ()
    | Err e => throw e
    end.

(* @src src/src/storage/multipart.rs 556-590 FileMultipartStore::load_sessions *)
Definition load_sessions (lifecycle : MultipartLifecycle) (now : Z) : io () :=
  entries ← fs_read_dir ["multipart"];
  io_for (load_session lifecycle now) entries.

(* @src src/src/storage/multipart.rs 592-616 FileMultipartStore::cleanup_stale_temp_files *)
Definition cleanup_stale_part_files : io () :=
  uploads ← fs_read_dir ["multipart"];
  io_for (λ '(upload, is_file),
    if (is_file : bool) then mret ()
    else
      entries ← fs_read_dir ["multipart"; upload];
      io_for (λ '(name, is_file),
        if (is_file : bool) && utf8_valid name && ends_with ".tmp" name
        then remove_file_if_exists ["multipart"; upload; name] else mret ()) entries) uploads.

(** A fresh process: the table starts empty. *)
(* @src src/src/storage/multipart.rs 63-81 FileMultipartStore::new_with_options *)
Definition new_multipart_store (lifecycle : MultipartLifecycle) (now : Z) : io () :=
  _ ← fs_create_dir_all ["multipart"];
  _ ← put_sessions ∅;
  _ ← load_sessions lifecycle now;
  if cleanup_on_startup lifecycle && remove_stale_temp_files_on_startup lifecycle
  then cleanup_stale_part_files else mret ().

(** ** The multipart store as its clients see it (storage/mod.rs)

    The fresh ids and the time of the system are arguments, as in
    [StoreTrait.v]. *)

(* @src src/src/storage/mod.rs 142-180 MultipartStore *)
Class MultipartStoreOps := {
  store_create_upload : Uuid → Uuid → Z → BucketName → ObjectKey → option str → UploadMetadata → io UploadSession;
  store_get_upload : UploadId → io (option UploadSession);
  store_create_temp_part : Uuid → UploadId → PartNumber → io path;
  store_commit_part : Uuid → Uuid → Z → UploadId → PartNumber → path → CommittedPart → io PartMetadata;
  store_abort_upload : Uuid → UploadId → io ();
  store_complete_upload : ObjectStoreOps → CompletionIds → Z → CompleteUploadRequest → io ObjectMetadata;
}.

(* @src src/src/storage/mod.rs 182-244 MultipartStore for FileMultipartStore *)
#[export] Instance file_multipart_store : MultipartStoreOps := {
  store_create_upload := create_upload;
  store_get_upload := get_upload;
  store_create_temp_part := create_temp_part;
  store_commit_part := commit_part;
  store_abort_upload := abort_upload;
  store_complete_upload := λ store : ObjectStoreOps, complete_upload;
}.

(** The store with the clock of the application. *)
(* @src src/src/storage/multipart.rs 30-35 FileMultipartStore *)
Definition file_multipart_store_on (clock : Z → Z) : MultipartStoreOps := {|
  store_create_upload fresh persist_id now := create_upload fresh persist_id (clock now);
  store_get_upload := get_upload;
  store_create_temp_part := create_temp_part;
  store_commit_part backup_id persist_id now := commit_part backup_id persist_id (clock now);
  store_abort_upload := abort_upload;
  store_complete_upload := λ (store : ObjectStoreOps) ids now, complete_upload ids (clock now);
|}.
Lemma system_clock_store : file_multipart_store_on (λ t, t) = file_multipart_store.
Proof. done. Qed.

(** What the handlers rely on before they decide: looking up a session changes
    nothing. *)
Class MultipartStoreContract (Mt : MultipartStoreOps) := {
  upload_of : gmap path bytes → gmap str UploadSession → UploadId → option UploadSession;
  get_upload_law id n fs ss (Q : result StoreError (option UploadSession) → _ → _ → _ → Prop) :
    Q (Ok (upload_of fs ss id)) n fs ss → wp (store_get_upload id) n fs ss Q;
}.

#[export] Program Instance file_multipart_contract clock : MultipartStoreContract (file_multipart_store_on clock) := {
  upload_of fs ss id := ss !! upload_id_str id;
}.
Next Obligation. intros clock id n fs ss Q HQ. by apply wp_bind, wp_get_sessions, wp_ret. Qed.
#[export] Instance system_clock_contract : MultipartStoreContract file_multipart_store :=
  file_multipart_contract (λ t, t).
End multipart.
