(* ===== verification/MultipartProofs.v ===== *)
(** * Correctness of the multipart store: rules for its operations *)

From S2P Require Import Prelude RustStd BTree S3Error Externals Reference Types StoreModel.
From S2P Require Import Config Chunked ChunkedProofs Checksum Upload.
From S2P Require Import FileSystem ObjectStore ObjectProofs ObjectSpec StoreTrait Middleware Assembly MultipartStore.
From Stdlib Require Import ZArith Lia.
Local Open Scope Z_scope.

Section rules.
Context `{HttpLib} `{CodecLib} `{CryptoLib} `{UuidLib} `{JsonLib}.
Implicit Types (n : nat) (fs : gmap path bytes) (ss : gmap str UploadSession) (s : UploadSession).

(** ** Paths *)

(** The object store's part of the disk. *)
Definition same_objects fs fs' : Prop := ∀ q, head q ≠ Some "multipart" → fs' !! q = fs !! q.

Lemma refines_same_objects fs fs' m : same_objects fs fs' → refines fs m → refines fs' m.
Proof.
  intros Hf [Htmp Hm]. split.
  - intros name. rewrite Hf by done. apply Htmp.
  - intros d. apply holds_frame with fs; [by rewrite Hf|by rewrite Hf|apply Hm].
Qed.

Lemma same_objects_trans fs1 fs2 fs3 : same_objects fs1 fs2 → same_objects fs2 fs3 → same_objects fs1 fs3.
Proof. intros H12 H23 q Hq. by rewrite H23, H12. Qed.

Lemma session_tmp_ne id u : session_tmp id u ≠ session_path id.
Proof.
  unfold session_tmp, session_path. simpl. intros [= Heq].
  apply (f_equal length) in Heq. rewrite !length_app, uuid_to_string_length in Heq. simpl in Heq. lia.
Qed.

Lemma part_path_ne id u p : part_path id p ≠ session_tmp id u ∧ part_path id p ≠ session_path id.
Proof. by split. Qed.

(** ** Sessions *)

Lemma wp_get_open_upload id n fs ss Q :
  match ss !! upload_id_str id with
  | Some s => if is_open s then Q (Ok s) n fs ss else Q (Err NoSuchUpload) n fs ss
  | None => Q (Err NoSuchUpload) n fs ss
  end → wp (get_open_upload id) n fs ss Q.
Proof.
  intros HQ. apply wp_bind, wp_bind, wp_get_sessions, wp_ret, wp_bind, wp_lift.
  destruct (ss !! upload_id_str id) as [s|]; simpl; [|done].
  apply wp_bind, wp_lift. unfold ensure_open. destruct (is_open s); [by apply wp_ret|done].
Qed.

Lemma wp_insert_session s id n fs ss Q :
  Q (Ok ()) n fs (<[upload_id_str id := s]> ss) → wp (insert_session s id) n fs ss Q.
Proof. intros HQ. by apply wp_locked, wp_bind, wp_get_sessions, wp_put_sessions. Qed.

Lemma wp_remove_session id n fs ss Q :
  Q (Ok ()) n fs (delete (upload_id_str id) ss) → wp (remove_session id) n fs ss Q.
Proof. intros HQ. by apply wp_locked, wp_bind, wp_get_sessions, wp_put_sessions. Qed.

Lemma wp_modify_session id f n fs ss Q :
  match ss !! upload_id_str id with
  | Some s => Q (Ok (Some (f s))) n fs (<[upload_id_str id := f s]> ss)
  | None => Q (Ok None) n fs ss
  end → wp (modify_session id f) n fs ss Q.
Proof.
  intros HQ. apply wp_locked, wp_bind, wp_bind, wp_get_sessions, wp_ret.
  destruct (ss !! upload_id_str id) as [s|]; simpl; [|by apply wp_ret].
  by apply wp_bind, wp_insert_session, wp_ret.
Qed.

Lemma wp_mark_completing id n fs ss Q :
  match ss !! upload_id_str id with
  | Some s => if is_open s
              then Q (Ok (set_state s Completing)) n fs (<[upload_id_str id := set_state s Completing]> ss)
              else Q (Err NoSuchUpload) n fs ss
  | None => Q (Err NoSuchUpload) n fs ss
  end → wp (mark_completing id) n fs ss Q.
Proof.
  intros HQ. apply wp_locked, wp_bind, wp_bind, wp_get_sessions, wp_ret, wp_bind, wp_lift.
  destruct (ss !! upload_id_str id) as [s|]; simpl; [|done].
  apply wp_bind, wp_lift. unfold ensure_open. destruct (is_open s); [|done].
  by apply wp_bind, wp_insert_session, wp_ret.
Qed.

(** A session that is persisted is read back; one that is not leaves the
    previous file, and without faults fails only on serialization. *)
Definition persist_post u s n fs (r : result StoreError ()) n' fs' : Prop :=
  let id := us_upload_id s in
  (n' ≤ n)%nat ∧
  (∀ q, q ≠ session_tmp id u → q ≠ session_path id → fs' !! q = fs !! q) ∧
  match r with
  | Ok _ => ∃ j, json_of_session s = Some j ∧ fs' !! session_path id = Some j
  | Err e => fs' !! session_path id = fs !! session_path id ∧
             ((json_of_session s = None ∧ e = Json) ∨ (n' < n)%nat)
  end.

Lemma wp_persist_session u s n fs ss Q :
  (∀ r n' fs', persist_post u s n fs r n' fs' → Q r n' fs' ss) →
  wp (persist_session u s) n fs ss Q.
Proof.
  intros HQ. pose proof (session_tmp_ne (us_upload_id s) u) as Hne.
  unfold persist_session, persist_post in *.
  apply wp_bind, wp_create_parent_dir; [done| |intros e n' ->; apply HQ; split_and!; auto; right; lia].
  apply wp_bind, wp_lift. destruct (json_of_session s) as [j|]; simpl;
    [|apply HQ; split_and!; auto].
  assert (∀ e n' fs1, (n' < n)%nat → (∀ q, q ≠ session_tmp (us_upload_id s) u → fs1 !! q = fs !! q) →
    wp (_ ← ignore (remove_file_if_exists (session_tmp (us_upload_id s) u)); throw e) n' fs1 ss Q) as Hfail.
  { intros e n' fs1 Hn Hf. apply wp_ignore_remove. intros n'' fs2 Hn' Hf2 _. apply wp_throw, HQ.
    split_and!; [lia| | |right; lia].
    - intros q ??. rewrite Hf2, Hf by done. done.
    - rewrite Hf2, Hf by done. done. }
  apply wp_bind, wp_attempt, wp_bind, wp_write.
  - apply wp_rename.
    + intros c. rewrite lookup_insert_eq. intros [= <-]. apply wp_ret, HQ. split_and!; [lia| |].
      * intros q ??. by rewrite lookup_insert_ne, lookup_delete_ne, lookup_insert_ne by done.
      * exists j. by rewrite lookup_insert_eq.
    + by rewrite lookup_insert_eq.
    + intros e n' ->. apply Hfail; [lia|]. intros q ?. by rewrite lookup_insert_ne by done.
  - intros e n' fs' -> [->|[k ->]]; apply Hfail; [lia|done|lia|].
    intros q ?. by rewrite lookup_insert_ne by done.
Qed.

(** ** Assembly

    What the completed object is, on whole contents: the parts in the requested
    order, with the running size checked against the limit. *)
Fixpoint gather fs (id : UploadId) (max total : Z) (parts : list PartMetadata) : result StoreError (bytes * Z) :=
  match parts with
  | [] => Ok ([], total)
  | part :: parts =>
      content ← ok_or (fs !! part_path id (pm_part_number part)) (Io NotFound);
      let total := wrap_u64 (total + pm_size part) in
      if total >? max then Err EntityTooLarge
      else '(rest, total) ← gather fs id max total parts; Ok (content ++ rest, total)
  end.

Lemma gather_frame fs fs' id max total parts :
  (∀ p, fs' !! part_path id p = fs !! part_path id p) →
  gather fs' id max total parts = gather fs id max total parts.
Proof.
  intros Hf. revert total. induction parts as [|p parts IH]; intros total; simpl; [done|].
  rewrite Hf. destruct (fs !! _); simpl; [|done]. by rewrite IH.
Qed.

Lemma wp_copy_chunks temp cs st fs ss d Q :
  fs !! so_path temp = Some d →
  Q (Ok (foldl update_complete st cs)) 0%nat (<[so_path temp := d ++ concat cs]> fs) ss →
  wp (copy_chunks temp cs st) 0 fs ss Q.
Proof.
  revert st fs d. induction cs as [|c cs IH]; intros st fs d Hd HQ; simpl in *.
  - apply wp_ret. by rewrite app_nil_r, insert_id in HQ.
  - apply wp_bind, wp_call; [|done]. simpl. rewrite Hd.
    apply IH with (d ++ c); [by simplify_map_eq|]. by rewrite insert_insert_eq, <- app_assoc.
Qed.

Lemma wp_copy_parts req temp parts st md5 total fs ss d Q :
  0 < multipart_complete_buffer_size (cu_io_tuning req) →
  staged_ok temp → fs !! so_path temp = Some d →
  match gather fs (cu_upload_id req) (max_object_size (cu_upload_limits req)) total parts with
  | Ok (data, t) =>
      ∀ cs, concat cs = data →
        Q (Ok (foldl update_complete st cs, foldl (sh_update Md5) md5 (pm_md5 <$> parts), t)) 0%nat
          (<[so_path temp := d ++ data]> fs) ss
  | Err e => Q (Err e) 0%nat (delete (so_path temp) fs) ss
  end →
  wp (copy_parts req temp parts st md5 total) 0 fs ss Q.
Proof.
  intros Hbuf Hs. assert (∀ p, so_path temp ≠ part_path (cu_upload_id req) p) as Hne.
  { rewrite Hs. done. }
  revert st md5 total fs d Q. induction parts as [|p parts IH]; intros st md5 total fs d Q Hd HQ; simpl in *.
  { apply wp_ret. specialize (HQ [] eq_refl). by rewrite app_nil_r, insert_id in HQ. }
  apply wp_bind, wp_drop_guard, wp_call; [|done]. simpl.
  destruct (fs !! part_path _ _) as [c|] eqn:Hc; simpl in *; [|done].
  destruct (file_chunks_spec _ c Hbuf) as [Hcs _].
  apply wp_bind, wp_drop_guard, wp_copy_chunks with d; [done|]. rewrite Hcs.
  destruct (wrap_u64 _ >? _).
  { apply wp_drop_guard, wp_throw. split; [done|]. by rewrite delete_insert_eq in *. }
  apply IH with (d ++ c); [by simplify_map_eq|].
  erewrite gather_frame; [|intros; by apply lookup_insert_ne].
  destruct (gather _ _ _ _ _) as [[data t]|e]; simpl in *.
  - intros cs Hcs'. rewrite insert_insert_eq, <- app_assoc, <- foldl_app. apply HQ.
    by rewrite concat_app, Hcs, Hcs'.
  - by rewrite delete_insert_eq.
Qed.

(** ** The assembly and the publication leave the session table alone *)

Global Instance sf_drop_guard {E A : Type} (p : path) (m : ioE E A) : SessionFree m → SessionFree (drop_guard p m).
Proof. intros Hm. unfold drop_guard. session_free. Qed.
Global Instance sf_create_temp_object u : SessionFree (create_temp_object u).
Proof. unfold create_temp_object, fs_create. session_free. Qed.
Global Instance sf_publish t o m mt ob mb md : SessionFree (publish t o m mt ob mb md).
Proof. unfold publish, fs_write, fs_rename. session_free. Qed.
Global Instance sf_commit_staged_object st md : SessionFree (commit_staged_object st md).
Proof. unfold commit_staged_object. session_free. Qed.
Global Instance sf_store_create u b k : SessionFree (store_create_temp_object u b k).
Proof. apply sf_create_temp_object. Qed.
Global Instance sf_store_commit st md : SessionFree (store_commit_staged_object st md).
Proof. apply sf_commit_staged_object. Qed.
Global Instance sf_copy_chunks temp cs st : SessionFree (copy_chunks temp cs st).
Proof. revert st. induction cs; intros st; simpl; unfold fs_append; session_free. Qed.
Global Instance sf_copy_parts req temp parts st md5 total : SessionFree (copy_parts req temp parts st md5 total).
Proof.
  revert st md5 total. induction parts; intros st md5 total; simpl; unfold discarding, fs_read; session_free.
Qed.
Global Instance sf_remove_unused_replacement p : SessionFree (remove_unused_replacement p).
Proof. unfold remove_unused_replacement, fs_remove_file. session_free. Qed.
Global Instance sf_replace_with st p : SessionFree (replace_with st p).
Proof. unfold replace_with, fs_metadata, fs_rename. session_free. Qed.
Global Instance sf_discard st : SessionFree (discard st).
Proof. unfold discard. session_free. Qed.
Global Instance sf_summarize_file p size : SessionFree (summarize_file p size).
Proof. unfold summarize_file, fs_read. session_free. Qed.
Global Instance sf_persist_session u s : SessionFree (persist_session u s).
Proof. unfold persist_session, fs_write, fs_rename. session_free. Qed.

(** Processors have no access to the session table. *)
Definition processors_session_free (procs : list (Uuid * UploadProcessor)) : Prop :=
  Forall (λ up, ∀ req, SessionFree (up.2 req)) procs.

Lemma sf_process_staged_upload procs st ctx :
  processors_session_free procs → SessionFree (process_staged_upload procs st ctx).
Proof.
  induction 1 as [|[u p] procs Hp Hps IH]; simpl; [apply _|].
  apply sf_bind; [|done]. unfold process_one. simpl in Hp. session_free.
Qed.

Lemma sf_assemble ids now s req :
  processors_session_free (cu_processors req) → SessionFree (assemble ids now s req).
Proof.
  intros Hp. pose proof (sf_process_staged_upload (cu_processors req)) as Hsf.
  unfold assemble, discarding, fs_flush. session_free. by apply sf_map_io_err, Hsf.
Qed.
End rules.
