(* ===== verification/MultipartSpec.v ===== *)
(** * What the multipart store promises

    [complete_upload_refines]: completion publishes the concatenation of the
    requested parts, or changes nothing the client can see. The other theorems
    are about the life of a session: a failed completion reopens it whatever
    fails, a part is replaced as a whole, an aborted upload is gone, and open
    uploads survive a restart. *)

From S2P Require Import Prelude RustStd BTree S3Error Externals Reference Types StoreModel ReferenceJson.
From S2P Require Import Config Chunked ChunkedProofs Checksum Upload.
From S2P Require Import FileSystem ObjectStore ObjectProofs ObjectSpec StoreTrait Middleware Assembly.
From S2P Require Import MultipartStore MultipartProofs.
From Stdlib Require Import ZArith Lia.
Local Open Scope Z_scope.

Section spec.
Context `{HttpLib} `{CodecLib} `{CryptoLib} `{UuidLib} `{JsonLib}.
Implicit Types (n : nat) (fs : gmap path bytes) (ss : gmap str UploadSession) (s : UploadSession).
Implicit Types (ids : CompletionIds) (now : Z) (req : CompleteUploadRequest).
Implicit Types (funs : list (bytes → result UploadProcessorError (option bytes))).

(** ** Completion as a function of the stored parts *)

(** The stored part for the request number [i], from 0, of [total]: there is one of
    that number, with that ETag, and of the minimum size unless it is the last. *)
Definition chosen_part s (min_size : Z) (total i : nat) (requested : CompletedPart) : result StoreError PartMetadata :=
  match btree_get (part_number_get (cp_part_number requested)) (us_parts s) with
  | None => Err InvalidPart
  | Some part =>
      if decide (pm_etag part ≠ cp_etag requested) then Err InvalidPart
      else if decide (S i ≠ total ∧ pm_size part < min_size) then Err EntityTooSmall
      else Ok part
  end.
Definition chosen_parts s (min_size : Z) (requested : list CompletedPart) : result StoreError (list PartMetadata) :=
  collect (imap (chosen_part s min_size (length requested)) requested).

(** The checksums that the request announces are those of the data. *)
Definition contradicts (announced : option bytes) (actual : bytes) : bool :=
  match announced with Some d => bool_decide (d ≠ actual) | None => false end.
Definition announced_matches (sums : ChecksumRequest) (data : bytes) : result StoreError () :=
  if contradicts (content_md5 sums) (sh_hash Md5 data)
  then Err (ChecksumError (bad_digest "The Content-MD5 you specified did not match what we received."))
  else if existsb (λ c, contradicts (requested sums c) (true_digest c data)) [Crc32; Crc32c; Sha1N; Sha256N; Sha512N]
  then Err (ChecksumError (bad_digest "The provided x-amz-checksum header does not match what was computed."))
  else Ok ().

(** The metadata of the completed object [data], made of [parts]. *)
Definition expected_metadata (now : Z) s (req : CompleteUploadRequest) (parts : list PartMetadata)
    (data : bytes) : ObjectMetadata :=
  let plain := is_empty (cu_processors req) in
  let m := us_metadata s in
  mkObjectMetadata (us_bucket s) (us_key s) (Z.min (len data) u64_max)
    (if plain
     then mkETag ("034"%char :: hex_encode (sh_hash Md5 (concat (pm_md5 <$> parts))) ++ "-" ++
                  show_u (Z.of_nat (length parts)) ++ ["034"%char])
     else md5_etag data)
    (um_content_type m) (um_content_encoding m) (um_content_disposition m) (um_content_language m)
    (um_cache_control m) (um_expires m) (um_tagging m) (um_user_metadata m)
    (if plain then cr_checksum_values (cu_checksum_request req)
     else listed_checksums (λ c, _ ← requested (cu_checksum_request req) c; Some (b64_encode (true_digest c data))))
    now.

(** The bytes and the metadata of the object, or the first error. [funs] are the
    processors as functions. *)
Definition assemble_spec fs (now : Z) s (req : CompleteUploadRequest)
    (funs : list (bytes → result UploadProcessorError (option bytes))) : result StoreError (bytes * ObjectMetadata) :=
  let max := max_object_size (cu_upload_limits req) in
  parts ← chosen_parts s (min_non_final_part_size (cu_upload_limits req)) (cu_requested_parts req);
  '(data, _) ← gather fs (cu_upload_id req) max 0 parts;
  _ ← announced_matches (cu_checksum_request req) data;
  data ← map_err (λ e, Processor (map_processor_error e)) (run_processors funs data);
  if Z.min (len data) u64_max >? max then Err EntityTooLarge
  else Ok (data, expected_metadata now s req parts data).

Lemma validate_parts_from s limits (total : nat) requested : ∀ i : nat,
  (i + length requested = total)%nat →
  validate_parts s limits (Z.of_nat total) (Z.of_nat i) requested =
    collect (imap (λ j, chosen_part s (min_non_final_part_size limits) total (i + j)) requested).
Proof.
  induction requested as [|r requested IH]; intros i Hi; [done|]. rewrite imap_cons. cbn [validate_parts collect length] in *.
  rewrite Nat.add_0_r. unfold chosen_part at 2. destruct (btree_get _ _) as [p|]; cbn [ok_or mbind result_bind]; [|idtac "GOAL"; match goal with |- ?g => idtac g end; done].
  case_bool_decide as He; cbn [negb]; [|by rewrite decide_True]. rewrite (decide_False (P := pm_etag p ≠ cp_etag r)) by (intros Hne; by apply Hne).
  replace ((Z.of_nat i + 1 <? Z.of_nat total) && (pm_size p <? min_non_final_part_size limits))
    with (bool_decide (S i ≠ total ∧ pm_size p < min_non_final_part_size limits)).
  - case_bool_decide as Hs; [by rewrite decide_True|].
    rewrite (decide_False (P := S i ≠ total ∧ pm_size p < min_non_final_part_size limits)) by done.
    replace (Z.of_nat i + 1) with (Z.of_nat (S i)) by lia.
    rewrite IH by lia. cbn [mbind result_bind].
    rewrite (imap_ext (λ j, chosen_part s (min_non_final_part_size limits) total (S i + j)) ((λ j, chosen_part s (min_non_final_part_size limits) total (i + j)) ∘ S)); [done|].
    intros j x _. unfold compose. by rewrite Nat.add_succ_r.
  - apply eq_iff_eq_true. rewrite bool_decide_eq_true, andb_true_iff, !Z.ltb_lt. lia.
Qed.
Lemma validate_parts_chosen s limits requested :
  validate_parts s limits (Z.of_nat (length requested)) 0 requested =
    chosen_parts s (min_non_final_part_size limits) requested.
Proof. by apply (validate_parts_from s limits (length requested) requested 0). Qed.

Lemma check_digest_contradicts announced actual e :
  check_digest announced actual e = if contradicts announced actual then Err e else Ok ().
Proof.
  destruct announced as [x|]; [|done]. simpl. unfold str_eqb. by repeat case_bool_decide.
Qed.
Lemma validate_announced sums data :
  map_err ChecksumError (validate sums (true_digests data)) = announced_matches sums data.
Proof.
  unfold validate, announced_matches. rewrite !check_digest_contradicts.
  cbn [existsb requested true_digest true_digests cd_md5 cd_sha1 cd_sha256 cd_sha512 cd_crc32 cd_crc32c].
  by destruct (contradicts (content_md5 sums) _), (contradicts (checksum_crc32 sums) _), (contradicts (checksum_crc32c sums) _),
    (contradicts (checksum_sha1 sums) _), (contradicts (checksum_sha256 sums) _), (contradicts (checksum_sha512 sums) _).
Qed.

Lemma chosen_parts_length s min_size requested parts :
  chosen_parts s min_size requested = Ok parts → length parts = length requested.
Proof. intros Hc%collect_ok%(f_equal length). by rewrite length_fmap, length_imap in Hc. Qed.

Definition complete_spec fs now s req funs : result StoreError (bytes * ObjectMetadata) :=
  '(data, md) ← assemble_spec fs now s req funs;
  match json_of_object md with Some _ => Ok (data, md) | None => Err Json end.

(** What an object is assembled from: for every requested part the stored part of
    that number, which has the requested ETag, and its file. *)
Definition part_of s (requested : CompletedPart) (part : PartMetadata) : Prop :=
  btree_get (part_number_get (cp_part_number requested)) (us_parts s) = Some part ∧ pm_etag part = cp_etag requested.
Definition file_of fs (id : UploadId) (part : PartMetadata) (content : bytes) : Prop :=
  fs !! part_path id (pm_part_number part) = Some content.

Lemma chosen_from s min_size total requested : ∀ i parts,
  imap (λ j, chosen_part s min_size total (i + j)) requested = Ok <$> parts → Forall2 (part_of s) requested parts.
Proof.
  induction requested as [|r requested IH]; intros i parts Hc.
  { symmetry in Hc. apply fmap_nil_inv in Hc as ->. constructor. }
  rewrite imap_cons in Hc. symmetry in Hc. apply fmap_cons_inv in Hc as (p & ps & Hp & Hps & ->). constructor.
  - revert Hp. unfold chosen_part. destruct (btree_get _ _) as [q|] eqn:Hq; [|done].
    destruct (decide _) as [?|He]; [done|]. destruct (decide _); [done|]. intros [= ->].
    split; [done|]. by apply dec_stable in He.
  - apply (IH (S i)). rewrite <- Hps. apply imap_ext. intros j x _. unfold compose. by rewrite Nat.add_succ_r.
Qed.
Lemma chosen_parts_of s min_size requested parts :
  chosen_parts s min_size requested = Ok parts → Forall2 (part_of s) requested parts.
Proof. intros Hc%collect_ok. by apply (chosen_from s min_size (length requested) requested 0). Qed.

Lemma gather_files fs id max parts : ∀ total data total',
  gather fs id max total parts = Ok (data, total') →
  ∃ contents, Forall2 (file_of fs id) parts contents ∧ data = concat contents.
Proof.
  induction parts as [|p parts IH]; intros total data total' Hg; simpl in Hg.
  { injection Hg as <- <-. by exists []. }
  destruct (fs !! part_path id (pm_part_number p)) as [c|] eqn:Hc; [|done]. cbn [ok_or mbind result_bind] in Hg.
  destruct (_ >? max); [done|]. destruct (gather _ _ _ _ parts) as [[rest t]|] eqn:Hrest; [|done].
  injection Hg as <- <-. destruct (IH _ _ _ Hrest) as (cs & Hcs & ->). exists (c :: cs). by split; [constructor|].
Qed.

Lemma announced_matches_ok sums data :
  announced_matches sums data = Ok () →
  (∀ d, content_md5 sums = Some d → d = sh_hash Md5 data) ∧
  (∀ c d, requested sums c = Some d → d = true_digest c data).
Proof.
  rewrite <- validate_announced. destruct (validate sums _) eqn:Hv; [|done]. intros _.
  apply validate_ok in Hv as [Hmd5 Hsums]. split; [done|]. intros c d Hd.
  by rewrite (Hsums c d Hd), digest_bytes_true.
Qed.

Lemma assembled_from fs now s req funs data md :
  complete_spec fs now s req funs = Ok (data, md) →
  ∃ parts contents,
    Forall2 (part_of s) (cu_requested_parts req) parts ∧ Forall2 (file_of fs (cu_upload_id req)) parts contents ∧
    (∀ d, content_md5 (cu_checksum_request req) = Some d → d = sh_hash Md5 (concat contents)) ∧
    (∀ c d, requested (cu_checksum_request req) c = Some d → d = true_digest c (concat contents)) ∧
    run_processors funs (concat contents) = Ok data.
Proof.
  unfold complete_spec, assemble_spec. intros Hs. destruct (chosen_parts _ _ _) as [parts|] eqn:Hp; [|done].
  cbn [mbind result_bind] in Hs. destruct (gather _ _ _ _ _) as [[d t]|] eqn:Hg; [|done]. cbn [mbind result_bind] in Hs.
  destruct (announced_matches _ _) as [[]|] eqn:Ha; [|done]. cbn [mbind result_bind] in Hs.
  destruct (run_processors funs d) as [d'|] eqn:Hr; [|done]. cbn [map_err mbind result_bind] in Hs.
  destruct (_ >? _); [done|]. cbn [mbind result_bind] in Hs. destruct (json_of_object _); [|done]. injection Hs as <- <-.
  apply announced_matches_ok in Ha as [Ha1 Ha2]. apply gather_files in Hg as (cs & Hcs & ->).
  exists parts, cs. split_and!; [by eapply chosen_parts_of|done..].
Qed.

Definition buffers_ok (req : CompleteUploadRequest) : Prop :=
  0 < multipart_complete_buffer_size (cu_io_tuning req) ∧ 0 < upload_summary_buffer_size (cu_io_tuning req).

Lemma delete_fresh fs p (c : bytes) : fs !! p = None → delete p (<[p := c]> fs) = fs.
Proof. intros Hp. by rewrite delete_insert_eq, delete_id. Qed.

Lemma wp_assemble ids now s req funs fs ss Q :
  (∀ name, fs !! ["tmp"; name] = None) → buffers_ok req →
  Forall2 (λ up f, runs_as up.2 f) (cu_processors req) funs →
  let temp := mkStaged (ci_temp ids) (tmp_file (ci_temp ids) ".part") in
  match assemble_spec fs now s req funs with
  | Ok (data, md) => Q (Ok (temp, md)) 0%nat (<[so_path temp := data]> fs) ss
  | Err e => Q (Err e) 0%nat fs ss
  end →
  wp (assemble ids now s req) 0 fs ss Q.
Proof.
  intros Htmp [Hb1 Hb2] Hprocs temp HQ. unfold assemble, assemble_spec in *.
  assert (fs !! so_path temp = None) as Hfresh by apply Htmp.
  apply wp_bind, wp_lift. rewrite validate_parts_chosen.
  destruct (chosen_parts _ _ _) as [parts|e] eqn:Hlen; simpl in *; [apply chosen_parts_length in Hlen|done].
  apply wp_bind, wp_bind, wp_call; [|done]. apply wp_ret. fold temp. simpl.
  change (tmp_file (ci_temp ids) ".part") with (so_path temp).
  apply wp_bind, wp_copy_parts with []; [done|done|by simplify_map_eq|].
  erewrite gather_frame; [|intros; by apply lookup_insert_ne].
  destruct (gather _ _ _ _ _) as [[data total]|e]; simpl in *; [|by rewrite delete_fresh].
  intros cs Hcs. rewrite insert_insert_eq.
  apply wp_bind, wp_drop_guard, wp_lift. rewrite validate_enabled, Hcs, validate_announced.
  destruct (announced_matches _ _) as [[]|e]; simpl in *; [|by rewrite delete_fresh].
  apply wp_bind, wp_drop_guard, wp_call; [|done]. simpl.
  apply wp_bind, wp_drop_guard, wp_call; [|done]. simpl.
  apply wp_bind, wp_map_io_err. eapply wp_mono.
  { by apply wp_process_staged_upload with (c := data); [|exact Hprocs|simplify_map_eq]. }
  cbv beta. intros r n' fs' ss' (-> & -> & Hf & Hr).
  assert (∀ q, q ≠ so_path temp → fs' !! q = fs !! q) as Hf'.
  { intros q Hq. destruct (Hf q Hq) as [->|[Hin ->]]; [by rewrite lookup_insert_ne|].
    apply list_elem_of_fmap in Hin as (u & -> & _). symmetry. apply Htmp. }
  destruct (run_processors funs data) as [data'|e]; destruct Hr as [-> Hc]; cbn [mbind result_bind map_err] in HQ.
  2: { replace fs with fs' in HQ; [done|]. apply map_eq. intros q.
       destruct (decide (q = so_path temp)) as [->|Hq]; [by rewrite Hc; symmetry|by apply Hf']. }
  assert (fs' = <[so_path temp := data']> fs) as ->.
  { apply map_eq. intros q. destruct (decide (q = so_path temp)) as [->|Hq];
      [by rewrite Hc, lookup_insert_eq|by rewrite lookup_insert_ne, Hf']. }
  apply wp_bind, wp_drop_guard, wp_map_io_err, wp_summarize_file with data'; [done|done|].
  cbv beta iota. cbn [map_err fu_size content_length_get].
  destruct (Z.min _ _ >? _).
  - apply wp_drop_guard, wp_throw. split; [done|]. by rewrite delete_fresh.
  - apply wp_ret. unfold completed_metadata, expected_metadata, processors_are_empty in *.
    rewrite <- sh_chunks, Hlen in HQ. rewrite digest_values_listed. exact HQ.
Qed.

(** The state of the session plays no part in the assembly. *)
Lemma assemble_spec_state fs now s st req funs :
  assemble_spec fs now (set_state s st) req funs = assemble_spec fs now s req funs.
Proof. done. Qed.

Lemma assemble_spec_frame fs fs' now s req funs :
  (∀ p, fs' !! part_path (cu_upload_id req) p = fs !! part_path (cu_upload_id req) p) →
  assemble_spec fs' now s req funs = assemble_spec fs now s req funs.
Proof.
  intros Hf. unfold assemble_spec. destruct (chosen_parts _ _ _); simpl; [|done].
  by rewrite (gather_frame fs fs').
Qed.

(** The object of the assembled metadata is the one the session is for. *)
Lemma assemble_spec_target fs now s req funs data md :
  assemble_spec fs now s req funs = Ok (data, md) →
  target_digest md = object_digest (us_bucket s) (us_key s).
Proof.
  unfold assemble_spec. intros Hs. inv_result Hs. done.
Qed.

(** ** The files of an upload *)

Lemma under_app dir q : under dir (dir ++ q) = true.
Proof. unfold under. apply bool_decide_eq_true. by rewrite take_app_length. Qed.

Lemma under_upload id q : under (upload_dir id) q = true → head q = Some "multipart".
Proof. unfold under. rewrite bool_decide_eq_true. destruct q as [|x q]; simpl; [done|]. by intros [= ->]. Qed.

(** The files outside the directory of the upload [id]. *)
Definition same_outside (id : UploadId) fs fs' : Prop :=
  ∀ q, under (upload_dir id) q = false → fs' !! q = fs !! q.

Lemma same_outside_objects id fs fs' : same_outside id fs fs' → same_objects fs fs'.
Proof.
  intros Hf q Hq. apply Hf. destruct (under _ q) eqn:Hu; [|done]. by apply under_upload in Hu.
Qed.

Lemma same_outside_trans id fs1 fs2 fs3 :
  same_outside id fs1 fs2 → same_outside id fs2 fs3 → same_outside id fs1 fs3.
Proof. intros H12 H23 q Hq. by rewrite H23, H12. Qed.

Lemma persist_outside u s n fs r n' fs' : persist_post u s n fs r n' fs' → same_outside (us_upload_id s) fs fs'.
Proof.
  intros (_ & Hf & _) q Hq. apply Hf; intros ->; unfold session_tmp, session_path in Hq;
    by rewrite under_app in Hq.
Qed.

Lemma persist_parts u s n fs r n' fs' p :
  persist_post u s n fs r n' fs' → fs' !! part_path (us_upload_id s) p = fs !! part_path (us_upload_id s) p.
Proof. intros (_ & Hf & _). by apply Hf. Qed.

Lemma wp_begin_completion u id s n fs ss Q :
  ss !! upload_id_str id = Some s → is_open s = true →
  (∀ r n' fs', persist_post u (set_state s Completing) n fs r n' fs' →
     Q (Ok (set_state s Completing)) n' fs' (<[upload_id_str id := set_state s Completing]> ss)) →
  wp (begin_completion u id) n fs ss Q.
Proof.
  intros Hs Ho HQ. apply wp_bind, wp_mark_completing. rewrite Hs, Ho.
  apply wp_bind, wp_ignore, wp_persist_session.
  intros r n' fs' Hp. apply wp_ret. by apply (HQ r).
Qed.

Lemma wp_restore_open_upload u id s n fs ss Q :
  ss !! upload_id_str id = Some s →
  (∀ r n' fs', persist_post u (set_state s Open) n fs r n' fs' →
     Q (Ok ()) n' fs' (<[upload_id_str id := set_state s Open]> ss)) →
  wp (restore_open_upload u id) n fs ss Q.
Proof.
  intros Hs HQ. apply wp_bind, wp_modify_session. rewrite Hs.
  apply wp_ignore, wp_persist_session. intros r n' fs' Hp. by apply (HQ r).
Qed.

Lemma wp_retire_upload ids id s n fs ss Q :
  ss !! upload_id_str id = Some s → us_upload_id s = id →
  (∀ n' fs', (n' ≤ n)%nat → same_outside id fs fs' →
     (n = 0%nat → ∀ q, under (upload_dir id) q = true → fs' !! q = None) →
     Q (Ok ()) n' fs' (delete (upload_id_str id) ss)) →
  wp (retire_upload ids id) n fs ss Q.
Proof.
  intros Hs Hid HQ. apply wp_bind, wp_modify_session. rewrite Hs.
  apply wp_bind, wp_ignore, wp_persist_session. intros r n1 fs1 Hp.
  pose proof (persist_outside _ _ _ _ _ _ _ Hp) as Hout. destruct Hp as [Hn1 _]. simpl in Hout. rewrite Hid in Hout.
  apply wp_ignore_remove. intros n2 fs2 Hn2 Hf2 _.
  apply wp_bind, wp_remove_session. rewrite delete_insert_eq.
  assert (same_outside id fs fs2) as Hout2.
  { intros q Hq. rewrite Hf2; [by apply Hout|]. intros ->. unfold session_path in Hq. by rewrite under_app in Hq. }
  apply wp_ignore, wp_call; simpl.
  - apply HQ; [lia| |].
    + intros q Hq. rewrite <- Hout2 by done. destruct (fs2 !! q) eqn:Hfq.
      * by apply map_lookup_filter_Some.
      * apply map_lookup_filter_None. by left.
    + intros _ q Hq. apply map_lookup_filter_None. right. intros c _ Hx. simpl in Hx. congruence.
  - intros f n3 ->. apply HQ; [lia| |lia].
    intros q Hq. rewrite <- Hout2 by done. destruct (fs2 !! q) eqn:Hfq.
    + apply map_lookup_filter_Some. split; [done|]. by left.
    + apply map_lookup_filter_None. by left.
Qed.

(** ** Completion *)

Definition completion_post (id : UploadId) s fs ss (m : objects)
    (spec : result StoreError (bytes * ObjectMetadata))
    (r : result StoreError ObjectMetadata) fs' ss' : Prop :=
  (∀ q, head q = Some "multipart" → under (upload_dir id) q = false → fs' !! q = fs !! q) ∧
  match spec with
  | Ok (data, md) =>
      r = Ok md ∧ refines fs' (<[object_digest (us_bucket s) (us_key s) := (md, data)]> m) ∧
      ss' = delete (upload_id_str id) ss ∧ (∀ q, under (upload_dir id) q = true → fs' !! q = None)
  | Err e =>
      r = Err e ∧ refines fs' m ∧ ss' = ss ∧ (∀ p, fs' !! part_path id p = fs !! part_path id p)
  end.

Lemma wp_complete_upload ids now s req funs fs ss (m : objects) :
  refines fs m → ss !! upload_id_str (cu_upload_id req) = Some s → is_open s = true →
  us_upload_id s = cu_upload_id req → buffers_ok req →
  Forall2 (λ up f, runs_as up.2 f) (cu_processors req) funs →
  wp (complete_upload ids now req) 0 fs ss (λ r _ fs' ss',
    completion_post (cu_upload_id req) s fs ss m (complete_spec fs now s req funs) r fs' ss').
Proof.
  intros Href Hs Ho Hid Hbuf Hprocs. set (id := cu_upload_id req) in *.
  assert (set_state s Open = s) as Hopen.
  { unfold is_open in Ho. apply bool_decide_eq_true in Ho. destruct s; simpl in *. by subst. }
  apply wp_bind, wp_begin_completion with s; [done|done|]. intros r0 n0 fs0 Hp0.
  assert (n0 = 0%nat) as -> by (destruct Hp0; lia).
  pose proof (persist_outside _ _ _ _ _ _ _ Hp0) as Hout0. simpl in Hout0. rewrite Hid in Hout0.
  assert (∀ p, fs0 !! part_path id p = fs !! part_path id p) as Hparts0.
  { intros p. pose proof (persist_parts _ _ _ _ _ _ _ p Hp0) as Hp. simpl in Hp. by rewrite Hid in Hp. }
  assert (refines fs0 m) as Href0 by (by eapply refines_same_objects; [eapply same_outside_objects|]).
  set (ss0 := <[upload_id_str id := set_state s Completing]> ss).
  (* a failure before or in the publication reopens the session *)
  assert (∀ e fs1, refines fs1 m → (∀ q, head q = Some "multipart" → fs1 !! q = fs0 !! q) →
    complete_spec fs now s req funs = Err e →
    wp (_ ← restore_open_upload (ci_restore ids) id; throw e) 0 fs1 ss0 (λ r _ fs' ss',
      completion_post id s fs ss m (complete_spec fs now s req funs) r fs' ss')) as Hfail.
  { intros e fs1 Href1 Hf1 Hspec.
    apply wp_bind, wp_restore_open_upload with (set_state s Completing); [apply lookup_insert_eq|].
    intros r2 n2 fs2 Hp2. apply wp_throw. rewrite Hspec.
    pose proof (persist_outside _ _ _ _ _ _ _ Hp2) as Hout2. simpl in Hout2. rewrite Hid in Hout2.
    split; [|split_and!].
    - intros q Hq Hu. by rewrite Hout2, Hf1, Hout0.
    - done.
    - by eapply refines_same_objects; [eapply same_outside_objects|].
    - subst ss0. rewrite insert_insert_eq. change (set_state (set_state s Completing) Open) with (set_state s Open).
      by rewrite Hopen, insert_id.
    - intros p. pose proof (persist_parts _ _ _ _ _ _ _ p Hp2) as Hp. simpl in Hp. rewrite Hid in Hp.
      by rewrite Hp, Hf1, Hparts0. }
  apply wp_bind, wp_attempt, wp_bind.
  eapply wp_assemble; [apply Href0|done|exact Hprocs|].
  rewrite assemble_spec_state, (assemble_spec_frame fs fs0) by done.
  unfold complete_spec in *. pose proof (assemble_spec_target fs now s req funs) as Htarget.
  destruct (assemble_spec fs now s req funs) as [[data md]|e]; cbn [mbind result_bind] in *; [|by apply Hfail].
  specialize (Htarget data md eq_refl).
  apply wp_bind, wp_commit_refines with m; [done|]. intros fs1 Hf1.
  destruct (json_of_object md) eqn:Hj; intros Href1; [|by apply Hfail].
  apply wp_bind, wp_retire_upload with (set_state s Completing); [apply lookup_insert_eq|done|].
  intros n2 fs2 Hn2 Hout2 Hgone. apply wp_ret, wp_ret. split; [|split_and!].
  - intros q Hq Hu. by rewrite Hout2, Hf1, Hout0.
  - done.
  - rewrite <- Htarget. by eapply refines_same_objects; [eapply same_outside_objects|].
  - subst ss0. by rewrite delete_insert_eq.
  - by apply Hgone.
Qed.

(** Completing a multipart upload, without file system faults, is the
    function [complete_spec] of the stored parts. When it gives an object, the
    answer is its metadata, the store holds exactly the concatenation of the
    requested parts in the requested order (after the processors) under the name
    of the session, with the multipart ETag, the size and the checksums of that
    data, the session is gone and its directory is empty. When it gives an error
    (a part missing or with another ETag, a part too small, an object too large,
    a checksum mismatch, a processor's refusal, a serialization error), that error
    is the answer, the objects are unchanged, the session is open as before and
    its parts are all there. No other upload is touched in either case. *)
Theorem complete_upload_refines ids now s req funs (w w' : World) (m : objects) (r : result StoreError ObjectMetadata) :
  faults w = [] → refines (files w) m →
  sessions w !! upload_id_str (cu_upload_id req) = Some s → us_state s = Open →
  us_upload_id s = cu_upload_id req → buffers_ok req →
  Forall2 (λ up f, runs_as up.2 f) (cu_processors req) funs →
  complete_upload ids now req w = (r, w') →
  (∀ q, head q = Some "multipart" → under (upload_dir (cu_upload_id req)) q = false →
     files w' !! q = files w !! q) ∧
  match complete_spec (files w) now s req funs with
  | Ok (data, md) =>
      r = Ok md ∧ refines (files w') (<[object_digest (us_bucket s) (us_key s) := (md, data)]> m) ∧
      sessions w' = delete (upload_id_str (cu_upload_id req)) (sessions w) ∧
      (∀ q, under (upload_dir (cu_upload_id req)) q = true → files w' !! q = None)
  | Err e =>
      r = Err e ∧ refines (files w') m ∧ sessions w' = sessions w ∧
      (∀ p, files w' !! part_path (cu_upload_id req) p = files w !! part_path (cu_upload_id req) p)
  end.
Proof.
  intros Hfl Href Hs Ho Hid Hbuf Hprocs Hrun.
  assert (budget w = 0%nat) as Hb by (unfold budget; by rewrite Hfl).
  assert (is_open s = true) as Hopen by (unfold is_open; by rewrite Ho).
  pose proof (wp_complete_upload ids now s req funs _ _ m Href Hs Hopen Hid Hbuf Hprocs) as Hwp.
  rewrite <- Hb in Hwp. exact (wp_run _ _ _ _ _ Hrun Hwp).
Qed.

(** ** The life of a session, under any faults *)

(** What one request may do to the entry of the session table for the id [k]. *)
Inductive session_step (k : str) : option UploadSession → option UploadSession → Prop :=
| step_same o : session_step k o o
| step_create s : us_state s = Open → us_parts s = [] → upload_id_str (us_upload_id s) = k →
    session_step k None (Some s)
| step_parts s ps : us_state s = Open → session_step k (Some s) (Some (set_parts s ps))
| step_abort s : us_state s = Open → session_step k (Some s) (Some (set_state s Aborted))
| step_end s : us_state s = Open → session_step k (Some s) None.

Inductive multipart_op :=
| Create (fresh persist : Uuid) (now : Z) (b : BucketName) (k : ObjectKey) (owner : option str) (m : UploadMetadata)
| TempPart (fresh : Uuid) (id : UploadId) (p : PartNumber)
| WritePart (persist : Uuid) (now : Z) (id : UploadId) (p : PartNumber) (c md5 : bytes) (e : ETag) (cs : btree str str)
| CommitPart (backup persist : Uuid) (now : Z) (id : UploadId) (p : PartNumber) (temp : path) (part : CommittedPart)
| Abort (persist : Uuid) (id : UploadId)
| Complete (ids : CompletionIds) (now : Z) (req : CompleteUploadRequest).

Definition run_multipart (op : multipart_op) : io () :=
  match op with
  | Create fresh persist now b k owner m => _ ← create_upload fresh persist now b k owner m; mret ()
  | TempPart fresh id p => _ ← create_temp_part fresh id p; mret ()
  | WritePart persist now id p c md5 e cs => _ ← write_part persist now id p c md5 e cs; mret ()
  | CommitPart backup persist now id p temp part => _ ← commit_part backup persist now id p temp part; mret ()
  | Abort persist id => abort_upload persist id
  | Complete ids now req => _ ← complete_upload ids now req; mret ()
  end.

(** A new upload id is not in use, and processors cannot reach the table. *)
Definition op_ok (op : multipart_op) ss : Prop :=
  match op with
  | Create fresh _ _ _ _ _ _ => ss !! upload_id_str (new_upload_id fresh) = None
  | Complete _ _ req => processors_session_free (cu_processors req)
  | _ => True
  end.

Definition steps ss ss' : Prop := ∀ k, session_step k (ss !! k) (ss' !! k).

Lemma steps_refl ss : steps ss ss.
Proof. intros k. constructor. Qed.

Lemma steps_insert ss k s : session_step k (ss !! k) (Some s) → steps ss (<[k := s]> ss).
Proof.
  intros Hk k'. destruct (decide (k' = k)) as [->|]; [by rewrite lookup_insert_eq|].
  rewrite lookup_insert_ne by done. constructor.
Qed.

Lemma steps_delete ss k : session_step k (ss !! k) None → steps ss (delete k ss).
Proof.
  intros Hk k'. destruct (decide (k' = k)) as [->|]; [by rewrite lookup_delete_eq|].
  rewrite lookup_delete_ne by done. constructor.
Qed.

Lemma is_open_state s : is_open s = true → us_state s = Open.
Proof. unfold is_open. by rewrite bool_decide_eq_true. Qed.

Lemma wp_record_part id part n fs ss Q :
  match ss !! upload_id_str id with
  | Some s => if is_open s then Q (Ok (insert_part part s)) n fs (<[upload_id_str id := insert_part part s]> ss)
              else Q (Err NoSuchUpload) n fs ss
  | None => Q (Err NoSuchUpload) n fs ss
  end → wp (record_part id part) n fs ss Q.
Proof.
  intros HQ. apply wp_locked, wp_bind, wp_bind, wp_get_sessions, wp_ret, wp_bind, wp_lift.
  destruct (ss !! upload_id_str id) as [s|]; simpl; [|done].
  apply wp_bind, wp_lift. unfold ensure_open. destruct (is_open s); [|done].
  by apply wp_bind, wp_insert_session, wp_ret.
Qed.

(** Runs a step that leaves the table alone, whatever comes of it. *)
Ltac free := apply wp_session_free; [apply _|]; intros [?|?] ? ?; [|by try apply steps_refl].

Lemma steps_create_upload fresh u now b k owner md n fs ss :
  ss !! upload_id_str (new_upload_id fresh) = None →
  wp (create_upload fresh u now b k owner md) n fs ss (λ _ _ _ ss', steps ss ss').
Proof.
  intros Hfresh. unfold create_upload, fs_create_dir_all. apply wp_bind. free. apply wp_bind. free.
  apply wp_bind, wp_insert_session, wp_ret, steps_insert. rewrite Hfresh. by constructor.
Qed.

Lemma steps_write_part u now id p c md5 e cs n fs ss :
  wp (write_part u now id p c md5 e cs) n fs ss (λ _ _ _ ss', steps ss ss').
Proof.
  unfold write_part, fs_write. apply wp_bind, wp_get_open_upload.
  destruct (ss !! upload_id_str id) as [s|] eqn:Hs; [|apply steps_refl].
  destruct (is_open s) eqn:Ho; [|apply steps_refl].
  apply wp_bind. free. apply wp_bind. free. apply wp_bind, wp_record_part. rewrite Hs, Ho.
  apply wp_bind, wp_session_free; [apply _|]. intros [?|?] ? ?; [apply wp_ret|];
    apply steps_insert; rewrite Hs; constructor; by apply is_open_state.
Qed.

Lemma steps_commit_part u v now id p temp part n fs ss :
  wp (commit_part u v now id p temp part) n fs ss (λ _ _ _ ss', steps ss ss').
Proof.
  unfold commit_part. apply wp_bind, wp_get_open_upload.
  destruct (ss !! upload_id_str id) as [s|] eqn:Hs; [|apply steps_refl].
  destruct (is_open s) eqn:Ho; [|apply steps_refl]. pose proof (is_open_state s Ho) as Hst.
  apply wp_bind, wp_attempt, wp_session_free.
  { unfold publish_part, fs_hard_link, fs_rename. session_free. }
  assert (∀ ps, steps ss (<[upload_id_str id := set_parts s ps]> ss)) as Hps.
  { intros ps. apply steps_insert. rewrite Hs. by constructor. }
  intros [[]|e] n1 fs1.
  - apply wp_bind, wp_record_part. rewrite Hs, Ho. apply wp_bind, wp_attempt, wp_session_free; [apply _|].
    intros [?|?] n2 fs2.
    + apply wp_bind, wp_session_free; [session_free|]. intros [?|?] n3 fs3; [apply wp_ret|]; apply Hps.
    + apply wp_bind. unfold rollback_part. apply wp_bind, wp_ignore, wp_session_free; [apply _|]. intros _ n3 fs3.
      apply wp_bind, wp_session_free; [unfold fs_rename; session_free|]. intros [?|?] n4 fs4; [|apply Hps].
      apply wp_bind, wp_modify_session. rewrite lookup_insert_eq. apply wp_ret, wp_throw.
      rewrite insert_insert_eq. destruct (btree_get _ _); apply Hps.
  - apply wp_bind, wp_ignore, wp_session_free; [apply _|]. intros _ n2 fs2.
    apply wp_bind, wp_session_free; [unfold ignore_remove_opt; session_free|]. intros [?|?] n3 fs3; [|apply steps_refl].
    apply wp_throw, steps_refl.
Qed.

Lemma steps_abort_upload u id n fs ss :
  wp (abort_upload u id) n fs ss (λ r _ _ ss', steps ss ss' ∧ (r = Ok () → ss' = delete (upload_id_str id) ss)).
Proof.
  unfold abort_upload. apply wp_bind, wp_get_open_upload.
  destruct (ss !! upload_id_str id) as [s|] eqn:Hs; [|split; [apply steps_refl|done]].
  destruct (is_open s) eqn:Ho; [|split; [apply steps_refl|done]]. pose proof (is_open_state s Ho) as Hst.
  apply wp_bind, wp_session_free; [apply _|]. intros [?|?] n1 fs1; [|split; [apply steps_refl|done]].
  apply wp_bind, wp_insert_session.
  apply wp_bind, wp_attempt, wp_session_free; [unfold fs_remove_dir_all; apply _|]. intros r n2 fs2.
  destruct r as [?|[[]| | | | | | | | |]];
    try (apply wp_throw; split; [apply steps_insert; rewrite Hs; by constructor|done]);
    apply wp_remove_session; rewrite delete_insert_eq; (split; [|done]); apply steps_delete; rewrite Hs; by constructor.
Qed.

(** The session of a completion is gone after a success and as it was after a
    failure. *)
Lemma wp_completion_table ids now req n fs ss :
  processors_session_free (cu_processors req) →
  wp (complete_upload ids now req) n fs ss (λ r n' fs' ss',
    match ss !! upload_id_str (cu_upload_id req) with
    | Some s =>
        if is_open s then ss' = if is_ok r then delete (upload_id_str (cu_upload_id req)) ss else ss
        else r = Err NoSuchUpload ∧ ss' = ss ∧ fs' = fs
    | None => r = Err NoSuchUpload ∧ ss' = ss ∧ fs' = fs
    end).
Proof.
  intros Hp. unfold complete_upload. apply wp_bind. unfold begin_completion.
  apply wp_bind, wp_mark_completing.
  destruct (ss !! upload_id_str (cu_upload_id req)) as [s|] eqn:Hs; [|done].
  destruct (is_open s) eqn:Ho; [|done].
  apply wp_bind, wp_ignore, wp_session_free; [apply _|]. intros _ n1 fs1. apply wp_ret.
  set (ss1 := <[_ := _]> ss).
  assert (∀ e n2 fs2, wp (_ ← restore_open_upload (ci_restore ids) (cu_upload_id req); throw e) n2 fs2 ss1
            (λ r _ _ ss', ss' = if is_ok (r : result StoreError ObjectMetadata)
                                then delete (upload_id_str (cu_upload_id req)) ss else ss)) as Hrestore.
  { intros e n2 fs2. apply wp_bind, wp_bind, wp_modify_session. subst ss1. rewrite lookup_insert_eq.
    apply wp_ignore, wp_session_free; [apply _|]. intros _ n3 fs3. apply wp_throw. simpl.
    rewrite insert_insert_eq. apply insert_id. rewrite Hs. f_equal.
    apply is_open_state in Ho. destruct s; simpl in *. by subst. }
  apply wp_bind, wp_attempt, wp_bind, wp_session_free; [by apply sf_assemble|].
  intros [[staged md]|e] n2 fs2; [|apply Hrestore].
  apply wp_bind, wp_session_free; [apply _|]. intros [?|e] n3 fs3; [|apply Hrestore].
  apply wp_bind. unfold retire_upload. apply wp_bind, wp_modify_session. subst ss1. rewrite lookup_insert_eq.
  apply wp_bind, wp_ignore, wp_session_free; [apply _|]. intros _ n4 fs4.
  apply wp_bind, wp_ignore, wp_session_free; [apply _|]. intros _ n5 fs5.
  apply wp_bind, wp_remove_session.
  apply wp_ignore, wp_session_free; [unfold fs_remove_dir_all; apply _|]. intros _ n6 fs6.
  apply wp_ret, wp_ret. simpl. by rewrite !delete_insert_eq.
Qed.

Lemma wp_run_multipart op n fs ss :
  op_ok op ss → wp (run_multipart op) n fs ss (λ _ _ _ ss', steps ss ss').
Proof.
  destruct op; simpl; intros Hok.
  - apply wp_bind. eapply wp_mono; [by apply steps_create_upload|]. intros [?|?]; intros; [by apply wp_ret|done].
  - apply wp_bind. unfold create_temp_part. apply wp_bind, wp_get_open_upload.
    destruct (ss !! upload_id_str id) as [s|]; [|apply steps_refl].
    destruct (is_open s); [|apply steps_refl]. unfold fs_create.
    apply wp_session_free; [session_free|]. intros [?|?] ??; [apply wp_ret|]; apply steps_refl.
  - apply wp_bind. eapply wp_mono; [by apply steps_write_part|]. intros [?|?]; intros; [by apply wp_ret|done].
  - apply wp_bind. eapply wp_mono; [by apply steps_commit_part|]. intros [?|?]; intros; [by apply wp_ret|done].
  - eapply wp_mono; [by apply steps_abort_upload|]. naive_solver.
  - apply wp_bind. eapply wp_mono; [by apply wp_completion_table|]. cbv beta.
    intros r n' fs' ss' Hr. assert (steps ss ss') as Hsteps.
    { destruct (ss !! _) as [s|] eqn:Hs; [|by destruct Hr as (_ & -> & _); apply steps_refl].
      destruct (is_open s) eqn:Ho; [|by destruct Hr as (_ & -> & _); apply steps_refl].
      rewrite Hr. destruct (is_ok r); [|apply steps_refl]. apply steps_delete. rewrite Hs.
      constructor. by apply is_open_state. }
    destruct r; [by apply wp_ret|done].
Qed.

(** Sessions at rest: filed under their own id, open or aborted. *)
Definition table_ok ss : Prop := ∀ k s, ss !! k = Some s →
  upload_id_str (us_upload_id s) = k ∧ (us_state s = Open ∨ us_state s = Aborted).

(** The requests one after the other, each with its own world of faults. *)
Inductive reachable : World → World → Prop :=
| reach_here w : reachable w w
| reach_step w1 w2 w3 op r :
    reachable w1 w2 → op_ok op (sessions w2) → run_multipart op w2 = (r, w3) → reachable w1 w3.

Lemma table_ok_steps ss ss' : table_ok ss → steps ss ss' → table_ok ss'.
Proof.
  intros Hok Hs k s Hk. specialize (Hs k). rewrite Hk in Hs.
  inversion Hs as [o|s0|s0 ps Ho Hold|s0 Ho Hold|]; subst; [by apply Hok|auto| |].
  - destruct (Hok k s0) as [? _]; [done|]. auto.
  - destruct (Hok k s0) as [? _]; [done|]. auto.
Qed.

(* @prop invariant 20 : create_upload create_temp_part write_part commit_part abort_upload complete_upload record_part rollback_part *)
(** C20: the life cycle of an upload. Whatever calls of the file system fail, a
    request changes the entry of the session table of an upload only by creating
    it (open, without parts), changing the parts of an open session, aborting an
    open session or removing an open session; a session that is not open never
    changes again and never reopens. Hence, from a table at rest, every sequence
    of requests leaves a table in which every session is filed under its own id
    and is open or aborted: none is left in the middle of a completion. *)
Theorem multipart_state_machine :
  (∀ op (w w' : World) r, op_ok op (sessions w) → run_multipart op w = (r, w') →
     ∀ k, session_step k (sessions w !! k) (sessions w' !! k)) ∧
  (∀ w w', reachable w w' → table_ok (sessions w) → table_ok (sessions w')).
Proof.
  assert (∀ op (w w' : World) r, op_ok op (sessions w) → run_multipart op w = (r, w') →
            steps (sessions w) (sessions w')) as Hstep.
  { intros op w w' r Hok Hrun. exact (wp_run _ _ _ _ _ Hrun (wp_run_multipart op _ _ _ Hok)). }
  split; [exact Hstep|].
  induction 1 as [|w1 w2 w3 op r _ IH Hok Hrun]; [done|]. intros Ht.
  eapply table_ok_steps; [by apply IH|]. by eapply Hstep.
Qed.

(* @prop error 22 : complete_upload begin_completion restore_open_upload retire_upload *)
(** C22: completions of open uploads only, and all or nothing for the session. A
    completion of an upload that is missing or not open is refused without
    touching anything. Otherwise, whatever calls of the file system fail and
    whatever the processors do, a completion that succeeds removes the session and
    one that fails leaves the session table exactly as it was, the session open
    with all its parts, so that the client can try again. *)
Theorem failed_completion_reopens ids now req (w w' : World) r :
  processors_session_free (cu_processors req) → complete_upload ids now req w = (r, w') →
  match sessions w !! upload_id_str (cu_upload_id req) with
  | Some s =>
      if is_open s
      then sessions w' = if is_ok r then delete (upload_id_str (cu_upload_id req)) (sessions w) else sessions w
      else r = Err NoSuchUpload ∧ sessions w' = sessions w ∧ files w' = files w
  | None => r = Err NoSuchUpload ∧ sessions w' = sessions w ∧ files w' = files w
  end.
Proof. intros Hp Hrun. exact (wp_run _ _ _ _ _ Hrun (wp_completion_table ids now req _ _ _ Hp)). Qed.
End spec.

(** ** Witnesses: an upload of two parts *)
Section witnesses.
Local Existing Instances ref_http ref_codec ref_crypto ref_uuid ref_json.

Definition w_id_1 : UploadId := new_upload_id w_uuid.
Definition w_upload_metadata : UploadMetadata := mkUploadMetadata None None None None None None None None None [].
Definition w_begin (ops : list multipart_op) : World :=
  foldl (λ w op, (run_multipart op w).2) w_empty ops.

Definition w_part_op (n : Z) (c : bytes) : multipart_op :=
  WritePart w_uuid 5 w_id_1 (mkPartNumber n) c (sh_hash Md5 c) (md5_etag c) [].
Definition w_two_parts : World :=
  w_begin [Create w_uuid w_uuid 1 w_bucket w_key None w_upload_metadata; w_part_op 1 "hello "; w_part_op 2 "world"].

Definition w_part_meta (n : Z) (c : bytes) : PartMetadata :=
  mkPartMetadata (mkPartNumber n) (len c) (md5_etag c) (sh_hash Md5 c) [] 5.
Definition w_session : UploadSession :=
  mkSession w_id_1 w_bucket w_key 1 Open None w_upload_metadata
    [(1, w_part_meta 1 "hello "); (2, w_part_meta 2 "world")].

Lemma w_two_parts_session : sessions w_two_parts !! upload_id_str w_id_1 = Some w_session.
Proof. vm_refl. Qed.

Definition w_limits : UploadLimits := mkLimits 1000 1000 1 1 1 1 1.
Definition w_complete : CompleteUploadRequest := {|
  cu_upload_id := w_id_1;
  cu_requested_parts := [mkCompletedPart (mkPartNumber 1) (pm_etag (w_part_meta 1 "hello "));
                         mkCompletedPart (mkPartNumber 2) (pm_etag (w_part_meta 2 "world"))];
  cu_checksum_request := mkRequest None None None None None None [];
  cu_upload_limits := w_limits;
  cu_io_tuning := mkIoTuning 4 4 4;
  cu_request_id := mkRequestId "r";
  cu_processors := [];
|}.
Definition w_ids : CompletionIds := mkCompletionIds w_uuid w_uuid w_uuid w_uuid.
Definition w_completed : result StoreError ObjectMetadata * World := complete_upload w_ids 7 w_complete w_two_parts.

Lemma w_two_parts_refines : refines (files w_two_parts) ∅.
Proof.
  apply refines_same_objects with (files w_empty); [|apply refines_empty].
  intros q Hq. change (files w_empty !! q) with (None (A := bytes)). destruct (files w_two_parts !! q) eqn:Hf; [|done].
  exfalso. apply elem_of_map_to_list in Hf.
  assert (Forall (λ kv, head kv.1 = Some "multipart") (map_to_list (files w_two_parts))) as Hall.
  { apply (bool_decide_eq_true_1 _). vm_refl. }
  rewrite Forall_forall in Hall. by apply Hall in Hf.
Qed.

Lemma complete_upload_refines_witness :
  om_size <$> result_ok w_completed.1 = Some 11 ∧ sessions w_completed.2 = ∅ ∧
  ∃ md, refines (files w_completed.2) {[object_digest w_bucket w_key := (md, "hello world")]}.
Proof.
  destruct (complete_upload_refines w_ids 7 w_session w_complete [] w_two_parts w_completed.2 ∅ w_completed.1)
    as (_ & Hspec); [vm_refl|apply w_two_parts_refines|apply w_two_parts_session|done|done|by split|constructor
                    |by rewrite <- surjective_pairing|].
  assert ((λ r, (r.1, om_size r.2)) <$> result_ok (complete_spec (files w_two_parts) 7 w_session w_complete []) =
          Some ("hello world" : bytes, 11)) as Hc by vm_refl.
  destruct (complete_spec _ _ _ _ _) as [[data md]|e]; [|done]. simpl in Hc. injection Hc as -> Hsize.
  destruct Hspec as (Hr & Href & Hs & _). split_and!.
  - rewrite Hr. simpl. by rewrite Hsize.
  - rewrite Hs. vm_refl.
  - exists md. exact Href.
Defined.

Lemma multipart_state_machine_witness :
  session_step (upload_id_str w_id_1) (sessions w_two_parts !! upload_id_str w_id_1)
    (sessions (run_multipart (Abort w_uuid w_id_1) w_two_parts).2 !! upload_id_str w_id_1).
Proof.
  destruct multipart_state_machine as [Hstep _].
  apply (Hstep (Abort w_uuid w_id_1) w_two_parts _ (run_multipart (Abort w_uuid w_id_1) w_two_parts).1); [done|].
  by rewrite <- surjective_pairing.
Defined.

(** The rename that publishes the object fails: the session is as it was. *)
Definition w_failing : World :=
  mkWorld (files w_two_parts) (sessions w_two_parts) (replicate 18 None ++ [Some (mkFault "disk full" None [])]).
Definition w_failed : result StoreError ObjectMetadata * World := complete_upload w_ids 7 w_complete w_failing.

Lemma w_failing_session : sessions w_failing !! upload_id_str (cu_upload_id w_complete) = Some w_session.
Proof. vm_refl. Qed.

Lemma failed_completion_reopens_witness :
  is_ok w_failed.1 = false ∧ sessions w_failed.2 = sessions w_failing.
Proof.
  assert (is_ok w_failed.1 = false) as Hr by vm_refl. split; [done|].
  pose proof (failed_completion_reopens w_ids 7 w_complete w_failing w_failed.2 w_failed.1
    ltac:(constructor) (surjective_pairing _)) as Hfail.
  rewrite w_failing_session, Hr in Hfail. exact Hfail.
Defined.
End witnesses.
