(* ===== verification/Concurrency.v ===== *)
(** * Multipart requests at the same time

    The session table is shared by all requests. Its entries are locked for one
    access each; what a request does between two accesses can interleave with
    every other request. An upload is completed at most once all the same
    ([upload_completed_once]), but a part that is replaced while its upload is
    completed can end up in the object ([late_part_in_object]), and an upload
    can be completed and aborted at once ([completed_and_aborted]). *)

From S2P Require Import Prelude RustStd BTree S3Error Externals Reference Types StoreModel ReferenceJson.
From S2P Require Import Config Chunked ChunkedProofs Checksum Upload.
From S2P Require Import FileSystem Interleaving ObjectStore ObjectProofs ObjectSpec StoreTrait Middleware Assembly.
From S2P Require Import MultipartStore MultipartProofs MultipartSpec.
From Stdlib Require Import ZArith Lia.
Local Open Scope Z_scope.

Section once.
Context `{HttpLib} `{CodecLib} `{CryptoLib} `{UuidLib} `{JsonLib}.
Variable id : UploadId.

(** The upload is open. *)
Definition open_upload (w : World) : bool :=
  match sessions w !! upload_id_str id with Some s => is_open s | None => false end.

(** A step that does not open the upload. *)
Definition quiet (w w' : World) : Prop := open_upload w' = true → open_upload w = true.
Global Instance quiet_preorder : PreOrder quiet.
Proof. split; [by intros w Ho|]. intros w1 w2 w3 H12 H23 Ho. by apply H12, H23. Qed.

Lemma all_steps_mono {E A} (R R' : World → World → Prop) (m : ioE E A) :
  (∀ w w', R w w' → R' w w') → all_steps R m → all_steps R' m.
Proof.
  intros HR. induction m as [r|f IH] using ioE_ind'; [done|]. simpl. intros Hm w.
  destruct (Hm w) as [? ?]. auto.
Qed.

Lemma quiet_free {E A} (m : ioE E A) : SessionFree m → all_steps quiet m.
Proof. apply all_steps_mono. intros w w' Hs. unfold quiet, open_upload. by rewrite Hs. Qed.

(** One access to the table is one step. *)
#[local] Transparent io_step throw lift io_map io_bind_ io_ret.
Lemma run_insert_session s k w :
  run (insert_session s k) w = (Ok (), mkWorld (files w) (<[upload_id_str k := s]> (sessions w)) (faults w)).
Proof. done. Qed.
Lemma run_remove_session k w :
  run (remove_session k) w = (Ok (), mkWorld (files w) (delete (upload_id_str k) (sessions w)) (faults w)).
Proof. done. Qed.

Lemma run_modify_session k f w :
  run (modify_session k f) w =
    match sessions w !! upload_id_str k with
    | Some s => (Ok (Some (f s)), mkWorld (files w) (<[upload_id_str k := f s]> (sessions w)) (faults w))
    | None => (Ok None, w)
    end.
Proof. simpl. by destruct (sessions w !! upload_id_str k). Qed.

Lemma run_record_part k part w :
  run (record_part k part) w =
    match sessions w !! upload_id_str k with
    | Some s =>
        if is_open s
        then (Ok (insert_part part s),
              mkWorld (files w) (<[upload_id_str k := insert_part part s]> (sessions w)) (faults w))
        else (Err NoSuchUpload, w)
    | None => (Err NoSuchUpload, w)
    end.
Proof. simpl. destruct (sessions w !! _) as [s|]; [|done]. unfold ensure_open. simpl. by destruct (is_open s). Qed.

Lemma run_mark_completing k w :
  run (mark_completing k) w =
    match sessions w !! upload_id_str k with
    | Some s =>
        if is_open s
        then (Ok (set_state s Completing),
              mkWorld (files w) (<[upload_id_str k := set_state s Completing]> (sessions w)) (faults w))
        else (Err NoSuchUpload, w)
    | None => (Err NoSuchUpload, w)
    end.
Proof. simpl. destruct (sessions w !! _) as [s|]; [|done]. unfold ensure_open. simpl. by destruct (is_open s). Qed.

Lemma all_steps_locked {E A} (R : World → World → Prop) (l m : ioE E A) :
  l = locked m → (∀ w, R w (run l w).2) → all_steps R l.
Proof. intros -> HR. apply all_steps_step. intros w. specialize (HR w). simpl in HR. by destruct (run m w). Qed.

Lemma quiet_get_open_upload k : all_steps quiet (get_open_upload k).
Proof.
  apply all_steps_bind; [|intros o; apply all_steps_bind; [done|intros s]; by apply all_steps_bind].
  by apply all_steps_bind; [apply all_steps_step|].
Qed.
#[local] Opaque io_step throw lift io_map io_bind_ io_ret.

(** An entry that is replaced by one that is not open, or by one that is open if
    it was open itself. *)
Lemma quiet_insert w k s :
  (upload_id_str k = upload_id_str id → is_open s = true → open_upload w = true) →
  quiet w (mkWorld (files w) (<[upload_id_str k := s]> (sessions w)) (faults w)).
Proof.
  intros Hs. unfold quiet, open_upload at 1. simpl. destruct (decide (upload_id_str k = upload_id_str id)) as [Heq|Hne].
  - rewrite Heq, lookup_insert_eq. by apply Hs.
  - by rewrite lookup_insert_ne.
Qed.

Lemma quiet_insert_session s k :
  (upload_id_str k = upload_id_str id → is_open s = false) → all_steps quiet (insert_session s k).
Proof.
  intros Hs. eapply all_steps_locked; [reflexivity|]. intros w. rewrite run_insert_session. apply quiet_insert. intros Hk. by rewrite Hs.
Qed.

Lemma quiet_remove_session k : all_steps quiet (remove_session k).
Proof.
  eapply all_steps_locked; [reflexivity|]. intros w. rewrite run_remove_session. unfold quiet, open_upload. simpl.
  destruct (decide (upload_id_str k = upload_id_str id)) as [->|Hne].
  - by rewrite lookup_delete_eq.
  - by rewrite lookup_delete_ne.
Qed.

Lemma quiet_modify_session k f :
  (∀ s, is_open (f s) = true → is_open s = true) → all_steps quiet (modify_session k f).
Proof.
  intros Hf. eapply all_steps_locked; [reflexivity|]. intros w. rewrite run_modify_session. destruct (sessions w !! upload_id_str k) as [s|] eqn:Hs; [|reflexivity].
  apply quiet_insert. intros Hk Ho. unfold open_upload. rewrite <- Hk, Hs. auto.
Qed.

Lemma quiet_record_part k part : all_steps quiet (record_part k part).
Proof.
  eapply all_steps_locked; [reflexivity|]. intros w. rewrite run_record_part. destruct (sessions w !! upload_id_str k) as [s|] eqn:Hs; [|reflexivity].
  destruct (is_open s) eqn:Ho; [|reflexivity].
  apply quiet_insert. intros Hk _. unfold open_upload. by rewrite <- Hk, Hs.
Qed.

Lemma quiet_mark_completing k : all_steps quiet (mark_completing k).
Proof.
  eapply all_steps_locked; [reflexivity|]. intros w. rewrite run_mark_completing. destruct (sessions w !! upload_id_str k) as [s|] eqn:Hs; [|reflexivity].
  destruct (is_open s) eqn:Ho; [|reflexivity]. by apply quiet_insert.
Qed.

(** Resolves code that is quiet, call by call. *)
Create HintDb quiet.
Hint Resolve quiet_get_open_upload quiet_remove_session quiet_record_part quiet_mark_completing : quiet.
Hint Extern 1 (all_steps _ (mret _)) => exact I : quiet.
Hint Extern 1 (all_steps _ (throw _)) => exact I : quiet.
Hint Extern 1 (all_steps _ (lift _)) => exact I : quiet.
Ltac quiet_steps :=
  repeat (intros; first
    [ solve [auto with quiet] | apply quiet_free; session_free; fail | apply all_steps_bind | apply all_steps_io_map
    | match goal with |- all_steps _ (match ?x with _ => _ end) => destruct x end ]).

Lemma quiet_create_upload fresh u now b k owner md :
  upload_id_str (new_upload_id fresh) ≠ upload_id_str id →
  all_steps quiet (create_upload fresh u now b k owner md).
Proof.
  intros Hne. unfold create_upload, fs_create_dir_all.
  apply all_steps_bind; [apply quiet_free, _|intros _]. apply all_steps_bind; [apply quiet_free, _|intros _].
  apply all_steps_bind; [|done]. by apply quiet_insert_session.
Qed.

Lemma quiet_write_part u now k p c md5 e cs : all_steps quiet (write_part u now k p c md5 e cs).
Proof. unfold write_part, fs_write. quiet_steps. Qed.

Lemma quiet_commit_part u v now k p temp part : all_steps quiet (commit_part u v now k p temp part).
Proof.
  unfold commit_part, publish_part, rollback_part, fs_hard_link, fs_rename, ignore_remove_opt, attempt, ignore.
  quiet_steps. apply quiet_modify_session. by destruct (btree_get _ _).
Qed.

Lemma quiet_create_temp_part u k p : all_steps quiet (create_temp_part u k p).
Proof. unfold create_temp_part, fs_create. quiet_steps. Qed.

Lemma quiet_abort_upload u k : all_steps quiet (abort_upload u k).
Proof.
  unfold abort_upload, fs_remove_dir_all, attempt. quiet_steps. by apply quiet_insert_session.
Qed.

(** A completion up to its end or its failure; what restores the session comes
    after. *)
Lemma quiet_after_transition ids now s req :
  processors_session_free (cu_processors req) → all_steps quiet (complete_upload_after_transition ids now s req).
Proof.
  intros Hp. unfold complete_upload_after_transition. apply all_steps_bind.
  { apply quiet_free. by apply sf_assemble. }
  intros [staged md]. unfold retire_upload, mark_upload_state, fs_remove_dir_all, ignore.
  quiet_steps. by apply quiet_modify_session.
Qed.

Lemma quiet_restore u k : upload_id_str k ≠ upload_id_str id → all_steps quiet (restore_open_upload u k).
Proof.
  intros Hne. unfold restore_open_upload, mark_upload_state, ignore. apply all_steps_bind; [|quiet_steps].
  eapply all_steps_locked; [reflexivity|]. intros w. rewrite run_modify_session.
  destruct (sessions w !! upload_id_str k) as [s|]; [|reflexivity]. by apply quiet_insert.
Qed.

Hint Resolve quiet_after_transition quiet_restore : quiet.

Lemma quiet_other_completion ids now req :
  upload_id_str (cu_upload_id req) ≠ upload_id_str id → processors_session_free (cu_processors req) →
  all_steps quiet (complete_upload ids now req).
Proof.
  intros Hne Hp. unfold complete_upload, begin_completion, attempt, ignore.
  quiet_steps.
Qed.

(** A completion of the upload takes the token before it works, and succeeds only
    while it keeps it. *)
Lemma completion_keeps_token ids now req :
  upload_id_str (cu_upload_id req) = upload_id_str id → processors_session_free (cu_processors req) →
  keeps open_upload (λ b r, is_ok r = true → b = true) false (complete_upload ids now req).
Proof.
  intros Hid Hp. unfold complete_upload, begin_completion, attempt.
  apply token_bind, token_bind. eapply token_locked; [reflexivity|]. intros w.
  rewrite run_mark_completing, Hid. unfold open_upload.
  destruct (sessions w !! upload_id_str id) as [s|] eqn:Hs; [|exists false; simpl; by rewrite Hs].
  destruct (is_open s) eqn:Ho; [|exists false; simpl; rewrite Hs, Ho; done].
  exists true. simpl. rewrite lookup_insert_eq. split; [done|].
  apply token_bind, token_quiet; [by apply quiet_free, sf_ignore, sf_persist_session|].
  intros [[]|e]; [|done]. simpl. apply token_ret, token_bind, token_io_map, token_quiet.
  { by apply quiet_after_transition. }
  intros [md|e]; simpl; [by apply token_ret|].
  apply token_bind. unfold restore_open_upload, mark_upload_state. apply token_bind.
  eapply token_locked; [reflexivity|]. intros w1. exists false. split; [done|].
  rewrite run_modify_session. destruct (sessions w1 !! _) as [s1|]; simpl; [|by apply token_ret, token_throw].
  apply token_quiet; [by apply quiet_free, sf_ignore, sf_persist_session|].
  intros [[]|?]; [by apply token_throw|done].
Qed.

(** No request creates the upload again, and processors cannot reach the table. *)
Definition op_safe (op : multipart_op) : Prop :=
  match op with
  | Create fresh _ _ _ _ _ _ => upload_id_str (new_upload_id fresh) ≠ upload_id_str id
  | Complete _ _ req => processors_session_free (cu_processors req)
  | _ => True
  end.
Definition completes (op : multipart_op) : Prop :=
  match op with Complete _ _ req => upload_id_str (cu_upload_id req) = upload_id_str id | _ => False end.

Lemma op_keeps_token op :
  op_safe op → keeps open_upload (λ b r, completes op → is_ok r = true → b = true) false (run_multipart op).
Proof.
  intros Hsafe.
  assert (∀ A (m : io A), ¬ completes op → all_steps quiet m →
    keeps open_upload (λ b r, completes op → is_ok r = true → b = true) false (_ ← m; mret ())) as Hquiet.
  { intros A m Hno Hm. apply token_bind, token_quiet; [done|]. intros [a|e]; [by apply token_ret|done]. }
  destruct op; cbn [run_multipart op_safe completes] in *.
  - apply Hquiet; [tauto|by apply quiet_create_upload].
  - apply Hquiet; [tauto|apply quiet_create_temp_part].
  - apply Hquiet; [tauto|apply quiet_write_part].
  - apply Hquiet; [tauto|apply quiet_commit_part].
  - apply token_quiet; [apply quiet_abort_upload|done].
  - destruct (decide (upload_id_str (cu_upload_id req) = upload_id_str id)) as [Heq|Hne].
    + apply token_bind. eapply token_mono; [by apply completion_keeps_token|].
      intros b [md|e] Hb; [apply token_ret; intros _ _; by apply Hb|done].
    + apply Hquiet; [done|by apply quiet_other_completion].
Qed.

(* @prop safety 21 : complete_upload mark_completing restore_open_upload retire_upload commit_part record_part abort_upload write_part *)
(** C21: an upload is completed at most once, whatever happens at the same time.
    Let any number of requests of any kind run on the multipart store, their
    steps interleaved by any scheduler, with any failing calls. Of the
    completions of one upload at most one ever succeeds, and from then on the
    upload is never open again, so that requests that start later are refused. *)
Theorem upload_completed_once ops (w w' : World) ts' :
  Forall op_safe ops → interleaving (run_multipart <$> ops, w) (ts', w') →
  (∀ i j op op', ops !! i = Some op → ops !! j = Some op' → completes op → completes op' →
     ts' !! i = Some (Ended (Ok ())) → ts' !! j = Some (Ended (Ok ())) → i = j) ∧
  (∀ i op, ops !! i = Some op → completes op → ts' !! i = Some (Ended (Ok ())) → open_upload w' = false).
Proof.
  intros Hsafe Hi.
  destruct (token_exclusive open_upload
    ((λ op b (r : result StoreError ()), completes op → is_ok r = true → b = true) <$> ops)
    (run_multipart <$> ops) w ts' w') as (bs & Hlen & Hkeeps & Hone & Hclosed); [|done|].
  { apply Forall2_fmap_2. apply Forall2_same_length_lookup. split; [done|].
    intros i op op' Hop Hop'. simplify_eq. apply op_keeps_token. by eapply Forall_lookup_1 in Hsafe. }
  assert (∀ i op, ops !! i = Some op → completes op → ts' !! i = Some (Ended (Ok ())) → bs !! i = Some true) as Hwon.
  { intros i op Hop Hc Ht. destruct (lookup_lt_is_Some_2 bs i) as [b Hb].
    { rewrite Hlen. apply lookup_lt_is_Some. by eexists. }
    rewrite Hb. f_equal. refine (Hkeeps i (λ b r, completes op → is_ok r = true → b = true) b _ _ Hb Ht Hc eq_refl).
    by rewrite list_lookup_fmap, Hop. }
  split; [|intros i op ???; eapply Hclosed; by eapply Hwon].
  intros i j op op' ??????. eapply Hone; by eapply Hwon.
Qed.
End once.

(** ** Witness and two races *)
Section witnesses.
Local Existing Instances ref_http ref_codec ref_crypto ref_uuid ref_json.

Definition outcomes (ts : list (io ())) : list (option (result StoreError ())) :=
  (λ m, match m with Ended r => Some r | Step _ => None end) <$> ts.

Definition w_uuid_2 : Uuid := exist _ "123e4567-e89b-42d3-a456-426614174001" I.
Definition w_ids_2 : CompletionIds := mkCompletionIds w_uuid_2 w_uuid_2 w_uuid_2 w_uuid_2.

(** Two completions and an abort, step by step in turn: the first completion
    wins. *)
Definition w_contenders : list multipart_op :=
  [Complete w_ids 7 w_complete; Complete w_ids_2 8 w_complete; Abort w_uuid_2 w_id_1].
Definition w_contest : list (io ()) * World :=
  schedule (mjoin (replicate 60 [0; 1; 2]%nat)) (run_multipart <$> w_contenders) w_two_parts.

Lemma upload_completed_once_witness :
  outcomes w_contest.1 = [Some (Ok ()); Some (Err NoSuchUpload); Some (Err NoSuchUpload)] ∧
  open_upload w_id_1 w_contest.2 = false.
Proof.
  split; [vm_refl|]. pose proof (schedule_interleaving (mjoin (replicate 60 [0; 1; 2]%nat))
    (run_multipart <$> w_contenders) w_two_parts) as Hi. fold w_contest in Hi.
  assert (Forall (op_safe w_id_1) w_contenders) as Hsafe by (repeat constructor).
  assert (outcomes w_contest.1 !! 0%nat = Some (Some (Ok ()))) as Hout by vm_refl.
  destruct w_contest as [ts' w']. cbn [fst snd] in *.
  apply (proj2 (upload_completed_once w_id_1 w_contenders w_two_parts w' ts' Hsafe Hi) 0%nat (Complete w_ids 7 w_complete));
    [reflexivity|reflexivity|].
  unfold outcomes in Hout. rewrite list_lookup_fmap in Hout.
  destruct (ts' !! 0%nat) as [[r|f]|]; [|discriminate Hout|discriminate Hout].
  by injection Hout as ->.
Defined.

(** A part that is being replaced: its new bytes are in a temporary file. *)
Definition w_late_tmp : path := part_tmp w_id_1 (mkPartNumber 1) w_uuid_2 ".tmp".
Definition w_late : World :=
  (run (_ ← create_temp_part w_uuid_2 w_id_1 (mkPartNumber 1); fs_append w_late_tmp "JELLO ") w_two_parts).2.
Definition w_late_part : CommittedPart :=
  let m := w_part_meta 1 "JELLO " in mkCommittedPart (pm_size m) (pm_md5 m) (pm_etag m) [].

(** [commit_part] renames the new part over the old one before it looks at the
    session again. When a completion begins in between, the upload of the part
    is refused, but the completed object has its bytes, under the ETag of the
    bytes the client has listed. *)
Definition w_late_ops : list multipart_op :=
  [Complete w_ids 7 w_complete; CommitPart w_uuid_2 w_uuid_2 8 w_id_1 (mkPartNumber 1) w_late_tmp w_late_part].

Theorem late_part_in_object :
  ∃ ts' w', interleaving (run_multipart <$> w_late_ops, w_late) (ts', w') ∧
  outcomes ts' = [Some (Ok ()); Some (Err NoSuchUpload)] ∧
  files w' !! object_path w_bucket w_key = Some ("JELLO world" : bytes) ∧
  om_etag <$> (files w' !! metadata_path w_bucket w_key ≫= object_of_json) = om_etag <$> result_ok w_completed.1 ∧
  is_ok w_completed.1 = true.
Proof.
  pose (order := ([1; 0; 1; 1; 1] ++ replicate 60 0 ++ replicate 30 1)%nat).
  exists (schedule order (run_multipart <$> w_late_ops) w_late).1,
         (schedule order (run_multipart <$> w_late_ops) w_late).2.
  split; [rewrite <- surjective_pairing; apply schedule_interleaving|]. split_and!; vm_refl.
Qed.

(** [abort_upload] looks at the session and changes it in two accesses. When a
    completion runs in between, both requests succeed: the client is told that the
    upload was aborted, and the object is there. *)
Definition w_race_ops : list multipart_op := [Complete w_ids 7 w_complete; Abort w_uuid_2 w_id_1].

Theorem completed_and_aborted :
  ∃ ts' w', interleaving (run_multipart <$> w_race_ops, w_two_parts) (ts', w') ∧
  outcomes ts' = [Some (Ok ()); Some (Ok ())] ∧
  files w' !! object_path w_bucket w_key = Some ("hello world" : bytes).
Proof.
  pose (order := ([1] ++ replicate 60 0 ++ replicate 30 1)%nat).
  exists (schedule order (run_multipart <$> w_race_ops) w_two_parts).1,
         (schedule order (run_multipart <$> w_race_ops) w_two_parts).2.
  split; [rewrite <- surjective_pairing; apply schedule_interleaving|]. split; vm_refl.
Qed.
End witnesses.
