(* ===== verification/PartDurability.v ===== *)
(** * Parts and restarts

    A part is replaced as a whole, file and session entry together
    ([commit_part_atomic]), and what an open session has recorded is what a
    restarted process loads ([restart_recovers_sessions]). *)

From S2P Require Import Prelude RustStd BTree S3Error Externals Reference Types StoreModel ReferenceJson.
From S2P Require Import Config Chunked ChunkedProofs Checksum Upload.
From S2P Require Import FileSystem ObjectStore ObjectProofs ObjectSpec StoreTrait Middleware Assembly.
From S2P Require Import MultipartStore MultipartProofs MultipartSpec.
From Stdlib Require Import ZArith Lia.
Local Open Scope Z_scope.

(** ** The names of the files of an upload *)

Lemma digits_rev_length n k z :
  0 ≤ z < 10 ^ Z.of_nat (S k) → (length (digits_rev 10 n z) ≤ S k)%nat.
Proof.
  revert k z. induction n as [|n IH]; intros k z Hz; [simpl; lia|]. rewrite digits_rev_S.
  destruct (z <? 10) eqn:E; [simpl; lia|]. apply Z.ltb_ge in E. destruct k as [|k]; [simpl in Hz; lia|].
  cbn [length]. apply le_n_S, IH. rewrite Nat2Z.inj_succ, Z.pow_succ_r in Hz by lia. split.
  - apply Z.div_pos; lia.
  - apply Z.div_lt_upper_bound; lia.
Qed.

Lemma show_pad5_length p : part_number_ok p → length (show_pad5 (part_number_get p)) = 5%nat.
Proof.
  unfold part_number_ok. intros Hp. unfold show_pad5, pad_left. rewrite length_app, length_replicate.
  assert (length (show_u (part_number_get p)) ≤ 5)%nat; [|lia].
  unfold show_u, show_radix. rewrite length_reverse. apply digits_rev_length. simpl. lia.
Qed.

Section parts.
Context `{HttpLib} `{CodecLib} `{CryptoLib} `{UuidLib} `{JsonLib}.
Implicit Types (n : nat) (fs : gmap path bytes) (ss : gmap str UploadSession) (s : UploadSession).
Implicit Types (id : UploadId) (p : PartNumber).

Lemma part_files_distinct id p t b u :
  part_number_ok p →
  NoDup [part_tmp id p t ".tmp"; part_path id p; part_tmp id p b ".rollback.tmp"; session_tmp id u; session_path id].
Proof.
  intros Hp%show_pad5_length. unfold part_tmp, part_path, session_tmp, session_path.
  repeat (apply NoDup_cons; split; [rewrite ?not_elem_of_cons; split_and!|]);
    try first [by apply NoDup_singleton|by apply not_elem_of_nil|done];
    simpl; intros [= Heq]; apply (f_equal length) in Heq;
    repeat (rewrite ?length_app, ?uuid_to_string_length, ?Hp in Heq; simpl in Heq); lia.
Qed.

Lemma wp_hard_link (a b : path) n fs ss Q :
  fs !! b = None →
  (∀ c, fs !! a = Some c → Q (Ok ()) n (<[b := c]> fs) ss) →
  (fs !! a = None → Q (Err (Io NotFound)) n fs ss) →
  (∀ (e : StoreError) n', n = S n' → Q (Err e) n' fs ss) →
  wp (fs_hard_link a b) n fs ss Q.
Proof.
  intros Hb HT HF HE. apply wp_call; simpl.
  - rewrite Hb. destruct (fs !! a) eqn:Ha; simpl; eauto.
  - intros f n' ->. by apply HE.
Qed.

(** ** Publication of a part

    The five files involved are the temporary part, the part, the backup of the
    previous part and the two files of the session. *)
Section commit.
Context (id : UploadId) (p : PartNumber) (t b u : Uuid) (s : UploadSession) (new : PartMetadata).
Context (Hp : part_number_ok p) (Hnew : pm_part_number new = p).
Context (Ho : us_state s = Open) (Hid : us_upload_id s = id).
Let temp := part_tmp id p t ".tmp".
Let final := part_path id p.
Let backup := part_tmp id p b ".rollback.tmp".
Let previous := btree_get (part_number_get p) (us_parts s).

(** A recorded part keeps its file, its entry and its session file. *)
Definition part_kept fs fs' ss ss' : Prop :=
  (is_Some previous → fs' !! final = fs !! final) ∧ fs' !! session_path id = fs !! session_path id ∧ ss' = ss.

(** File, entry and session file are the new ones. *)
Definition part_replaced fs fs' ss ss' : Prop :=
  ∃ c j, fs !! temp = Some c ∧ fs' !! final = Some c ∧
    json_of_session (insert_part new s) = Some j ∧ fs' !! session_path id = Some j ∧
    ss' = <[upload_id_str id := insert_part new s]> ss.

Definition part_frame fs fs' : Prop :=
  ∀ q, q ∉ [temp; final; backup; session_tmp id u; session_path id] → fs' !! q = fs !! q.

(** The files the commit starts from are not all there. *)
Definition part_missing fs : Prop :=
  fs !! temp = None ∨ (is_Some previous ∧ fs !! final = None).

Definition part_post n fs ss (r : result StoreError PartMetadata) (fs' : gmap path bytes)
    (ss' : gmap str UploadSession) : Prop :=
  part_frame fs fs' ∧
  match r with
  | Ok part => part = new ∧ part_replaced fs fs' ss ss'
  | Err _ =>
      ((n ≤ 1)%nat → part_kept fs fs' ss ss' ∨ part_replaced fs fs' ss ss') ∧
      (n = 0%nat → part_missing fs)
  end.

Ltac names :=
  pose proof (part_files_distinct id p t b u Hp) as Hdup;
  fold temp final backup in Hdup;
  repeat match goal with
  | H : NoDup (_ :: _) |- _ => apply NoDup_cons in H; destruct H
  | H : _ ∉ _ :: _ |- _ => rewrite not_elem_of_cons in H; destruct H
  end.

Lemma set_parts_back (s0 : UploadSession) ps : set_parts (set_parts s0 ps) (us_parts s0) = s0.
Proof. by destruct s0. Qed.

(** The session after the rollback is the one before the part was recorded. *)
Lemma rollback_entry :
  match previous with
  | Some part => set_parts (insert_part new s) (btree_insert (part_number_get p) part (us_parts (insert_part new s)))
  | None => remove_part p (insert_part new s)
  end = s.
Proof.
  clear temp final backup. subst previous. unfold insert_part, remove_part. rewrite Hnew.
  destruct (btree_get _ _) as [part|] eqn:Hg; simpl.
  - rewrite btree_insert_insert, (btree_insert_id _ part) by done. apply set_parts_back.
  - rewrite btree_remove_insert by done. apply set_parts_back.
Qed.

Lemma wp_publish_part n fs ss Q :
  fs !! backup = None →
  let bk := (λ _, backup) <$> previous in
  (∀ c, fs !! temp = Some c → (is_Some previous → is_Some (fs !! final)) →
     Q (Ok ()) n (<[final := c]> (delete temp
       (if previous then partial_alter (λ _, fs !! final) backup fs else fs))) ss) →
  (∀ e n' fs', (n' ≤ n)%nat → (∀ q, q ≠ backup → fs' !! q = fs !! q) → (n = 0%nat → part_missing fs) →
     Q (Err e) n' fs' ss) →
  wp (publish_part temp final bk) n fs ss Q.
Proof.
  intros Hb bk HT HF. names. unfold publish_part, part_missing in *.
  apply wp_bind, wp_create_parent_dir; [done| |intros e n' ->; apply HF; [lia|done|done]].
  subst bk. destruct previous as [part|] eqn:Hprev; simpl.
  - apply wp_bind, wp_hard_link; [done| | |intros e n' ->; apply HF; [lia|done|done]].
    + intros old Hold. assert (partial_alter (λ _, fs !! final) backup fs = <[backup := old]> fs) as Heq
        by (by rewrite Hold). rewrite Heq in HT.
      apply wp_rename.
      * intros c. rewrite lookup_insert_ne by done. intros Hc. apply HT; [done|]. by rewrite Hold.
      * rewrite lookup_insert_ne by done. intros Hc. apply HF; [lia| |by left].
        intros q Hq. by rewrite lookup_insert_ne.
      * intros e n' ->. apply HF; [lia| |done]. intros q Hq. by rewrite lookup_insert_ne.
    + intros Hc. apply HF; [done|done|]. by right.
  - apply wp_bind, wp_ret, wp_rename.
    + intros c Hc. apply HT; [done|]. by intros [].
    + intros Hc. apply HF; [done|done|by left].
    + intros e n' ->. apply HF; [lia|done|done].
Qed.

(** The rollback after a failed persistence of the session: complete without
    further faults, and always within the files of the part. *)
Lemma wp_rollback_part n fs ss ss1 Q :
  ss1 = <[upload_id_str id := insert_part new s]> ss → ss !! upload_id_str id = Some s →
  (is_Some previous → is_Some (fs !! backup)) →
  (∀ n' fs', (∀ q, q ≠ final → q ≠ backup → fs' !! q = fs !! q) →
     (n = 0%nat → is_Some previous → fs' !! final = fs !! backup) → Q (Ok ()) n' fs' ss) →
  wp (rollback_part id p final ((λ _, backup) <$> previous) previous) n fs ss1 Q.
Proof.
  intros -> Hs Hbk HQ. names. unfold rollback_part.
  assert (∀ n' fs', (∀ q, q ≠ final → q ≠ backup → fs' !! q = fs !! q) →
     (n = 0%nat → is_Some previous → fs' !! final = fs !! backup) →
     wp (_ ← modify_session id
           match previous with
           | Some previous => λ s, set_parts s (btree_insert (part_number_get p) previous (us_parts s))
           | None => remove_part p
           end; mret ()) n' fs' (<[upload_id_str id := insert_part new s]> ss) Q) as Hend.
  { intros n' fs' Hf Hz. apply wp_bind, wp_modify_session. rewrite lookup_insert_eq. apply wp_ret.
    rewrite insert_insert_eq. pose proof rollback_entry as Hentry.
    assert (<[upload_id_str id := s]> ss = ss) as Hss by (by apply insert_id).
    destruct previous; rewrite Hentry, Hss; by apply HQ. }
  apply wp_ignore_remove. intros n1 fs1 Hn1 Hf1 Hz1.
  destruct previous as [part|] eqn:Hprev; simpl.
  - destruct (Hbk ltac:(done)) as [old Hold].
    assert (fs1 !! backup = Some old) as Hb1 by (by rewrite Hf1).
    apply wp_bind, wp_ignore, wp_rename; [intros c Hc|by rewrite Hb1|intros e n2 ->].
    + rewrite Hb1 in Hc. injection Hc as <-. apply Hend.
      * intros q ??. rewrite lookup_insert_ne, lookup_delete_ne, Hf1 by done. done.
      * intros _ _. by rewrite lookup_insert_eq.
    + apply Hend; [|lia]. intros q ??. by rewrite Hf1.
  - apply wp_bind, wp_ret. apply Hend; [|by intros _ []]. intros q ??. by rewrite Hf1.
Qed.

Lemma part_post_refused n fs ss e fs' :
  (∀ q, q ≠ temp → q ≠ backup → fs' !! q = fs !! q) → (n = 0%nat → part_missing fs) →
  part_post n fs ss (Err e) fs' ss.
Proof.
  intros Hf Hz. names. split; [|split; [|done]].
  - intros q Hq. rewrite !not_elem_of_cons in Hq. apply Hf; tauto.
  - intros _. left. split_and!; [intros _|..]; rewrite ?Hf by done; done.
Qed.

Lemma wp_commit_part now cp n fs ss :
  fs !! backup = None → json_of_session (insert_part new s) ≠ None → ss !! upload_id_str id = Some s →
  new = mkPartMetadata p (cmp_size cp) (cmp_etag cp) (cmp_md5 cp) (cmp_checksums cp) now →
  wp (commit_part b u now id p temp cp) n fs ss (λ r _ fs' ss', part_post n fs ss r fs' ss').
Proof.
  intros Hb Hjson Hs Hn. pose proof wp_rollback_part as rollback. pose proof wp_publish_part as publish.
  pose proof part_post_refused as refused. names.
  unfold commit_part. apply wp_bind, wp_get_open_upload. rewrite Hs.
  assert (is_open s = true) as Hopen by (unfold is_open; by rewrite Ho). rewrite Hopen.
  fold previous final backup.
  apply wp_bind, wp_attempt, publish; [done| |].
  2: { intros e n1 fs1 Hn1 Hf1 Hz1. apply wp_ignore_remove. intros n2 fs2 Hn2 Hf2 _.
       assert (∀ q, q ≠ temp → q ≠ backup → fs2 !! q = fs !! q) as Hf by (intros q ??; by rewrite Hf2, Hf1).
       apply wp_bind. destruct previous; simpl.
       - apply wp_ignore, wp_remove_file_if_exists; [|intros ? n3 ->]; apply wp_throw, refused; [|done|done|done].
         intros q ??. by rewrite lookup_delete_ne, Hf.
       - by apply wp_ret, wp_throw, refused. }
  intros c Hc Hprev. rewrite <- Hn. set (fs1 := <[final := c]> _).
  assert (∀ q, q ≠ temp → q ≠ final → q ≠ backup → fs1 !! q = fs !! q) as Hf1.
  { intros q ???. subst fs1. rewrite lookup_insert_ne, lookup_delete_ne by done.
    destruct previous; [by rewrite lookup_partial_alter_ne|done]. }
  assert (is_Some previous → fs1 !! backup = fs !! final) as Hbk1.
  { intros Hsome. subst fs1. rewrite lookup_insert_ne, lookup_delete_ne by done.
    destruct previous; [by rewrite lookup_partial_alter_eq|by destruct Hsome]. }
  apply wp_bind, wp_record_part. rewrite Hs, Hopen.
  apply wp_bind, wp_attempt, wp_persist_session. intros r n2 fs2 (Hn2 & Hf2 & Hr). simpl in Hf2, Hr. rewrite Hid in *.
  assert (∀ fs', (∀ q, q ≠ backup → q ≠ final → fs' !! q = fs2 !! q) → part_frame fs fs') as Hframe.
  { intros fs' Hf' q Hq. rewrite !not_elem_of_cons in Hq. destruct Hq as (?&?&?&?&?&_).
    by rewrite Hf', Hf2, Hf1. }
  destruct r as [[]|e].
  - destruct Hr as (j & Hj & Hsp).
    assert (∀ fs', (∀ q, q ≠ backup → fs' !! q = fs2 !! q) →
      part_replaced fs fs' ss (<[upload_id_str id := insert_part new s]> ss)) as Hrep.
    { intros fs' Hf'. exists c, j. rewrite !Hf', Hsp by done. split_and!; try done.
      rewrite Hf2 by done. subst fs1. by rewrite lookup_insert_eq. }
    apply wp_bind. destruct previous; simpl.
    + apply wp_remove_file_if_exists; [apply wp_ret; split; [|split; [done|]]|intros ? n3 ->; split; [|split; [intros _; right|]]].
      * apply Hframe. intros q ??. by rewrite lookup_delete_ne.
      * apply Hrep. intros q ?. by rewrite lookup_delete_ne.
      * by apply Hframe.
      * by apply Hrep.
      * lia.
    + apply wp_ret, wp_ret. split; [by apply Hframe|]. split; [done|by apply Hrep].
  - destruct Hr as [Hsp [[? _]|Hlt]]; [done|].
    apply wp_bind, rollback with ss; [done|done| |].
    { intros Hsome. rewrite Hf2, Hbk1 by done. by apply Hprev. }
    intros n3 fs3 Hf3 Hz. apply wp_throw. split; [apply Hframe; intros; by apply Hf3|].
    split; [|lia]. intros Hle. left. split_and!; [|by rewrite Hf3, Hsp, Hf1|done].
    intros Hsome. rewrite Hz, Hf2, Hbk1 by (done || lia). done.
Qed.
End commit.

(* @prop safety 29 : commit_part publish_part record_part rollback_part persist_session *)
(** C29: a part is replaced as a whole. When a temporary part is committed to an
    open session, a success means that the part file holds the temporary part's
    bytes, that the session table has the new entry and that the session file on
    disk decodes to that session. Without faults it does succeed, when the files
    it starts from are there. With at most one failing call, an error leaves
    either all three as they were (for a part number that was already uploaded:
    the previous bytes) or all three new, never a mix; and no other file changes
    than the five files of the commit. *)
Theorem commit_part_atomic id p t b u s new now cp (w w' : World) (r : result StoreError PartMetadata) :
  part_number_ok p → us_state s = Open → us_upload_id s = id →
  sessions w !! upload_id_str id = Some s → files w !! part_tmp id p b ".rollback.tmp" = None →
  new = mkPartMetadata p (cmp_size cp) (cmp_etag cp) (cmp_md5 cp) (cmp_checksums cp) now →
  json_of_session (insert_part new s) ≠ None →
  commit_part b u now id p (part_tmp id p t ".tmp") cp w = (r, w') →
  let kept := part_kept id p s (files w) (files w') (sessions w) (sessions w') in
  let replaced := part_replaced id p t s new (files w) (files w') (sessions w) (sessions w') in
  (∀ part, r = Ok part → part = new ∧ replaced) ∧
  (budget w = 0%nat → ¬ part_missing id p t s (files w) → r = Ok new) ∧
  ((budget w ≤ 1)%nat → kept ∨ replaced) ∧
  (∀ q, q ∉ [part_tmp id p t ".tmp"; part_path id p; part_tmp id p b ".rollback.tmp";
             session_tmp id u; session_path id] → files w' !! q = files w !! q).
Proof.
  intros Hp Ho Hid Hs Hb Hn Hj Hrun.
  assert (pm_part_number new = p) as Hnew by (by subst).
  pose proof (wp_commit_part id p t b u s new Hp Hnew Ho Hid now cp (budget w) _ _ Hb Hj Hs Hn) as Hwp.
  destruct (wp_run _ _ _ _ _ Hrun Hwp) as [Hf Hr]. split_and!; [|intros Hz Hm|intros Hle|exact Hf].
  - intros part ->. exact Hr.
  - destruct r as [part|e]; [by destruct Hr as [-> _]|by destruct (Hm (proj2 Hr Hz))].
  - destruct r; [right; apply Hr|by apply (proj1 Hr)].
Qed.

(** ** Restart *)

(** The session a restarted process finds in the directory [d]. *)
Definition loaded (lifecycle : MultipartLifecycle) (now : Z) fs (d : str) : option UploadSession :=
  j ← fs !! ["multipart"; d; "session.json"];
  s ← session_of_json j;
  if is_open s && negb (incomplete_upload_is_expired lifecycle now s) then Some s else None.

(** Session files decode, to the session of their directory. *)
Definition stored_ok fs : Prop := ∀ d j, fs !! ["multipart"; d; "session.json"] = Some j →
  ∃ s, session_of_json j = Some s ∧ upload_id_str (us_upload_id s) = d.

Lemma elem_of_read_dir fs (dir : path) (name x : str) rest c :
  fs !! (dir ++ name :: x :: rest) = Some c →
  (name, false) ∈ remove_dups (omap (entry_of dir) (map_to_list fs).*1).
Proof.
  intros Hc. apply elem_of_remove_dups, list_elem_of_omap. exists (dir ++ name :: x :: rest). split.
  - apply list_elem_of_fmap. exists (dir ++ name :: x :: rest, c). split; [done|by apply elem_of_map_to_list].
  - unfold entry_of, strictly_under. rewrite take_app_length, !bool_decide_eq_true_2, drop_app_length; [done|..|done].
    rewrite length_app. simpl. lia.
Qed.

Lemma stored_ok_subseteq fs fs' : fs' ⊆ fs → stored_ok fs → stored_ok fs'.
Proof. intros Hsub Hst d j Hj. apply (Hst d j). by eapply lookup_weaken. Qed.

(** Loading removes files only, and only of uploads that are not loaded. *)
Definition startup_frame lifecycle now fs fs' : Prop :=
  fs' ⊆ fs ∧
  ∀ q, (∀ d, under ["multipart"; d] q = true → is_Some (loaded lifecycle now fs d)) → fs' !! q = fs !! q.

Lemma under_dir d k : under ["multipart"; d] ["multipart"; k; "session.json"] = true → d = k.
Proof. unfold under. rewrite bool_decide_eq_true. simpl. by intros [= ->]. Qed.

Lemma startup_frame_loaded lifecycle now fs fs' k :
  startup_frame lifecycle now fs fs' → loaded lifecycle now fs' k = loaded lifecycle now fs k.
Proof.
  intros [Hsub Hf]. destruct (loaded lifecycle now fs k) as [s|] eqn:Hl.
  - rewrite <- Hl. unfold loaded. rewrite Hf; [done|]. intros d <-%under_dir. by rewrite Hl.
  - unfold loaded in *. destruct (fs' !! _) as [j|] eqn:Hj; [|done].
    by rewrite (lookup_weaken _ _ _ _ Hj Hsub) in Hl.
Qed.

Lemma startup_frame_refl lifecycle now fs : startup_frame lifecycle now fs fs.
Proof. by split. Qed.

Lemma startup_frame_trans lifecycle now fs1 fs2 fs3 :
  startup_frame lifecycle now fs1 fs2 → startup_frame lifecycle now fs2 fs3 → startup_frame lifecycle now fs1 fs3.
Proof.
  intros H12 [Hs23 Hf23]. pose proof H12 as [Hs12 Hf12]. split; [by etrans|].
  intros q Hq. rewrite Hf23, Hf12; [done|done|].
  intros d Hd. rewrite (startup_frame_loaded _ _ fs1 fs2 d H12). by apply Hq.
Qed.

Lemma wp_remove_upload_dir lifecycle now d fs ss Q :
  loaded lifecycle now fs d = None →
  (∀ fs', startup_frame lifecycle now fs fs' → Q (Ok ()) 0%nat fs' ss) →
  wp (remove_upload_dir_on_startup ["multipart"; d]) 0 fs ss Q.
Proof.
  intros Hl HQ. apply wp_ignore, wp_call; [|done]. apply HQ. split; [apply map_filter_subseteq|].
  intros q Hq. simpl.
  destruct (fs !! q) eqn:Hfq; [|apply map_lookup_filter_None; by left].
  apply map_lookup_filter_Some. split; [done|]. simpl.
  destruct (under ["multipart"; d] q) eqn:Hu; [|done]. apply Hq in Hu. rewrite Hl in Hu. by destruct Hu.
Qed.

Lemma wp_load_session lifecycle now d (is_file : bool) fs ss Q :
  stored_ok fs →
  (∀ fs', startup_frame lifecycle now fs fs' →
     Q (Ok ()) 0%nat fs' (if is_file then ss else
       match loaded lifecycle now fs d with Some s => <[d := s]> ss | None => ss end)) →
  wp (load_session lifecycle now (d, is_file)) 0 fs ss Q.
Proof.
  intros Hst HQ. unfold load_session. destruct is_file; [by apply wp_ret, HQ, startup_frame_refl|].
  pose proof (wp_remove_upload_dir lifecycle now d) as remove.
  pose proof (startup_frame_refl lifecycle now) as refl.
  apply wp_bind, wp_attempt, wp_call; [|done]. simpl. unfold loaded at 1 in HQ. unfold loaded at 1 in remove.
  destruct (fs !! ["multipart"; d; "session.json"]) as [j|] eqn:Hj; simpl in *; [|by apply wp_ret, HQ].
  destruct (Hst d j Hj) as (s & Hdec & Hkey). rewrite Hdec in *. simpl in *.
  apply wp_bind, wp_lift. simpl.
  destruct (is_open s) eqn:Ho; simpl in *;
    [destruct (incomplete_upload_is_expired lifecycle now s) eqn:Hx; simpl in *|].
  - destruct (cleanup_on_startup lifecycle); [|by apply wp_ret, HQ].
    apply remove; [|done]. by rewrite Hj; simpl; rewrite Hdec; simpl; rewrite Ho, Hx.
  - apply wp_insert_session. rewrite Hkey. by apply HQ.
  - destruct (_ && _); [|by apply wp_ret, HQ].
    apply remove; [|done]. by rewrite Hj; simpl; rewrite Hdec; simpl; rewrite Ho.
Qed.

Lemma wp_load_loop lifecycle now (l : list (str * bool)) fs ss Q :
  stored_ok fs →
  (∀ fs' ss', startup_frame lifecycle now fs fs' →
     (∀ k, ss' !! k = if decide ((k, false) ∈ l) then
                        match loaded lifecycle now fs k with Some s => Some s | None => ss !! k end
                      else ss !! k) →
     Q (Ok ()) 0%nat fs' ss') →
  wp (io_for (load_session lifecycle now) l) 0 fs ss Q.
Proof.
  revert fs ss. induction l as [|[d is_file] l IH]; intros fs ss Hst HQ.
  { apply wp_ret, HQ; [apply startup_frame_refl|]. intros k. by rewrite decide_False by apply not_elem_of_nil. }
  apply wp_bind, wp_load_session; [done|]. intros fs1 Hf1.
  apply IH; [by eapply stored_ok_subseteq; [apply Hf1|]|]. intros fs2 ss2 Hf2 Hss2.
  apply HQ; [by eapply startup_frame_trans|]. intros k. rewrite Hss2.
  rewrite (startup_frame_loaded _ _ _ _ _ Hf1).
  destruct is_file.
  - rewrite (decide_ext ((k, false) ∈ (d, true) :: l) ((k, false) ∈ l)); [done|]. set_solver.
  - destruct (decide (k = d)) as [->|Hne].
    + rewrite (decide_True (P := (d, false) ∈ (d, false) :: l)) by (by left).
      destruct (loaded lifecycle now fs d); [rewrite lookup_insert_eq|]; by destruct (decide _).
    + rewrite (decide_ext ((k, false) ∈ (d, false) :: l) ((k, false) ∈ l)) by set_solver.
      destruct (loaded lifecycle now fs d); by rewrite ?lookup_insert_ne.
Qed.

(** A stale temporary file directly in the directory of an upload. *)
Definition stale_tmp (q : path) : Prop :=
  ∃ d name, q = ["multipart"; d; name] ∧ ends_with ".tmp" name = true.

Lemma wp_cleanup_stale_part_files fs ss Q :
  (∀ fs', fs' ⊆ fs → (∀ q, ~ stale_tmp q → fs' !! q = fs !! q) → Q (Ok ()) 0%nat fs' ss) →
  wp cleanup_stale_part_files 0 fs ss Q.
Proof.
  intros HQ. set (P fs' := fs' ⊆ fs ∧ ∀ q, ~ stale_tmp q → fs' !! q = fs !! q).
  apply wp_bind, wp_call; [|done]. simpl.
  apply (wp_io_for P); [|by split|by intros fs' [? ?]; apply HQ].
  intros [d is_file] fs1 _ HP. destruct is_file; [by apply wp_ret|].
  apply wp_bind, wp_call; [|done]. simpl. apply (wp_io_for P); [|done|done].
  intros [name is_file] fs2 _ [Hsub Hf].
  destruct (is_file && utf8_valid name && ends_with ".tmp" name) eqn:Hc; [|by apply wp_ret].
  apply wp_remove_file_if_exists; [|done]. split_and!; [done|done|done|]. split.
  - etrans; [apply delete_subseteq|done].
  - intros q Hq. rewrite lookup_delete_ne; [by apply Hf|]. intros <-. apply Hq.
    exists d, name. split; [done|]. by apply andb_true_iff in Hc as [_ ?].
Qed.

(** The table of a fresh process, and the files it has not removed. *)
Definition loaded_post (lifecycle : MultipartLifecycle) (now : Z) fs (r : result StoreError ()) (n : nat) (fs' : gmap path bytes)
    (ss' : gmap str UploadSession) : Prop :=
  r = Ok () ∧ (∀ k, ss' !! k = loaded lifecycle now fs k) ∧
  ∀ q, ~ stale_tmp q → (∀ d, under ["multipart"; d] q = true → is_Some (loaded lifecycle now fs d)) →
       fs' !! q = fs !! q.

Lemma wp_new_multipart_store lifecycle now fs ss Q :
  stored_ok fs → (∀ r n' fs' ss', loaded_post lifecycle now fs r n' fs' ss' → Q r n' fs' ss') →
  wp (new_multipart_store lifecycle now) 0 fs ss Q.
Proof.
  intros Hst HQ. apply wp_mono with (loaded_post lifecycle now fs); [|exact HQ].
  unfold new_multipart_store. apply wp_bind, wp_call; [|done]. simpl.
    apply wp_bind, wp_put_sessions, wp_bind. unfold load_sessions. apply wp_bind, wp_call; [|done]. simpl.
    apply wp_load_loop; [done|]. intros fs1 ss1 Hf1 Hss1.
    assert (∀ k, ss1 !! k = loaded lifecycle now (fs) k) as Htable.
    { intros k. rewrite Hss1. destruct (loaded lifecycle now (fs) k) as [s|] eqn:Hl; [|by destruct (decide _)].
      unfold loaded in Hl. destruct (fs !! _) as [j|] eqn:Hj; [|done].
      by rewrite decide_True by (by apply (elem_of_read_dir (fs) ["multipart"] k "session.json" [] j)). }
    destruct (_ && _).
    - apply wp_cleanup_stale_part_files. intros fs2 Hsub Hf2. split; [done|]. split; [done|].
      intros q Hq Hd. rewrite Hf2 by done. by apply Hf1.
    - apply wp_ret. split; [done|]. split; [done|]. intros q Hq Hd. by apply Hf1.
Qed.

(* @prop invariant 28 : new_multipart_store load_sessions load_session incomplete_upload_is_expired cleanup_stale_part_files remove_upload_dir_on_startup *)
(** C28: open uploads survive a restart. Without file system faults, a process
    that starts on a disk whose session files decode succeeds, and its session
    table holds, for every upload directory, exactly the session of its session
    file if that session is open and not expired, and nothing else. The files of
    the uploads it loads (parts and session file) are all kept, except stale
    [.tmp] files, and so is every file of the object store. *)
Theorem restart_recovers_sessions lifecycle now (w w' : World) (r : result StoreError ()) :
  faults w = [] → stored_ok (files w) → new_multipart_store lifecycle now w = (r, w') →
  r = Ok () ∧
  (∀ k, sessions w' !! k = loaded lifecycle now (files w) k) ∧
  (∀ k q, is_Some (sessions w' !! k) → under ["multipart"; k] q = true → ~ stale_tmp q →
     files w' !! q = files w !! q) ∧
  same_objects (files w) (files w').
Proof.
  intros Hfl Hst Hrun. assert (budget w = 0%nat) as Hb by (unfold budget; by rewrite Hfl).
  pose proof (wp_new_multipart_store lifecycle now _ (sessions w) (loaded_post lifecycle now (files w)) Hst
    ltac:(done)) as Hwp.
  rewrite <- Hb in Hwp.
  destruct (wp_run _ _ _ _ _ Hrun Hwp) as [-> [Htable Hf]]. split_and!; [done|done| |].
  - intros k q Hk Hu Hq. apply Hf; [done|]. intros d Hd.
    assert (d = k) as ->; [|by rewrite <- Htable].
    unfold under in Hu, Hd. rewrite bool_decide_eq_true in *. simpl in *. congruence.
  - intros q Hq. apply Hf.
    + by intros (d & name & -> & _).
    + intros d Hd. by apply (under_upload (mkUploadId d)) in Hd.
Qed.
End parts.

(** ** Witnesses *)
Section witnesses.
Local Existing Instances ref_http ref_codec ref_crypto ref_uuid ref_json.

Definition w_new_part : PartMetadata :=
  mkPartMetadata (mkPartNumber 1) 3 (mkETag "n") "m" [] 9.
Definition w_committed : CommittedPart := mkCommittedPart 3 "m" (mkETag "n") [].

(** A second version of part 1 is staged; the third call of the commit fails. *)
Definition w_part_world : World :=
  mkWorld (<[part_tmp w_id_1 (mkPartNumber 1) w_uuid ".tmp" := "new"]> (files w_two_parts)) (sessions w_two_parts)
    [None; None; Some (mkFault "disk full" None [])].

Definition w_part_commit : result StoreError PartMetadata * World :=
  commit_part w_uuid w_uuid 9 w_id_1 (mkPartNumber 1) (part_tmp w_id_1 (mkPartNumber 1) w_uuid ".tmp")
    w_committed w_part_world.

Lemma commit_part_atomic_witness :
  is_ok w_part_commit.1 = false ∧
  files w_part_commit.2 !! part_path w_id_1 (mkPartNumber 1) = Some "hello ".
Proof.
  split; [vm_refl|].
  destruct (commit_part_atomic w_id_1 (mkPartNumber 1) w_uuid w_uuid w_uuid w_session w_new_part 9 w_committed
    w_part_world w_part_commit.2 w_part_commit.1) as (_ & _ & Hone & _);
    [by split|done|done|vm_refl|vm_refl|reflexivity|discriminate|by rewrite <- surjective_pairing|].
  destruct Hone as [[Hk _]|(c & j & _ & Hk & _)]; [vm_compute; lia| |].
  - rewrite Hk; [vm_refl|]. vm_compute. eauto.
  - vm_refl.
Defined.

Definition w_check (kv : path * bytes) : bool :=
  match kv.1 with
  | [_; d; f] =>
      negb (str_eqb f "session.json") ||
      match session_of_json kv.2 with Some s => str_eqb (upload_id_str (us_upload_id s)) d | None => false end
  | _ => true
  end.

Lemma w_stored_ok : stored_ok (files w_two_parts).
Proof.
  intros d j Hj. apply elem_of_map_to_list in Hj.
  assert (forallb w_check (map_to_list (files w_two_parts)) = true) as Hall by vm_refl.
  rewrite forallb_forall in Hall. apply list_elem_of_In, Hall in Hj.
  change (match session_of_json j with Some s => str_eqb (upload_id_str (us_upload_id s)) d | None => false end
          = true) in Hj.
  destruct (session_of_json j) as [s|]; [|done]. exists s. split; [done|]. by apply str_eqb_eq.
Qed.

Lemma restart_recovers_sessions_witness :
  sessions (new_multipart_store default_lifecycle 10 w_two_parts).2 !! upload_id_str w_id_1 = Some w_session.
Proof.
  destruct (restart_recovers_sessions default_lifecycle 10 w_two_parts
    (new_multipart_store default_lifecycle 10 w_two_parts).2 (new_multipart_store default_lifecycle 10 w_two_parts).1)
    as (_ & Htable & _); [vm_refl|apply w_stored_ok|by rewrite <- surjective_pairing|].
  rewrite Htable. vm_refl.
Defined.
End witnesses.
