(* ===== verification/Footprint.v ===== *)
(** * Footprints

    [confined m Q]: every step of [m], in whatever state other tasks have left the
    world and whatever call fails, changes only the files of [P] and the entries
    of [T] in the session table, and the result satisfies [Q]. The rules derive
    the footprint of each operation of the two stores: temporary files, the two
    files of an object, the directory and the session of an upload. *)

From S2P Require Import Prelude RustStd BTree S3Error Externals Reference Types Config.
From S2P Require Import Chunked ChunkedProofs Checksum Upload.
From S2P Require Import StoreModel ReferenceJson FileSystem Interleaving ObjectStore ObjectProofs ObjectSpec StoreTrait.
From S2P Require Import Middleware Assembly MultipartStore MultipartProofs MultipartSpec Concurrency.
From Stdlib Require Import ZArith Lia.
Local Open Scope Z_scope.

(** An upload id belongs to one object for good. [names] says to which; a table
    that agrees files each session under its id and with the names of its id. *)
Definition Names : Type := str → BucketName * ObjectKey.
Definition session_named (names : Names) (k : str) (s : UploadSession) : Prop :=
  upload_id_str (us_upload_id s) = k ∧ (us_bucket s, us_key s) = names k.
Definition table_named (names : Names) (ss : gmap str UploadSession) : Prop :=
  ∀ k s, ss !! k = Some s → session_named names k s.

(** Files outside [P] and sessions outside [T] are as they were. *)
Definition outside (P : path → Prop) (T : str → Prop) (w w' : World) : Prop :=
  (∀ q, ¬ P q → files w' !! q = files w !! q) ∧ (∀ k, ¬ T k → sessions w' !! k = sessions w !! k).

Global Instance outside_preorder P T : PreOrder (outside P T).
Proof.
  split; [by intros w|]. intros w1 w2 w3 [Hf Hs] [Hf' Hs'].
  split; [intros q Hq; by rewrite Hf', Hf|intros k Hk; by rewrite Hs', Hs].
Qed.
Lemma outside_subset (P P' : path → Prop) (T T' : str → Prop) w w' :
  (∀ q, P q → P' q) → (∀ k, T k → T' k) → outside P T w w' → outside P' T' w w'.
Proof. intros HP HT [Hf Hs]. split; auto. Qed.

Section confined.
Variables (names : Names) (P : path → Prop) (T : str → Prop).

Fixpoint confined {E A} (m : ioE E A) (Q : result E A → Prop) : Prop :=
  match m with
  | Ended r => Q r
  | Step f => ∀ w, table_named names (sessions w) →
      table_named names (sessions (f w).2) ∧ outside P T w (f w).2 ∧ confined (f w).1 Q
  end.

Definition any {E A} : result E A → Prop := λ _, True.

(** ** The rules *)

Section rules.
Context {E F A B : Type}.
#[local] Transparent io_step throw lift io_map io_bind_ io_ret.

Lemma confined_ret (a : A) (Q : result E A → Prop) : Q (Ok a) → confined (mret a : ioE E A) Q.
Proof. done. Qed.
Lemma confined_throw (e : E) (Q : result E A → Prop) : Q (Err e) → confined (throw e : ioE E A) Q.
Proof. done. Qed.
Lemma confined_lift (r : result E A) (Q : result E A → Prop) : Q r → confined (lift r) Q.
Proof. done. Qed.

Lemma confined_mono (m : ioE E A) (Q Q' : result E A → Prop) :
  confined m Q → (∀ r, Q r → Q' r) → confined m Q'.
Proof.
  intros Hm HQ. induction m as [r|f IH] using ioE_ind'; [by apply HQ|].
  intros w Hw. destruct (Hm w Hw) as (? & ? & ?). auto.
Qed.

Lemma confined_bind (m : ioE E A) (f : A → ioE E B) (Q : result E B → Prop) :
  confined m (λ r, match r with Ok a => confined (f a) Q | Err e => Q (Err e) end) → confined (m ≫= f) Q.
Proof.
  induction m as [[a|e]|g IH] using ioE_ind'; intros Hm; [exact Hm..|]. intros w Hw. specialize (IH w).
  destruct (Hm w Hw) as (Ht & Ho & Hn). simpl. destruct (g w) as [m w']. split_and!; [exact Ht|exact Ho|by apply IH].
Qed.

(** The result of [m] does not matter for what follows. *)
Lemma confined_then (m : ioE E A) (f : A → ioE E B) (Q : result E B → Prop) :
  confined m any → (∀ a, confined (f a) Q) → (∀ e, Q (Err e)) → confined (m ≫= f) Q.
Proof. intros Hm Hf He. apply confined_bind. eapply confined_mono; [exact Hm|]. intros [a|e] _; auto. Qed.

Lemma confined_check (r : result E A) (f : A → ioE E B) (Q : result E B → Prop) :
  (∀ a, r = Ok a → confined (f a) Q) → (∀ e, Q (Err e)) → confined (lift r ≫= f) Q.
Proof. intros Hf He. apply confined_bind, confined_lift. destruct r; auto. Qed.

Lemma confined_io_map (g : result E A → result F B) (m : ioE E A) (Q : result F B → Prop) :
  confined m (λ r, Q (g r)) → confined (io_map g m) Q.
Proof.
  induction m as [r|f IH] using ioE_ind'; intros Hm; [exact Hm|]. intros w Hw. specialize (IH w).
  destruct (Hm w Hw) as (Ht & Ho & Hn). simpl. destruct (f w) as [m w']. split_and!; [exact Ht|exact Ho|by apply IH].
Qed.
Lemma confined_map_any (g : result E A → result F B) (m : ioE E A) : confined m any → confined (io_map g m) any.
Proof. intros Hm. by apply confined_io_map. Qed.

(** One step on the table, under its lock. *)
Lemma confined_locked (l m : ioE E A) (Q : result E A → Prop) :
  l = locked m →
  (∀ w, table_named names (sessions w) →
     table_named names (sessions (run l w).2) ∧ outside P T w (run l w).2 ∧ Q (run l w).1) → confined l Q.
Proof. intros -> HR w Hw. specialize (HR w Hw). simpl in *. by destruct (run m w). Qed.
Lemma confined_get_sessions (Q : result E (gmap str UploadSession) → Prop) :
  (∀ ss, table_named names ss → Q (Ok ss)) → confined get_sessions Q.
Proof. intros HQ w Hw. split_and!; [exact Hw|done|by apply HQ]. Qed.

Lemma confined_run (m : ioE E A) Q w :
  confined m Q → table_named names (sessions w) →
  table_named names (sessions (run m w).2) ∧ outside P T w (run m w).2 ∧ Q (run m w).1.
Proof.
  revert w. induction m as [r|f IH] using ioE_ind'; intros w Hm Hw; [by split_and!|]. simpl. specialize (IH w).
  destruct (Hm w Hw) as (Ht & Ho & Hn). destruct (f w) as [m w']. destruct (IH w' Hn Ht) as (Ht' & Ho' & HQ).
  split_and!; [exact Ht'|by transitivity w'|exact HQ].
Qed.

(** Run alone, on an old world. *)
Lemma wp_confined (m : ioE E A) Q n fs ss :
  confined m Q → table_named names ss →
  wp m n fs ss (λ r _ fs' ss', Q r ∧ table_named names ss' ∧
    (∀ q, ¬ P q → fs' !! q = fs !! q) ∧ ∀ k, ¬ T k → ss' !! k = ss !! k).
Proof.
  intros Hm Hss fl _. destruct (confined_run m Q (mkWorld fs ss fl) Hm Hss) as (Ht & [Ho Hs] & HQ). by destruct (run m _).
Qed.

Lemma confined_call {C} (ok : gmap path bytes → result IoError C * gmap path bytes) failed (Q : result StoreError C → Prop) :
  (∀ fs q, ¬ P q → (ok fs).2 !! q = fs !! q) → (∀ f fs q, ¬ P q → failed f fs !! q = fs !! q) → (∀ r, Q r) →
  confined (call ok failed) Q.
Proof.
  intros Hok Hf HQ w Hw. unfold call. cbn. specialize (Hok (files w)). destruct (faults w) as [|[f|] fl].
  2: { split_and!; [exact Hw| |apply HQ]. by split; [apply Hf|]. }
  all: destruct (ok (files w)) as [r fs']; (split_and!; [exact Hw|by split|apply HQ]).
Qed.
End rules.

(** ** Calls on files of the footprint *)

Lemma confined_quiet {C} (r : gmap path bytes → result IoError C) : confined (call (λ fs, (r fs, fs)) unchanged) any.
Proof. by apply confined_call. Qed.

(** By cases on what the call finds, a change of a file in [P] is invisible outside. *)
Ltac confined_call :=
  apply confined_call; [intros fs q Hq|intros f fs q Hq|done]; simpl; repeat case_match; simplify_eq/=;
  rewrite ?lookup_insert_ne by (by intros ->); rewrite ?lookup_delete_ne by (by intros ->); done.

Lemma confined_create p : P p → confined (fs_create p) any.
Proof. intros Hp. confined_call. Qed.
Lemma confined_write p c : P p → confined (fs_write p c) any.
Proof. intros Hp. confined_call. Qed.
Lemma confined_append p c : P p → confined (fs_append p c) any.
Proof. intros Hp. confined_call. Qed.
Lemma confined_rename a b : P a → P b → confined (fs_rename a b) any.
Proof. intros Ha Hb. confined_call. Qed.
Lemma confined_hard_link a b : P b → confined (fs_hard_link a b) any.
Proof. intros Hb. confined_call. Qed.
Lemma confined_remove_file p : P p → confined (fs_remove_file p) any.
Proof. intros Hp. confined_call. Qed.

Lemma filter_under (dir : path) (R : path * bytes → Prop) `{∀ kv, Decision (R kv)} (fs : gmap path bytes) (q : path) :
  (∀ kv, under dir kv.1 = false → R kv) → under dir q = false → filter R fs !! q = fs !! q.
Proof.
  intros HR Hq. rewrite map_lookup_filter. destruct (fs !! q) as [c|]; simpl; [|done].
  by rewrite option_guard_True by by apply HR.
Qed.
Lemma confined_remove_dir_all dir : (∀ q, under dir q = true → P q) → confined (fs_remove_dir_all dir) any.
Proof.
  intros HP. assert (∀ q, ¬ P q → under dir q = false) as Hout by (intros q Hq; apply not_true_is_false; auto).
  apply confined_call; [| |done]; intros; apply (filter_under dir); auto.
Qed.
End confined.

Create HintDb confined.
#[export] Hint Resolve confined_quiet confined_create confined_write confined_append confined_rename confined_hard_link
  confined_remove_file confined_remove_dir_all : confined.
#[export] Hint Extern 1 (confined _ _ _ (mret _) any) => exact I : confined.
#[export] Hint Extern 1 (confined _ _ _ (throw _) any) => exact I : confined.
#[export] Hint Extern 1 (confined _ _ _ (lift _) any) => exact I : confined.
#[export] Hint Extern 1 (any _) => exact I : confined.
(** Resolves binds, calls and branches whose results do not matter. *)
Ltac confined_steps :=
  repeat (intros; first
    [ solve [eauto with confined] | apply confined_then | apply confined_map_any
    | match goal with |- confined _ _ _ (match ?x with _ => _ end) _ => destruct x end ]).

Section fs_util.
Variables (names : Names) (P : path → Prop) (T : str → Prop).

Lemma confined_create_parent_dir p : confined names P T (create_parent_dir p) any.
Proof. unfold create_parent_dir, fs_create_dir_all. confined_steps. Qed.
Lemma confined_remove_if_exists p : P p → confined names P T (remove_file_if_exists p) any.
Proof. intros Hp. unfold remove_file_if_exists, attempt. confined_steps. Qed.
Lemma confined_backup p b : P b → confined names P T (backup_existing_file p b) any.
Proof. intros Hb. unfold backup_existing_file, attempt. confined_steps. Qed.
Lemma confined_remove_backup p had : P p → confined names P T (remove_backup_file p had) any.
Proof. intros Hp. unfold remove_backup_file. destruct had; [by apply confined_remove_if_exists|done]. Qed.
Lemma confined_rollback p b had : P p → P b → confined names P T (rollback_published_file p b had) any.
Proof.
  intros Hp Hb. pose proof (confined_remove_if_exists p Hp). unfold rollback_published_file, ignore. confined_steps.
Qed.
Lemma confined_drop_guard {E A} p (m : ioE E A) (Q : result E A → Prop) :
  P p → confined names P T m Q → (∀ e, Q (Err e)) → confined names P T (drop_guard p m) Q.
Proof.
  intros Hp Hm He. unfold drop_guard, attempt. apply confined_bind, confined_io_map.
  eapply confined_mono; [exact Hm|]. intros [a|e] HQ; [exact HQ|]. apply confined_then; [|by intros|done].
  by apply confined_map_any, confined_remove_if_exists.
Qed.
End fs_util.
#[export] Hint Resolve confined_create_parent_dir confined_remove_if_exists confined_backup confined_remove_backup
  confined_rollback : confined.

(** Tasks with the same footprint keep to it together. *)
Lemma pool_confined {E A} names P T (ts ts' : list (ioE E A)) w w' :
  Forall (λ m, confined names P T m any) ts → table_named names (sessions w) →
  interleaving (ts, w) (ts', w') → outside P T w w' ∧ table_named names (sessions w').
Proof.
  intros Hts Hw Hi. remember (ts, w) as a eqn:Ha. remember (ts', w') as b eqn:Hb.
  revert ts w Hts Hw Ha. induction Hi as [a|a b' c Hab _ IH]; intros ts w Hts Hw ->; [by simplify_eq|].
  inversion Hab as [ts0 i f w0 m w1 Hi Hf]; subst. rewrite Forall_lookup in Hts.
  destruct (Hts i _ Hi w Hw) as (Ht & Ho & Hm). rewrite Hf in Ht, Ho, Hm. simpl in *.
  destruct (IH eq_refl (<[i := m]> ts) w1) as [Ho' Ht']; [|done..|by split; [transitivity w1|]].
  apply Forall_insert; [by apply Forall_lookup|done].
Qed.

(** ** Objects *)

Definition in_tmp (q : path) : Prop := head q = Some "tmp".

(** Processors of the application that write only temporary files. *)
Definition processors_confined (procs : list UploadProcessor) : Prop :=
  Forall (λ p : UploadProcessor, ∀ names ctx cur rep, in_tmp cur → in_tmp rep →
    confined names in_tmp (λ _, False) (p (mkProcessorRequest ctx cur rep)) any) procs.

Lemma confined_subset {E A} names (P P' : path → Prop) (T T' : str → Prop) (m : ioE E A) Q :
  (∀ q, P q → P' q) → (∀ k, T k → T' k) → confined names P T m Q → confined names P' T' m Q.
Proof.
  intros HP HT. induction m as [r|f IH] using ioE_ind'; [done|]. intros Hm w Hw.
  destruct (Hm w Hw) as (Ht & Ho & Hn). split_and!; [exact Ht| |by apply IH]. by eapply outside_subset.
Qed.

Section objects.
Context `{CodecLib} `{CryptoLib} `{UuidLib} `{JsonLib}.
Variables (names : Names) (P : path → Prop) (T : str → Prop).
Hypothesis P_tmp : ∀ q, in_tmp q → P q.

#[local] Hint Extern 1 (P (tmp_file _ _)) => by apply P_tmp : confined.

Lemma confined_create_temp u :
  confined names P T (create_temp_object u) (λ r, ∀ st, r = Ok st → st = mkStaged u (tmp_file u ".part")).
Proof. unfold create_temp_object. apply confined_then; [auto with confined| |done].
  intros _. apply confined_ret. by intros st [= <-].
Qed.

Lemma confined_commit_staged st md :
  P (so_path st) → P (object_path (om_bucket md) (om_key md)) → P (metadata_path (om_bucket md) (om_key md)) →
  confined names P T (commit_staged_object st md) any.
Proof. intros Hs Ho Hm. unfold commit_staged_object, publish, attempt, ignore. confined_steps. Qed.

Lemma confined_head_object b k : confined names P T (head_object b k) any.
Proof. unfold head_object, attempt, fs_read, fs_metadata. confined_steps. Qed.
Lemma confined_open_object b k : confined names P T (open_object b k) any.
Proof.
  unfold open_object, attempt, fs_read. apply confined_then; [apply confined_head_object|confined_steps|done].
Qed.
Lemma confined_delete_object b k :
  P (object_path b k) → P (metadata_path b k) → confined names P T (delete_object b k) any.
Proof. intros Ho Hm. unfold delete_object, attempt. confined_steps. Qed.

Lemma confined_summarize_file p n : confined names P T (summarize_file p n) any.
Proof. unfold summarize_file, attempt, fs_read. confined_steps. Qed.

Lemma confined_process_one st ctx u (p : UploadProcessor) :
  so_path st = tmp_file (so_temp_id st) ".part" → processors_confined [p] →
  confined names P T (process_one st ctx u p) any.
Proof.
  intros Hst Hp. inversion Hp as [|?? Hown _]; subst. assert (in_tmp (so_path st)) as Htmp by by rewrite Hst.
  assert (in_tmp (replacement_path st u)) as Hrep by (unfold in_tmp, replacement_path; by rewrite Hst).
  assert (confined names P T (remove_unused_replacement (replacement_path st u)) any) as Hun.
  { unfold remove_unused_replacement, attempt. pose proof (P_tmp _ Hrep). confined_steps. }
  pose proof (P_tmp _ Htmp). pose proof (P_tmp _ Hrep). unfold process_one. apply confined_then; [|intros [[]|e]|done].
  - apply confined_map_any, confined_subset with in_tmp (λ _, False); [done..|by apply Hown].
  - by apply confined_drop_guard.
  - unfold replace_with, discard, attempt, ignore, fs_metadata. confined_steps.
  - unfold discard, ignore. apply confined_then; [by apply confined_drop_guard|confined_steps|done].
Qed.

Lemma confined_process procs st ctx :
  so_path st = tmp_file (so_temp_id st) ".part" → processors_confined (snd <$> procs) →
  confined names P T (process_staged_upload procs st ctx) (λ r, ∀ st', r = Ok st' → st' = st).
Proof.
  intros Hst. induction procs as [|[u p] procs IH]; intros Hp; simpl in *; [apply confined_ret; by intros st' [= <-]|].
  inversion Hp; subst. apply confined_then; [by apply confined_process_one; [|repeat constructor]|auto|done].
Qed.
End objects.

(** ** Uploads *)

Section uploads.
Context `{HttpLib} `{CodecLib} `{CryptoLib} `{UuidLib} `{JsonLib}.
Variables (names : Names) (P : path → Prop) (T : str → Prop) (id : UploadId).
Hypothesis P_dir : ∀ q, under (upload_dir id) q = true → P q.
Hypothesis T_id : T (upload_id_str id).

Abbreviation named := (session_named names (upload_id_str id)).
(** A result that is a session has the names of the upload. *)
Definition ok_named {E} (r : result E UploadSession) : Prop := ∀ s, r = Ok s → named s.

Lemma ok_named_err {E} (e : E) : ok_named (Err e).
Proof. by intros s. Qed.
#[local] Hint Resolve ok_named_err : core.
Lemma named_id s : named s → us_upload_id s = id.
Proof. intros [Hid _]. destruct (us_upload_id s), id. simpl in Hid. by subst. Qed.
Lemma P_below x : P (upload_dir id ++ x).
Proof. apply P_dir. unfold under. by apply bool_decide_eq_true_2. Qed.
Lemma P_session : P (session_path id).
Proof. apply P_below. Qed.
Lemma P_part n : P (part_path id n).
Proof. unfold part_path, parts_dir. rewrite <- app_assoc. apply P_below. Qed.
Lemma P_part_tmp n u sfx : P (part_tmp id n u sfx).
Proof. apply P_below. Qed.
#[local] Hint Resolve P_session P_part P_part_tmp : confined.

(** *** The session table *)

Lemma named_insert ss s : table_named names ss → named s → table_named names (<[upload_id_str id := s]> ss).
Proof. intros Hss Hs k s' [[<- <-]|[_ Hk]]%lookup_insert_Some; [done|by apply Hss]. Qed.
Lemma outside_insert w fl s : outside P T w (mkWorld (files w) (<[upload_id_str id := s]> (sessions w)) fl).
Proof. split; [done|]. intros k Hk. simpl. apply lookup_insert_ne. by intros <-. Qed.
#[local] Hint Resolve named_insert outside_insert : core.

Lemma confined_insert_session s : named s → confined names P T (insert_session s id) any.
Proof. intros Hs. eapply confined_locked; [reflexivity|]. intros w Hw. rewrite run_insert_session. split_and!; [simpl; auto..|done]. Qed.
Lemma confined_remove_session : confined names P T (remove_session id) any.
Proof.
  eapply confined_locked; [reflexivity|]. intros w Hw. rewrite run_remove_session. simpl. split_and!; [| |done].
  - intros k s [_ Hk]%lookup_delete_Some. by apply Hw.
  - split; [done|]. intros k Hk. simpl. apply lookup_delete_ne. by intros <-.
Qed.
Lemma confined_modify_session f :
  (∀ s, named s → named (f s)) →
  confined names P T (modify_session id f) (λ r, ∀ s, r = Ok (Some s) → named s).
Proof.
  intros Hf. eapply confined_locked; [reflexivity|]. intros w Hw. rewrite run_modify_session.
  destruct (sessions w !! upload_id_str id) as [s|] eqn:Hs; [|by split_and!]. pose proof (Hw _ _ Hs).
  simpl. split_and!; [auto..|]. intros s' [= <-]. auto.
Qed.
Lemma confined_record_part part : confined names P T (record_part id part) ok_named.
Proof.
  eapply confined_locked; [reflexivity|]. intros w Hw. rewrite run_record_part.
  destruct (sessions w !! upload_id_str id) as [s|] eqn:Hs; [|by split_and!]. pose proof (Hw _ _ Hs : named s).
  destruct (is_open s); [|by split_and!]. simpl. split_and!; [auto..|]. by intros s' [= <-].
Qed.
Lemma confined_mark_completing : confined names P T (mark_completing id) ok_named.
Proof.
  eapply confined_locked; [reflexivity|]. intros w Hw. rewrite run_mark_completing.
  destruct (sessions w !! upload_id_str id) as [s|] eqn:Hs; [|by split_and!]. pose proof (Hw _ _ Hs : named s).
  destruct (is_open s); [|by split_and!]. simpl. split_and!; [auto..|]. by intros s' [= <-].
Qed.

Lemma confined_get_upload : confined names P T (get_upload id) (λ r, ∀ s, r = Ok (Some s) → named s).
Proof.
  unfold get_upload. apply confined_bind, confined_get_sessions. intros ss Hss. apply confined_ret.
  intros s [= Hs]. by apply Hss.
Qed.
Lemma confined_get_open_upload : confined names P T (get_open_upload id) ok_named.
Proof.
  unfold get_open_upload. apply confined_bind. eapply confined_mono; [apply confined_get_upload|].
  intros [s|e] Hs; [|auto]. apply confined_check; [|auto]. intros s' Hs'. apply confined_check; [|auto].
  destruct s as [s|]; [|done]. injection Hs' as <-. intros _ _. apply confined_ret. intros s' [= <-]. exact (Hs s eq_refl).
Qed.

(** *** The operations *)

Lemma confined_persist u s : named s → confined names P T (persist_session u s) any.
Proof.
  intros Hid%named_id. pose proof (P_below _ : P (session_tmp id u)). unfold persist_session, attempt, ignore. rewrite Hid.
  confined_steps.
Qed.

(** A result that is a session, handed to a continuation for sessions of the upload. *)
Lemma confined_then_named {E B} (m : ioE E UploadSession) (f : UploadSession → ioE E B) (Q : result E B → Prop) :
  confined names P T m ok_named → (∀ s, named s → confined names P T (f s) Q) → (∀ e, Q (Err e)) →
  confined names P T (m ≫= f) Q.
Proof. intros Hm Hf He. apply confined_bind. eapply confined_mono; [exact Hm|]. intros [s|e] Hs; auto. Qed.

Lemma confined_create_temp_part u n :
  confined names P T (create_temp_part u id n) (λ r, ∀ p, r = Ok p → p = part_tmp id n u ".tmp").
Proof.
  unfold create_temp_part. apply confined_then_named; [apply confined_get_open_upload| |done]. intros s Hs.
  apply confined_then; [by auto with confined|intros _|done]. apply confined_then; [by auto with confined|intros _|done].
  apply confined_ret. by intros p [= <-].
Qed.

Lemma confined_commit_part u v now n temp part : P temp → confined names P T (commit_part u v now id n temp part) any.
Proof.
  intros Ht. unfold commit_part. apply confined_then_named; [apply confined_get_open_upload| |done]. intros s Hs.
  apply confined_then; [| |done].
  { unfold publish_part, attempt. destruct (btree_get _ _); cbn [fmap option_fmap option_map]; confined_steps. }
  intros [[]|e].
  - apply confined_then_named; [apply confined_record_part| |done]. intros s' Hs'.
    apply confined_then; [by apply confined_map_any, confined_persist|intros [[]|e]|done].
    + destruct (btree_get _ _); cbn [fmap option_fmap option_map]; confined_steps.
    + apply confined_then; [|by intros|done]. unfold rollback_part, ignore.
      apply confined_then; [by confined_steps|intros _|done].
      apply confined_then; [by destruct (btree_get _ _); cbn [fmap option_fmap option_map]; confined_steps|intros _|done].
      apply confined_then; [|by intros|done]. eapply confined_mono; [apply confined_modify_session|done].
      intros s0 Hs0. by destruct (btree_get _ _).
  - unfold ignore_remove_opt, ignore. destruct (btree_get _ _); cbn [fmap option_fmap option_map]; confined_steps.
Qed.

Lemma confined_abort_upload u : confined names P T (abort_upload u id) any.
Proof.
  unfold abort_upload. apply confined_then_named; [apply confined_get_open_upload| |done]. intros s Hs.
  pose proof (Hs : named (set_state s Aborted)) as Hs'. pose proof confined_remove_session.
  apply confined_then; [by apply confined_persist|intros _|done].
  apply confined_then; [by apply confined_insert_session|intros _|done]. unfold attempt. confined_steps.
Qed.

Lemma confined_create_upload fresh u now b k owner md :
  id = new_upload_id fresh → names (upload_id_str id) = (b, k) →
  confined names P T (create_upload fresh u now b k owner md) any.
Proof.
  intros Hid Hnames. unfold create_upload, fs_create_dir_all. rewrite <- Hid.
  set (session := mkSession _ _ _ _ _ _ _ _). assert (named session) as Hs by by split.
  apply confined_then; [apply confined_quiet|intros _|done].
  apply confined_then; [by apply confined_persist|intros _|done].
  apply confined_then; [by apply confined_insert_session|done|done].
Qed.

(** *** Completion *)

Lemma confined_mark f : (∀ s, named s → named (f s)) → ∀ {B} (k : option UploadSession → io B),
  confined names P T (k None) any → (∀ s, named s → confined names P T (k (Some s)) any) →
  confined names P T (modify_session id f ≫= k) any.
Proof.
  intros Hf B k HN HS. apply confined_bind. eapply confined_mono; [by apply confined_modify_session|].
  intros [[s|]|e] Hs; [by apply HS, Hs|done..].
Qed.

Lemma confined_retire ids : confined names P T (retire_upload ids id) any.
Proof.
  unfold retire_upload, mark_upload_state. pose proof confined_remove_session. unfold ignore.
  apply confined_mark; [by intros s Hs|by confined_steps|].
  intros s Hs. apply confined_then; [by apply confined_map_any, confined_persist|by confined_steps|done].
Qed.

Lemma confined_begin u : confined names P T (begin_completion u id) ok_named.
Proof.
  unfold begin_completion, ignore. apply confined_then_named; [apply confined_mark_completing| |auto].
  intros s Hs. apply confined_then; [by apply confined_map_any, confined_persist| |auto].
  intros _. apply confined_ret. by intros s' [= <-].
Qed.
Lemma confined_restore u : confined names P T (restore_open_upload u id) any.
Proof.
  unfold restore_open_upload, mark_upload_state. apply confined_mark; [by intros s' Hs'|done|].
  intros s' Hs'. by apply confined_map_any, confined_persist.
Qed.

Section completion.
Hypothesis P_tmp : ∀ q, in_tmp q → P q.
Let bucket : BucketName := (names (upload_id_str id)).1.
Let key : ObjectKey := (names (upload_id_str id)).2.
Hypothesis P_data : P (object_path bucket key).
Hypothesis P_json : P (metadata_path bucket key).

Lemma confined_copy_chunks st chunks cs : P (so_path st) → confined names P T (copy_chunks st chunks cs) any.
Proof.
  intros Hp. revert cs. induction chunks as [|c chunks IH]; intros cs; [done|]. cbn [copy_chunks].
  apply confined_then; [by auto with confined|auto|done].
Qed.
Lemma confined_copy_parts req st parts cs md5 n :
  P (so_path st) → confined names P T (copy_parts req st parts cs md5 n) any.
Proof.
  intros Hp. revert cs md5 n. induction parts as [|part parts IH]; intros cs md5 n; [done|].
  cbn [copy_parts]. unfold discarding.
  apply confined_then; [by apply confined_drop_guard; [|apply confined_quiet|]|intros content|done].
  apply confined_then; [by apply confined_drop_guard; [|apply confined_copy_chunks|]|intros cs'|done].
  cbv zeta. destruct (_ >? _); [by apply confined_drop_guard|apply IH].
Qed.

Definition ok_staged (u : Uuid) (r : result StoreError (StagedObject * ObjectMetadata)) : Prop :=
  ∀ st md, r = Ok (st, md) → so_path st = tmp_file u ".part" ∧ om_bucket md = bucket ∧ om_key md = key.
Lemma ok_staged_err u e : ok_staged u (Err e).
Proof. by intros st md. Qed.
#[local] Hint Resolve ok_staged_err : core.

Lemma confined_assemble ids now s req :
  named s → processors_confined (snd <$> cu_processors req) →
  confined names P T (assemble ids now s req) (ok_staged (ci_temp ids)).
Proof.
  intros [_ Hnames] Hprocs. unfold assemble. apply confined_check; [intros parts _|auto].
  apply confined_bind. eapply confined_mono; [by apply confined_create_temp|].
  intros [st|e] Hst; [|auto]. specialize (Hst st eq_refl). subst st. set (st := mkStaged _ _).
  assert (P (so_path st)) as Hp by by apply P_tmp. unfold discarding.
  apply confined_then; [by apply confined_copy_parts|intros [[cs md5] n]|auto].
  do 3 (apply confined_then; [apply confined_drop_guard; [done|apply confined_quiet || done|done]|intros _|auto]). cbv zeta.
  apply confined_bind, confined_io_map. eapply confined_mono; [by apply confined_process|].
  intros [st'|e] Hst; [|by auto]. rewrite (Hst st' eq_refl). cbn [map_err].
  apply confined_then; [by apply confined_drop_guard; [|apply confined_map_any, confined_summarize_file|]|intros fb|auto].
  destruct (_ >? _); [by apply confined_drop_guard; [|apply confined_throw|]|].
  apply confined_ret. intros st0 md [= <- <-]. unfold bucket, key. by rewrite <- Hnames.
Qed.

Lemma confined_complete_upload ids now req :
  cu_upload_id req = id → processors_confined (snd <$> cu_processors req) →
  confined names P T (complete_upload ids now req) any.
Proof.
  intros Hid Hprocs. unfold complete_upload. rewrite Hid. apply confined_then_named; [| |done].
  { apply confined_begin. }
  intros s Hs. apply confined_then; [|intros [md|e]; [done|]|done].
  - unfold complete_upload_after_transition. apply confined_map_any, confined_bind.
    eapply confined_mono; [by apply confined_assemble|]. intros [[st md]|e] Hst; [|done].
    destruct (Hst st md eq_refl) as (Hp & Hb & Hk).
    apply confined_then; [apply confined_commit_staged; rewrite ?Hp, ?Hb, ?Hk; auto; by apply P_tmp|intros _|done].
    rewrite Hid. apply confined_then; [apply confined_retire|done|done].
  - apply confined_then; [apply confined_restore|by intros|done].
Qed.
End completion.
End uploads.
