(* ===== verification/Recovery.v ===== *)
(** * Recovery of the object store

    A process that stops in the middle of a publication leaves temporary files,
    data without metadata or metadata without data. The start-up of the store
    ([FileObjectStore::new]) removes exactly these. *)

From S2P Require Import Prelude RustStd BTree S3Error Externals Reference Types StoreModel ReferenceJson.
From S2P Require Import FileSystem ObjectStore ObjectProofs ObjectSpec PartDurability.
From Stdlib Require Import ZArith Lia.
Local Open Scope Z_scope.

Section loops.
Implicit Types (n : nat) (fs : gmap path bytes) (ss : gmap str UploadSession).

(** A loop whose invariant knows the elements that are done. *)
Lemma wp_io_for_done {A : Type} (P : list A → gmap path bytes → Prop) (f : A → io ()) l done fs ss Q :
  (∀ done a fs, a ∈ l → P done fs →
     wp (f a) 0 fs ss (λ r n' fs' ss', r = Ok () ∧ n' = 0%nat ∧ ss' = ss ∧ P (a :: done) fs')) →
  P done fs →
  (∀ done' fs', (∀ a, a ∈ l ∨ a ∈ done → a ∈ done') → P done' fs' → Q (Ok ()) 0%nat fs' ss) →
  wp (io_for f l) 0 fs ss Q.
Proof.
  revert done fs. induction l as [|a l IH]; intros done fs Hf HP HQ.
  { apply wp_ret, (HQ done); [|done]. intros a [Ha|Ha]; [by apply not_elem_of_nil in Ha|done]. }
  apply wp_bind. eapply wp_mono; [apply Hf; [by left|exact HP]|]. cbv beta.
  intros r n' fs' ss' (-> & -> & -> & HP'). apply (IH (a :: done)); [|done|].
  - intros done2 b fs'' Hb. apply Hf. by right.
  - intros done' fs'' Hd HP''. apply (HQ done'); [|done]. intros b [Hb|Hb]; apply Hd.
    + apply elem_of_cons in Hb as [->|Hb]; [right; left|by left].
    + right. by right.
Qed.

(** The entries of a directory, and the files they come from. *)
Lemma elem_of_entries fs (dir : path) name (b : bool) :
  (name, b) ∈ remove_dups (omap (entry_of dir) (map_to_list fs).*1) ↔
  ∃ rest c, fs !! (dir ++ name :: rest) = Some c ∧ b = is_empty rest.
Proof.
  rewrite elem_of_remove_dups, list_elem_of_omap. split.
  - intros (q & Hq & He). apply list_elem_of_fmap in Hq as ([q' c] & -> & Hq). simpl in He.
    apply elem_of_map_to_list in Hq. unfold entry_of, strictly_under in He.
    destruct (bool_decide (take (length dir) q' = dir)) eqn:Ht; [|done]. apply bool_decide_eq_true in Ht.
    destruct (bool_decide (length dir < length q')%nat); [|done]. simpl in He.
    destruct (drop (length dir) q') as [|x rest] eqn:Hd; [done|].
    assert (q' = dir ++ x :: rest) as Hq'.
    { rewrite <- (take_drop (length dir) q'). by rewrite Ht, Hd. }
    destruct rest as [|y rest]; injection He as <- <-.
    + exists [], c. by rewrite <- Hq'.
    + exists (y :: rest), c. by rewrite <- Hq'.
  - intros (rest & c & Hc & ->). exists (dir ++ name :: rest). split.
    + apply list_elem_of_fmap. exists (dir ++ name :: rest, c). split; [done|by apply elem_of_map_to_list].
    + unfold entry_of, strictly_under. rewrite take_app_length, !bool_decide_eq_true_2, drop_app_length.
      * by destruct rest.
      * rewrite length_app. simpl. lia.
      * done.
Qed.
End loops.

(** ** Files without their counterpart *)

Section orphans.
Context (top suffix other other_suffix : str) (Hdiff : top ≠ other).
Implicit Types (fs : gmap path bytes) (ss : gmap str UploadSession).

(** The file of the digest [d] in a directory of the store. *)
Definition sharded (dir suffix d : str) : path := [dir; take 2 d; d ++ suffix].

Definition orphan fs (q : path) : Prop :=
  ∃ d, q = sharded top suffix d ∧ 2 ≤ len d ∧ fs !! sharded other other_suffix d = None.

(** All files of the directory are files of digests. *)
Definition laid_out fs : Prop := ∀ q c, fs !! q = Some c → head q = Some top →
  ∃ d, q = sharded top suffix d ∧ 2 ≤ len d ∧ utf8_valid (d ++ suffix) = true.

(** Part of the orphans are gone. *)
Definition sweeping fs fs' : Prop :=
  fs' ⊆ fs ∧ ∀ q, fs' !! q = fs !! q ∨ (fs' !! q = None ∧ orphan fs q).

Lemma sharded_inj dir x d e : sharded dir x d = sharded dir x e → d = e.
Proof. unfold sharded. intros [= _ Heq]. by apply app_inj_2 in Heq as [-> _]. Qed.

Lemma sweeping_other fs fs' d :
  sweeping fs fs' → fs' !! sharded other other_suffix d = fs !! sharded other other_suffix d.
Proof.
  intros [_ Hs]. destruct (Hs (sharded other other_suffix d)) as [|[_ (e & Heq & _)]]; [done|].
  unfold sharded in Heq. injection Heq as Heq. by destruct Hdiff.
Qed.

Lemma wp_cleanup_orphan d fs0 fs ss Q :
  2 ≤ len d → utf8_valid (d ++ suffix) = true → sweeping fs0 fs →
  (∀ fs', sweeping fs0 fs' → fs' ⊆ fs →
     (fs0 !! sharded other other_suffix d = None → fs' !! sharded top suffix d = None) → Q (Ok ()) 0%nat fs' ss) →
  wp (cleanup_orphan top suffix other other_suffix (take 2 d) (d ++ suffix, true)) 0 fs ss Q.
Proof.
  intros Hlen Hutf Hsw HQ. unfold cleanup_orphan. cbn [negb].
  unfold from_utf8. rewrite Hutf. rewrite (proj2 (strip_suffix_Some suffix _ d) eq_refl).
  assert (digest_file other other_suffix d = sharded other other_suffix d) as ->.
  { unfold digest_file, sharded. by rewrite (proj2 (Z.leb_le _ _) Hlen). }
  pose proof (sweeping_other fs0 fs d Hsw) as Hother. fold (sharded top suffix d).
  assert (fs !! sharded other other_suffix d = None →
    wp (remove_file_if_exists (sharded top suffix d)) 0 fs ss Q) as Hrm.
  { intros Hnone. rewrite Hother in Hnone. apply wp_remove_file_if_exists; [|done]. apply HQ.
    - destruct Hsw as [Hsub Hs]. split; [by etrans; [apply delete_subseteq|]|]. intros q.
      destruct (decide (q = sharded top suffix d)) as [->|Hq].
      + right. rewrite lookup_delete_eq. split; [done|]. by exists d.
      + by rewrite lookup_delete_ne.
    - apply delete_subseteq.
    - intros _. apply lookup_delete_eq. }
  apply wp_bind, wp_attempt, wp_call; [|done]. simpl.
  destruct (fs !! sharded other other_suffix d) eqn:Hc; simpl.
  - apply wp_ret, HQ; [done|done|]. rewrite <- Hother. done.
  - destruct (is_dir _ _); simpl; by apply Hrm.
Qed.

(** Afterwards: exactly the orphans are gone. *)
Definition swept fs fs' : Prop := sweeping fs fs' ∧ ∀ q, orphan fs q → fs' !! q = None.

Lemma sharded_entry prefix name d :
  [top; prefix; name] = sharded top suffix d → prefix = take 2 d ∧ name = d ++ suffix.
Proof. unfold sharded. by intros [= -> ->]. Qed.

Lemma wp_cleanup_orphans fs ss Q :
  laid_out fs → (∀ fs', swept fs fs' → Q (Ok ()) 0%nat fs' ss) →
  wp (cleanup_orphans top suffix other other_suffix) 0 fs ss Q.
Proof.
  intros Hlay HQ. unfold cleanup_orphans. apply wp_bind, wp_call; [|done]. simpl.
  assert (sweeping fs fs) as Hrefl by (split; [done|by left]).
  apply wp_io_for_done with (done := []) (P := λ done fs', sweeping fs fs' ∧
    ∀ prefix name, (prefix, false) ∈ done → orphan fs [top; prefix; name] → fs' !! [top; prefix; name] = None).
  2: { split; [done|]. intros ?? Hin. by apply not_elem_of_nil in Hin. }
  2: { intros done fs' Hall [Hsw Hgone]. apply HQ. split; [done|]. intros q Horph. pose proof Horph as (d & -> & _).
       destruct (fs !! sharded top suffix d) as [c|] eqn:Hc.
       - apply Hgone; [|done]. apply Hall. left. apply elem_of_entries. by exists [d ++ suffix], c.
       - destruct (proj2 Hsw (sharded top suffix d)) as [->|[? _]]; done. }
  intros done [prefix is_file] fs1 Hin [Hsw1 Hgone1]. destruct is_file.
  { apply wp_ret. split_and!; [done..|]. intros p name [[=]|Hp]%elem_of_cons. by apply Hgone1. }
  apply wp_bind, wp_call; [|done]. simpl. clear Hin.
  apply wp_io_for_done with (done := []) (P := λ done' fs', sweeping fs fs' ∧ fs' ⊆ fs1 ∧
    ∀ name, (name, true) ∈ done' → orphan fs [top; prefix; name] → fs' !! [top; prefix; name] = None).
  2: { split_and!; [done..|]. intros ? Hin. by apply not_elem_of_nil in Hin. }
  2: { intros done' fs2 Hall (Hsw2 & Hsub & Hgone2). split_and!; [done..|].
       intros p name [[= ->]|Hp]%elem_of_cons Horph.
       - destruct (fs1 !! [top; prefix; name]) as [c|] eqn:Hc.
         + apply Hgone2; [|done]. apply Hall. left. apply elem_of_entries. by exists [], c.
         + by eapply lookup_weaken_None.
       - eapply lookup_weaken_None; [by apply Hgone1|done]. }
  intros done' [name is_file] fs2 Hin (Hsw2 & Hsub2 & Hgone2). destruct is_file.
  2: { apply wp_ret. split_and!; [done..|]. intros nm [[=]|Hn]%elem_of_cons. by apply Hgone2. }
  apply elem_of_entries in Hin as (rest & c & Hc & Hrest). destruct rest; [|done]. simpl in Hc.
  destruct (Hlay [top; prefix; name] c) as (d & Hd & Hlen & Hutf); [by eapply lookup_weaken; [|apply Hsw1]|done|].
  apply sharded_entry in Hd as [-> ->].
  apply wp_cleanup_orphan with fs; [done..|]. intros fs3 Hsw3 Hsub3 Hd3. split_and!; [done..| |].
  - by etrans.
  - intros nm [[= ->]|Hn]%elem_of_cons Horph.
    + apply Hd3. destruct Horph as (e & He & _ & Ho). by apply sharded_inj in He as <-.
    + eapply lookup_weaken_None; [by apply Hgone2|done].
Qed.
End orphans.

(** ** Start-up *)

Section startup.
Context `{HttpLib} `{CodecLib} `{CryptoLib} `{UuidLib} `{JsonLib}.
Implicit Types (fs : gmap path bytes) (ss : gmap str UploadSession) (objs : objects).

(** The disk of a process that stopped anywhere: temporary files, and for every
    digest a whole object or at most one of its two files. *)
Definition crashed fs objs : Prop :=
  laid_out "objects" ".data" fs ∧ laid_out "metadata" ".json" fs ∧
  ∀ d, match objs !! d with
       | Some o => holds fs d (Some o)
       | None => fs !! data_file d = None ∨ fs !! json_file d = None
       end.

Lemma wp_cleanup_stale_temp_files fs ss Q :
  (∀ fs', fs' ⊆ fs → (∀ q, head q ≠ Some "tmp" → fs' !! q = fs !! q) →
     (∀ name, fs' !! ["tmp"; name] = None) → Q (Ok ()) 0%nat fs' ss) →
  wp cleanup_stale_temp_files 0 fs ss Q.
Proof.
  intros HQ. apply wp_bind, wp_call; [|done]. simpl.
  apply wp_io_for_done with (done := []) (P := λ done fs', fs' ⊆ fs ∧
    (∀ q, head q ≠ Some "tmp" → fs' !! q = fs !! q) ∧ ∀ name, (name, true) ∈ done → fs' !! ["tmp"; name] = None).
  - intros done [name is_file] fs1 _ (Hsub & Hf & Hgone). destruct is_file.
    + apply wp_remove_file_if_exists; [|done]. split_and!; [done..|by etrans; [apply delete_subseteq|]| |].
      * intros q Hq. rewrite lookup_delete_ne; [by apply Hf|]. by intros <-.
      * intros nm [[= ->]|Hn]%elem_of_cons; [apply lookup_delete_eq|].
        eapply lookup_weaken_None; [by apply Hgone|apply delete_subseteq].
    + apply wp_ret. split_and!; [done..|]. intros nm [[=]|Hn]%elem_of_cons. by apply Hgone.
  - split_and!; [done..|]. intros ? Hin. by apply not_elem_of_nil in Hin.
  - intros done fs' Hall (Hsub & Hf & Hgone). apply HQ; [done..|]. intros name.
    destruct (fs !! ["tmp"; name]) as [c|] eqn:Hc; [|by eapply lookup_weaken_None].
    apply Hgone, Hall. left. apply elem_of_entries. by exists [], c.
Qed.

Lemma laid_out_same top suffix fs fs' : fs' ⊆ fs → laid_out top suffix fs → laid_out top suffix fs'.
Proof. intros Hsub Hlay q c Hc. apply (Hlay q c). by eapply lookup_weaken. Qed.

(** A sweep of one directory leaves the others. *)
Lemma swept_frame top suffix other other_suffix fs fs' q :
  swept top suffix other other_suffix fs fs' → head q ≠ Some top → fs' !! q = fs !! q.
Proof.
  intros [[_ Hs] _] Hq. destruct (Hs q) as [|[_ (d & -> & _)]]; [done|]. by destruct Hq.
Qed.

Lemma swept_kept top suffix other other_suffix fs fs' d :
  swept top suffix other other_suffix fs fs' → is_Some (fs !! sharded other other_suffix d) →
  fs' !! sharded top suffix d = fs !! sharded top suffix d.
Proof.
  intros [[_ Hs] _] [c Hc]. destruct (Hs (sharded top suffix d)) as [|[_ (e & He & _ & Ho)]]; [done|].
  apply sharded_inj in He as <-. congruence.
Qed.

(** The store is in order again; nothing else has changed. *)
Definition recovered fs ss objs (r : result StoreError ()) (n : nat) fs' ss' : Prop :=
  n = 0%nat ∧ r = Ok () ∧ ss' = ss ∧ refines fs' objs ∧
  (∀ d, is_Some (fs' !! data_file d) → is_Some (fs' !! json_file d)) ∧
  (∀ q, head q ∉ [Some "tmp"; Some "objects"; Some "metadata"] → fs' !! q = fs !! q).

Lemma wp_new_object_store fs ss objs Q :
  crashed fs objs → (∀ r n' fs' ss', recovered fs ss objs r n' fs' ss' → Q r n' fs' ss') →
  wp new_object_store 0 fs ss Q.
Proof.
  intros (Hlo & Hlm & Hd) HQ. apply wp_mono with (recovered fs ss objs); [unfold new_object_store|exact HQ]. do 3 (apply wp_bind, wp_call; [simpl|done]).
  apply wp_bind, wp_cleanup_stale_temp_files. intros fs1 Hsub1 Hf1 Htmp.
  apply wp_bind, wp_cleanup_orphans; [done|by apply laid_out_same with (fs)|]. intros fs2 Hsw2.
  assert (fs2 ⊆ fs) as Hsub2 by (etrans; [apply Hsw2|done]).
  apply wp_cleanup_orphans; [done|by apply laid_out_same with (fs)|]. intros fs3 Hsw3.
  assert (fs3 ⊆ fs2) as Hsub3 by apply Hsw3.
  assert (∀ d, fs2 !! json_file d = fs !! json_file d) as Hj2.
  { intros d. rewrite (swept_frame _ _ _ _ _ _ _ Hsw2) by done. by apply Hf1. }
  assert (∀ d, fs3 !! data_file d = fs2 !! data_file d) as Hd3.
  { intros d. by rewrite (swept_frame _ _ _ _ _ _ _ Hsw3). }
  assert (∀ d, is_Some (fs !! json_file d) → fs2 !! data_file d = fs !! data_file d) as Hd2.
  { intros d Hj. change (data_file d) with (sharded "objects" ".data" d).
    rewrite (swept_kept _ _ _ _ _ _ _ Hsw2); [by apply Hf1|].
    change (sharded "metadata" ".json" d) with (json_file d). by rewrite Hf1. }
  assert (∀ d, is_Some (fs2 !! data_file d) → fs3 !! json_file d = fs2 !! json_file d) as Hj3.
  { intros d Hdata. change (json_file d) with (sharded "metadata" ".json" d).
    by rewrite (swept_kept _ _ _ _ _ _ _ Hsw3). }
  split_and!; [done|done|done| | |].
  - split.
    { intros name. eapply lookup_weaken_None; [|exact Hsub3]. eapply lookup_weaken_None; [apply Htmp|apply Hsw2]. }
    intros d. specialize (Hd d). destruct (objs !! d) as [[md c]|].
    + destruct Hd as (Hdata & j & Hj & Hmd). split.
      * by rewrite Hd3, Hd2 by (by eexists).
      * exists j. rewrite Hj3, Hj2; [done|]. rewrite Hd2; by eexists.
    + simpl. destruct (fs !! json_file d) as [j|] eqn:Hj.
      2: { eapply lookup_weaken_None; [|exact Hsub3]. by rewrite Hj2. }
      destruct Hd as [Hdata|?]; [|done]. apply (proj2 Hsw3). exists d. split; [done|]. split.
      * destruct (Hlm _ _ Hj eq_refl) as (e & He & Hlen & _). by apply (sharded_inj _ _ d e) in He as ->.
      * change (fs2 !! data_file d = None). by rewrite Hd2.
  - intros d. rewrite Hd3. intros Hdata. rewrite Hj3, Hj2 by done.
    destruct (fs !! json_file d) eqn:Hj; [done|]. exfalso.
    destruct Hdata as [c Hc]. pose proof (lookup_weaken _ _ _ _ Hc Hsub2) as Hc'.
    destruct (Hlo _ _ Hc' eq_refl) as (e & He & Hlen & _). apply (sharded_inj _ _ d e) in He as ->.
    enough (fs2 !! data_file e = None) by congruence. apply (proj2 Hsw2). exists e. split_and!; [done|done|].
    change (fs1 !! json_file e = None). by eapply lookup_weaken_None.
  - intros q Hq. rewrite !not_elem_of_cons in Hq. destruct Hq as (Ht & Ho & Hm & _).
    rewrite (swept_frame _ _ _ _ _ _ _ Hsw3), (swept_frame _ _ _ _ _ _ _ Hsw2) by done. by apply Hf1.
Qed.

(** The store recovers from a crash. Started, without faults, on the disk a
    process left behind at any point of its publications and deletions, the store
    has every whole object, byte for byte, and no other; all temporary files, all
    data without metadata and all metadata without data are gone; and nothing
    outside its three directories has changed. *)
Theorem startup_recovers_objects (w w' : World) objs r :
  faults w = [] → crashed (files w) objs → new_object_store w = (r, w') →
  r = Ok () ∧ sessions w' = sessions w ∧ refines (files w') objs ∧
  (∀ d, is_Some (files w' !! data_file d) → is_Some (files w' !! json_file d)) ∧
  (∀ q, head q ∉ [Some "tmp"; Some "objects"; Some "metadata"] → files w' !! q = files w !! q).
Proof.
  intros Hfl Hd Hrun. assert (budget w = 0%nat) as Hb by (unfold budget; by rewrite Hfl).
  pose proof (wp_new_object_store _ (sessions w) _ (recovered (files w) (sessions w) objs) Hd ltac:(done)) as Hwp.
  rewrite <- Hb in Hwp. exact (proj2 (wp_run _ _ _ _ _ Hrun Hwp)).
Qed.
End startup.

(** ** Witness: a crash during the first upload of a second object *)

Section witnesses.
Local Existing Instances ref_http ref_codec ref_crypto ref_uuid ref_json.

Definition w_md : ObjectMetadata := w_object 5.
Definition w_one : World := (run_ops [Put w_uuid w_md "hello"] w_empty).2.
Definition w_one_object : objects := (spec_ops [Put w_uuid w_md "hello"] ∅).2.
Definition w_crashed : World :=
  mkWorld (<[["tmp"; "x.part"] := "par"]> (<[data_file "abcd" := "partial"]> (files w_one))) ∅ [].

Lemma w_one_refines : refines (files w_one) w_one_object.
Proof.
  unfold w_one. destruct (run_ops _ w_empty) as [r w'] eqn:Hrun. cbn [snd].
  pose proof (wp_run_ops [Put w_uuid w_md "hello"] (files w_empty) (sessions w_empty) ∅ refines_empty) as Hwp.
  exact (proj2 (proj2 (proj2 (wp_run _ _ _ _ _ Hrun Hwp)))).
Qed.

Definition w_laid_out (top suffix : str) (q : path) : bool :=
  match q with
  | [t; prefix; name] =>
      negb (str_eqb t top) ||
      match strip_suffix suffix name with
      | Some d => str_eqb prefix (take 2 d) && (2 <=? len d) && utf8_valid name
      | None => false
      end
  | t :: _ => negb (str_eqb t top)
  | [] => true
  end.

Lemma w_laid_out_ok top suffix fs :
  forallb (λ kv, w_laid_out top suffix kv.1) (map_to_list fs) = true → laid_out top suffix fs.
Proof.
  intros Hall q c Hc Hq. rewrite forallb_forall in Hall.
  apply elem_of_map_to_list, list_elem_of_In, Hall in Hc. simpl in Hc.
  destruct q as [|t q]; [done|]. simpl in Hq. injection Hq as ->. unfold w_laid_out in Hc.
  rewrite str_eqb_refl in Hc. destruct q as [|prefix [|name [|? ?]]]; try done. simpl in Hc.
  destruct (strip_suffix suffix name) as [d|] eqn:Hd; [|done].
  apply strip_suffix_Some in Hd as ->. apply andb_true_iff in Hc as [Hc Hutf].
  apply andb_true_iff in Hc as [Hp%str_eqb_eq Hlen%Z.leb_le]. subst prefix. by exists d.
Qed.

Lemma w_no_abcd : w_one_object !! ("abcd" : str) = None.
Proof. vm_refl. Qed.

Lemma w_crashed_ok : crashed (files w_crashed) w_one_object.
Proof.
  split; [apply w_laid_out_ok; vm_refl|]. split; [apply w_laid_out_ok; vm_refl|].
  pose proof w_one_refines as [_ Hm]. pose proof w_no_abcd as Hno.
  unfold w_crashed. cbn [files]. generalize dependent w_one_object. generalize (files w_one).
  intros fs objs Hm Hno d. specialize (Hm d). destruct (objs !! d) as [[md c]|] eqn:Ho.
  - destruct (decide (d = "abcd")) as [->|Hne]; [congruence|].
    destruct Hm as (Hd & j & Hj & Hmd). split.
    + rewrite !lookup_insert_ne; [done| |done]. by intros ?%(inj data_file).
    + exists j. by rewrite !lookup_insert_ne.
  - right. by rewrite !lookup_insert_ne.
Qed.

Lemma startup_recovers_objects_witness :
  refines (files (new_object_store w_crashed).2) w_one_object ∧
  size (files w_crashed) = 4%nat ∧ size (files (new_object_store w_crashed).2) = 2%nat.
Proof.
  split; [|split; vm_refl].
  exact (proj1 (proj2 (proj2 (startup_recovers_objects w_crashed (new_object_store w_crashed).2 w_one_object
    (new_object_store w_crashed).1 eq_refl w_crashed_ok (surjective_pairing _))))).
Defined.

(** What [crashed] leaves out: a process that stops between the two renames of an
    upload over an older object. The next start keeps both files and removes the
    backups, and the object is served with the contents of the new upload and the
    metadata of the old one. *)
Definition w_stopped : World :=
  (commit_staged_object w_staged (w_object 4)
     (mkWorld w_disk ∅ (replicate 6 None ++ replicate 20 (Some (mkFault "stopped" None []))))).2.

Theorem crash_mixes_object :
  let '(r, w') := new_object_store (mkWorld (files w_stopped) ∅ []) in
  (open_object w_bucket w_key (mkWorld w_disk ∅ [])).1 = Ok (Some (w_object 3, "old")) ∧
  r = Ok () ∧ (open_object w_bucket w_key w').1 = Ok (Some (w_object 3, "new")).
Proof. vm_compute. by split_and!. Qed.
End witnesses.
