(* ===== verification/Streams.v ===== *)
(** * Streaming an open file (handlers/get_object.rs)

    The body of a GetObject response is read from the open file while it is
    sent. A read may return fewer bytes than asked for, and may fail; what each
    read does is an argument. *)

From S2P Require Import Prelude RustStd BTree S3Error Externals Reference Types Http.
From Stdlib Require Import ZArith Lia.
Local Open Scope Z_scope.

(** What a read does: it delivers at most [S n] bytes, or fails. Reads beyond
    the end of the schedule deliver all that is asked for. *)
Inductive ReadEvent := ReadUpTo (n : nat) | ReadFails (msg : str).

(** [file.read(&mut buffer)] with a buffer of [limit] bytes, on the bytes after
    the cursor: the bytes read, the bytes after the new cursor. *)
Definition file_read (reads : list ReadEvent) (file : bytes) (limit : Z)
  : result str (bytes * bytes) * list ReadEvent :=
  let n := Z.to_nat limit in
  match reads with
  | [] => (Ok (take n file, drop n file), [])
  | ReadUpTo m :: reads => (Ok (take (Nat.min n (S m)) file, drop (Nat.min n (S m)) file), reads)
  | ReadFails msg :: reads => (Err msg, reads)
  end.

(** Every chunk has a byte at least, so that the fuel [S (length file)] is
    enough: out of fuel a stream would end early ([stream_limited_spec]). *)
(* @src src/src/handlers/get_object.rs 147-171 file_stream_limited *)
Fixpoint stream_limited (fuel : nat) (reads : list ReadEvent) (file : bytes) (remaining buffer_size : Z)
  : Body :=
  match fuel with
  | O => []
  | S fuel =>
      if remaining =? 0 then []
      else
        match file_read reads file (Z.min remaining buffer_size) with
        | (Err msg, _) => [Err msg]
        | (Ok ([], _), _) => []
        | (Ok (chunk, rest), reads) =>
            Ok chunk :: stream_limited fuel reads rest (remaining - len chunk) buffer_size
        end
  end.
Definition file_stream_limited (reads : list ReadEvent) (file : bytes) (remaining buffer_size : Z) : Body :=
  stream_limited (S (length file)) reads file remaining buffer_size.

(* @src src/src/handlers/get_object.rs 132-145 file_stream *)
Fixpoint stream_all (fuel : nat) (reads : list ReadEvent) (file : bytes) (buffer_size : Z) : Body :=
  match fuel with
  | O => []
  | S fuel =>
      match file_read reads file buffer_size with
      | (Err msg, _) => [Err msg]
      | (Ok ([], _), _) => []
      | (Ok (chunk, rest), reads) => Ok chunk :: stream_all fuel reads rest buffer_size
      end
  end.
Definition file_stream (reads : list ReadEvent) (file : bytes) (buffer_size : Z) : Body :=
  stream_all (S (length file)) reads file buffer_size.

(** The bytes a body delivers, and whether it ends without an error. *)
Definition delivered (b : Body) : bytes :=
  concat (omap result_ok b).
Definition complete (b : Body) : Prop := Forall (λ c, is_ok c = true) b.

(** ** Facts *)

Lemma file_read_ok reads file limit chunk rest reads' :
  file_read reads file limit = (Ok (chunk, rest), reads') →
  file = chunk ++ rest ∧ len chunk ≤ Z.max 0 limit ∧ (0 < limit → file ≠ [] → chunk ≠ []).
Proof.
  intros Hr.
  assert (∃ k, (k ≤ Z.to_nat limit)%nat ∧ (0 < limit → (0 < k)%nat) ∧ chunk = take k file ∧ rest = drop k file)
    as (k & Hk & Hpos & -> & ->).
  { unfold file_read in Hr. destruct reads as [|[m|msg] reads]; simplify_eq.
    - exists (Z.to_nat limit). split_and!; [lia|lia|done|done].
    - exists (Nat.min (Z.to_nat limit) (S m)). split_and!; [lia|lia|done|done]. }
  split_and!.
  - by rewrite take_drop.
  - unfold len. rewrite length_take. lia.
  - intros Hl Hf. destruct file; [done|]. destruct k; [lia|]. done.
Qed.

(** A limited stream delivers a prefix of what it should, all of it when no
    read fails; chunks are never empty. *)
Lemma stream_limited_spec fuel : ∀ reads file remaining buffer_size,
  0 < buffer_size → 0 ≤ remaining → (length file < fuel)%nat →
  let body := stream_limited fuel reads file remaining buffer_size in
  delivered body `prefix_of` take (Z.to_nat remaining) file ∧
  (complete body → delivered body = take (Z.to_nat remaining) file).
Proof.
  induction fuel as [|fuel IH]; intros reads file remaining size Hs Hr Hf; [lia|].
  cbn [stream_limited]. destruct (Z.eqb_spec remaining 0) as [->|Hne].
  { split; [apply prefix_nil|done]. }
  destruct (file_read reads file (Z.min remaining size)) as [[[chunk rest]|msg] reads'] eqn:E.
  2: { split; [apply prefix_nil|]. intros Hc. inversion Hc. done. }
  apply file_read_ok in E as (-> & Hl & Hne'). destruct chunk as [|x chunk].
  { destruct rest as [|y rest]; [|exfalso; apply Hne'; [lia|done|done]].
    simpl. rewrite take_nil. split; [apply prefix_nil|done]. }
  set (c := x :: chunk) in *.
  assert (length c = S (length chunk)) as Hlc by done.
  specialize (IH reads' rest (remaining - len c) size Hs). unfold len in *.
  destruct IH as [Hp Hc]; [lia|rewrite length_app in Hf; lia|].
  change (delivered (Ok c :: ?b)) with (c ++ delivered b).
  replace (Z.to_nat remaining) with (length c + Z.to_nat (remaining - Z.of_nat (length c)))%nat by lia.
  rewrite take_app_add. split.
  - by apply prefix_app.
  - intros Hcc. inversion_clear Hcc. by rewrite Hc.
Qed.

(** While no read fails, nothing is missing. *)
Lemma stream_all_complete fuel : ∀ reads file buffer_size,
  Forall (λ e, ∃ n, e = ReadUpTo n) reads → complete (stream_all fuel reads file buffer_size).
Proof.
  induction fuel as [|fuel IH]; intros reads file size Hr; [constructor|]. cbn [stream_all].
  destruct Hr as [|? reads [m ->] Hr]; cbn [file_read].
  - destruct (take _ file); constructor; [done|by apply IH].
  - destruct (take _ file); constructor; [done|by apply IH].
Qed.

(** An unlimited stream reads to the end of the file. *)
Lemma stream_all_spec fuel : ∀ reads file buffer_size,
  0 < buffer_size → (length file < fuel)%nat →
  let body := stream_all fuel reads file buffer_size in
  delivered body `prefix_of` file ∧ (complete body → delivered body = file).
Proof.
  induction fuel as [|fuel IH]; intros reads file size Hs Hf; [lia|]. cbn [stream_all].
  destruct (file_read reads file size) as [[[chunk rest]|msg] reads'] eqn:E.
  2: { split; [apply prefix_nil|]. intros Hc. by inversion Hc. }
  apply file_read_ok in E as (-> & _ & Hne). destruct chunk as [|x chunk].
  { destruct rest as [|y rest]; [|exfalso; by apply Hne]. by split; [apply prefix_nil|]. }
  rewrite length_app in Hf. cbn [length] in Hf.
  destruct (IH reads' rest size Hs ltac:(lia)) as [Hp Hc].
  change (delivered (Ok (x :: chunk) :: ?b)) with ((x :: chunk) ++ delivered b).
  split; [by apply prefix_app|]. intros Hcc. inversion_clear Hcc. by rewrite Hc.
Qed.

(* @prop termination 35 : stream_limited stream_all *)
(** C35: streaming ends and delivers the right bytes however the reads are cut:
    with any schedule of short and failing reads, the body of a whole object is
    a prefix of the file and that of a range a prefix of the range, and a body
    that ends without an error has delivered all of it. *)
Theorem streams_exact reads file remaining buffer_size :
  0 < buffer_size → 0 ≤ remaining →
  let whole := file_stream reads file buffer_size in
  let part := file_stream_limited reads file remaining buffer_size in
  (delivered whole `prefix_of` file ∧ (complete whole → delivered whole = file)) ∧
  (delivered part `prefix_of` take (Z.to_nat remaining) file ∧
   (complete part → delivered part = take (Z.to_nat remaining) file)).
Proof.
  intros Hs Hr. split; [apply stream_all_spec|apply stream_limited_spec]; try done; lia.
Qed.

Lemma streams_exact_witness :
  delivered (file_stream_limited [ReadUpTo 1; ReadUpTo 0] "hello world" 7 4) = "hello w".
Proof.
  destruct (streams_exact [ReadUpTo 1; ReadUpTo 0] "hello world" 7 4 ltac:(lia) ltac:(lia)) as [_ [_ Hc]].
  rewrite Hc; [vm_refl|]. unfold complete. vm_compute. repeat constructor.
Defined.
