(* ===== verification/AppState.v ===== *)
(** * The application (lib.rs, handlers/request.rs)

    The state every handler shares: configuration, credentials, hooks, disabled
    operations and admission limits; how it is built; and the checks a handler
    makes through it before it touches a store. The stores themselves are the
    world of [FileSystem.v]. *)

From S2P Require Import Prelude RustStd BTree S3Error Externals Reference Types Target Config Http.
From S2P Require Import Chunked ChunkedProofs Checksum Upload Auth Hooks Admission Routing.
From S2P Require Import StoreModel ReferenceJson FileSystem ObjectStore StoreTrait Middleware ProcessorHandle MultipartStore Streams.
From Stdlib Require Import ZArith Lia.
Local Open Scope Z_scope.

Section app.
Context `{HttpLib} `{CodecLib} `{CryptoLib} `{ChronoLib} `{UuidLib} `{JsonLib}.

(** ** What a request finds at run time

    The time of the system, the results of [Uuid::new_v4] in order, whether
    the semaphores grant the permits the request asks for, what of a body had reached
    the disk when the body failed, and what the reads of a response body will do. *)
Record Env := mkEnv {
  env_now : Z;
  env_uuid : nat → Uuid;
  env_permits : Grants;
  env_flushed : bytes;
  env_reads : list ReadEvent;
}.

(** What the tenant limits provider is told, in order. *)
Inductive TenantEvent :=
| Begun (context : TenantLimitContext)
| Finished (context : TenantLimitContext) (outcome : TenantOperationOutcome).

(** The surroundings of a request: those of its handler, what the request id
    factory draws, and, when the timeout of the lease passes first, what the
    operation has made of the world when it is dropped. *)
Record Surroundings := mkSurroundings {
  sr_env : Env;
  sr_draw : Uuid;
  sr_elapsed : option (World → World);
}.

(** What a client is answered: by the endpoint, by the health handler, or by the
    router itself. A router of axum is what it makes of a request, and a layer
    wraps it. *)
Inductive Answer := Served (response : Response) | StatusOnly (status : Z).
Definition Router : Type := Surroundings → Request → Body → World → Answer * World * list TenantEvent.
(* @src src/src/lib.rs 395-395 RouterTransform *)
Definition RouterTransform : Type := Router → Router.

(** ** The state

    The stores keep what they store in the world. A policy is a function of its
    context; the tenant limits provider is its [begin_operation]; the request id
    factory is a function of a random draw, the clock of the system's time. *)
(* @src src/src/lib.rs 65-89 AppState *)
Record AppState := mkAppState {
  st_config : Config;
  st_auth : AuthState;
  st_object_store : ObjectStoreOps;
  st_multipart_store : MultipartStoreOps;
  st_io_tuning : IoTuning;
  st_upload_processors : list UploadProcessor;
  st_request_observer : option (S3RequestContext → ());
  st_error_mapper : option (S3ErrorContext → S3Error → S3Error);
  st_response_mapper : option (S3ResponseContext → Response → Response);
  st_request_id_factory : Uuid → RequestId;
  st_clock : Z → Z;
  st_authentication_provider : option (AuthenticationRequest → result S3Error AuthenticationResult);
  st_authorization_policy : option (AuthorizationContext → result S3Error ());
  st_operation_policy : option (OperationContext → result S3Error ());
  st_target_policy : option (TargetContext → result S3Error ());
  st_upload_policy : option (UploadPolicyContext → result S3Error ());
  st_tenant_limits_provider : TenantLimitContext → result S3Error TenantOperationLease;
  st_disabled_operations : list S3Action;
  st_admission : AdmissionControl;
}.

(** ** The builder *)

(* @src src/src/lib.rs 372-393 AppBuilder *)
Record AppBuilder := mkAppBuilder {
  ab_config : Config;
  ab_upload_processors : list UploadProcessor;
  ab_object_store : option ObjectStoreOps;
  ab_multipart_store : option MultipartStoreOps;
  ab_io_tuning : IoTuning;
  ab_multipart_lifecycle : MultipartLifecycle;
  ab_request_observer : option (S3RequestContext → ());
  ab_error_mapper : option (S3ErrorContext → S3Error → S3Error);
  ab_response_mapper : option (S3ResponseContext → Response → Response);
  ab_request_id_factory : Uuid → RequestId;
  ab_clock : Z → Z;
  ab_authentication_provider : option (AuthenticationRequest → result S3Error AuthenticationResult);
  ab_authorization_policy : option (AuthorizationContext → result S3Error ());
  ab_operation_policy : option (OperationContext → result S3Error ());
  ab_target_policy : option (TargetContext → result S3Error ());
  ab_upload_policy : option (UploadPolicyContext → result S3Error ());
  ab_tenant_limits_provider : TenantLimitContext → result S3Error TenantOperationLease;
  ab_disabled_operations : list S3Action;
  ab_health_path : option str;
  ab_router_layers : list RouterTransform;
}.

(* @src src/src/lib.rs 93-116 AppState::builder *)
Definition app_builder (config : Config) : AppBuilder := {|
  ab_config := config;
  ab_upload_processors := [];
  ab_object_store := None;
  ab_multipart_store := None;
  ab_io_tuning := default_io_tuning;
  ab_multipart_lifecycle := default_lifecycle;
  ab_request_observer := None;
  ab_error_mapper := None;
  ab_response_mapper := None;
  ab_request_id_factory := Traits.request_id new_request_id;
  ab_clock := Traits.now Traits.SystemClock;
  ab_authentication_provider := None;
  ab_authorization_policy := None;
  ab_operation_policy := None;
  ab_target_policy := None;
  ab_upload_policy := None;
  ab_tenant_limits_provider := Traits.begin_operation Traits.NoopLimits;
  ab_disabled_operations := [];
  ab_health_path := Some "/health";
  ab_router_layers := [];
|}.

(** The setters of the builder. The set of disabled operations is a list. *)
(* @src src/src/lib.rs 399-405 AppBuilder::object_store *)
Definition set_object_store (b : AppBuilder) (store : ObjectStoreOps) : AppBuilder :=
  mkAppBuilder (ab_config b) (ab_upload_processors b) (Some store) (ab_multipart_store b) (ab_io_tuning b) (ab_multipart_lifecycle b)
    (ab_request_observer b) (ab_error_mapper b) (ab_response_mapper b) (ab_request_id_factory b) (ab_clock b) (ab_authentication_provider b)
    (ab_authorization_policy b) (ab_operation_policy b) (ab_target_policy b) (ab_upload_policy b)
    (ab_tenant_limits_provider b) (ab_disabled_operations b) (ab_health_path b) (ab_router_layers b).
(* @src src/src/lib.rs 408-414 AppBuilder::multipart_store *)
Definition set_multipart_store (b : AppBuilder) (store : MultipartStoreOps) : AppBuilder :=
  mkAppBuilder (ab_config b) (ab_upload_processors b) (ab_object_store b) (Some store) (ab_io_tuning b) (ab_multipart_lifecycle b)
    (ab_request_observer b) (ab_error_mapper b) (ab_response_mapper b) (ab_request_id_factory b) (ab_clock b) (ab_authentication_provider b)
    (ab_authorization_policy b) (ab_operation_policy b) (ab_target_policy b) (ab_upload_policy b)
    (ab_tenant_limits_provider b) (ab_disabled_operations b) (ab_health_path b) (ab_router_layers b).
(* @src src/src/lib.rs 417-420 AppBuilder::io_tuning *)
Definition set_io_tuning (b : AppBuilder) (io_tuning : IoTuning) : AppBuilder :=
  mkAppBuilder (ab_config b) (ab_upload_processors b) (ab_object_store b) (ab_multipart_store b) io_tuning
    (ab_multipart_lifecycle b) (ab_request_observer b) (ab_error_mapper b) (ab_response_mapper b) (ab_request_id_factory b) (ab_clock b)
    (ab_authentication_provider b) (ab_authorization_policy b) (ab_operation_policy b) (ab_target_policy b)
    (ab_upload_policy b) (ab_tenant_limits_provider b) (ab_disabled_operations b) (ab_health_path b) (ab_router_layers b).
(* @src src/src/lib.rs 423-426 AppBuilder::multipart_lifecycle *)
Definition set_multipart_lifecycle (b : AppBuilder) (lifecycle : MultipartLifecycle) : AppBuilder :=
  mkAppBuilder (ab_config b) (ab_upload_processors b) (ab_object_store b) (ab_multipart_store b)
    (ab_io_tuning b) lifecycle (ab_request_observer b) (ab_error_mapper b) (ab_response_mapper b) (ab_request_id_factory b) (ab_clock b)
    (ab_authentication_provider b) (ab_authorization_policy b) (ab_operation_policy b) (ab_target_policy b)
    (ab_upload_policy b) (ab_tenant_limits_provider b) (ab_disabled_operations b) (ab_health_path b) (ab_router_layers b).
(* @src src/src/lib.rs 432-438 AppBuilder::upload_processor *)
Definition add_upload_processor (b : AppBuilder) (processor : UploadProcessor) : AppBuilder :=
  mkAppBuilder (ab_config b) (ab_upload_processors b ++ [processor]) (ab_object_store b)
    (ab_multipart_store b) (ab_io_tuning b) (ab_multipart_lifecycle b) (ab_request_observer b)
    (ab_error_mapper b) (ab_response_mapper b) (ab_request_id_factory b) (ab_clock b) (ab_authentication_provider b) (ab_authorization_policy b)
    (ab_operation_policy b) (ab_target_policy b) (ab_upload_policy b) (ab_tenant_limits_provider b)
    (ab_disabled_operations b) (ab_health_path b) (ab_router_layers b).
(* @src src/src/lib.rs 443-452 AppBuilder::upload_processor_fn *)
Definition add_upload_processor_fn (b : AppBuilder) (name : str)
    (handler : UploadProcessorHandle → ioE UploadProcessorError UploadProcessorAction) : AppBuilder :=
  add_upload_processor b (process_fn (mkProcessorFn name handler)).
(* @src src/src/lib.rs 455-458 AppBuilder::health_path *)
Definition set_health_path (b : AppBuilder) (path : str) : AppBuilder :=
  mkAppBuilder (ab_config b) (ab_upload_processors b) (ab_object_store b) (ab_multipart_store b)
    (ab_io_tuning b) (ab_multipart_lifecycle b) (ab_request_observer b) (ab_error_mapper b)
    (ab_response_mapper b) (ab_request_id_factory b) (ab_clock b) (ab_authentication_provider b) (ab_authorization_policy b)
    (ab_operation_policy b) (ab_target_policy b) (ab_upload_policy b) (ab_tenant_limits_provider b)
    (ab_disabled_operations b) (Some path) (ab_router_layers b).
(* @src src/src/lib.rs 461-464 AppBuilder::disable_health_route *)
Definition disable_health_route (b : AppBuilder)  : AppBuilder :=
  mkAppBuilder (ab_config b) (ab_upload_processors b) (ab_object_store b) (ab_multipart_store b)
    (ab_io_tuning b) (ab_multipart_lifecycle b) (ab_request_observer b) (ab_error_mapper b)
    (ab_response_mapper b) (ab_request_id_factory b) (ab_clock b) (ab_authentication_provider b) (ab_authorization_policy b)
    (ab_operation_policy b) (ab_target_policy b) (ab_upload_policy b) (ab_tenant_limits_provider b)
    (ab_disabled_operations b) None (ab_router_layers b).
(** A layer of the application, as what it makes of a router. *)
(* @src src/src/lib.rs 467-478 AppBuilder::router_layer *)
Definition router_layer (b : AppBuilder) (layer : RouterTransform) : AppBuilder :=
  mkAppBuilder (ab_config b) (ab_upload_processors b) (ab_object_store b) (ab_multipart_store b)
    (ab_io_tuning b) (ab_multipart_lifecycle b) (ab_request_observer b) (ab_error_mapper b)
    (ab_response_mapper b) (ab_request_id_factory b) (ab_clock b) (ab_authentication_provider b)
    (ab_authorization_policy b) (ab_operation_policy b) (ab_target_policy b) (ab_upload_policy b)
    (ab_tenant_limits_provider b) (ab_disabled_operations b) (ab_health_path b) (ab_router_layers b ++ [layer]).
(* @src src/src/lib.rs 481-487 AppBuilder::on_request *)
Definition on_request {O : Type} `{!Traits.RequestObserver O} (b : AppBuilder) (observer : O) : AppBuilder :=
  mkAppBuilder (ab_config b) (ab_upload_processors b) (ab_object_store b) (ab_multipart_store b)
    (ab_io_tuning b) (ab_multipart_lifecycle b) (Some (Traits.observe observer)) (ab_error_mapper b)
    (ab_response_mapper b) (ab_request_id_factory b) (ab_clock b) (ab_authentication_provider b) (ab_authorization_policy b)
    (ab_operation_policy b) (ab_target_policy b) (ab_upload_policy b) (ab_tenant_limits_provider b)
    (ab_disabled_operations b) (ab_health_path b) (ab_router_layers b).
(* @src src/src/lib.rs 490-496 AppBuilder::on_error *)
Definition on_error {M : Type} `{!Traits.ErrorMapper M} (b : AppBuilder) (mapper : M) : AppBuilder :=
  mkAppBuilder (ab_config b) (ab_upload_processors b) (ab_object_store b) (ab_multipart_store b)
    (ab_io_tuning b) (ab_multipart_lifecycle b) (ab_request_observer b) (Some (Traits.map_error mapper))
    (ab_response_mapper b) (ab_request_id_factory b) (ab_clock b) (ab_authentication_provider b) (ab_authorization_policy b)
    (ab_operation_policy b) (ab_target_policy b) (ab_upload_policy b) (ab_tenant_limits_provider b)
    (ab_disabled_operations b) (ab_health_path b) (ab_router_layers b).
(* @src src/src/lib.rs 499-505 AppBuilder::on_response *)
Definition on_response {M : Type} `{!Traits.ResponseMapper M} (b : AppBuilder) (mapper : M) : AppBuilder :=
  mkAppBuilder (ab_config b) (ab_upload_processors b) (ab_object_store b) (ab_multipart_store b)
    (ab_io_tuning b) (ab_multipart_lifecycle b) (ab_request_observer b) (ab_error_mapper b)
    (Some (Traits.map_response mapper)) (ab_request_id_factory b) (ab_clock b) (ab_authentication_provider b) (ab_authorization_policy b)
    (ab_operation_policy b) (ab_target_policy b) (ab_upload_policy b) (ab_tenant_limits_provider b)
    (ab_disabled_operations b) (ab_health_path b) (ab_router_layers b).
(* @src src/src/lib.rs 508-514 AppBuilder::request_id_factory *)
Definition set_request_id_factory {F : Type} `{!Traits.RequestIdFactory F} (b : AppBuilder) (factory : F) : AppBuilder :=
  mkAppBuilder (ab_config b) (ab_upload_processors b) (ab_object_store b) (ab_multipart_store b)
    (ab_io_tuning b) (ab_multipart_lifecycle b) (ab_request_observer b) (ab_error_mapper b)
    (ab_response_mapper b) (Traits.request_id factory) (ab_clock b) (ab_authentication_provider b)
    (ab_authorization_policy b) (ab_operation_policy b) (ab_target_policy b) (ab_upload_policy b)
    (ab_tenant_limits_provider b) (ab_disabled_operations b) (ab_health_path b) (ab_router_layers b).
(* @src src/src/lib.rs 517-523 AppBuilder::clock *)
Definition set_clock {C : Type} `{!Traits.Clock C} (b : AppBuilder) (clock : C) : AppBuilder :=
  mkAppBuilder (ab_config b) (ab_upload_processors b) (ab_object_store b) (ab_multipart_store b)
    (ab_io_tuning b) (ab_multipart_lifecycle b) (ab_request_observer b) (ab_error_mapper b)
    (ab_response_mapper b) (ab_request_id_factory b) (Traits.now clock) (ab_authentication_provider b)
    (ab_authorization_policy b) (ab_operation_policy b) (ab_target_policy b) (ab_upload_policy b)
    (ab_tenant_limits_provider b) (ab_disabled_operations b) (ab_health_path b) (ab_router_layers b).
(* @src src/src/lib.rs 531-537 AppBuilder::authentication_provider *)
Definition set_authentication_provider {P : Type} `{!Traits.AuthenticationProvider P} (b : AppBuilder) (provider : P) : AppBuilder :=
  mkAppBuilder (ab_config b) (ab_upload_processors b) (ab_object_store b) (ab_multipart_store b)
    (ab_io_tuning b) (ab_multipart_lifecycle b) (ab_request_observer b) (ab_error_mapper b)
    (ab_response_mapper b) (ab_request_id_factory b) (ab_clock b) (Some (Traits.authenticate provider)) (ab_authorization_policy b)
    (ab_operation_policy b) (ab_target_policy b) (ab_upload_policy b) (ab_tenant_limits_provider b)
    (ab_disabled_operations b) (ab_health_path b) (ab_router_layers b).
(* @src src/src/lib.rs 540-546 AppBuilder::authorization_policy *)
Definition set_authorization_policy {P : Type} `{!Traits.AuthorizationPolicy P} (b : AppBuilder) (policy : P) : AppBuilder :=
  mkAppBuilder (ab_config b) (ab_upload_processors b) (ab_object_store b) (ab_multipart_store b)
    (ab_io_tuning b) (ab_multipart_lifecycle b) (ab_request_observer b) (ab_error_mapper b)
    (ab_response_mapper b) (ab_request_id_factory b) (ab_clock b) (ab_authentication_provider b) (Some (Traits.authorize policy))
    (ab_operation_policy b) (ab_target_policy b) (ab_upload_policy b) (ab_tenant_limits_provider b)
    (ab_disabled_operations b) (ab_health_path b) (ab_router_layers b).
(* @src src/src/lib.rs 549-555 AppBuilder::operation_policy *)
Definition set_operation_policy {P : Type} `{!Traits.OperationPolicy P} (b : AppBuilder) (policy : P) : AppBuilder :=
  mkAppBuilder (ab_config b) (ab_upload_processors b) (ab_object_store b) (ab_multipart_store b)
    (ab_io_tuning b) (ab_multipart_lifecycle b) (ab_request_observer b) (ab_error_mapper b)
    (ab_response_mapper b) (ab_request_id_factory b) (ab_clock b) (ab_authentication_provider b) (ab_authorization_policy b)
    (Some (Traits.allow_operation policy)) (ab_target_policy b) (ab_upload_policy b)
    (ab_tenant_limits_provider b) (ab_disabled_operations b) (ab_health_path b) (ab_router_layers b).
(* @src src/src/lib.rs 558-561 AppBuilder::disable_operation *)
Definition disable_operation (b : AppBuilder) (action : S3Action) : AppBuilder :=
  mkAppBuilder (ab_config b) (ab_upload_processors b) (ab_object_store b) (ab_multipart_store b)
    (ab_io_tuning b) (ab_multipart_lifecycle b) (ab_request_observer b) (ab_error_mapper b)
    (ab_response_mapper b) (ab_request_id_factory b) (ab_clock b) (ab_authentication_provider b) (ab_authorization_policy b)
    (ab_operation_policy b) (ab_target_policy b) (ab_upload_policy b) (ab_tenant_limits_provider b)
    (action :: ab_disabled_operations b) (ab_health_path b) (ab_router_layers b).
(* @src src/src/lib.rs 564-570 AppBuilder::target_policy *)
Definition set_target_policy {P : Type} `{!Traits.TargetPolicy P} (b : AppBuilder) (policy : P) : AppBuilder :=
  mkAppBuilder (ab_config b) (ab_upload_processors b) (ab_object_store b) (ab_multipart_store b)
    (ab_io_tuning b) (ab_multipart_lifecycle b) (ab_request_observer b) (ab_error_mapper b)
    (ab_response_mapper b) (ab_request_id_factory b) (ab_clock b) (ab_authentication_provider b) (ab_authorization_policy b)
    (ab_operation_policy b) (Some (Traits.allow_target policy)) (ab_upload_policy b)
    (ab_tenant_limits_provider b) (ab_disabled_operations b) (ab_health_path b) (ab_router_layers b).
(* @src src/src/lib.rs 573-579 AppBuilder::upload_policy *)
Definition set_upload_policy {P : Type} `{!Traits.UploadPolicy P} (b : AppBuilder) (policy : P) : AppBuilder :=
  mkAppBuilder (ab_config b) (ab_upload_processors b) (ab_object_store b) (ab_multipart_store b)
    (ab_io_tuning b) (ab_multipart_lifecycle b) (ab_request_observer b) (ab_error_mapper b)
    (ab_response_mapper b) (ab_request_id_factory b) (ab_clock b) (ab_authentication_provider b) (ab_authorization_policy b)
    (ab_operation_policy b) (ab_target_policy b) (Some (Traits.allow_upload policy))
    (ab_tenant_limits_provider b) (ab_disabled_operations b) (ab_health_path b) (ab_router_layers b).
(* @src src/src/lib.rs 582-588 AppBuilder::tenant_limits_provider *)
Definition set_tenant_limits_provider {P : Type} `{!Traits.TenantLimitsProvider P} (b : AppBuilder) (provider : P) : AppBuilder :=
  mkAppBuilder (ab_config b) (ab_upload_processors b) (ab_object_store b) (ab_multipart_store b)
    (ab_io_tuning b) (ab_multipart_lifecycle b) (ab_request_observer b) (ab_error_mapper b)
    (ab_response_mapper b) (ab_request_id_factory b) (ab_clock b) (ab_authentication_provider b) (ab_authorization_policy b)
    (ab_operation_policy b) (ab_target_policy b) (ab_upload_policy b) (Traits.begin_operation provider)
    (ab_disabled_operations b) (ab_health_path b) (ab_router_layers b).

(* @src src/src/lib.rs 644-658 AppInitError *)
Inductive AppInitError :=
| InitConfig (e : ConfigError)
| InitStore (e : StoreError)
| RouterConfig (msg : str).

(** The state of a builder, whose parts have been made. *)
(* @src src/src/lib.rs 168-190 AppState::from_builder *)
Definition built_state (b : AppBuilder) (auth : AuthState) (store : ObjectStoreOps) (multipart : MultipartStoreOps)
    (limits : UploadLimits) : AppState := {|
  st_config := ab_config b;
  st_auth := auth;
  st_object_store := store;
  st_multipart_store := multipart;
  st_io_tuning := ab_io_tuning b;
  st_upload_processors := ab_upload_processors b;
  st_request_observer := ab_request_observer b;
  st_error_mapper := ab_error_mapper b;
  st_response_mapper := ab_response_mapper b;
  st_request_id_factory := ab_request_id_factory b;
  st_clock := ab_clock b;
  st_authentication_provider := ab_authentication_provider b;
  st_authorization_policy := ab_authorization_policy b;
  st_operation_policy := ab_operation_policy b;
  st_target_policy := ab_target_policy b;
  st_upload_policy := ab_upload_policy b;
  st_tenant_limits_provider := ab_tenant_limits_provider b;
  st_disabled_operations := ab_disabled_operations b;
  st_admission := new_admission limits;
|}.

(** [now] is the time of the system while the multipart store loads its sessions. *)
(* @src src/src/lib.rs 128-191 AppState::from_builder *)
Definition from_builder (now : Z) (b : AppBuilder) : ioE AppInitError AppState :=
  let config := ab_config b in
  _ ← lift (map_err InitConfig (validate_config config));
  _ ← lift (map_err InitConfig (validate_io_tuning (ab_io_tuning b)));
  limits ← lift (map_err InitConfig (validated (upload_limits config)));
  auth ← lift (map_err InitConfig (new_auth_state (cfg_auth config)));
  object_store ← match ab_object_store b with
                 | Some store => mret store
                 | None => _ ← map_io_err InitStore new_object_store; mret file_object_store
                 end;
  multipart_store ← match ab_multipart_store b with
                    | Some store => mret store
                    | None =>
                        _ ← map_io_err InitStore (new_multipart_store (ab_multipart_lifecycle b) (ab_clock b now));
                        mret (file_multipart_store_on (ab_clock b))
                    end;
  mret (built_state b auth object_store multipart_store limits).

(* @src src/src/lib.rs 609-620 validate_health_path *)
Definition validate_health_path (path : option str) : result AppInitError () :=
  match path with
  | None => Ok ()
  | Some path =>
      if starts_with "/" path && (1 <? len path) && negb (contains_char "*"%char path) then Ok ()
      else Err (RouterConfig "health path must start with '/' and must not contain wildcards")
  end.

(** ** What handlers ask of the state *)

(* @src src/src/lib.rs 199-201 AppState::request_id *)
Definition state_request_id (s : AppState) (draw : Uuid) : RequestId := st_request_id_factory s draw.
(* @src src/src/lib.rs 204-206 AppState::now *)
Definition state_now (s : AppState) (system_time : Z) : Z := st_clock s system_time.

(* @src src/src/lib.rs 211-217 AppState::authenticate_with_provider *)
Definition authenticate_with_provider (s : AppState) (r : AuthenticationRequest)
  : option (result S3Error AuthenticationResult) :=
  provider ← st_authentication_provider s; Some (provider r).

(* @src src/src/lib.rs 220-224 AppState::observe_request *)
Definition observe_request (s : AppState) (context : S3RequestContext) : () :=
  match st_request_observer s with Some observer => observer context | None => () end.

(* @src src/src/lib.rs 227-237 AppState::map_error *)
Definition map_error (s : AppState) (context : S3ErrorContext) (error : S3Error) : S3Error :=
  match st_error_mapper s with Some mapper => mapper context error | None => error end.

(* @src src/src/lib.rs 240-250 AppState::map_response *)
Definition map_response (s : AppState) (context : S3ResponseContext) (response : Response) : Response :=
  match st_response_mapper s with Some mapper => mapper context response | None => response end.

Definition ask {C : Type} (policy : option (C → result S3Error ())) (context : C) : result S3Error () :=
  match policy with Some policy => policy context | None => Ok () end.

(* @src src/src/lib.rs 253-262 AppState::allow_operation *)
Definition allow_operation (s : AppState) (context : OperationContext) : result S3Error () :=
  if bool_decide (oc_action context ∈ st_disabled_operations s) then Err method_not_allowed
  else ask (st_operation_policy s) context.

(* @src src/src/lib.rs 265-271 AppState::allow_target *)
Definition allow_target (s : AppState) : TargetContext → result S3Error () := ask (st_target_policy s).
(* @src src/src/lib.rs 274-280 AppState::allow_upload *)
Definition allow_upload (s : AppState) : UploadPolicyContext → result S3Error () :=
  ask (st_upload_policy s).
(* @src src/src/lib.rs 302-311 AppState::authorize_with_policy *)
Definition authorize_with_policy (s : AppState) : AuthorizationContext → result S3Error () :=
  ask (st_authorization_policy s).

(* @src src/src/lib.rs 283-288 AppState::begin_tenant_operation *)
Definition begin_tenant_operation (s : AppState) (context : TenantLimitContext)
  : result S3Error TenantOperationLease :=
  st_tenant_limits_provider s context.

(** ** handlers/request.rs *)

(* @src src/src/handlers/request.rs 24-52 authenticate_request *)
Definition authenticate_request (now : Z) (s : AppState) (r : Request) : result S3Error AuthContext :=
  match authenticate_with_provider s (mkAuthRequest (req_method r) (req_uri r) (req_headers r)) with
  | Some outcome =>
      res ← outcome;
      Ok (mkAuthContext CustomMode (ar_principal res) (ar_access_key_id res) None)
  | None => authenticate now (st_auth s) (req_method r) (req_uri r) (req_headers r)
  end.

(* @src src/src/handlers/request.rs 58-72 resolve_request_target *)
Definition resolve_request_target (s : AppState) (r : Request) : result S3Error S3Target :=
  map_err (λ e, with_resource (invalid_request (target_error_msg e)) (uri_path (req_uri r)))
    (resolve_s3_target (uri_path (req_uri r)) (request_host r) (virtual_host_base_domain (st_config s))).

(* @src src/src/handlers/request.rs 75-89 resolve_request_bucket *)
Definition resolve_request_bucket (s : AppState) (r : Request) : result S3Error BucketName :=
  map_err (λ e, with_resource (invalid_request (target_error_msg e)) (uri_path (req_uri r)))
    (resolve_bucket_name (uri_path (req_uri r)) (request_host r) (virtual_host_base_domain (st_config s))).

(* @src src/src/handlers/request.rs 92-111 authorize_request *)
Definition authorize_request (s : AppState) (ctx : AuthContext) (bucket : BucketName)
    (key : option ObjectKey) (action : S3Action) : result S3Error () :=
  _ ← allow_target s (mkTargetContext bucket key action);
  _ ← authorize (st_auth s) ctx bucket action;
  authorize_with_policy s (mkAuthorization (actx_principal ctx) bucket key action).

(* @src src/src/handlers/request.rs 114-117 validate_empty_payload_hash *)
Definition validate_empty_payload_hash (r : Request) : result S3Error () :=
  validate_fixed_sha256_payload_hash (req_headers r) (sh_hash Sha256 []).

(** The processors, each with the fresh id of its replacement file. *)
Definition numbered_processors (env : Env) (first : nat) (s : AppState) : list (Uuid * UploadProcessor) :=
  imap (λ i p, (env_uuid env (first + i), p)) (st_upload_processors s).

(** ** The gate in front of every store operation *)

(** The three policies agree to [action] on the bucket and key. *)
Definition permitted (s : AppState) (ctx : AuthContext) (bucket : BucketName)
    (key : option ObjectKey) (action : S3Action) : Prop :=
  allow_target s (mkTargetContext bucket key action) = Ok () ∧
  authorize (st_auth s) ctx bucket action = Ok () ∧
  authorize_with_policy s (mkAuthorization (actx_principal ctx) bucket key action) = Ok ().

Lemma authorize_request_ok s ctx bucket key action :
  authorize_request s ctx bucket key action = Ok () ↔ permitted s ctx bucket key action.
Proof.
  unfold authorize_request, permitted. unfold_result.
  destruct (allow_target _ _) as [[]|e1]; [|naive_solver].
  destruct (authorize _ _ _ _) as [[]|e2]; naive_solver.
Qed.

(** A state that was built holds the configuration it was built from, which is
    valid, the hooks, and all the permits of its limits. *)
Lemma from_builder_state now b w s w' :
  from_builder now b w = (Ok s, w') →
  validate_config (ab_config b) = Ok () ∧ validate_io_tuning (ab_io_tuning b) = Ok () ∧
  ∃ auth, new_auth_state (cfg_auth (ab_config b)) = Ok auth ∧
    s = built_state b auth (default file_object_store (ab_object_store b))
          (default (file_multipart_store_on (ab_clock b)) (ab_multipart_store b)) (upload_limits (ab_config b)).
Proof.
  unfold from_builder, map_io_err. intros Hb.
  apply run_bind_ok in Hb as ([] & w1 & Hc & Hb). apply run_bind_ok in Hb as ([] & w2 & Hio & Hb).
  apply run_bind_ok in Hb as (l & w3 & Hl & Hb). apply run_bind_ok in Hb as (a & w4 & Ha & Hb).
  apply run_bind_ok in Hb as (os & w5 & Hos & Hb). apply run_bind_ok in Hb as (ms & w6 & Hms & Hb).
  rewrite run_lift in Hc. rewrite run_lift in Hio. rewrite run_lift in Hl. rewrite run_lift in Ha.
  destruct (validate_config _) as [[]|]; [|done]. destruct (validate_io_tuning _) as [[]|]; [|done].
  destruct (validated _) as [l'|] eqn:Hl'; [|done]. injection Hl as <- <-.
  destruct (new_auth_state _) as [auth|]; [|done]. injection Ha as <- _.
  rewrite run_ret in Hb. injection Hb as <- <-. split_and!; [done..|]. exists auth. split; [done|].
  assert (os = default file_object_store (ab_object_store b)) as ->.
  { destruct (ab_object_store b); [by injection Hos as <- _|]. by apply run_bind_ok in Hos as (? & ? & _ & [= <- _]). }
  assert (ms = default (file_multipart_store_on (ab_clock b)) (ab_multipart_store b)) as ->.
  { destruct (ab_multipart_store b); [by injection Hms as <- _|]. by apply run_bind_ok in Hms as (? & ? & _ & [= <- _]). }
  f_equal.
  unfold validated, positive_limit in Hl'. destruct (upload_limits _). simpl in *. by inv_result Hl'.
Qed.

Lemma from_builder_ok now b w s w' :
  from_builder now b w = (Ok s, w') →
  validate_config (ab_config b) = Ok () ∧ validate_io_tuning (ab_io_tuning b) = Ok () ∧
  st_config s = ab_config b ∧ st_io_tuning s = ab_io_tuning b ∧
  new_auth_state (cfg_auth (ab_config b)) = Ok (st_auth s) ∧
  st_admission s = new_admission (upload_limits (ab_config b)) ∧
  st_disabled_operations s = ab_disabled_operations b.
Proof. intros (Hc & Hio & auth & Ha & ->)%from_builder_state. by split_and!. Qed.

(** Policies an application registers are in force. Whatever else the builder
    was told, before or after, the state it builds permits a request exactly when
    the registered target policy, the configured allow-lists and the registered
    authorization policy all agree, and lets an operation begin exactly when it
    is not disabled and the registered operation policy agrees. *)
Theorem registered_policies_decide {T A O : Type} `{!Traits.TargetPolicy T} `{!Traits.AuthorizationPolicy A}
    `{!Traits.OperationPolicy O} now b (tp : T) (ap : A) (op : O) w s w' :
  from_builder now (set_operation_policy (set_authorization_policy (set_target_policy b tp) ap) op) w = (Ok s, w') →
  (∀ ctx bucket key action,
     permitted s ctx bucket key action ↔
     Traits.allow_target tp (mkTargetContext bucket key action) = Ok () ∧
     authorize (st_auth s) ctx bucket action = Ok () ∧
     Traits.authorize ap (mkAuthorization (actx_principal ctx) bucket key action) = Ok ()) ∧
  (∀ context, allow_operation s context = Ok () ↔
     oc_action context ∉ ab_disabled_operations b ∧ Traits.allow_operation op context = Ok ()).
Proof.
  intros (_ & _ & auth & _ & ->)%from_builder_state. split; [done|]. intros context.
  unfold allow_operation. simpl. case_bool_decide; naive_solver.
Qed.

(** The clock and the request id factory an application registers are in force:
    handlers take the time and the ids of requests from them, and so does the
    default multipart store the times of its uploads and parts. *)
Theorem registered_clock_in_force {C F : Type} `{!Traits.Clock C} `{!Traits.RequestIdFactory F}
    now b (clock : C) (factory : F) w s w' :
  from_builder now (set_request_id_factory (set_clock b clock) factory) w = (Ok s, w') →
  (∀ t, state_now s t = Traits.now clock t) ∧ (∀ u, state_request_id s u = Traits.request_id factory u) ∧
  (ab_multipart_store b = None → st_multipart_store s = file_multipart_store_on (Traits.now clock)).
Proof. intros (_ & _ & auth & _ & ->)%from_builder_state. split_and!; [done..|]. cbn. by intros ->. Qed.
End app.

(** ** A concrete application *)

Section witnesses.
Local Existing Instances ref_http ref_codec ref_crypto ref_chrono ref_uuid ref_json.

Definition w_state : AppState := {|
  st_config := new_config "/data";
  st_auth := mkAuthState true "us-east-1" 900 [] ∅;
  st_object_store := file_object_store;
  st_multipart_store := file_multipart_store;
  st_io_tuning := default_io_tuning;
  st_upload_processors := [];
  st_request_observer := None;
  st_error_mapper := None;
  st_response_mapper := None;
  st_request_id_factory := new_request_id;
  st_clock := λ t, t;
  st_authentication_provider := None;
  st_authorization_policy := None;
  st_operation_policy := None;
  st_target_policy := None;
  st_upload_policy := None;
  st_tenant_limits_provider := noop_begin_operation;
  st_disabled_operations := [];
  st_admission := new_admission default_upload_limits;
|}.

Definition w_anonymous : AuthContext := mkAuthContext AnonymousMode AnonymousPrincipal None None.

Definition w_request (method : str) (query : option str) (fields : list (str * bytes)) : Request :=
  mkReq method (mkUri "/photos/2026/cat.jpg" query) fields.
End witnesses.
