(* ===== verification/Main.v ===== *)
(** * The server program (main.rs)

    The options of the command line, the file of additional credentials, the
    configuration made of both, and the start of the application on the disk a
    previous process has left. Parsing the command line is clap's work: the
    options are data here. *)

From S2P Require Import Prelude RustStd BTree S3Error Externals Reference Types Target Config Http.
From S2P Require Import Checksum Upload Auth Hooks Admission Routing.
From S2P Require Import StoreModel ReferenceJson FileSystem ObjectStore ObjectProofs ObjectSpec StoreTrait Middleware.
From S2P Require Import MultipartStore MultipartProofs MultipartSpec PartDurability Recovery Streams AppState.
From Stdlib Require Import ZArith Lia.
Local Open Scope Z_scope.

(** The options that make the configuration; those with a default value always
    have one. *)
(* @src src/src/main.rs 16-88 Cli *)
Record Cli := mkCli {
  cli_storage_root : str;
  cli_allow_anonymous : bool;
  cli_access_key_id : str;
  cli_secret_key : str;
  cli_session_token : option str;
  cli_credentials_file : option str;
  cli_region : str;
  cli_max_skew_seconds : Z;
  cli_allowed_buckets : list str;
  cli_allowed_actions : list S3Action;
  cli_virtual_host_base_domain : option str;
  cli_max_object_size : option Z;
  cli_max_part_size : option Z;
  cli_min_non_final_part_size : option Z;
  cli_max_concurrent_s3_requests : option Z;
  cli_max_active_object_writers : option Z;
  cli_max_active_multipart_part_writers : option Z;
  cli_max_active_aws_chunked_decoders : option Z;
}.

(** The values of the options that are not given. *)
(* @src src/src/main.rs 19-87 Cli *)
Definition default_cli : Cli :=
  mkCli "./data" false "test" "testsecret" None None "us-east-1" 900 [] [] None
    None None None None None None None.

(** ** Additional credentials *)

(* @src src/src/main.rs 216-228 CredentialFileEntry *)
Record CredentialFileEntry := mkEntry {
  ce_access_key_id : str;
  ce_secret_key : str;
  ce_session_token : option str;
  ce_active : bool;
  ce_allowed_buckets : list str;
  ce_allowed_actions : list str;
}.

(** [serde_json::from_str] at the type of the credentials file. *)
Class CredentialsJson := { entries_of_json : str → result str (list CredentialFileEntry) }.

(* @src src/src/config.rs 486-500 ConfigError *)
Definition config_error_msg (e : ConfigError) : str :=
  match e with
  | InvalidUploadLimit m => "invalid upload limit: " ++ m
  | InvalidIoTuning m => "invalid I/O tuning: " ++ m
  | InvalidAuthConfig m => "invalid auth configuration: " ++ m
  end.

(** [into_iter().collect::<BTreeSet<_>>()]. *)
Definition collect_set (l : list str) : btset str := foldl (λ s x, set_insert x s) [] l.

(* @src src/src/main.rs 164-166 parse_s3_action *)
Definition parse_s3_action (value : str) : result str S3Action :=
  map_err config_error_msg (action_from_str value).

(* @src src/src/main.rs 230-245 CredentialFileEntry::try_into_config *)
Definition try_into_config (entry : CredentialFileEntry) : result str AccessKeyConfig :=
  allowed_actions ← collect (map parse_s3_action (ce_allowed_actions entry));
  Ok (mkAccessKey (ce_access_key_id entry) (ce_secret_key entry) (ce_session_token entry) (ce_active entry)
        (collect_set (ce_allowed_buckets entry)) allowed_actions).

Section main.
Context `{HttpLib} `{CodecLib} `{CryptoLib} `{ChronoLib} `{UuidLib} `{JsonLib} `{CredentialsJson}.

(* @src src/src/main.rs 206-214 parse_credentials_json *)
Definition parse_credentials_json (json : str) : result str (list AccessKeyConfig) :=
  entries ← map_err (λ err, "failed to parse credentials file: " ++ err) (entries_of_json json);
  collect (map try_into_config entries).

(** [read] is what [tokio::fs::read_to_string] gives for the path. *)
(* @src src/src/main.rs 168-204 load_credentials_file *)
Definition load_credentials_file (path : option str) (read : str → result str str)
  : result str (list AccessKeyConfig) :=
  match path with
  | None => Ok []
  | Some path => json ← read path; parse_credentials_json json
  end.

(** ** Configuration *)

(* @src src/src/main.rs 103-123 main *)
Definition cli_limits (cli : Cli) : UploadLimits :=
  let d := default_upload_limits in
  mkLimits (default (max_object_size d) (cli_max_object_size cli))
    (default (max_part_size d) (cli_max_part_size cli))
    (default (min_non_final_part_size d) (cli_min_non_final_part_size cli))
    (default (max_concurrent_s3_requests d) (cli_max_concurrent_s3_requests cli))
    (default (max_active_object_writers d) (cli_max_active_object_writers cli))
    (default (max_active_multipart_part_writers d) (cli_max_active_multipart_part_writers cli))
    (default (max_active_aws_chunked_decoders d) (cli_max_active_aws_chunked_decoders cli)).

(* @src src/src/main.rs 139-154 main *)
Definition cli_config (cli : Cli) (credentials : list AccessKeyConfig) : Config := {|
  storage_root := cli_storage_root cli;
  cfg_auth := {|
    ac_allow_anonymous := cli_allow_anonymous cli;
    ac_access_key_id := cli_access_key_id cli;
    ac_secret_key := cli_secret_key cli;
    ac_session_token := cli_session_token cli;
    ac_region := cli_region cli;
    ac_max_skew_seconds := cli_max_skew_seconds cli;
    ac_allowed_buckets := collect_set (cli_allowed_buckets cli);
    ac_allowed_actions := cli_allowed_actions cli;
    ac_credentials := credentials;
  |};
  virtual_host_base_domain := cli_virtual_host_base_domain cli;
  upload_limits := cli_limits cli;
|}.

Inductive MainError := CredentialsError (msg : str) | InitError (e : AppInitError).

(* @src src/src/lib.rs 124-126 AppState::new *)
Definition new_app_state (now : Z) (config : Config) : ioE AppInitError AppState :=
  from_builder now (app_builder config).

(** Everything before the listener is bound. *)
(* @src src/src/main.rs 91-156 main *)
Definition start (now : Z) (cli : Cli) (read : str → result str str) : ioE MainError AppState :=
  credentials ← lift (map_err CredentialsError (load_credentials_file (cli_credentials_file cli) read));
  map_io_err InitError (new_app_state now (cli_config cli credentials)).

(** ** What the command line asks for *)

(** A set with the members of the list. *)
Definition same_members (l : list str) (s : btset str) : Prop := ∀ x, set_contains x s = bool_decide (x ∈ l).
Definition names_action (name : str) (a : S3Action) : Prop := ∃ names, (a, names) ∈ action_names ∧ name ∈ names.

(** The credential of an entry of the file. *)
Definition credential_told (entry : CredentialFileEntry) (key : AccessKeyConfig) : Prop :=
  ak_access_key_id key = ce_access_key_id entry ∧ ak_secret_key key = ce_secret_key entry ∧
  ak_session_token key = ce_session_token entry ∧ ak_active key = ce_active entry ∧
  same_members (ce_allowed_buckets entry) (ak_allowed_buckets key) ∧
  Forall2 names_action (ce_allowed_actions entry) (ak_allowed_actions key).

(** The additional credentials: those of the file that is named, if one is. *)
Definition credentials_told (cli : Cli) (read : str → result str str) (keys : list AccessKeyConfig) : Prop :=
  match cli_credentials_file cli with
  | None => keys = []
  | Some path => ∃ json entries, read path = Ok json ∧ entries_of_json json = Ok entries ∧
                   Forall2 credential_told entries keys
  end.

Definition limits_told (cli : Cli) (l : UploadLimits) : Prop :=
  max_object_size l = default (10000 * (5 * 1024 ^ 3)) (cli_max_object_size cli) ∧
  max_part_size l = default (5 * 1024 ^ 3) (cli_max_part_size cli) ∧
  min_non_final_part_size l = default (5 * 1024 ^ 2) (cli_min_non_final_part_size cli) ∧
  max_concurrent_s3_requests l = default 256 (cli_max_concurrent_s3_requests cli) ∧
  max_active_object_writers l = default 64 (cli_max_active_object_writers cli) ∧
  max_active_multipart_part_writers l = default 128 (cli_max_active_multipart_part_writers cli) ∧
  max_active_aws_chunked_decoders l = default 64 (cli_max_active_aws_chunked_decoders cli).

Definition config_told (cli : Cli) (keys : list AccessKeyConfig) (c : Config) : Prop :=
  let auth := cfg_auth c in
  storage_root c = cli_storage_root cli ∧
  ac_allow_anonymous auth = cli_allow_anonymous cli ∧ ac_access_key_id auth = cli_access_key_id cli ∧
  ac_secret_key auth = cli_secret_key cli ∧ ac_session_token auth = cli_session_token cli ∧
  ac_region auth = cli_region cli ∧ ac_max_skew_seconds auth = cli_max_skew_seconds cli ∧
  same_members (cli_allowed_buckets cli) (ac_allowed_buckets auth) ∧
  ac_allowed_actions auth = cli_allowed_actions cli ∧ ac_credentials auth = keys ∧
  virtual_host_base_domain c = cli_virtual_host_base_domain cli ∧ limits_told cli (upload_limits c).

Lemma collect_set_members l : same_members l (collect_set l).
Proof.
  unfold collect_set. intros x.
  assert (∀ s, btree_ok s → set_contains x (foldl (λ s x, set_insert x s) s l) = bool_decide (x ∈ l) || set_contains x s) as Hall.
  { induction l as [|y l IH]; intros s Hs; [done|]. cbn [foldl]. rewrite IH by by apply btree_insert_ok.
    unfold set_contains, set_insert, btree_contains. destruct (decide (x = y)) as [->|Hne].
    - rewrite btree_get_insert_eq, (bool_decide_eq_true_2 (y ∈ y :: l)) by by left. by rewrite orb_true_r.
    - rewrite btree_get_insert_ne by done. f_equal. apply bool_decide_ext. set_solver. }
  rewrite Hall by apply btree_ok_nil. by rewrite orb_false_r.
Qed.

Lemma parse_action_named name a : parse_s3_action name = Ok a → names_action name a.
Proof.
  unfold parse_s3_action, action_from_str. destruct (List.find _ action_names) as [[b names]|] eqn:Hf; [|done].
  intros [= ->]. apply find_some in Hf as [Hin Hex]. exists names. split; [by apply list_elem_of_In|].
  apply existsb_exists in Hex as (x & Hx & He). apply str_eqb_eq in He as ->. by apply list_elem_of_In.
Qed.

Lemma try_into_config_told entry key : try_into_config entry = Ok key → credential_told entry key.
Proof.
  unfold try_into_config. unfold_result. destruct (collect _) as [actions|] eqn:Ha; [|done]. intros [= <-].
  split_and!; [done..|apply collect_set_members|]. apply collect_ok in Ha. simpl.
  revert actions Ha. induction (ce_allowed_actions entry) as [|name names IH]; intros actions Ha.
  { symmetry in Ha. apply fmap_nil_inv in Ha as ->. constructor. }
  symmetry in Ha. apply fmap_cons_inv in Ha as (a & as_ & Hname & Has & ->).
  constructor; [by apply parse_action_named|by apply IH].
Qed.

Lemma credentials_loaded cli read keys :
  load_credentials_file (cli_credentials_file cli) read = Ok keys → credentials_told cli read keys.
Proof.
  unfold load_credentials_file, credentials_told, parse_credentials_json. unfold_result.
  destruct (cli_credentials_file cli) as [path|]; [|by intros [= <-]].
  destruct (read path) as [json|] eqn:Hread; [|done]. destruct (entries_of_json json) as [entries|] eqn:He; [|done]. cbn [map_err].
  intros Hk%collect_ok. exists json, entries. split_and!; [done..|]. clear He. revert keys Hk.
  induction entries as [|entry entries IH]; intros keys Hk.
  { symmetry in Hk. apply fmap_nil_inv in Hk as ->. constructor. }
  symmetry in Hk. apply fmap_cons_inv in Hk as (k & ks & Hentry & Hks & ->).
  constructor; [by apply try_into_config_told|by apply IH].
Qed.

Lemma cli_config_told cli keys : config_told cli keys (cli_config cli keys).
Proof. split_and!; try done. apply collect_set_members. Qed.

(** ** A start on any disk *)

Implicit Types (fs : gmap path bytes) (ss : gmap str UploadSession) (objs : objects).

(** What is checked before the disk is touched. *)
Definition start_config (cli : Cli) (read : str → result str str) : result MainError (Config * AuthState) :=
  credentials ← map_err CredentialsError (load_credentials_file (cli_credentials_file cli) read);
  let config := cli_config cli credentials in
  _ ← map_err (λ e, InitError (InitConfig e)) (validate_config config);
  auth ← map_err (λ e, InitError (InitConfig e)) (new_auth_state (cfg_auth config));
  Ok (config, auth).

Lemma loaded_same lifecycle now fs fs' k :
  fs' !! ["multipart"; k; "session.json"] = fs !! ["multipart"; k; "session.json"] →
  loaded lifecycle now fs' k = loaded lifecycle now fs k.
Proof. intros Hf. unfold loaded. by rewrite Hf. Qed.

Lemma wp_new_app_state now config fs ss objs Q :
  crashed fs objs → stored_ok fs →
  (∀ r n fs' ss',
     match (_ ← validate_config config; new_auth_state (cfg_auth config)) with
     | Err e => r = Err (InitConfig e) ∧ fs' = fs ∧ ss' = ss
     | Ok auth => (∃ s, r = Ok s ∧ st_config s = config ∧ st_auth s = auth ∧
                     st_admission s = new_admission (upload_limits config) ∧
                     st_object_store s = file_object_store ∧ st_multipart_store s = file_multipart_store) ∧
         refines fs' objs ∧ (∀ k, ss' !! k = loaded default_lifecycle now fs k)
     end → Q r n fs' ss') →
  wp (new_app_state now config) 0 fs ss Q.
Proof.
  intros Hcr Hst HQ. unfold new_app_state, from_builder, app_builder.
  cbn [ab_config ab_io_tuning ab_multipart_lifecycle ab_object_store ab_multipart_store].
  apply wp_bind, wp_lift. destruct (validate_config config) as [[]|e] eqn:Hv; cbn [map_err]; [|by apply HQ].
  apply wp_bind, wp_lift. change (validate_io_tuning default_io_tuning) with (Ok () : result ConfigError ()).
  cbn [map_err]. apply wp_bind, wp_lift.
  assert (validated (upload_limits config) = Ok (upload_limits config)) as Hlim.
  { unfold validate_config, validate_limits in Hv. destruct (validated _) as [l|] eqn:Hl; [|done].
    f_equal. unfold validated, positive_limit in Hl. destruct (upload_limits config). simpl in *. by inv_result Hl. }
  rewrite Hlim. cbn [map_err]. cbn [mbind result_bind] in HQ.
  apply wp_bind, wp_lift. destruct (new_auth_state _) as [auth|e]; cbn [map_err]; [|by apply HQ].
  apply wp_bind, wp_bind, wp_map_io_err, (wp_new_object_store fs ss objs); [done|].
  intros ? ? fs1 ? (-> & -> & -> & Hr1 & _ & Hf1). cbn [map_err]. apply wp_ret.
  assert (stored_ok fs1) as Hst1.
  { intros d j Hj. apply (Hst d j). rewrite <- Hj. symmetry. apply Hf1. set_solver. }
  apply wp_bind, wp_bind, wp_map_io_err, wp_new_multipart_store; [done|].
  intros ? n fs2 ss2 (-> & Hss & Hf2). cbn [map_err]. apply wp_ret.
  apply wp_ret, HQ. split; [|split].
  - eexists. by split_and!.
  - apply refines_same_objects with fs1; [|done]. intros q Hq. apply Hf2.
    + by intros (d & name & -> & _).
    + intros d Hd. by apply (under_upload (mkUploadId d)) in Hd.
  - intros k. rewrite Hss. apply loaded_same, Hf1. set_solver.
Qed.

(** The state of a server that has started with a configuration. *)
Definition started (cli : Cli) (read : str → result str str) (config : Config) (auth : AuthState)
    (r : result MainError AppState) : Prop :=
  ∃ s keys, r = Ok s ∧ credentials_told cli read keys ∧ config_told cli keys config ∧
    new_auth_state (cfg_auth config) = Ok auth ∧ st_config s = config ∧ st_auth s = auth ∧
    sem_permits (s3_requests (st_admission s)) = max_concurrent_s3_requests (upload_limits config) ∧
    sem_permits (object_writers (st_admission s)) = max_active_object_writers (upload_limits config) ∧
    sem_permits (multipart_part_writers (st_admission s)) = max_active_multipart_part_writers (upload_limits config) ∧
    sem_permits (aws_chunked_decoders (st_admission s)) = max_active_aws_chunked_decoders (upload_limits config) ∧
    st_object_store s = file_object_store ∧ st_multipart_store s = file_multipart_store.

(* @prop refinement 27 : start cli_config cli_limits load_credentials_file parse_credentials_json try_into_config from_builder new_auth_state validate_config new_object_store new_multipart_store *)
(** C27: the server starts with what it was told and what it had. On the disk any
    previous process left behind, without faults, the start succeeds exactly when
    the credentials file reads and parses and the configuration is valid;
    otherwise it stops with that error and has touched nothing. When it succeeds,
    the application has every option of the command line in its configuration,
    with the default limits for those not given and one additional credential for
    every entry of the file, field by field, the authentication state and the
    permits of this configuration, and the file stores; the store has every whole
    object and no other, and the session table holds exactly the stored uploads
    that are open. *)
Theorem server_starts now cli read (w w' : World) objs r :
  faults w = [] → crashed (files w) objs → stored_ok (files w) →
  start now cli read w = (r, w') →
  match start_config cli read with
  | Err e => r = Err e ∧ files w' = files w ∧ sessions w' = sessions w
  | Ok (config, auth) =>
      started cli read config auth r ∧ refines (files w') objs ∧
      ∀ k, sessions w' !! k = loaded default_lifecycle now (files w) k
  end.
Proof.
  intros Hfl Hcr Hst Hrun. assert (budget w = 0%nat) as Hb by (unfold budget; by rewrite Hfl).
  refine (wp_run _ _ _ _ (λ r _ fs' ss', match start_config cli read with
    | Err e => r = Err e ∧ fs' = files w ∧ ss' = sessions w
    | Ok (config, auth) =>
        started cli read config auth r ∧ refines fs' objs ∧ ∀ k, ss' !! k = loaded default_lifecycle now (files w) k
    end) Hrun _).
  rewrite Hb. unfold start, start_config. apply wp_bind, wp_lift.
  destruct (load_credentials_file _ _) as [credentials|e] eqn:Hload; cbn [map_err mbind result_bind]; [|done].
  apply wp_map_io_err, wp_new_app_state with objs; [done..|]. intros r' n fs' ss'.
  destruct (validate_config _) as [[]|e]; cbn [map_err mbind result_bind].
  2: { by intros (-> & -> & ->). }
  destruct (new_auth_state _) as [auth|e] eqn:Hauth; cbn [map_err mbind result_bind].
  - intros ((s & -> & Hc & Ha & Hl & Hos & Hms) & Hr & Hss). split; [|done]. exists s, credentials.
    rewrite Hl. split_and!; [done|by apply credentials_loaded|apply cli_config_told|done..].
  - by intros (-> & -> & ->).
Qed.
End main.

(** ** Witness: a start with one additional credential after a crash *)

Section witnesses.
Local Existing Instances ref_http ref_codec ref_crypto ref_chrono ref_uuid ref_json.

(** A credentials file of one entry. *)
Local Instance w_credentials_json : CredentialsJson := {|
  entries_of_json json :=
    if str_eqb json "[extra]" then Ok [mkEntry "extra" "extrasecret" None true ["photos"] ["s3:GetObject"]]
    else Err "expected value" |}.

Definition w_cli : Cli :=
  mkCli "./data" false "test" "testsecret" None (Some "credentials.json") "us-east-1" 900 [] [] None
    None None None (Some 3) None None None.
Definition w_read_file (path : str) : result str str := Ok "[extra]".
Definition w_started : result MainError AppState * World := start 10 w_cli w_read_file w_crashed.

Lemma server_starts_witness :
  is_ok (start 10 default_cli w_read_file w_crashed).1 = true ∧
  refines (files w_started.2) w_one_object ∧ size (files w_started.2) = 2%nat.
Proof.
  split; [vm_refl|]. split; [|vm_refl].
  assert (is_ok (start_config w_cli w_read_file) = true) as Hok by vm_refl.
  assert (stored_ok (files w_crashed)) as Hst.
  { intros d j Hj. exfalso.
    assert (forallb (λ kv, negb (bool_decide (head kv.1 = Some "multipart")))
              (map_to_list (files w_crashed)) = true) as Hall by vm_refl.
    rewrite forallb_forall in Hall. apply elem_of_map_to_list, list_elem_of_In, Hall in Hj. discriminate. }
  pose proof (server_starts 10 w_cli w_read_file w_crashed w_started.2 w_one_object w_started.1 eq_refl w_crashed_ok Hst
    (surjective_pairing _)) as Hs.
  destruct (start_config w_cli w_read_file) as [[config auth]|e]; [|discriminate].
  exact (proj1 (proj2 Hs)).
Defined.
End witnesses.
