(* ===== verification/HeadObject.v ===== *)
(** * HeadObject and conditional requests (handlers/head_object.rs)

    The headers of an object's response, the evaluation of the conditional
    request headers against its metadata, and the handler. *)

From S2P Require Import Prelude RustStd BTree S3Error Externals Reference Types Target Config Http.
From S2P Require Import Chunked ChunkedProofs Checksum Upload Auth Hooks Admission Routing.
From S2P Require Import StoreModel ReferenceJson FileSystem ObjectStore ObjectProofs ObjectSpec StoreTrait Middleware.
From S2P Require Import MultipartStore AppState.
From Stdlib Require Import ZArith Lia.
Local Open Scope Z_scope.

Section head_object.
Context `{HttpLib} `{CodecLib} `{CryptoLib} `{ChronoLib} `{UuidLib} `{JsonLib}.

(** ** Entity tags *)

(* @src src/src/handlers/head_object.rs 123-128 strong_etag_condition_matches *)
Definition strong_etag_condition_matches (value etag : str) : bool :=
  existsb (λ candidate,
    let candidate := trim candidate in str_eqb candidate "*" || str_eqb candidate etag)
    (split ","%char value).

(* @src src/src/handlers/head_object.rs 138-140 weak_etag_value *)
Definition weak_etag_value (value : str) : str := default value (strip_prefix "W/" value).

(* @src src/src/handlers/head_object.rs 130-136 weak_etag_condition_matches *)
Definition weak_etag_condition_matches (value etag : str) : bool :=
  let etag := weak_etag_value etag in
  existsb (λ candidate,
    let candidate := trim candidate in
    str_eqb candidate "*" || str_eqb (weak_etag_value candidate) etag) (split ","%char value).

(* @src src/src/handlers/head_object.rs 142-154 parse_http_datetime *)
Definition parse_http_datetime (value header_name : str) : result S3Error Z :=
  match dt_parse_rfc2822 value with
  | Some t => Ok t
  | None =>
      match dt_parse_rfc850 value with
      | Some t => Ok t
      | None =>
          match dt_parse_asctime value with
          | Some t => Ok t
          | None => Err (invalid_argument (header_name ++ " must be an HTTP-date"))
          end
      end
  end.

(* @src src/src/handlers/head_object.rs 230-232 format_http_datetime *)
Definition format_http_datetime (value : Z) : str := dt_format_http value.

(** ** The response of an object *)

(* @src src/src/handlers/head_object.rs 170-219 object_metadata_response_builder_with_status_and_length *)
Definition object_metadata_response_builder_with_status_and_length (m : ObjectMetadata)
    (id : RequestId) (status content_length : Z) : Builder :=
  let response := builder status in
  let response := header_named "x-amz-request-id" (request_id_str id) response in
  let response := header "accept-ranges" "bytes" response in
  let response := header "content-length" (show_u content_length) response in
  let response := header "etag" (etag_str (om_etag m)) response in
  let response := header "last-modified" (format_http_datetime (om_last_modified m)) response in
  let response := header_opt "content-type" (om_content_type m) response in
  let response := header_opt "content-encoding" (om_content_encoding m) response in
  let response := header_opt "content-disposition" (om_content_disposition m) response in
  let response := header_opt "content-language" (om_content_language m) response in
  let response := header_opt "cache-control" (om_cache_control m) response in
  let response := header_opt "expires" (om_expires m) response in
  let response := match om_tagging m with
                  | Some value => header_named "x-amz-tagging" value response
                  | None => response
                  end in
  let response := header_each (om_user_metadata m) response in
  let response := if negb (is_empty (om_checksums m))
                  then header_named "x-amz-checksum-type" "FULL_OBJECT" response else response in
  header_each (om_checksums m) response.

(* @src src/src/handlers/head_object.rs 157-167 object_metadata_response_builder *)
Definition object_metadata_response_builder (m : ObjectMetadata) (id : RequestId) : Builder :=
  object_metadata_response_builder_with_status_and_length m id 200 (om_size m).

(* @src src/src/handlers/head_object.rs 221-228 metadata_response *)
Definition metadata_response (m : ObjectMetadata) (id : RequestId) : result S3Error Response :=
  finish_response empty_body (object_metadata_response_builder m id).

(** ** Conditional requests *)

Definition precondition_error : S3Error :=
  precondition_failed "At least one of the preconditions you specified did not hold.".

(** [304 Not Modified]. *)
Definition not_modified (m : ObjectMetadata) (id : RequestId) : result S3Error (option Response) :=
  response ← finish_response empty_body
               (object_metadata_response_builder_with_status_and_length m id 304 0);
  Ok (Some response).

(** [headers.get(name)] with its [to_str] error. *)
Definition get_str (headers : HeaderMap) (name shown : str) : result S3Error (option str) :=
  match hm_get headers name with
  | None => Ok None
  | Some value => Some <$> ok_or (hv_to_str value) (invalid_request (shown ++ " must be valid ASCII"))
  end.

(* @src src/src/handlers/head_object.rs 58-67 conditional_response *)
Definition check_if_match (headers : HeaderMap) (m : ObjectMetadata) : result S3Error () :=
  value ← get_str headers "if-match" "If-Match";
  match value with
  | Some value =>
      if negb (strong_etag_condition_matches value (etag_str (om_etag m)))
      then Err precondition_error else Ok ()
  | None => Ok ()
  end.

(** [true]: the response is [304 Not Modified]. *)
(* @src src/src/handlers/head_object.rs 69-84 conditional_response *)
Definition check_if_none_match (headers : HeaderMap) (m : ObjectMetadata) : result S3Error bool :=
  value ← get_str headers "if-none-match" "If-None-Match";
  match value with
  | Some value => Ok (weak_etag_condition_matches value (etag_str (om_etag m)))
  | None => Ok false
  end.

(* @src src/src/handlers/head_object.rs 86-98 conditional_response *)
Definition check_if_unmodified_since (headers : HeaderMap) (m : ObjectMetadata) : result S3Error () :=
  if hm_contains_key headers "if-match" then Ok ()
  else
    value ← get_str headers "if-unmodified-since" "If-Unmodified-Since";
    match value with
    | Some value =>
        since ← parse_http_datetime value "If-Unmodified-Since";
        if dt_timestamp (om_last_modified m) >? dt_timestamp since
        then Err precondition_error else Ok ()
    | None => Ok ()
    end.

(* @src src/src/handlers/head_object.rs 100-118 conditional_response *)
Definition check_if_modified_since (headers : HeaderMap) (m : ObjectMetadata) : result S3Error bool :=
  if hm_contains_key headers "if-none-match" then Ok false
  else
    value ← get_str headers "if-modified-since" "If-Modified-Since";
    match value with
    | Some value =>
        since ← parse_http_datetime value "If-Modified-Since";
        Ok (dt_timestamp (om_last_modified m) <=? dt_timestamp since)
    | None => Ok false
    end.

(* @src src/src/handlers/head_object.rs 53-121 conditional_response *)
Definition conditional_response (headers : HeaderMap) (m : ObjectMetadata) (id : RequestId)
  : result S3Error (option Response) :=
  _ ← check_if_match headers m;
  matched ← check_if_none_match headers m;
  if (matched : bool) then not_modified m id
  else
    _ ← check_if_unmodified_since headers m;
    unmodified ← check_if_modified_since headers m;
    if (unmodified : bool) then not_modified m id else Ok None.

(** ** The handler *)

Section handler.
Context `{!ObjectStoreOps}.

(* @src src/src/handlers/head_object.rs 18-46 head_object *)
Definition handle_head_object (s : AppState) (r : Request) (id : RequestId) (ctx : AuthContext)
  : ioE S3Error Response :=
  target ← lift (resolve_request_target s r);
  _ ← lift (authorize_request s ctx (target_bucket target) (Some (target_key target)) ActHeadObject);
  _ ← lift (validate_empty_payload_hash r);
  found ← map_io_err (λ e, internal ("failed to read object metadata: " ++ store_error_msg e))
            (store_head_object (target_bucket target) (target_key target));
  metadata ← lift (ok_or found no_such_key);
  conditional ← lift (conditional_response (req_headers r) metadata id);
  match conditional with
  | Some response => mret response
  | None => lift (metadata_response metadata id)
  end.
End handler.

(** ** The fields of the response of an object *)

Definition object_fields (m : ObjectMetadata) (id : RequestId) (content_length : Z) : list (str * str) :=
  [("x-amz-request-id", request_id_str id); ("accept-ranges", "bytes");
   ("content-length", show_u content_length); ("etag", etag_str (om_etag m));
   ("last-modified", format_http_datetime (om_last_modified m))] ++
  opt_field "content-type" (om_content_type m) ++ opt_field "content-encoding" (om_content_encoding m) ++
  opt_field "content-disposition" (om_content_disposition m) ++
  opt_field "content-language" (om_content_language m) ++
  opt_field "cache-control" (om_cache_control m) ++ opt_field "expires" (om_expires m) ++
  opt_field "x-amz-tagging" (om_tagging m) ++ om_user_metadata m ++
  (if negb (is_empty (om_checksums m)) then [("x-amz-checksum-type", "FULL_OBJECT")] else []) ++
  om_checksums m.

Lemma object_builder_built m id st len :
  built (object_metadata_response_builder_with_status_and_length m id st len) st (object_fields m id len).
Proof.
  unfold object_metadata_response_builder_with_status_and_length, object_fields.
  change [("x-amz-request-id", request_id_str id); ("accept-ranges", "bytes");
   ("content-length", show_u len); ("etag", etag_str (om_etag m));
   ("last-modified", format_http_datetime (om_last_modified m))]
    with (((([] ++ [("x-amz-request-id", request_id_str id)]) ++ [("accept-ranges", "bytes")]) ++
     [("content-length", show_u len)]) ++ [("etag", etag_str (om_etag m))] ++
     [("last-modified", format_http_datetime (om_last_modified m))]).
  rewrite !app_assoc. apply built_header_each.
  match goal with |- built _ _ (_ ++ (if ?c then _ else _)) =>
    destruct c; [apply built_header_named|rewrite app_nil_r] end.
  all: apply built_header_each.
  all: destruct (om_tagging m); simpl opt_field; [apply built_header_named|rewrite app_nil_r].
  all: do 6 apply built_header_opt; do 4 apply built_header.
  all: apply built_header_named, built_builder.
Qed.

(** The headers that every response of an object has first. *)
Definition describes (h : HeaderMap) (m : ObjectMetadata) (content_length : Z) : Prop :=
  hm_get h "content-length" = Some (show_u content_length) ∧
  hm_get h "etag" = Some (etag_str (om_etag m)) ∧
  hm_get h "last-modified" = Some (format_http_datetime (om_last_modified m)).

Lemma object_fields_describe h m id len fields :
  (∀ n, hm_get_all h n = field_values (object_fields m id len ++ fields) n) → describes h m len.
Proof.
  intros Hh. unfold describes. rewrite !hm_get_spec, !Hh. unfold object_fields. cbn [app].
  split_and!; eval_fields; done.
Qed.

(** ** Conditional requests as RFC 9110 has them *)

(** An entity tag (section 8.8.3): whether it is weak, and its opaque tag. *)
Definition entity_tag (s : str) : bool * str :=
  match strip_prefix "W/" s with Some opaque => (true, opaque) | None => (false, s) end.
(** Section 8.8.3.2: two tags are equal by strong comparison when both are not weak
    and their opaque tags are equal, by weak comparison when the opaque tags are. *)
Definition strongly_equal (a b : bool * str) : bool := negb a.1 && negb b.1 && str_eqb a.2 b.2.
Definition weakly_equal (a b : bool * str) : bool := str_eqb a.2 b.2.
(** A condition value: [*] or, between commas, a tag equal to that of the object. *)
Definition lists_tag (equal : bool * str → bool * str → bool) (etag value : str) : bool :=
  existsb (λ c, str_eqb (trim c) "*" || equal (entity_tag (trim c)) (entity_tag etag)) (split ","%char value).

Lemma strong_match_equal value etag :
  (entity_tag etag).1 = false → strong_etag_condition_matches value etag = lists_tag strongly_equal etag value.
Proof.
  intros He. unfold strong_etag_condition_matches, lists_tag.
  induction (split ","%char value) as [|c cs IH]; [done|]. cbn [existsb]. rewrite IH.
  assert (strongly_equal (entity_tag (trim c)) (entity_tag etag) = str_eqb (trim c) etag) as ->; [|done].
  unfold strongly_equal. rewrite He. unfold entity_tag in *.
  destruct (strip_prefix "W/" etag) as [o|] eqn:Ho; [done|]. cbn [fst snd negb andb].
  destruct (strip_prefix "W/" (trim c)) as [t|] eqn:Ht; cbn [fst snd negb andb]; [|done].
  symmetry. apply str_eqb_neq. intros Heq. congruence.
Qed.
Lemma weak_match_equal value etag : weak_etag_condition_matches value etag = lists_tag weakly_equal etag value.
Proof.
  unfold weak_etag_condition_matches, lists_tag.
  induction (split ","%char value) as [|c cs IH]; [done|]. cbn [existsb]. rewrite IH.
  assert (weakly_equal (entity_tag (trim c)) (entity_tag etag) =
          str_eqb (weak_etag_value (trim c)) (weak_etag_value etag)) as ->; [|done].
  unfold weakly_equal, weak_etag_value, entity_tag.
  by destruct (strip_prefix "W/" (trim c)), (strip_prefix "W/" etag).
Qed.

(** A date in one of the three forms of section 5.6.7. *)
Definition http_date (value : str) : option Z :=
  match dt_parse_rfc2822 value, dt_parse_rfc850 value, dt_parse_asctime value with
  | Some t, _, _ | None, Some t, _ | None, None, Some t => Some t
  | None, None, None => None
  end.

(** The conditions of a request, each present or not: does the entity tag match by
    strong or by weak comparison, is the object unmodified or modified since the
    date, in whole seconds. *)
Record conditions := mkConditions {
  c_match : option bool;
  c_none_match : option bool;
  c_unmodified : option bool;
  c_modified : option bool;
}.

(** The first line of a header; [None] when it is not readable. *)
Definition condition (headers : HeaderMap) (name : str) (f : str → option bool) : option (option bool) :=
  match hm_get_all headers name with
  | [] => Some None
  | v :: _ => s ← hv_to_str v; b ← f s; Some (Some b)
  end.

Definition since (f : Z → bool) (value : str) : option bool := f <$> http_date value.

Definition conditions_of (headers : HeaderMap) (m : ObjectMetadata) : option conditions :=
  let modified := dt_timestamp (om_last_modified m) in
  a ← condition headers "if-match" (λ s, Some (lists_tag strongly_equal (etag_str (om_etag m)) s));
  b ← condition headers "if-none-match" (λ s, Some (lists_tag weakly_equal (etag_str (om_etag m)) s));
  c ← condition headers "if-unmodified-since" (since (λ t, modified <=? dt_timestamp t));
  d ← condition headers "if-modified-since" (since (λ t, dt_timestamp t <? modified));
  Some (mkConditions a b c d).

Inductive decision := Proceed | NotModified | PreconditionFailed.

(** RFC 9110, section 13.2.2: If-Match or else If-Unmodified-Since first, then
    If-None-Match or else If-Modified-Since. *)
Definition rfc_decision (c : conditions) : decision :=
  if negb (default (default true (c_unmodified c)) (c_match c)) then PreconditionFailed
  else if default (negb (default true (c_modified c))) (c_none_match c) then NotModified
  else Proceed.

Lemma parse_http_datetime_date value name :
  parse_http_datetime value name = ok_or (http_date value) (invalid_argument (name ++ " must be an HTTP-date")).
Proof.
  unfold parse_http_datetime, http_date. destruct (dt_parse_rfc2822 value); [done|].
  destruct (dt_parse_rfc850 value); [done|]. by destruct (dt_parse_asctime value).
Qed.

Lemma condition_ext headers name f g : (∀ s, f s = g s) → condition headers name f = condition headers name g.
Proof. intros Hfg. unfold condition. destruct (hm_get_all headers name); [done|]. destruct (hv_to_str _); simpl; [by rewrite Hfg|done]. Qed.
Lemma condition_first headers name f :
  condition headers name f = match hm_get headers name with
    | None => Some None
    | Some v => s ← hv_to_str v; b ← f s; Some (Some b)
    end.
Proof. unfold condition. rewrite hm_get_spec. by destruct (hm_get_all headers name). Qed.

Lemma condition_get headers name shown f o :
  condition headers name f = Some o →
  match o with
  | None => get_str headers name shown = Ok None ∧ hm_contains_key headers name = false
  | Some b => ∃ s, get_str headers name shown = Ok (Some s) ∧ f s = Some b ∧
                   hm_contains_key headers name = true
  end.
Proof.
  unfold condition, get_str. rewrite hm_contains_key_spec, hm_get_spec.
  destruct (hm_get_all headers name) as [|v vs]; simpl; [by intros [= <-]|].
  destruct (hv_to_str v) as [s|]; simpl; [|done]. destruct (f s) as [b|] eqn:E; simpl; [|done].
  intros [= <-]. by exists s.
Qed.

(** The checks of the handler by the conditions they look at. *)
Lemma check_if_match_cond headers m o :
  condition headers "if-match" (λ s, Some (strong_etag_condition_matches s (etag_str (om_etag m)))) = Some o →
  check_if_match headers m = if default true o then Ok () else Err precondition_error.
Proof.
  intros Hc%(condition_get _ _ "If-Match"). unfold check_if_match. destruct o as [b|].
  - destruct Hc as (s & -> & [= <-] & _). unfold_result. by destruct (strong_etag_condition_matches _ _).
  - by destruct Hc as [-> _].
Qed.

Lemma check_if_none_match_cond headers m o :
  condition headers "if-none-match" (λ s, Some (weak_etag_condition_matches s (etag_str (om_etag m)))) = Some o →
  check_if_none_match headers m = Ok (default false o).
Proof.
  intros Hc%(condition_get _ _ "If-None-Match"). unfold check_if_none_match. destruct o as [b|].
  - by destruct Hc as (s & -> & [= <-] & _).
  - by destruct Hc as [-> _].
Qed.

Lemma check_if_unmodified_since_cond headers m o :
  condition headers "if-unmodified-since"
    (since (λ t, dt_timestamp (om_last_modified m) <=? dt_timestamp t)) = Some o →
  check_if_unmodified_since headers m =
    if hm_contains_key headers "if-match" then Ok ()
    else if default true o then Ok () else Err precondition_error.
Proof.
  intros Hc%(condition_get _ _ "If-Unmodified-Since"). unfold check_if_unmodified_since.
  destruct (hm_contains_key headers "if-match"); [done|]. destruct o as [b|].
  - destruct Hc as (s & -> & Hs & _). unfold since in Hs. unfold_result.
    rewrite parse_http_datetime_date. unfold_result.
    destruct (http_date s); simplify_eq/=. rewrite Z.gtb_ltb, Z.ltb_antisym.
    by destruct (_ <=? _).
  - by destruct Hc as [-> _].
Qed.

Lemma check_if_modified_since_cond headers m o :
  condition headers "if-modified-since"
    (since (λ t, dt_timestamp t <? dt_timestamp (om_last_modified m))) = Some o →
  check_if_modified_since headers m =
    Ok (negb (hm_contains_key headers "if-none-match") && negb (default true o)).
Proof.
  intros Hc%(condition_get _ _ "If-Modified-Since"). unfold check_if_modified_since.
  destruct (hm_contains_key headers "if-none-match"); [done|]. destruct o as [b|].
  - destruct Hc as (s & -> & Hs & _). unfold since in Hs. unfold_result.
    rewrite parse_http_datetime_date. unfold_result.
    destruct (http_date s); simplify_eq/=. by rewrite Z.ltb_antisym, negb_involutive.
  - by destruct Hc as [-> _].
Qed.

(** An answer [304 Not Modified]: the fields of the object, no body. *)
Definition unmodified_answer (m : ObjectMetadata) (id : RequestId) (res : result S3Error (option Response)) : Prop :=
  ∃ response, res = Some <$> response ∧ answers response 304 (object_fields m id 0) [] None.
Lemma not_modified_answer m id : unmodified_answer m id (not_modified m id).
Proof.
  exists (finish_response empty_body (object_metadata_response_builder_with_status_and_length m id 304 0)).
  split; [unfold not_modified; by destruct (finish_response _ _)|].
  apply finish_response_answers, object_builder_built.
Qed.

(* @prop equivalence 32 : conditional_response check_if_match check_if_none_match check_if_unmodified_since check_if_modified_since strong_etag_condition_matches weak_etag_condition_matches parse_http_datetime *)
(** C32: conditional requests are decided as RFC 9110 decides them, for every
    combination of conditional headers whose first lines are readable (further
    lines of a header are not looked at, and a [*] counts anywhere in a list of
    tags), on an object whose own tag is not weak; but for one case: a matching
    If-None-Match without If-Match answers 304 even when If-Unmodified-Since
    fails, where the RFC answers 412. An answer 304 has no body and the fields of
    the object, unless one of them cannot be a header field, which is an error. *)
Theorem conditional_requests_rfc headers m id c :
  (entity_tag (etag_str (om_etag m))).1 = false →
  conditions_of headers m = Some c →
  match rfc_decision c with
  | Proceed => conditional_response headers m id = Ok None
  | NotModified => unmodified_answer m id (conditional_response headers m id)
  | PreconditionFailed =>
      if bool_decide (c_match c = None ∧ c_none_match c = Some true)
      then unmodified_answer m id (conditional_response headers m id)
      else conditional_response headers m id =
        Err (precondition_failed "At least one of the preconditions you specified did not hold.")
  end.
Proof.
  intros Htag. unfold conditions_of. intros Hc.
  destruct (condition headers "if-match" _) as [im|] eqn:E1; [|done].
  destruct (condition headers "if-none-match" _) as [inm|] eqn:E2; [|done].
  destruct (condition headers "if-unmodified-since" _) as [ius|] eqn:E3; [|done].
  destruct (condition headers "if-modified-since" _) as [ims|] eqn:E4; [|done].
  injection Hc as <-. pose proof (not_modified_answer m id) as Hnm.
  rewrite (condition_ext _ _ _ (λ s, Some (strong_etag_condition_matches s (etag_str (om_etag m))))) in E1
    by (intros s; by rewrite strong_match_equal).
  rewrite (condition_ext _ _ _ (λ s, Some (weak_etag_condition_matches s (etag_str (om_etag m))))) in E2
    by (intros s; by rewrite weak_match_equal).
  unfold conditional_response, rfc_decision. cbn [c_match c_none_match c_unmodified c_modified].
  rewrite (check_if_match_cond _ _ _ E1), (check_if_none_match_cond _ _ _ E2),
    (check_if_unmodified_since_cond _ _ _ E3), (check_if_modified_since_cond _ _ _ E4).
  assert (hm_contains_key headers "if-match" = bool_decide (is_Some im)) as ->.
  { apply (condition_get _ _ []) in E1. destruct im; simpl; [by destruct E1 as (? & _ & _ & ?)|by destruct E1]. }
  assert (hm_contains_key headers "if-none-match" = bool_decide (is_Some inm)) as ->.
  { apply (condition_get _ _ []) in E2. destruct inm; simpl; [by destruct E2 as (? & _ & _ & ?)|by destruct E2]. }
  unfold_result. destruct im as [[]|], inm as [[]|], ius as [[]|], ims as [[]|]; first [reflexivity|exact Hnm].
Qed.

(** ** Revalidation *)

(** The entity tags the endpoint gives to objects. *)
Definition server_etag (e : ETag) : Prop :=
  (∃ d, e = etag_from_hex_md5 (hex_encode d)) ∨
  (∃ d n, 0 ≤ n ∧ e = etag_from_multipart_md5 (hex_encode d) n).

Definition plain_tag (s : str) : Prop :=
  forallb is_graphic s = true ∧ ","%char ∉ s.

Lemma hex_graphic d : forallb is_graphic (hex_encode d) = true ∧ ","%char ∉ hex_encode d.
Proof.
  pose proof (hex_encode_lower d) as Hd. rewrite forallb_forall in Hd. split.
  - apply forallb_forall. intros c Hc%Hd. revert Hc. by all_bytes c.
  - intros Hc%list_elem_of_In%Hd. done.
Qed.

Lemma server_etag_plain e : server_etag e → plain_tag (etag_str e) ∧ head (etag_str e) = Some "034"%char.
Proof.
  assert (forallb is_graphic quote = true) as Hq by done.
  assert (","%char ∉ quote) as Hqc by (unfold quote; set_solver).
  intros [(d & ->)|(d & n & Hn & ->)]; destruct (hex_graphic d) as [Hg Hc]; (split; [|done]);
    unfold etag_from_hex_md5, etag_from_multipart_md5, plain_tag; cbn [etag_str].
  - rewrite !forallb_app, Hg. split; [done|]. rewrite !not_elem_of_app. done.
  - assert (","%char ∉ show_u n) as Hcn.
    { intros Hin%show_radix_chars; [done|lia|lia]. }
    rewrite !forallb_app, Hg. unfold show_u. rewrite show_radix_graphic by lia.
    split; [done|]. rewrite !not_elem_of_app. split_and!; try done; try (by intros ?%elem_of_nil); set_solver.
Qed.

Lemma etag_matches_itself e : server_etag e →
  strong_etag_condition_matches (etag_str e) (etag_str e) = true ∧
  weak_etag_condition_matches (etag_str e) (etag_str e) = true ∧
  hv_to_str (etag_str e) = Some (etag_str e).
Proof.
  intros [[Hg Hc] Hh]%server_etag_plain.
  unfold strong_etag_condition_matches, weak_etag_condition_matches.
  rewrite split_fresh by done. simpl. rewrite trim_graphic by done.
  rewrite !str_eqb_refl, !orb_true_r. split_and!; [done..|].
  apply hv_to_str_printable. rewrite forallb_forall in *. intros c Hin%Hg. revert Hin. by all_bytes c.
Qed.

(** Revalidation works. A client that sends back the ETag of an object
    (If-None-Match), or in its absence its Last-Modified date
    (If-Modified-Since), gets 304 as long as the object has not changed, and one
    that sends it back with If-Match passes; for every ETag the endpoint makes
    and every date before the year 10000. *)
Theorem revalidation headers m id :
  server_etag (om_etag m) → 0 ≤ om_last_modified m < MAX_HTTP_DATE →
  hm_get headers "if-unmodified-since" = None →
  (hm_get headers "if-match" = None ∨ hm_get headers "if-match" = Some (etag_str (om_etag m))) →
  (hm_get headers "if-none-match" = Some (etag_str (om_etag m)) →
     conditional_response headers m id = not_modified m id) ∧
  (hm_get headers "if-none-match" = None →
   hm_get headers "if-modified-since" = Some (format_http_datetime (om_last_modified m)) →
     conditional_response headers m id = not_modified m id) ∧
  (hm_get headers "if-none-match" = None → hm_get headers "if-modified-since" = None →
     conditional_response headers m id = Ok None).
Proof.
  intros He Ht Hius Him. destruct (etag_matches_itself _ He) as (Hs & Hw & Hv).
  assert (check_if_match headers m = Ok ()) as Hm.
  { rewrite (check_if_match_cond headers m (if hm_get headers "if-match" then Some true else None)).
    - by destruct (hm_get headers "if-match").
    - rewrite condition_first. destruct Him as [->| ->]; [done|]. by rewrite Hv; simpl; rewrite Hs. }
  assert (check_if_unmodified_since headers m = Ok ()) as Hu.
  { rewrite (check_if_unmodified_since_cond headers m None) by (rewrite condition_first; by rewrite Hius).
    by destruct (hm_contains_key _ _). }
  unfold conditional_response. rewrite Hm, Hu. unfold_result. split_and!.
  - intros Hn. rewrite (check_if_none_match_cond headers m (Some true)); [done|].
    rewrite condition_first, Hn, Hv. simpl. by rewrite Hw.
  - intros Hn Hd. rewrite (check_if_none_match_cond headers m None) by (rewrite condition_first; by rewrite Hn).
    simpl. rewrite (check_if_modified_since_cond headers m (Some false)).
    { by rewrite hm_contains_key_spec, hm_get_spec in *; destruct (hm_get_all headers "if-none-match"). }
    rewrite condition_first, Hd. unfold format_http_datetime.
    rewrite hv_to_str_printable by apply dt_format_http_printable. simpl.
    unfold since, http_date. rewrite dt_parse_format_http by done. simpl.
    unfold dt_timestamp at 1. rewrite Z.div_mul by done. by rewrite Z.ltb_irrefl.
  - intros Hn Hd. rewrite (check_if_none_match_cond headers m None) by (rewrite condition_first; by rewrite Hn).
    simpl. rewrite (check_if_modified_since_cond headers m None) by (rewrite condition_first; by rewrite Hd).
    by rewrite andb_false_r.
Qed.
End head_object.

Section witnesses.
Local Existing Instances ref_http ref_codec ref_chrono.

Definition w_etag : ETag := etag_from_hex_md5 (hex_encode "abcdefghijklmnop").
Definition w_md : ObjectMetadata :=
  mkObjectMetadata w_bucket w_key 3 w_etag (Some "image/jpeg") None None None None None None [] []
    (dur_seconds 1000).
Definition w_id : RequestId := mkRequestId "req-1".
Definition w_conditional (fields : list (str * bytes)) : HeaderMap := fields.

Lemma conditional_requests_rfc_witness :
  conditional_response (w_conditional [("If-Match", "*"); ("If-Modified-Since", "999")]) w_md w_id = Ok None ∧
  conditional_response (w_conditional [("If-Unmodified-Since", "999")]) w_md w_id = Err precondition_error ∧
  unmodified_answer w_md w_id (conditional_response (w_conditional [("If-None-Match", "W/" ++ etag_str w_etag)]) w_md w_id).
Proof.
  split_and!.
  - refine (conditional_requests_rfc (w_conditional [("If-Match", "*"); ("If-Modified-Since", "999")]) w_md w_id
        (mkConditions (Some true) None None (Some true)) _ _); vm_refl.
  - refine (conditional_requests_rfc (w_conditional [("If-Unmodified-Since", "999")]) w_md w_id
        (mkConditions None None (Some false) None) _ _); vm_refl.
  - refine (conditional_requests_rfc (w_conditional [("If-None-Match", "W/" ++ etag_str w_etag)]) w_md w_id
        (mkConditions None (Some true) None None) _ _); vm_refl.
Defined.

Lemma revalidation_witness :
  conditional_response (w_conditional [("If-None-Match", etag_str w_etag)]) w_md w_id = not_modified w_md w_id ∧
  is_ok (not_modified w_md w_id) = true.
Proof.
  split; [|vm_refl].
  destruct (revalidation (w_conditional [("If-None-Match", etag_str w_etag)]) w_md w_id) as [Hn _];
    [left; by eexists|vm_compute; intuition congruence|vm_refl|left; vm_refl|].
  apply Hn. vm_refl.
Defined.
End witnesses.
