(* ===== verification/GetObject.v ===== *)
(** * GetObject (handlers/get_object.rs)

    Range parsing, response header overrides and the handler, whose body is
    streamed from the open file. *)

From S2P Require Import Prelude RustStd BTree S3Error Externals Reference Types Target Config Http.
From S2P Require Import Chunked ChunkedProofs Checksum Upload Auth Hooks Admission Routing.
From S2P Require Import StoreModel ReferenceJson FileSystem ObjectStore ObjectProofs ObjectSpec StoreTrait Middleware.
From S2P Require Import MultipartStore Streams AppState HeadObject.
From Stdlib Require Import ZArith Lia.
Local Open Scope Z_scope.

(** ** Ranges *)

(* @src src/src/handlers/get_object.rs 173-177 ByteRange *)
Record ByteRange := mkRange { range_start : Z; range_end : Z }.

(* @src src/src/handlers/get_object.rs 180-182 ByteRange::len *)
Definition range_len (r : ByteRange) : Z := range_end r - range_start r + 1.

Section ranges.
Context `{HttpLib}.

(* @src src/src/handlers/get_object.rs 252-258 unsatisfiable_range_error *)
Definition unsatisfiable_range_error (object_size : Z) : S3Error :=
  let error := invalid_range "Range is not satisfiable" in
  match hv_from_str ("bytes */" ++ show_u object_size) with
  | Some value => with_header error "content-range" value
  | None => error
  end.

(* @src src/src/handlers/get_object.rs 246-250 parse_range_number *)
Definition parse_range_number (value : str) : result S3Error Z :=
  ok_or (parse_u64 value) (invalid_range "Range contains an invalid byte position").

(** The positions of a range on an object that is not empty. *)
(* @src src/src/handlers/get_object.rs 209-243 parse_range_header *)
Definition resolve_range (start end_ : str) (object_size : Z) : result S3Error (option ByteRange) :=
  match is_empty start, is_empty end_ with
  | false, false =>
      start ← parse_range_number start;
      end_ ← parse_range_number end_;
      if (start >? end_) || (start >=? object_size) then Err (unsatisfiable_range_error object_size)
      else Ok (Some (mkRange start (Z.min end_ (object_size - 1))))
  | false, true =>
      start ← parse_range_number start;
      if start >=? object_size then Err (unsatisfiable_range_error object_size)
      else Ok (Some (mkRange start (object_size - 1)))
  | true, false =>
      suffix_len ← parse_range_number end_;
      if suffix_len =? 0 then Err (unsatisfiable_range_error object_size)
      else Ok (Some (mkRange (sat_sub_u64 object_size suffix_len) (object_size - 1)))
  | true, true => Err (unsatisfiable_range_error object_size)
  end.

(* @src src/src/handlers/get_object.rs 185-244 parse_range_header *)
Definition parse_range_header (headers : HeaderMap) (object_size : Z) : result S3Error (option ByteRange) :=
  match hm_get headers "range" with
  | None => Ok None
  | Some value =>
      value ← ok_or (hv_to_str value) (invalid_range "Range must be valid ASCII");
      range ← ok_or (strip_prefix "bytes=" value) (invalid_range "Only bytes ranges are supported");
      if contains_char ","%char range then
        Err (invalid_range "Multiple byte ranges are not supported")
      else
        '(start, end_) ← ok_or (split_once "-"%char range)
                          (invalid_range "Range must use bytes=start-end syntax");
        if object_size =? 0 then Err (unsatisfiable_range_error object_size)
        else resolve_range start end_ object_size
  end.

(** The three forms of a single range, as a client writes them, and the
    positions each selects in an object (RFC 9110, section 14.1.2). *)
Inductive range_form := Between (a b : Z) | From (a : Z) | Last (n : Z).

Definition range_text (f : range_form) : str :=
  "bytes=" ++ match f with
  | Between a b => show_u a ++ "-" ++ show_u b
  | From a => show_u a ++ "-"
  | Last n => "-" ++ show_u n
  end.

Definition range_ok (f : range_form) : Prop :=
  match f with Between a b => is_u64 a ∧ is_u64 b | From a => is_u64 a | Last n => is_u64 n end.

Definition selects (f : range_form) (size p : Z) : Prop :=
  0 ≤ p < size ∧
  match f with Between a b => a ≤ p ≤ b | From a => a ≤ p | Last n => size - n ≤ p end.

Lemma show_u_cons z : 0 ≤ z → is_empty (show_u z) = false.
Proof.
  intros Hz. unfold show_u, show_radix. cbn [digits_rev].
  destruct (z <? 10); [done|]. rewrite reverse_cons. by destruct (reverse _).
Qed.

Lemma show_u_no c z : 0 ≤ z → is_digit_char c = false → c ∉ show_u z.
Proof. intros Hz Hc Hin%show_radix_chars; [congruence|lia..]. Qed.

Lemma contains_char_false c s : c ∉ s → contains_char c s = false.
Proof.
  intros Hc. unfold contains_char. apply not_true_iff_false. intros Hx%existsb_exists.
  destruct Hx as (x & Hin%list_elem_of_In & ->%bool_decide_eq_true). done.
Qed.

Lemma range_text_printable f : range_ok f → printable (range_text f).
Proof.
  assert (∀ z, is_u64 z → forallb is_printable (show_u z) = true) as Hz.
  { intros z Hz. apply forallb_forall. intros c Hc%list_elem_of_In.
    apply show_radix_chars in Hc; [|lia|unfold is_u64 in *; lia]. revert Hc. by all_bytes c. }
  unfold printable, range_text. rewrite forallb_app. destruct f; simpl range_ok; intros Hf;
    rewrite ?forallb_app, ?Hz by tauto; done.
Qed.

(** The halves of the text around the dash. *)
Lemma parse_range_text headers size f :
  range_ok f → hm_get headers "range" = Some (range_text f) →
  parse_range_header headers size =
    if size =? 0 then Err (unsatisfiable_range_error size)
    else match f with
         | Between a b => resolve_range (show_u a) (show_u b) size
         | From a => resolve_range (show_u a) [] size
         | Last n => resolve_range [] (show_u n) size
         end.
Proof.
  intros Hf Hh. unfold parse_range_header. rewrite Hh, hv_to_str_printable by by apply range_text_printable.
  cbn [ok_or mbind result_bind]. rewrite (proj2 (strip_prefix_Some "bytes=" (range_text f) _) eq_refl).
  assert (∀ z, is_u64 z → ","%char ∉ show_u z ∧ "-"%char ∉ show_u z) as Hz.
  { intros z Hz. unfold is_u64 in Hz. split; by apply show_u_no; [lia|]. }
  cbn [ok_or mbind result_bind]. rewrite contains_char_false.
  2: { destruct f; simpl in Hf; rewrite ?not_elem_of_app; split_and?; try apply Hz; try tauto; set_solver. }
  destruct f as [a b|a|n]; simpl in Hf.
  - change (show_u a ++ "-" ++ show_u b) with (show_u a ++ "-"%char :: show_u b).
    by rewrite split_once_app by (apply Hz; tauto).
  - change (show_u a ++ "-") with (show_u a ++ "-"%char :: []).
    by rewrite split_once_app by (apply Hz; tauto).
  - change ("-" ++ show_u n) with ([] ++ "-"%char :: show_u n). by rewrite split_once_app by set_solver.
Qed.

(** A range that is accepted is not empty and lies in the object. *)
Lemma resolve_range_bounds start end_ size r :
  0 < size ≤ u64_max → resolve_range start end_ size = Ok (Some r) →
  0 ≤ range_start r ≤ range_end r ∧ range_end r < size.
Proof.
  intros Hs Hr. unfold resolve_range, parse_range_number in Hr.
  destruct (is_empty start), (is_empty end_); [done|..]; inv_result Hr;
    repeat match goal with Hp : parse_u64 _ = Some _ |- _ => apply parse_u64_bounds in Hp end;
    unfold is_u64, sat_sub_u64 in *; lia.
Qed.

Lemma parse_range_bounds headers size r :
  is_u64 size → parse_range_header headers size = Ok (Some r) →
  0 ≤ range_start r ≤ range_end r ∧ range_end r < size.
Proof.
  intros Hs Hr. unfold parse_range_header in Hr. destruct (hm_get headers "range"); [|done].
  unfold_result. destruct (hv_to_str _); [|done]. destruct (strip_prefix _ _); [|done].
  destruct (contains_char _ _); [done|]. destruct (split_once _ _) as [[a b]|]; [|done].
  destruct (Z.eqb_spec size 0); [done|]. unfold is_u64 in Hs.
  by apply resolve_range_bounds in Hr; [|lia].
Qed.

(* @prop bounds 31 : parse_range_header resolve_range parse_range_number unsatisfiable_range_error ByteRange *)
(** C31: a single byte range means what RFC 9110 says. For each of the three
    forms, any 64-bit numbers and any object size: if some position of the object
    is selected, the range that is served is exactly the set of the selected
    positions; if none is, the answer is 416 with the size of the object. *)
Theorem range_header_exact headers size f :
  is_u64 size → range_ok f → hm_get headers "range" = Some (range_text f) →
  (∃ r, parse_range_header headers size = Ok (Some r) ∧ range_start r ≤ range_end r ∧
        ∀ p, range_start r ≤ p ≤ range_end r ↔ selects f size p) ∨
  (parse_range_header headers size = Err (unsatisfiable_range_error size) ∧ ∀ p, ¬ selects f size p).
Proof.
  intros Hs Hf Hh. rewrite (parse_range_text _ _ _ Hf Hh). unfold is_u64 in Hs.
  destruct (Z.eqb_spec size 0) as [->|Hne].
  { right. split; [done|]. unfold selects. intros p. lia. }
  unfold resolve_range, parse_range_number, selects, sat_sub_u64.
  destruct f as [a b|a|n]; simpl in Hf; unfold is_u64 in Hf;
    rewrite ?show_u_cons by lia; unfold_result; rewrite ?parse_u64_show by (unfold is_u64; lia).
  - rewrite Z.gtb_ltb, Z.geb_leb. destruct (Z.ltb_spec b a); simpl; [right; split; [done|intros p; lia]|].
    destruct (Z.leb_spec size a); simpl; [right; split; [done|intros p; lia]|left].
    eexists. split; [done|]. simpl. split; [lia|intros p; lia].
  - rewrite Z.geb_leb. destruct (Z.leb_spec size a); [right; split; [done|intros p; lia]|left].
    eexists. split; [done|]. simpl. split; [lia|intros p; lia].
  - destruct (Z.eqb_spec n 0); [right; split; [done|intros p; lia]|left].
    eexists. split; [done|]. simpl. split; [lia|intros p; lia].
Qed.
End ranges.

Section get_object.
Context `{HttpLib} `{CodecLib} `{CryptoLib} `{ChronoLib} `{UuidLib} `{JsonLib}.

(** ** Response header overrides *)

(* @src src/src/handlers/get_object.rs 106-113 apply_response_overrides *)
Definition OVERRIDES : list (str * str) :=
  [("response-cache-control", "cache-control");
   ("response-content-disposition", "content-disposition");
   ("response-content-encoding", "content-encoding");
   ("response-content-language", "content-language");
   ("response-content-type", "content-type");
   ("response-expires", "expires")].

(** One override; a builder that has failed has no headers to change. *)
(* @src src/src/handlers/get_object.rs 115-127 apply_response_overrides *)
Definition apply_override (query : str) (b : Builder) (override : str * str) : result S3Error Builder :=
  let '(query_name, header_name) := override in
  value ← unique_query_param query query_name;
  match value with
  | None => Ok b
  | Some value =>
      value ← ok_or (hv_from_str value) (invalid_request (query_name ++ " is not a valid header value"));
      match b with
      | Ok (st, headers) => Ok (Ok (st, hm_insert headers header_name value))
      | Err _ => Err (internal "failed to apply response header override")
      end
  end.

(* @src src/src/handlers/get_object.rs 102-130 apply_response_overrides *)
Definition apply_response_overrides (b : Builder) (query : str) : result S3Error Builder :=
  try_fold (apply_override query) b OVERRIDES.

(** ** The handler *)

(** [file.seek]: the cursor is the position from which the file is read on. *)
Definition fs_seek : io () := call (λ fs, (Ok (), fs)) unchanged.

Definition content_range (r : ByteRange) (size : Z) : str :=
  "bytes " ++ show_u (range_start r) ++ "-" ++ show_u (range_end r) ++ "/" ++ show_u size.

Section handler.
Context `{!ObjectStoreOps}.

(** [reads] is what the reads of the body will do. *)
(* @src src/src/handlers/get_object.rs 25-100 get_object *)
Definition handle_get_object (reads : list ReadEvent) (s : AppState) (r : Request) (id : RequestId)
    (ctx : AuthContext) : ioE S3Error Response :=
  target ← lift (resolve_request_target s r);
  _ ← lift (authorize_request s ctx (target_bucket target) (Some (target_key target)) ActGetObject);
  _ ← lift (validate_empty_payload_hash r);
  opened ← map_io_err (λ e, internal ("failed to open object: " ++ store_error_msg e))
             (store_open_object (target_bucket target) (target_key target));
  '(metadata, file) ← lift (ok_or opened no_such_key);
  conditional ← lift (conditional_response (req_headers r) metadata id);
  match conditional with
  | Some response => mret response
  | None =>
      range ← lift (parse_range_header (req_headers r) (om_size metadata));
      let query := default [] (uri_query (req_uri r)) in
      let buffer_size := object_stream_buffer_size (st_io_tuning s) in
      match range with
      | Some range =>
          _ ← map_io_err (λ e, internal ("failed to seek object: " ++
                match e with Io e => io_error_msg e | e => store_error_msg e end)) fs_seek;
          let response := header "content-range" (content_range range (om_size metadata))
            (object_metadata_response_builder_with_status_and_length metadata id 206 (range_len range)) in
          response ← lift (apply_response_overrides response query);
          lift (finish_response
            (file_stream_limited reads (drop (Z.to_nat (range_start range)) file) (range_len range) buffer_size)
            response)
      | None =>
          response ← lift (apply_response_overrides (object_metadata_response_builder metadata id) query);
          lift (finish_response (file_stream reads file buffer_size) response)
      end
  end.
End handler.

(** ** Correctness *)

Lemma override_lookup query b o b' st h' :
  apply_override query b o = Ok b' → b' = Ok (st, h') →
  ∃ h, b = Ok (st, h) ∧ ∀ n, to_ascii_lowercase n ≠ to_ascii_lowercase o.2 → hm_get_all h' n = hm_get_all h n.
Proof.
  destruct o as [qn hn]. unfold apply_override. unfold_result. intros Ho ->.
  destruct (unique_query_param query qn) as [[v|]|]; [|naive_solver|done].
  destruct (hv_from_str v) as [w|]; [|done]. destruct b as [[st0 h]|]; [|done].
  injection Ho as <- <-. exists h. split; [done|]. intros n Hn.
  by rewrite hm_insert_spec, (proj2 (str_eqb_neq _ _)).
Qed.

(** Overrides change the six headers they are for and nothing else. *)
Lemma overrides_lookup query os : ∀ b b' st h',
  try_fold (apply_override query) b os = Ok b' → b' = Ok (st, h') →
  ∃ h, b = Ok (st, h) ∧
    ∀ n, to_ascii_lowercase n ∉ to_ascii_lowercase <$> os.*2 → hm_get_all h' n = hm_get_all h n.
Proof.
  induction os as [|o os IH]; intros b b' st h' Hf Hb; cbn [try_fold] in Hf; [naive_solver|].
  unfold_result. destruct (apply_override query b o) as [b1|] eqn:E; [|done].
  destruct (IH _ _ _ _ Hf Hb) as (h1 & -> & Hh1).
  destruct (override_lookup _ _ _ _ _ _ E eq_refl) as (h & -> & Hh).
  exists h. split; [done|]. intros n [Hn1 Hn2]%not_elem_of_cons.
  by rewrite Hh1, Hh.
Qed.

Lemma overridden_response body b query b' resp st m id len fields :
  built b st (object_fields m id len ++ fields) →
  apply_response_overrides b query = Ok b' → finish_response body b' = Ok resp →
  rs_status resp = st ∧ rs_body resp = body ∧ describes (rs_headers resp) m len ∧
  ∀ n, to_ascii_lowercase n ∉ to_ascii_lowercase <$> OVERRIDES.*2 →
    hm_get_all (rs_headers resp) n = field_values (object_fields m id len ++ fields) n.
Proof.
  intros Hb Ho Hf. unfold finish_response in Hf. unfold_result. destruct b' as [[st0 h']|]; [|done].
  injection Hf as <-. destruct (overrides_lookup _ _ _ _ _ _ Ho eq_refl) as (h & -> & Hh).
  destruct Hb as [-> Hall]. simpl. split_and!; [done..| |].
  - pose proof (object_fields_describe h m id len fields Hall) as (D1 & D2 & D3).
    unfold describes. rewrite hm_get_spec in D1, D2, D3. rewrite !hm_get_spec, !Hh; [done|..];
      apply (bool_decide_unpack _); vm_compute; exact I.
  - intros n Hn. by rewrite Hh, Hall.
Qed.

Implicit Types (fs : gmap path bytes) (ss : gmap str UploadSession) (objs : objects).

(** What a successful GET answers, for the object [(md, c)]. *)
Definition get_answer (headers : HeaderMap) (md : ObjectMetadata) (c : bytes) (resp : Response) : Prop :=
  (rs_status resp = 304 ∧ rs_body resp = [] ∧ describes (rs_headers resp) md 0) ∨
  (rs_status resp = 200 ∧ parse_range_header headers (om_size md) = Ok None ∧
   describes (rs_headers resp) md (om_size md) ∧
   delivered (rs_body resp) `prefix_of` c ∧ (complete (rs_body resp) → delivered (rs_body resp) = c)) ∨
  (∃ rg, let part := take (Z.to_nat (range_len rg)) (drop (Z.to_nat (range_start rg)) c) in
   rs_status resp = 206 ∧ parse_range_header headers (om_size md) = Ok (Some rg) ∧
   describes (rs_headers resp) md (range_len rg) ∧
   content_range rg (om_size md) ∈ hm_get_all (rs_headers resp) "content-range" ∧
   delivered (rs_body resp) `prefix_of` part ∧
   (complete (rs_body resp) → delivered (rs_body resp) = part)).

Lemma not_modified_ok m id o :
  not_modified m id = Ok o → ∃ resp, o = Some resp ∧
    rs_status resp = 304 ∧ rs_body resp = [] ∧ describes (rs_headers resp) m 0.
Proof.
  unfold not_modified. destruct (finish_response _ _) as [resp|] eqn:Hf; [|done].
  intros [= <-]. exists resp. split; [done|].
  destruct (finish_response_ok _ _ _ _ _ (object_builder_built m id 304 0) Hf) as (Hst & Hbody & _ & Hh).
  split_and!; [done|done|]. apply (object_fields_describe _ _ id _ []). intros n. by rewrite app_nil_r, Hh.
Qed.

Lemma conditional_response_ok headers m id resp :
  conditional_response headers m id = Ok (Some resp) →
  rs_status resp = 304 ∧ rs_body resp = [] ∧ describes (rs_headers resp) m 0.
Proof.
  unfold conditional_response. unfold_result.
  destruct (check_if_match _ _); [|done]. destruct (check_if_none_match _ _) as [[]|]; [| |done].
  { intros Hn. destruct (not_modified_ok m id _ Hn) as (r & [= ->] & Hr). done. }
  destruct (check_if_unmodified_since _ _); [|done].
  destruct (check_if_modified_since _ _) as [[]|]; [|done..].
  intros Hn. destruct (not_modified_ok m id _ Hn) as (r & [= ->] & Hr). done.
Qed.

(** The answer with the whole object and the answer with a range of it. *)
Lemma whole_answer headers md c id reads buffer query b resp :
  0 < buffer → parse_range_header headers (om_size md) = Ok None →
  apply_response_overrides (object_metadata_response_builder md id) query = Ok b →
  finish_response (file_stream reads c buffer) b = Ok resp → get_answer headers md c resp.
Proof.
  intros Hbuf Hr Hb Hf. right; left. pose proof (object_builder_built md id 200 (om_size md)) as Hbuilt.
  rewrite <- (app_nil_r (object_fields _ _ _)) in Hbuilt.
  destruct (overridden_response _ _ _ _ _ _ _ _ _ _ Hbuilt Hb Hf) as (Hst & Hbody & Hd & Hh).
  rewrite Hbody. split_and!; [done|done|done|..]; (apply stream_all_spec; [done|lia]).
Qed.

Lemma range_answer headers md c id reads buffer query rg b resp :
  0 < buffer → is_u64 (om_size md) → parse_range_header headers (om_size md) = Ok (Some rg) →
  apply_response_overrides (header "content-range" (content_range rg (om_size md))
    (object_metadata_response_builder_with_status_and_length md id 206 (range_len rg))) query = Ok b →
  finish_response (file_stream_limited reads (drop (Z.to_nat (range_start rg)) c) (range_len rg) buffer) b = Ok resp →
  get_answer headers md c resp.
Proof.
  intros Hbuf Hu64 Hr Hb Hf. right; right. exists rg.
  destruct (overridden_response _ _ _ _ _ _ _ _ _ _
    (built_header _ _ _ _ _ (object_builder_built md id 206 (range_len rg))) Hb Hf) as (Hst & Hbody & Hd & Hh).
  destruct (parse_range_bounds _ _ _ Hu64 Hr).
  rewrite Hbody. split_and!; [done|done|done| |..].
  - rewrite Hh by (apply (bool_decide_unpack _); vm_compute; exact I).
    rewrite field_values_app. apply elem_of_app. right. eval_fields. by left.
  - apply stream_limited_spec; [done|unfold range_len; lia|lia].
  - apply stream_limited_spec; [done|unfold range_len; lia|lia].
Qed.

(** Against the contract of the store. *)
Section contract.
Context `{St : !ObjectStoreOps} `{!ObjectStoreContract St}.

Lemma wp_get_object reads s r id ctx n fs ss objs :
  contains fs objs → 0 < object_stream_buffer_size (st_io_tuning s) →
  (∀ d md c, objs !! d = Some (md, c) → is_u64 (om_size md)) →
  wp (handle_get_object reads s r id ctx) n fs ss (λ res _ fs' ss',
    fs' = fs ∧ ss' = ss ∧
    ∀ resp, res = Ok resp → ∃ t md c,
      resolve_request_target s r = Ok t ∧
      permitted s ctx (target_bucket t) (Some (target_key t)) ActGetObject ∧
      objs !! object_digest (target_bucket t) (target_key t) = Some (md, c) ∧
      get_answer (req_headers r) md c resp).
Proof.
  intros Hm Hbuf Hu64. unfold handle_get_object.
  apply wp_bind, wp_lift. destruct (resolve_request_target s r) as [t|e] eqn:Ht; [|done].
  apply wp_bind, wp_lift. destruct (authorize_request _ _ _ _ _) as [[]|e] eqn:Ha; [|done].
  apply authorize_request_ok in Ha.
  apply wp_bind, wp_lift. destruct (validate_empty_payload_hash r) as [[]|e]; [|done].
  set (d := object_digest (target_bucket t) (target_key t)).
  apply wp_bind, wp_map_io_err, open_law with objs; [done| |done]. fold d. cbn [map_err].
  apply wp_bind, wp_lift. destruct (objs !! d) as [[md c]|] eqn:Ho; [|done]. cbn [ok_or].
  specialize (Hu64 _ _ _ Ho).
  apply wp_bind, wp_lift. destruct (conditional_response _ _ _) as [[resp|]|e] eqn:Hc; [| |done].
  { apply wp_ret. split_and!; [done..|]. intros ? [= <-]. exists t, md, c. split_and!; [done..|].
    left. by eapply conditional_response_ok. }
  apply wp_bind, wp_lift. destruct (parse_range_header _ _) as [[rg|]|e] eqn:Hr; [| |done].
  - apply wp_bind, wp_map_io_err, wp_call; [|done]. simpl.
    apply wp_bind, wp_lift. destruct (apply_response_overrides _ _) as [b'|e] eqn:Hb; [|done].
    apply wp_lift. split_and!; [done..|]. intros resp Hf. exists t, md, c. split_and!; [done..|].
    by eapply range_answer.
  - apply wp_bind, wp_lift. destruct (apply_response_overrides _ _) as [b'|e] eqn:Hb; [|done].
    apply wp_lift. split_and!; [done..|]. intros resp Hf. exists t, md, c. split_and!; [done..|].
    by eapply whole_answer.
Qed.

(** A missing object, when no call fails. *)
Lemma wp_get_missing reads s r id ctx t fs ss objs :
  contains fs objs → resolve_request_target s r = Ok t →
  permitted s ctx (target_bucket t) (Some (target_key t)) ActGetObject →
  validate_empty_payload_hash r = Ok () → objs !! object_digest (target_bucket t) (target_key t) = None →
  wp (handle_get_object reads s r id ctx) 0 fs ss (λ res _ _ _, res = Err no_such_key).
Proof.
  intros Hm Ht Hp Hh Ho. apply authorize_request_ok in Hp. unfold handle_get_object.
  apply wp_bind, wp_lift. rewrite Ht. apply wp_bind, wp_lift. rewrite Hp.
  apply wp_bind, wp_lift. rewrite Hh.
  apply wp_bind, wp_map_io_err, open_law with objs; [done|rewrite Ho|done].
  by apply wp_bind, wp_lift.
Qed.
End contract.

(* @prop functional 10 : handle_get_object parse_range_header apply_response_overrides apply_override object_metadata_response_builder_with_status_and_length stream_all stream_limited authorize_request resolve_request_target *)
(** C10: GetObject serves the stored object. A GET changes nothing, whatever
    fails. If it succeeds, the policies permit the principal to read the target,
    and the answer describes the object the store holds under that name and is
    one of: 304 without a body; 200 with the whole object; 206 with exactly the
    bytes of the requested range and a Content-Range that names them. A body cut
    short by a failing read is a prefix of those bytes. Without faults, an object
    that is not there is 404. *)
Theorem get_object_serves reads s r id ctx w w' objs res :
  refines (files w) objs → 0 < object_stream_buffer_size (st_io_tuning s) →
  (∀ d md c, objs !! d = Some (md, c) → is_u64 (om_size md)) →
  handle_get_object reads s r id ctx w = (res, w') →
  (files w' = files w ∧ sessions w' = sessions w) ∧
  (∀ resp, res = Ok resp → ∃ t md c,
     resolve_request_target s r = Ok t ∧
     permitted s ctx (target_bucket t) (Some (target_key t)) ActGetObject ∧
     objs !! object_digest (target_bucket t) (target_key t) = Some (md, c) ∧
     get_answer (req_headers r) md c resp) ∧
  (∀ t, faults w = [] → resolve_request_target s r = Ok t →
     permitted s ctx (target_bucket t) (Some (target_key t)) ActGetObject →
     validate_empty_payload_hash r = Ok () →
     objs !! object_digest (target_bucket t) (target_key t) = None → res = Err no_such_key).
Proof.
  intros Hr Hb Hu Hrun.
  pose proof (wp_run _ _ _ _ _ Hrun (wp_get_object reads s r id ctx (budget w) _ (sessions w) _ Hr Hb Hu))
    as (Hf & Hs & Hok).
  split_and!; [done|done|done|]. intros t Hfl Ht Hp Hh Ho.
  assert (budget w = 0%nat) as Hb0 by (unfold budget; by rewrite Hfl).
  pose proof (wp_get_missing reads s r id ctx t (files w) (sessions w) objs Hr Ht Hp Hh Ho) as Hwp.
  rewrite <- Hb0 in Hwp. exact (wp_run _ _ _ _ _ Hrun Hwp).
Qed.

(** ** HEAD and GET *)

(** What a request for an object is answered but for the body. *)
Definition object_answer (headers : HeaderMap) (id : RequestId) (o : option (ObjectMetadata * bytes))
  : result S3Error Response :=
  '(md, _) ← ok_or o no_such_key;
  conditional ← conditional_response headers md id;
  match conditional with Some response => Ok response | None => metadata_response md id end.

(** Against the contract of the store. *)
Definition no_overrides (r : Request) : Prop :=
  Forall (λ o, unique_query_param (default [] (uri_query (req_uri r))) o.1 = Ok None) OVERRIDES.

Lemma apply_no_overrides r b :
  no_overrides r → apply_response_overrides b (default [] (uri_query (req_uri r))) = Ok b.
Proof.
  unfold apply_response_overrides, no_overrides. generalize (default [] (uri_query (req_uri r))) as query. intros query.
  induction 1 as [|[qn hn] os Ho _ IH]; [done|]. cbn [try_fold apply_override]. simpl in Ho. by rewrite Ho.
Qed.

(** The answer with another body. *)
Definition with_body (f : bytes → Body) (o : option (ObjectMetadata * bytes)) (response : Response) : Response :=
  match o with
  | Some (_, c) => if rs_status response =? 304 then response
                   else mkResponse (rs_status response) (rs_headers response) (f c) (rs_decoded response)
  | None => response
  end.

(** Against the contract of the store. *)

Section contract.
Context `{St : !ObjectStoreOps} `{!ObjectStoreContract St}.

Lemma wp_head_answer s r id ctx t fs ss objs :
  contains fs objs → resolve_request_target s r = Ok t →
  permitted s ctx (target_bucket t) (Some (target_key t)) ActHeadObject → validate_empty_payload_hash r = Ok () →
  wp (handle_head_object s r id ctx) 0 fs ss (λ res _ fs' _,
    fs' = fs ∧ res = object_answer (req_headers r) id (objs !! object_digest (target_bucket t) (target_key t))).
Proof.
  intros Hm Ht Hp%authorize_request_ok Hh. unfold handle_head_object, object_answer.
  apply wp_bind, wp_lift. rewrite Ht. apply wp_bind, wp_lift. rewrite Hp. apply wp_bind, wp_lift. rewrite Hh.
  set (d := object_digest (target_bucket t) (target_key t)).
  apply wp_bind, wp_map_io_err, head_law with objs; [done| |done]. fold d. cbn [map_err].
  apply wp_bind, wp_lift. destruct (objs !! d) as [[md c]|]; [|done]. cbn [ok_or fmap option_fmap option_map fst mbind result_bind].
  apply wp_bind, wp_lift. destruct (conditional_response _ _ _) as [[resp|]|e]; [by apply wp_ret|by apply wp_lift|done].
Qed.

Lemma wp_get_whole reads s r id ctx t fs ss objs :
  contains fs objs → resolve_request_target s r = Ok t →
  permitted s ctx (target_bucket t) (Some (target_key t)) ActGetObject → validate_empty_payload_hash r = Ok () →
  hm_get (req_headers r) "range" = None → no_overrides r →
  let o := objs !! object_digest (target_bucket t) (target_key t) in
  wp (handle_get_object reads s r id ctx) 0 fs ss (λ res _ fs' _,
    fs' = fs ∧
    res = with_body (λ c, file_stream reads c (object_stream_buffer_size (st_io_tuning s))) o
            <$> object_answer (req_headers r) id o).
Proof.
  intros Hm Ht Hp%authorize_request_ok Hh Hr Ho. unfold handle_get_object, object_answer.
  apply wp_bind, wp_lift. rewrite Ht. apply wp_bind, wp_lift. rewrite Hp. apply wp_bind, wp_lift. rewrite Hh.
  set (d := object_digest (target_bucket t) (target_key t)).
  apply wp_bind, wp_map_io_err, open_law with objs; [done| |done]. fold d. cbn [map_err].
  apply wp_bind, wp_lift. destruct (objs !! d) as [[md c]|]; [|done]. cbn [ok_or mbind result_bind].
  apply wp_bind, wp_lift. destruct (conditional_response _ _ _) as [[resp|]|e] eqn:Hc; [| |done].
  { apply wp_ret. split; [done|]. apply conditional_response_ok in Hc as (Hst & _). simpl. by rewrite Hst. }
  unfold parse_range_header. rewrite Hr. apply wp_bind, wp_lift. cbv zeta. cbv beta iota.
  rewrite apply_no_overrides by done. apply wp_bind, wp_lift, wp_lift. split; [done|].
  unfold metadata_response. pose proof (object_builder_built md id 200 (om_size md)) as Hbuilt.
  fold (object_metadata_response_builder md id) in Hbuilt.
  destruct (object_metadata_response_builder md id) as [[st h]|e]; [|done].
  destruct Hbuilt as [-> _]. done.
Qed.
End contract.

(* @prop equivalence 33 : handle_head_object handle_get_object conditional_response metadata_response object_metadata_response_builder apply_response_overrides parse_range_header head_object open_object *)
(** C33: HEAD is GET without the body. Without faults, a HEAD and a GET that asks for
    no range and no header overrides, from a principal who may do both, have the
    same status and the same header fields, or fail with the same error, and
    HEAD sends no body. *)
Theorem head_agrees_with_get reads s r id ctx w objs t :
  faults w = [] → refines (files w) objs → resolve_request_target s r = Ok t →
  permitted s ctx (target_bucket t) (Some (target_key t)) ActHeadObject →
  permitted s ctx (target_bucket t) (Some (target_key t)) ActGetObject →
  validate_empty_payload_hash r = Ok () → hm_get (req_headers r) "range" = None → no_overrides r →
  match (handle_head_object s r id ctx w).1, (handle_get_object reads s r id ctx w).1 with
  | Ok head, Ok get =>
      rs_status head = rs_status get ∧ rs_headers head = rs_headers get ∧ rs_body head = []
  | Err e, Err e' => e = e'
  | _, _ => False
  end.
Proof.
  intros Hfl Hrf Ht Hph Hpg Hh Hr Ho. assert (budget w = 0%nat) as Hb by (unfold budget; by rewrite Hfl).
  pose proof (wp_head_answer s r id ctx t _ (sessions w) _ Hrf Ht Hph Hh) as Hhead.
  pose proof (wp_get_whole reads s r id ctx t _ (sessions w) _ Hrf Ht Hpg Hh Hr Ho) as Hget. rewrite <- Hb in Hhead, Hget.
  destruct (handle_head_object s r id ctx w) as [rh wh] eqn:Hrunh.
  destruct (handle_get_object reads s r id ctx w) as [rg wg] eqn:Hrung.
  apply (wp_run _ _ _ _ _ Hrunh) in Hhead as [_ ->]. apply (wp_run _ _ _ _ _ Hrung) in Hget as [_ ->]. simpl.
  set (o := objs !! _). destruct (object_answer (req_headers r) id o) as [resp|e] eqn:Ha; [|done]. simpl.
  assert (rs_body resp = []) as Hbody.
  { unfold object_answer in Ha. destruct o as [[md c]|]; [|done]. cbn [ok_or mbind result_bind] in Ha.
    destruct (conditional_response _ _ _) as [[resp'|]|] eqn:Hc; [| |done].
    - injection Ha as <-. by apply conditional_response_ok in Hc as (_ & Hbody & _).
    - cbn [mbind result_bind] in Ha. unfold metadata_response in Ha.
      by destruct (finish_response_ok _ _ _ _ _ (object_builder_built md id 200 (om_size md)) Ha) as (_ & Hbody & _). }
  unfold with_body. destruct o as [[md c]|]; [destruct (_ =? _)|]; by split_and!.
Qed.
End get_object.

Section witnesses.
Local Existing Instances ref_http ref_codec ref_crypto ref_chrono ref_uuid ref_json.

Lemma range_header_exact_witness :
  parse_range_header (w_conditional [("Range", "bytes=7-99")]) 10 = Ok (Some (mkRange 7 9)) ∧
  ∃ r, parse_range_header (w_conditional [("Range", "bytes=7-99")]) 10 = Ok (Some r) ∧
    ∀ p, range_start r ≤ p ≤ range_end r ↔ selects (Between 7 99) 10 p.
Proof.
  split; [vm_refl|].
  destruct (range_header_exact (w_conditional [("Range", "bytes=7-99")]) 10 (Between 7 99))
    as [(r & Hr & _ & Hp)|[He _]]; [split; vm_compute; congruence|split; split; vm_compute; congruence|vm_refl|eauto|].
  vm_compute in He. done.
Defined.

(** A disk with one object. *)
Definition w_object5 : ObjectMetadata :=
  mkObjectMetadata w_bucket w_key 5 w_etag (Some "text/plain") None None None None None None [] []
    (dur_seconds 1000).
Definition w_stored : World := (run_ops [Put w_uuid w_object5 "hello"] w_empty).2.
Definition w_objects : objects := (spec_ops [Put w_uuid w_object5 "hello"] ∅).2.

Lemma w_stored_refines : refines (files w_stored) w_objects.
Proof.
  unfold w_stored. destruct (run_ops _ w_empty) as [r w'] eqn:Hrun. cbn [snd].
  pose proof (wp_run_ops [Put w_uuid w_object5 "hello"] (files w_empty) (sessions w_empty) ∅ refines_empty) as Hwp.
  exact (proj2 (proj2 (proj2 (wp_run _ _ _ _ _ Hrun Hwp)))).
Qed.

Definition w_get : result S3Error Response * World :=
  handle_get_object [ReadUpTo 0] w_state (w_request "GET" None [("Range", "bytes=1-3")]) w_id w_anonymous w_stored.

Lemma get_object_serves_witness :
  (λ resp, (rs_status resp, delivered (rs_body resp))) <$> result_ok w_get.1 = Some (206, "ell" : bytes) ∧
  files w_get.2 = files w_stored.
Proof.
  assert (∀ d md c, w_objects !! d = Some (md, c) → is_u64 (om_size md)) as Hu.
  { intros d md c. unfold w_objects. simpl. destruct (decide (target_digest w_object5 = d)) as [<-|Hne].
    - unfold target_digest. intros Hl. vm_compute in Hl. injection Hl as <- <-. vm_compute. by split.
    - intros Hl. exfalso. apply Hne. revert Hl.
      change (object_digest (om_bucket w_object5) (om_key w_object5)) with (target_digest w_object5).
      rewrite lookup_insert_ne by done. done. }
  split; [vm_refl|]. destruct w_get as [res w'] eqn:Hrun.
  exact (proj1 (proj1 (get_object_serves _ w_state _ _ _ _ _ w_objects _ w_stored_refines eq_refl Hu Hrun))).
Defined.

Lemma head_agrees_with_get_witness :
  rs_status <$> result_ok (handle_head_object w_state (w_request "HEAD" None []) w_id w_anonymous w_stored).1 = Some 200 ∧
  match (handle_head_object w_state (w_request "HEAD" None []) w_id w_anonymous w_stored).1,
        (handle_get_object [] w_state (w_request "HEAD" None []) w_id w_anonymous w_stored).1 with
  | Ok head, Ok get =>
      rs_status head = rs_status get ∧ rs_headers head = rs_headers get ∧ rs_body head = []
  | Err e, Err e' => e = e'
  | _, _ => False
  end.
Proof.
  split; [vm_refl|].
  destruct (resolve_request_target w_state (w_request "HEAD" None [])) as [t|e] eqn:Ht;
    [|assert (is_ok (resolve_request_target w_state (w_request "HEAD" None [])) = true) as Hok by vm_refl;
      rewrite Ht in Hok; discriminate Hok].
  eapply head_agrees_with_get; [reflexivity|exact w_stored_refines|exact Ht|..];
    [by split_and!|by split_and!|vm_refl|vm_refl|].
  repeat constructor; vm_refl.
Defined.
End witnesses.
