(* ===== verification/PutObject.v ===== *)
(** * PutObject, DeleteObject and HeadBucket (handlers/put_object.rs,
    handlers/delete_object.rs, handlers/head_bucket.rs)

    The body of an upload goes through [write_upload_body] of [Upload.v] into a
    temporary file, through the processors, and is published with its metadata. *)

From S2P Require Import Prelude RustStd BTree S3Error Externals Reference Types Target Config Http.
From S2P Require Import Chunked ChunkedProofs Checksum Upload Auth Hooks Admission Routing Requests.
From S2P Require Import StoreModel ReferenceJson FileSystem ObjectStore ObjectProofs ObjectSpec StoreTrait Middleware.
From S2P Require Import Assembly MultipartStore MultipartProofs Streams AppState HeadObject.
From Stdlib Require Import ZArith Lia.
Local Open Scope Z_scope.

Section put_object.
Context `{HttpLib} `{CodecLib} `{CryptoLib} `{ChronoLib} `{UuidLib} `{JsonLib}.
Local Existing Instance mem_writer.

Definition store_msg (e : StoreError) : str :=
  match e with Io e => io_error_msg e | e => store_error_msg e end.

(** [write_upload_body] into the file [p]. The writes of the buffered writer are
    one call, made when the body is accepted; when the body is refused, some
    bytes have reached the file. *)
(* @src src/src/handlers/put_object.rs 78-86 handle_put_object *)
Definition receive_into (env : Env) (p : path) (headers : HeaderMap) (body : Body) (write_target : str)
    (signing : option StreamingSigningContext) (max : Z) : ioE S3Error UploadedBody :=
  match write_upload_body headers body [] write_target signing max with
  | Some (Ok (uploaded, data)) =>
      _ ← map_io_err (λ e, internal ("failed to write " ++ write_target ++ ": " ++ store_msg e))
            (fs_append p data);
      mret uploaded
  | Some (Err e) => _ ← ignore (fs_append p (env_flushed env)); throw e
  | None => throw (internal "unreachable")
  end.

(* @src src/src/handlers/put_object.rs 135-156 handle_put_object *)
Definition put_metadata (now : Z) (no_processors : bool) (t : S3Target) (um : UploadMetadata)
    (uploaded : UploadedBody) (final_body : FinalUploadBody) : ObjectMetadata := {|
  om_bucket := target_bucket t;
  om_key := target_key t;
  om_size := content_length_get (fu_size final_body);
  om_etag := etag_from_hex_md5 (hex_encode (cd_md5 (fu_digests final_body)));
  om_content_type := um_content_type um;
  om_content_encoding := um_content_encoding um;
  om_content_disposition := um_content_disposition um;
  om_content_language := um_content_language um;
  om_cache_control := um_cache_control um;
  om_expires := um_expires um;
  om_tagging := um_tagging um;
  om_user_metadata := um_user_metadata um;
  om_checksums := if no_processors then ub_checksums uploaded
                  else checksum_values_for_requested_headers (ub_checksums uploaded) (fu_digests final_body);
  om_last_modified := now;
|}.

(* @src src/src/handlers/put_object.rs 172-190 handle_put_object *)
Definition put_response (m : ObjectMetadata) (id : RequestId) : result S3Error Response :=
  let response := header "content-length" "0"
    (header_named "x-amz-request-id" (request_id_str id)
      (header "etag" (etag_str (om_etag m)) (builder 200))) in
  let response := if negb (is_empty (om_checksums m))
                  then header_named "x-amz-checksum-type" "FULL_OBJECT" response else response in
  response ← finish_response empty_body (header_each (om_checksums m) response);
  Ok (record_decoded_body_bytes response (om_size m)).

(** Everything that is decided before a byte of the body is read. *)
(* @src src/src/handlers/put_object.rs 40-64 handle_put_object *)
Definition put_checks (env : Env) (s : AppState) (r : Request) (id : RequestId) (ctx : AuthContext)
  : result S3Error (S3Target * UploadMetadata) :=
  let path := uri_path (req_uri r) in
  let headers := req_headers r in
  target ← resolve_request_target s r;
  _ ← map_err (λ error, with_resource error path) (validate_supported_request_body_length headers);
  _ ← validate_upload_headers headers;
  _ ← authorize_request s ctx (target_bucket target) (Some (target_key target)) ActPutObject;
  _ ← allow_upload s (mkUploadPolicy id (target_bucket target) (target_key target) ActPutObject headers);
  upload_metadata ← collect_upload_metadata headers;
  _ ← try_acquire_object_writer (env_permits env);
  _ ← try_acquire_aws_chunked_decoder (env_permits env) headers;
  Ok (target, upload_metadata).

Section handlers.
Context `{!ObjectStoreOps}.

(** From the staged body to the published object. *)
(* @src src/src/handlers/put_object.rs 94-162 handle_put_object *)
Definition store_upload (env : Env) (s : AppState) (id : RequestId) (temp : StagedObject) (t : S3Target)
    (um : UploadMetadata) (uploaded : UploadedBody) : ioE S3Error ObjectMetadata :=
  _ ← drop_guard (so_path temp)
        (map_io_err (λ e, internal ("failed to flush object body: " ++ store_error_msg e)) fs_flush);
  let processors := numbered_processors env 1 s in
  let context := mkContext id (target_bucket t) (target_key t) OpPutObject (ub_size uploaded)
    (um_content_type um) (um_user_metadata um) in
  staged ← process_staged_upload processors temp context;
  final_body ← drop_guard (so_path staged)
    (summarize_file (so_path staged) (upload_summary_buffer_size (st_io_tuning s)));
  if content_length_get (fu_size final_body) >? max_object_size (upload_limits (st_config s)) then
    drop_guard (so_path staged)
      (throw (entity_too_large "Your proposed upload exceeds the maximum allowed size."))
  else
    let metadata := put_metadata (state_now s (env_now env)) (processors_are_empty processors) t um uploaded final_body in
    _ ← map_io_err (λ e, internal ("failed to commit object: " ++ store_error_msg e))
          (store_commit_staged_object staged metadata);
    mret metadata.

(* @src src/src/handlers/put_object.rs 34-191 handle_put_object *)
Definition handle_put_object (env : Env) (s : AppState) (r : Request) (body : Body) (id : RequestId)
    (ctx : AuthContext) : ioE S3Error Response :=
  '(target, upload_metadata) ← lift (put_checks env s r id ctx);
  temp ← map_io_err (λ e, internal ("failed to create temporary object: " ++ store_error_msg e))
           (store_create_temp_object (env_uuid env 0) (target_bucket target) (target_key target));
  uploaded ← drop_guard (so_path temp)
    (receive_into env (so_path temp) (req_headers r) body "object body" (actx_streaming_signing ctx)
      (max_object_size (upload_limits (st_config s))));
  metadata ← store_upload env s id temp target upload_metadata uploaded;
  lift (put_response metadata id).

(** ** DeleteObject and HeadBucket *)

(* @src src/src/handlers/delete_object.rs 45-50 delete_object *)
Definition no_content (status : Z) (id : RequestId) : result S3Error Response :=
  finish_response empty_body
    (header "content-length" "0" (header_named "x-amz-request-id" (request_id_str id) (builder status))).

(* @src src/src/handlers/delete_object.rs 16-51 delete_object *)
Definition handle_delete_object (s : AppState) (r : Request) (id : RequestId) (ctx : AuthContext)
  : ioE S3Error Response :=
  target ← lift (resolve_request_target s r);
  _ ← lift (authorize_request s ctx (target_bucket target) (Some (target_key target)) ActDeleteObject);
  _ ← lift (validate_empty_payload_hash r);
  _ ← map_io_err (λ e, internal ("failed to delete object: " ++ store_error_msg e))
        (store_delete_object (target_bucket target) (target_key target));
  lift (no_content 204 id).
End handlers.

(* @src src/src/handlers/head_bucket.rs 16-32 head_bucket *)
Definition handle_head_bucket (s : AppState) (r : Request) (id : RequestId) (ctx : AuthContext)
  : result S3Error Response :=
  bucket ← resolve_request_bucket s r;
  _ ← authorize_request s ctx bucket None ActHeadBucket;
  _ ← validate_empty_payload_hash r;
  no_content 200 id.
End put_object.

(** ** Correctness *)

Section put_proofs.
Context `{HttpLib} `{CodecLib} `{CryptoLib} `{ChronoLib} `{UuidLib} `{JsonLib}.
Local Existing Instance mem_writer.
Implicit Types (n : nat) (fs : gmap path bytes) (ss : gmap str UploadSession) (objs : objects).
Implicit Types (funs : list (bytes → result UploadProcessorError (option bytes))).

Lemma put_checks_ok env s r id ctx t um :
  put_checks env s r id ctx = Ok (t, um) →
  resolve_request_target s r = Ok t ∧ permitted s ctx (target_bucket t) (Some (target_key t)) ActPutObject.
Proof.
  unfold put_checks. intros Hc. rewrite <- authorize_request_ok.
  destruct (resolve_request_target s r) as [t'|]; [|done]. cbn [mbind result_bind] in Hc.
  destruct (map_err _ _) as [[]|]; [|done]. destruct (validate_upload_headers _) as [[]|]; [|done].
  cbn [mbind result_bind] in Hc. destruct (authorize_request _ _ _ _ _) as [[]|] eqn:Ha; [|done].
  cbn [mbind result_bind] in Hc. destruct (allow_upload _ _) as [[]|]; [|done]. cbn [mbind result_bind] in Hc.
  destruct (collect_upload_metadata _); [|done]. cbn [mbind result_bind] in Hc.
  destruct (try_acquire_object_writer _); [|done]. cbn [mbind result_bind] in Hc.
  destruct (try_acquire_aws_chunked_decoder _ _); [|done]. by injection Hc as <- <-.
Qed.

(** The body as it is decoded into memory. *)
Definition decode_body (r : Request) (body : Body) (wt : str) (ctx : AuthContext) (max : Z)
  : option (result S3Error (UploadedBody * bytes)) :=
  write_upload_body (req_headers r) body [] wt (actx_streaming_signing ctx) max.

Lemma wp_receive_into env p headers body wt signing max n fs ss Q :
  fs !! p = Some [] →
  (∀ up data, write_upload_body headers body [] wt signing max = Some (Ok (up, data)) →
     Q (Ok up) n (<[p := data]> fs) ss) →
  (∀ e n' c, (n' ≤ n)%nat →
     (n = 0%nat → write_upload_body headers body [] wt signing max = Some (Err e)) →
     Q (Err e) n' (<[p := c]> fs) ss) →
  wp (receive_into env p headers body wt signing max) n fs ss Q.
Proof.
  intros Hp HOk HErr. unfold receive_into.
  destruct (write_upload_body_total headers body [] wt signing max) as [[[up data]|e] Hw]; rewrite Hw.
  - apply wp_bind, wp_map_io_err, wp_call; simpl; rewrite ?Hp; simpl.
    + by apply wp_ret, HOk.
    + intros f n' ->. destruct (f_written f) as [k|]; simpl.
      * apply HErr; [lia|done].
      * rewrite <- (insert_id fs p []) by done. apply HErr; [lia|done].
  - apply wp_bind, wp_ignore, wp_call; simpl; rewrite ?Hp; simpl.
    + by apply wp_throw, HErr.
    + intros f n' ->. destruct (f_written f) as [k|]; simpl; apply wp_throw.
      * apply HErr; [lia|done].
      * rewrite <- (insert_id fs p []) by done. apply HErr; [lia|done].
Qed.

(** A guard under any faults: its file may be gone or not. *)
Lemma wp_drop_guard_any {E A : Type} (p : path) (m : ioE E A) n fs ss Q :
  wp m n fs ss (λ r n' fs' ss',
    match r with
    | Ok a => Q (Ok a) n' fs' ss'
    | Err e => ∀ n'' fs'', (n'' ≤ n')%nat → (∀ q, q ≠ p → fs'' !! q = fs' !! q) →
                 (n' = 0%nat → fs'' !! p = None) → Q (Err e) n'' fs'' ss'
    end) →
  wp (drop_guard p m) n fs ss Q.
Proof.
  intros Hwp. apply wp_bind, wp_attempt. eapply wp_mono; [exact Hwp|].
  intros [a|e] n' fs' ss' HQ; simpl; [by apply wp_ret|].
  apply wp_ignore_remove. intros n'' fs'' Hn Hf Hz. apply wp_throw. by apply HQ.
Qed.

Lemma numbered_runs_as env first s funs :
  Forall2 runs_as (st_upload_processors s) funs →
  Forall2 (λ up f, runs_as up.2 f) (numbered_processors env first s) funs.
Proof.
  assert (∀ ps funs (ids : nat → Uuid), Forall2 runs_as ps funs →
    Forall2 (λ up f, runs_as up.2 f) (imap (λ i p, (ids i, p)) ps) funs) as Hps.
  { induction ps as [|p ps IH]; intros fs ids Hf; inversion_clear Hf; [constructor|].
    rewrite imap_cons. constructor; [done|]. by apply (IH _ (λ i, ids (S i))). }
  apply Hps.
Qed.

Lemma numbered_empty env first s :
  processors_are_empty (numbered_processors env first s) = is_empty (st_upload_processors s).
Proof. unfold numbered_processors, processors_are_empty. by destruct (st_upload_processors s). Qed.

(** The metadata of an object of [data], field by field. *)
Definition uploaded_object (now : Z) (t : S3Target) (um : UploadMetadata) (checksums : btree str str)
    (data : bytes) : ObjectMetadata := {|
  om_bucket := target_bucket t;
  om_key := target_key t;
  om_size := Z.min (len data) u64_max;
  om_etag := md5_etag data;
  om_content_type := um_content_type um;
  om_content_encoding := um_content_encoding um;
  om_content_disposition := um_content_disposition um;
  om_content_language := um_content_language um;
  om_cache_control := um_cache_control um;
  om_expires := um_expires um;
  om_tagging := um_tagging um;
  om_user_metadata := um_user_metadata um;
  om_checksums := checksums;
  om_last_modified := now;
|}.

(** The checksums of an object of [data]: those of the upload, which processors
    make one recompute. *)
Definition object_checksums (s : AppState) (up : UploadedBody) (data : bytes) : btree str str :=
  if is_empty (st_upload_processors s) then ub_checksums up else recomputed (ub_checksums up) data.

Lemma put_metadata_uploaded now s t um up data :
  (∃ f, ub_checksums up = listed_checksums f) →
  put_metadata now (is_empty (st_upload_processors s)) t um up
    (mkFinal (mkContentLength (Z.min (len data) u64_max)) (true_digests data)) =
  uploaded_object now t um (object_checksums s up data) data.
Proof.
  intros Hup. unfold put_metadata, uploaded_object, object_checksums. cbn [fu_size fu_digests content_length_get].
  rewrite recomputed_spec by done. done.
Qed.

(** The fields of the answer to an upload. *)
Definition put_fields (md : ObjectMetadata) (id : RequestId) : list (str * str) :=
  [("etag", etag_str (om_etag md)); ("x-amz-request-id", request_id_str id); ("content-length", "0")] ++
  (if is_empty (om_checksums md) then [] else [("x-amz-checksum-type", "FULL_OBJECT")]) ++ om_checksums md.

(** The answer to an upload of the object [md]. *)
Definition stored_answer (md : ObjectMetadata) (id : RequestId) (res : result S3Error Response) : Prop :=
  answers res 200 (put_fields md id) [] (Some (om_size md)).

Lemma put_response_stored md id : stored_answer md id (put_response md id).
Proof.
  assert (built (header_each (om_checksums md)
    (if negb (is_empty (om_checksums md)) then header_named "x-amz-checksum-type" "FULL_OBJECT"
       (header "content-length" "0" (header_named "x-amz-request-id" (request_id_str id)
         (header "etag" (etag_str (om_etag md)) (builder 200))))
     else header "content-length" "0" (header_named "x-amz-request-id" (request_id_str id)
         (header "etag" (etag_str (om_etag md)) (builder 200))))) 200 (put_fields md id)) as Hb.
  { unfold put_fields. rewrite app_assoc. apply built_header_each.
    change [("etag", etag_str (om_etag md)); ("x-amz-request-id", request_id_str id); ("content-length", "0")]
      with ((([] ++ [("etag", etag_str (om_etag md))]) ++ [("x-amz-request-id", request_id_str id)]) ++
            [("content-length", "0")]).
    destruct (is_empty (om_checksums md)); cbn [negb]; [rewrite app_nil_r|apply built_header_named];
      apply built_header, built_header_named, built_header, built_builder. }
  apply (finish_response_answers empty_body) in Hb. unfold put_response, stored_answer. cbv zeta.
  destruct (finish_response _ _) as [r|e]; [|done]. destruct Hb as (Hst & Hf & Hbody & _). done.
Qed.

(** The object a request asks to store, or why it is refused, as a function of
    the request: the checks, the decoded body, the processors [funs], the limit,
    the metadata. *)
Definition put_spec (env : Env) (s : AppState) (r : Request) (body : Body) (id : RequestId)
    (ctx : AuthContext) funs : result S3Error (ObjectMetadata * bytes) :=
  let max := max_object_size (upload_limits (st_config s)) in
  '(t, um) ← put_checks env s r id ctx;
  '(up, data) ← default (Err (internal "unreachable")) (decode_body r body "object body" ctx max);
  data ← map_err map_processor_error (run_processors funs data);
  let size := Z.min (len data) u64_max in
  if size >? max then Err (entity_too_large "Your proposed upload exceeds the maximum allowed size.")
  else
    let md := uploaded_object (state_now s (env_now env)) t um (object_checksums s up data) data in
    match json_of_object md with
    | Some _ => Ok (md, data)
    | None => Err (internal ("failed to commit object: " ++ store_error_msg Json))
    end.

Lemma put_spec_unfold env s r body id ctx funs t um up data :
  put_checks env s r id ctx = Ok (t, um) →
  decode_body r body "object body" ctx (max_object_size (upload_limits (st_config s))) = Some (Ok (up, data)) →
  put_spec env s r body id ctx funs =
    data ← map_err map_processor_error (run_processors funs data);
    let size := Z.min (len data) u64_max in
    if size >? max_object_size (upload_limits (st_config s))
    then Err (entity_too_large "Your proposed upload exceeds the maximum allowed size.")
    else
      let md := uploaded_object (state_now s (env_now env)) t um (object_checksums s up data) data in
      match json_of_object md with
      | Some _ => Ok (md, data)
      | None => Err (internal ("failed to commit object: " ++ store_error_msg Json))
      end.
Proof. intros Hc Hd. unfold put_spec. rewrite Hc. cbn [mbind result_bind]. by rewrite Hd. Qed.

Lemma put_spec_inv env s r body id ctx md c :
  put_spec env s r body id ctx [] = Ok (md, c) →
  is_Some (json_of_object md) ∧ om_size md = Z.min (len c) u64_max ∧ is_u64 (om_size md).
Proof.
  unfold put_spec. destruct (put_checks env s r id ctx) as [[t um]|]; [|done]. cbn [mbind result_bind].
  destruct (default _ (decode_body _ _ _ _ _)) as [[up data]|]; [|done]. cbn [mbind result_bind run_processors map_err].
  destruct (_ >? _); [done|]. cbv zeta. destruct (json_of_object _) eqn:Hj; [|done]. intros [= <- <-].
  split_and!; [by eexists|done|]. unfold is_u64. simpl. unfold len, u64_max. lia.
Qed.

(** Staging is undone: the disk is as before. *)
Lemma refines_unstaged fs fs' objs (p : path) :
  refines fs objs → fs !! p = None → (∀ q, q ≠ p → fs' !! q = fs !! q) → fs' !! p = None → refines fs' objs.
Proof.
  intros Hr Hp Hq Hp'. replace fs' with fs; [done|]. apply map_eq. intros q.
  destruct (decide (q = p)) as [->|Hne]; [congruence|by rewrite Hq].
Qed.

Lemma wp_store_upload_calm env s id u t um up data funs fs ss objs Q :
  let temp := mkStaged u (tmp_file u ".part") in
  let max := max_object_size (upload_limits (st_config s)) in
  refines fs objs → 0 < upload_summary_buffer_size (st_io_tuning s) →
  Forall2 runs_as (st_upload_processors s) funs → (∃ f, ub_checksums up = listed_checksums f) →
  (∀ res fs',
     match (data ← map_err map_processor_error (run_processors funs data);
            let size := Z.min (len data) u64_max in
            if size >? max then Err (entity_too_large "Your proposed upload exceeds the maximum allowed size.")
            else
              let md := uploaded_object (state_now s (env_now env)) t um (object_checksums s up data) data in
              match json_of_object md with
              | Some _ => Ok (md, data)
              | None => Err (internal ("failed to commit object: " ++ store_error_msg Json))
              end) with
     | Ok (md, data) => res = Ok md ∧ refines fs' (<[target_digest md := (md, data)]> objs)
     | Err e => res = Err e ∧ refines fs' objs
     end → Q res 0%nat fs' ss) →
  wp (store_upload env s id temp t um up) 0 (<[so_path temp := data]> fs) ss Q.
Proof.
  intros temp max Hr Hbuf Hprocs Hsums HQ. unfold store_upload.
  pose proof Hr as [Htmp _]. assert (fs !! so_path temp = None) as Hfresh by apply Htmp.
  apply wp_bind, wp_drop_guard, wp_map_io_err, wp_call; [|done]. simpl.
  apply wp_bind. eapply wp_mono.
  { apply wp_process_staged_upload with (c := data);
      [done|by apply numbered_runs_as|by rewrite lookup_insert_eq]. }
  cbv beta. intros res n' fs' ss' (-> & -> & Hf & Hres).
  assert (∀ q, q ≠ so_path temp → fs' !! q = fs !! q) as Hf'.
  { intros q Hq. destruct (Hf q Hq) as [->|[Hin ->]]; [by rewrite lookup_insert_ne|].
    apply list_elem_of_fmap in Hin as (v & -> & _). symmetry. apply Htmp. }
  destruct (run_processors funs data) as [data'|e]; destruct Hres as [-> Hc]; cbn [map_err mbind result_bind] in HQ.
  2: { apply HQ. split; [done|]. by apply (refines_unstaged fs fs' objs (so_path temp)). }
  assert (fs' = <[so_path temp := data']> fs) as ->.
  { apply map_eq. intros q. destruct (decide (q = so_path temp)) as [->|Hq];
      [by rewrite Hc, lookup_insert_eq|by rewrite lookup_insert_ne, Hf']. }
  apply wp_bind, wp_drop_guard, wp_summarize_file with data'; [done|done|].
  cbv beta iota. cbn [fu_size content_length_get fu_digests]. fold max. cbv zeta in HQ.
  rewrite numbered_empty, put_metadata_uploaded by done. destruct (Z.min _ _ >? max).
  - apply wp_drop_guard, wp_throw. split; [done|]. apply HQ. split; [done|].
    apply (refines_unstaged fs _ objs (so_path temp)); [done|done| |by rewrite lookup_delete_eq].
    intros q Hq. by rewrite lookup_delete_ne, lookup_insert_ne.
  - apply wp_bind, wp_map_io_err, wp_commit_refines with objs; [done|]. intros fs1 _.
    match goal with |- context [json_of_object ?m] => set (md := m) in * end.
    destruct (json_of_object md); intros Hr1; cbn [map_err].
    + apply wp_ret. by apply HQ.
    + by apply HQ.
Qed.

Lemma wp_put_object env s r body id ctx funs fs ss objs :
  refines fs objs → 0 < upload_summary_buffer_size (st_io_tuning s) →
  Forall2 runs_as (st_upload_processors s) funs →
  wp (handle_put_object env s r body id ctx) 0 fs ss (λ res _ fs' ss',
    ss' = ss ∧
    match put_spec env s r body id ctx funs with
    | Ok (md, data) => stored_answer md id res ∧ refines fs' (<[target_digest md := (md, data)]> objs)
    | Err e => res = Err e ∧ refines fs' objs
    end).
Proof.
  intros Hr Hbuf Hprocs. unfold handle_put_object. pose proof Hr as [Htmp _].
  apply wp_bind, wp_lift.
  destruct (put_checks env s r id ctx) as [[t um]|e] eqn:Hck; [|unfold put_spec; by rewrite Hck].
  set (max := max_object_size (upload_limits (st_config s))).
  apply wp_bind, wp_map_io_err, wp_bind, wp_call; [|done]. simpl. apply wp_ret. cbn [map_err].
  set (p := tmp_file (env_uuid env 0) ".part"). cbn [so_path].
  apply wp_bind, wp_drop_guard, wp_receive_into; [by rewrite lookup_insert_eq| |].
  - intros up data Hd. rewrite insert_insert_eq. apply wp_bind.
    apply (wp_store_upload_calm env s id (env_uuid env 0) t um up data funs fs ss objs _ Hr Hbuf Hprocs).
    { by eapply upload_checksums_listed. }
    rewrite (put_spec_unfold env s r body id ctx funs t um up data Hck Hd). intros res fs' Hres.
    match type of Hres with match ?x with _ => _ end => destruct x as [[md data']|e] end;
      destruct Hres as [-> Hr']; [|done]. apply wp_lift. split_and!; [done|apply put_response_stored|done].
  - intros e n' c Hn He. split; [lia|]. unfold put_spec, decode_body. rewrite Hck. cbn [mbind result_bind].
    fold max. rewrite He by done. cbn [default from_option].
    split; [done|]. split; [done|].
    apply (refines_unstaged fs _ objs p); [done|apply Htmp| |by rewrite lookup_delete_eq].
    intros q Hq. by rewrite lookup_delete_ne, !lookup_insert_ne by done.
Qed.

(* @prop refinement 5 : handle_put_object put_checks store_upload put_metadata put_response receive_into write_upload_body process_staged_upload summarize_staged_upload commit_staged_object *)
(** C5: PutObject stores what the client sent. Without file system faults, the
    handler is the function [put_spec] of the request: when the checks pass, the
    body decodes, the processors accept it and it is within the limit, the store
    holds exactly the processed bytes under the target name, with their size,
    their MD5 as the ETag, the metadata of the headers, the checksums of the
    upload (recomputed when there are processors) and the time, and the answer is
    200 with the ETag, the request id and the checksums; in every other case the
    error is the answer and all objects are as before. *)
Theorem put_object_refines env s r body id ctx funs w w' objs res :
  faults w = [] → refines (files w) objs → 0 < upload_summary_buffer_size (st_io_tuning s) →
  Forall2 runs_as (st_upload_processors s) funs →
  handle_put_object env s r body id ctx w = (res, w') →
  sessions w' = sessions w ∧
  match put_spec env s r body id ctx funs with
  | Ok (md, data) =>
      stored_answer md id res ∧ refines (files w') (<[target_digest md := (md, data)]> objs)
  | Err e => res = Err e ∧ refines (files w') objs
  end.
Proof.
  intros Hfl Hr Hb Hp Hrun. assert (budget w = 0%nat) as Hb0 by (unfold budget; by rewrite Hfl).
  pose proof (wp_put_object env s r body id ctx funs (files w) (sessions w) objs Hr Hb Hp) as Hwp.
  rewrite <- Hb0 in Hwp. exact (wp_run _ _ _ _ _ Hrun Hwp).
Qed.

(** ** Against the contract of the store *)

Section contract.
Context `{St : !ObjectStoreOps} `{!ObjectStoreContract St}.

(** The metadata of an upload of [data] without processors. *)
Definition stored_metadata (env : Env) (s : AppState) (t : S3Target) (um : UploadMetadata) (up : UploadedBody) (data : bytes)
  : ObjectMetadata :=
  uploaded_object (state_now s (env_now env)) t um (ub_checksums up) data.

(** What an upload of [data] with the metadata [md] has done: if it succeeded,
    the store contains it; without faults it contains it or is as before. *)
Definition stored_post md objs ss data n (res : result S3Error ObjectMetadata) fs' ss' : Prop :=
  ss' = ss ∧ (∀ md', res = Ok md' → md' = md ∧ contains fs' (<[target_digest md := (md, data)]> objs)) ∧
  (n = 0%nat → is_ok res = false → contains fs' objs).

Lemma stored_dropped md objs ss data n (e : S3Error) fs fs' st c :
  staging fs objs st c → (∀ q, q ≠ so_path st → fs' !! q = fs !! q) → (n = 0%nat → fs' !! so_path st = None) →
  stored_post md objs ss data n (Err e) fs' ss.
Proof.
  intros Hst Hf Hnone. split_and!; [done..|]. intros Hn _. replace fs' with (delete (so_path st) fs).
  - by eapply staging_drop.
  - apply map_eq. intros q. destruct (decide (q = so_path st)) as [->|Hq];
      [by rewrite lookup_delete_eq, Hnone|by rewrite lookup_delete_ne, Hf].
Qed.

Lemma wp_store_upload_contract env s id st t um up data n fs ss objs :
  staging fs objs st data → 0 < upload_summary_buffer_size (st_io_tuning s) → st_upload_processors s = [] →
  wp (store_upload env s id st t um up) n fs ss (λ res _ fs' ss',
    stored_post (stored_metadata env s t um up data) objs ss data n res fs' ss').
Proof.
  intros Hst Hbuf Hnone. unfold store_upload.
  apply wp_bind, wp_drop_guard_any, wp_map_io_err, wp_call; simpl.
  2: { intros f n' -> n'' fs'' _ Hf _. by eapply stored_dropped. }
  unfold numbered_processors. rewrite Hnone. cbn [imap process_staged_upload]. apply wp_bind, wp_ret.
  apply wp_bind, wp_drop_guard_any, wp_bind, wp_attempt, wp_call; simpl.
  2: { intros f n' ->. apply wp_lift. intros n'' fs'' _ Hf _. by eapply stored_dropped. }
  rewrite (staging_bytes _ _ _ _ Hst). cbn [ok_or map_err].
  destruct (file_chunks_spec (upload_summary_buffer_size (st_io_tuning s)) data Hbuf) as [Hcat Hne].
  apply wp_lift. rewrite staged_summary by done. rewrite Hcat. cbn [fu_size content_length_get fu_digests].
  destruct (Z.min _ _ >? _).
  { apply wp_drop_guard_any, wp_throw. intros n'' fs'' _ Hf Hz. by eapply stored_dropped. }
  apply wp_bind, wp_map_io_err. cbn [processors_are_empty is_empty]. fold (stored_metadata env s t um up data).
  apply commit_law with data objs; [done| |].
  - intros n' fs' _ Hc. apply wp_ret. split_and!; [done| |done]. by intros ? [= <-].
  - intros e n' fs' _ Hz. split_and!; [done..|]. intros Hn _. apply (Hz Hn).
Qed.

Lemma wp_put_contract env s r body id ctx n fs ss objs t um :
  contains fs objs → 0 < upload_summary_buffer_size (st_io_tuning s) → st_upload_processors s = [] →
  put_checks env s r id ctx = Ok (t, um) →
  let d := object_digest (target_bucket t) (target_key t) in
  wp (handle_put_object env s r body id ctx) n fs ss (λ res _ fs' ss',
    ss' = ss ∧
    (∀ resp, res = Ok resp → ∃ up data, let md := stored_metadata env s t um up data in
      decode_body r body "object body" ctx (max_object_size (upload_limits (st_config s))) = Some (Ok (up, data)) ∧
      put_response md id = Ok resp ∧ contains fs' (<[d := (md, data)]> objs)) ∧
    (n = 0%nat → is_ok res = false → contains fs' objs ∨ ∃ md data, contains fs' (<[d := (md, data)]> objs))).
Proof.
  intros Hr Hbuf Hnone Hck d. unfold handle_put_object. rewrite Hck. apply wp_bind, wp_lift.
  apply wp_bind, wp_map_io_err, create_law with objs; [done| |].
  2: { intros e n' fs' ->. by split_and!. }
  intros st fs1 Hst. cbn [map_err].
  apply wp_bind, wp_drop_guard_any, wp_receive_into; [by eapply staging_bytes| |].
  - intros up data Hd. apply wp_bind. eapply wp_mono.
    { apply (wp_store_upload_contract env s id st t um up data n); [by eapply staging_write|done|done]. }
    intros [md|e] n' fs' ss' (-> & Hres & Hz).
    + destruct (Hres md eq_refl) as [-> Hc].
      apply wp_lift. destruct (put_response _ id) as [resp|e] eqn:Hresp.
      * split_and!; [done| |done]. intros ? [= <-]. by exists up, data.
      * split_and!; [done..|]. intros _ _. right. by exists (stored_metadata env s t um up data), data.
    + split_and!; [done..|]. intros Hn _. left. by apply Hz.
  - intros e n' c Hn _ n'' fs'' _ Hf Hnil. split_and!; [done..|]. intros -> _. left.
    eapply (stored_dropped (stored_metadata env s t um (mkUploaded (mkContentLength 0) [] []) []) objs ss [] 0 e (<[so_path st := c]> fs1) fs''); [by eapply staging_write|done| |done|done].
    intros _. apply Hnil. lia.
Qed.
End contract.

(** ** Durability under faults *)

(** Only temporary files and the two files of the digest [d] may differ. *)
Definition changes_only (d : str) fs fs' : Prop :=
  ∀ q, head q ≠ Some "tmp" → q ≠ data_file d → q ≠ json_file d → fs' !! q = fs !! q.

(** The file names [d] have no metadata, or they are the whole object. *)
Definition whole_or_none (t : S3Target) (d : str) data fs : Prop :=
  fs !! json_file d = None ∨ ∃ md,
    om_bucket md = target_bucket t ∧ om_key md = target_key t ∧
    om_size md = Z.min (len data) u64_max ∧ om_etag md = md5_etag data ∧
    holds fs d (Some (md, data)).

Definition durable_post (t : S3Target) (d : str) fs ss objs data
    (res : result S3Error ObjectMetadata) fs' ss' : Prop :=
  ss' = ss ∧ changes_only d fs fs' ∧ (objs !! d = None → whole_or_none t d data fs') ∧
  ∀ md, res = Ok md →
    om_bucket md = target_bucket t ∧ om_key md = target_key t ∧
    om_size md = Z.min (len data) u64_max ∧ om_etag md = md5_etag data ∧
    refines fs' (<[d := (md, data)]> objs).

Lemma wp_store_upload_any env s id u t um up data n fs ss objs :
  let temp := mkStaged u (tmp_file u ".part") in
  let d := object_digest (target_bucket t) (target_key t) in
  refines fs objs → 0 < upload_summary_buffer_size (st_io_tuning s) → st_upload_processors s = [] →
  wp (store_upload env s id temp t um up) n (<[so_path temp := data]> fs) ss
    (λ res _ fs' ss', durable_post t d fs ss objs data res fs' ss').
Proof.
  intros temp d Hr Hbuf Hnone. unfold store_upload. pose proof Hr as [Htmp Hm].
  set (fs1 := <[so_path temp := data]> fs).
  assert (∀ q, head q ≠ Some "tmp" → fs1 !! q = fs !! q) as Hfs1.
  { intros q Hq. subst fs1. rewrite lookup_insert_ne; [done|]. by intros <-. }
  assert (∀ (e : S3Error) fs', (∀ q, q ≠ so_path temp → fs' !! q = fs1 !! q) →
    durable_post t d fs ss objs data (Err e) fs' ss) as Herr.
  { intros e fs' Hf. assert (∀ q, head q ≠ Some "tmp" → fs' !! q = fs !! q) as Hsame.
    { intros q Hq. rewrite Hf, Hfs1 by first [done|by intros ->]. done. }
    split_and!; [done|by intros q Hq _ _; apply Hsame| |done].
    intros Hnew. left. rewrite Hsame by done. specialize (Hm d). by rewrite Hnew in Hm. }
  apply wp_bind, wp_drop_guard_any, wp_map_io_err, wp_call; simpl;
    [|intros f n' -> n'' fs'' _ Hf _; by apply Herr].
  unfold numbered_processors. rewrite Hnone. cbn [imap process_staged_upload].
  apply wp_bind, wp_ret.
  apply wp_bind, wp_drop_guard_any, wp_bind, wp_attempt, wp_call; simpl.
  2: { intros f n' ->. apply wp_lift. intros n'' fs'' _ Hf _. by apply Herr. }
  subst fs1. rewrite lookup_insert_eq. cbn [ok_or map_err].
  destruct (file_chunks_spec (upload_summary_buffer_size (st_io_tuning s)) data Hbuf) as [Hcat Hne].
  apply wp_lift. rewrite staged_summary by done. rewrite Hcat.
  cbn [fu_size content_length_get fu_digests].
  destruct (Z.min _ _ >? _); [apply wp_drop_guard_any, wp_throw; intros n'' fs'' _ Hf _; by apply Herr|].
  apply wp_bind, wp_map_io_err. set (md := put_metadata _ _ _ _ _ _).
  eapply wp_mono.
  { apply (wp_commit_staged_object temp md); [done|].
    repeat constructor; subst temp; simpl; rewrite lookup_insert_ne by (by apply tmp_file_ne); apply Htmp. }
  intros r n' fs' ss' Hpost. pose proof Hpost as (-> & _ & Hf & Hnone' & Hres).
  assert (target_digest md = d) as Hd by done.
  assert (changes_only d fs fs') as Hch.
  { intros q Hq Hqd Hqj. rewrite Hf; [by apply Hfs1| |done|done]. by intros [name ->]%tmp_files_names. }
  set (fs1 := <[so_path temp := data]> fs) in *.
  assert (fs1 !! so_path temp = Some data) as Hdata by apply lookup_insert_eq.
  assert (target_published temp md fs1 fs' → holds fs' d (Some (md, data))) as Hholds.
  { intros (c & Hc & Ho)%target_holds. by simplify_eq. }
  destruct r as [[]|e].
  2: { split_and!; [done|done| |done]. intros Hnew. destruct Hres as (_ & _ & Hres).
       destruct Hres as [Hj|Hp]; [|by left|right; exists md; split_and!; by try apply Hholds].
       change (fs1 !! json_file d = None). rewrite Hfs1 by done. specialize (Hm d). by rewrite Hnew in Hm. }
  apply Hholds in Hres as Ho. apply wp_ret. split_and!; [done|done| |].
  { intros _. right. exists md. by split_and!. }
  intros ? [= <-]. split_and!; [done..|].
  subst fs1.
  refine (refines_commit u md _ _ _ _ _ _ _ objs (Some (md, data)) Hpost _ (Hnone' (or_introl eq_refl)) _ Ho).
  - intros name Hin. rewrite lookup_insert_ne; [apply Htmp|]. intros Hp. apply Hin. rewrite <- Hp.
    apply list_elem_of_here.
  - intros d' _. apply holds_frame with fs; [by rewrite lookup_insert_ne|by rewrite lookup_insert_ne|done].
Qed.

Lemma wp_put_object_any env s r body id ctx n fs ss objs t um :
  refines fs objs → 0 < upload_summary_buffer_size (st_io_tuning s) → st_upload_processors s = [] →
  put_checks env s r id ctx = Ok (t, um) →
  let d := object_digest (target_bucket t) (target_key t) in
  wp (handle_put_object env s r body id ctx) n fs ss (λ res _ fs' ss',
    ss' = ss ∧ changes_only d fs fs' ∧
    (objs !! d = None → fs' !! json_file d = None ∨ ∃ up data,
       decode_body r body "object body" ctx (max_object_size (upload_limits (st_config s))) = Some (Ok (up, data)) ∧
       whole_or_none t d data fs') ∧
    ∀ resp, res = Ok resp → ∃ up data md,
      decode_body r body "object body" ctx (max_object_size (upload_limits (st_config s))) = Some (Ok (up, data)) ∧
      om_bucket md = target_bucket t ∧ om_key md = target_key t ∧ om_size md = Z.min (len data) u64_max ∧
      om_etag md = md5_etag data ∧
      put_response md id = Ok resp ∧ refines fs' (<[d := (md, data)]> objs)).
Proof.
  intros Hr Hbuf Hnone Hck d. unfold handle_put_object. pose proof Hr as [Htmp _].
  rewrite Hck. apply wp_bind, wp_lift.
  set (p := tmp_file (env_uuid env 0) ".part").
  assert (∀ fs' (N : Prop), (∀ q, q ≠ p → fs' !! q = fs !! q) →
    changes_only d fs fs' ∧ (objs !! d = None → fs' !! json_file d = None ∨ N)) as Hch.
  { intros fs' N Hf. split; [intros q Hq _ _; apply Hf; by intros ->|]. intros Hnew. left.
    rewrite Hf by done. destruct Hr as [_ Hm]. specialize (Hm d). by rewrite Hnew in Hm. }
  apply wp_bind, wp_map_io_err, wp_bind, wp_call; simpl.
  2: { intros f n' ->. split; [done|]. destruct (Hch fs (∃ up data,
         decode_body r body "object body" ctx (max_object_size (upload_limits (st_config s))) = Some (Ok (up, data)) ∧
         whole_or_none t d data fs)); [done|]. by split_and!. }
  apply wp_ret. fold p. cbn [map_err so_path].
  apply wp_bind, wp_drop_guard_any, wp_receive_into; [by rewrite lookup_insert_eq| |].
  - intros up data Hd. rewrite insert_insert_eq. apply wp_bind. eapply wp_mono.
    { exact (wp_store_upload_any env s id (env_uuid env 0) t um up data n fs ss objs Hr Hbuf Hnone). }
    intros res n' fs' ss' (-> & Hc & Hnew & Hres).
    assert (objs !! d = None → fs' !! json_file d = None ∨ ∃ up data,
      decode_body r body "object body" ctx (max_object_size (upload_limits (st_config s))) = Some (Ok (up, data)) ∧
      whole_or_none t d data fs') as Hwhole by (intros ?; right; exists up, data; auto).
    destruct res as [md|e]; [|done]. destruct (Hres md eq_refl) as (Hb & Hk & Hsz & Het & Hr').
    apply wp_lift. destruct (put_response md id) as [resp|e] eqn:Hresp; [|done].
    split_and!; [done..|]. intros ? [= <-]. by exists up, data, md.
  - intros e n' c _ _ n'' fs'' _ Hf _. split; [done|].
    destruct (Hch fs'' (∃ up data,
      decode_body r body "object body" ctx (max_object_size (upload_limits (st_config s))) = Some (Ok (up, data)) ∧
      whole_or_none t d data fs'')); [|by split_and!].
    intros q Hq. rewrite Hf by done. by rewrite !lookup_insert_ne.
Qed.

(* @prop safety 6 : handle_put_object put_checks store_upload put_metadata receive_into commit_staged_object publish *)
(** C6: on a server without upload processors, whose buffer for reading staged
    uploads is not empty, PutObject is durable and contained under any file system
    faults. Whatever
    calls fail, and however little of the data a failing call has written, an
    upload changes nothing but temporary files and the two files of the object it
    targets; when it answers success, the store holds the decoded body in full
    under that name, with its size and its MD5 ETag, and every other object as
    before; and if the name was not in use, it leaves the whole object or no
    metadata even when it fails. *)
Theorem put_object_durable env s r body id ctx w w' objs t um res :
  refines (files w) objs → 0 < upload_summary_buffer_size (st_io_tuning s) → st_upload_processors s = [] →
  put_checks env s r id ctx = Ok (t, um) →
  handle_put_object env s r body id ctx w = (res, w') →
  let d := object_digest (target_bucket t) (target_key t) in
  sessions w' = sessions w ∧ changes_only d (files w) (files w') ∧
  (objs !! d = None → files w' !! json_file d = None ∨ ∃ up data,
     decode_body r body "object body" ctx (max_object_size (upload_limits (st_config s))) = Some (Ok (up, data)) ∧
     whole_or_none t d data (files w')) ∧
  ∀ resp, res = Ok resp → ∃ up data md,
    decode_body r body "object body" ctx (max_object_size (upload_limits (st_config s))) = Some (Ok (up, data)) ∧
    om_bucket md = target_bucket t ∧ om_key md = target_key t ∧ om_size md = Z.min (len data) u64_max ∧
    om_etag md = md5_etag data ∧
    put_response md id = Ok resp ∧ refines (files w') (<[d := (md, data)]> objs).
Proof.
  intros Hr Hb Hn Hck Hrun d.
  exact (wp_run _ _ _ _ _ Hrun
           (wp_put_object_any env s r body id ctx (budget w) (files w) (sessions w) objs t um Hr Hb Hn Hck)).
Qed.
End put_proofs.

(** ** Witnesses *)

Section witnesses.
#[local] Existing Instance ref_http.
#[local] Existing Instance ref_codec.
#[local] Existing Instance ref_crypto.
#[local] Existing Instance ref_chrono.
#[local] Existing Instance ref_uuid.
#[local] Existing Instance ref_json.

Definition w_env : Env := {|
  env_now := dur_seconds 2000; env_uuid := λ _, w_uuid; env_permits := mkGrants true true true true;
  env_flushed := []; env_reads := [] |}.
Definition w_put_request : Request :=
  w_request "PUT" None [("content-length", "5"); ("content-type", "text/plain")].
Definition w_put (w : World) : result S3Error Response * World :=
  handle_put_object w_env w_state w_put_request [Ok "world"] w_id w_anonymous w.

(** A successful upload onto an empty disk: the answer, the object, the disk. *)
Lemma put_object_refines_witness :
  rs_status <$> result_ok (w_put w_empty).1 = Some 200 ∧
  ∃ md, om_size md = 5 ∧ om_content_type md = Some ("text/plain" : str) ∧
    refines (files (w_put w_empty).2) {[ target_digest md := (md, "world" : bytes) ]}.
Proof.
  split; [vm_refl|]. destruct (w_put w_empty) as [res w'] eqn:Hrun. cbn [snd].
  pose proof (put_object_refines w_env w_state w_put_request [Ok "world"] w_id w_anonymous []
    w_empty w' ∅ res eq_refl refines_empty eq_refl (List.Forall2_nil runs_as) Hrun) as [_ Hput].
  destruct (put_spec w_env w_state w_put_request [Ok "world"] w_id w_anonymous []) as [[md data]|e] eqn:Hspec.
  - assert ((λ p, (om_size p.1, om_content_type p.1, p.2)) <$>
              result_ok (put_spec w_env w_state w_put_request [Ok "world"] w_id w_anonymous [])
            = Some (5, Some ("text/plain" : str), "world" : bytes)) as Hval by vm_refl.
    rewrite Hspec in Hval. simpl in Hval. injection Hval as Hs Hc ->.
    exists md. split_and!; [done..|]. exact (proj2 Hput).
  - assert (is_ok (put_spec w_env w_state w_put_request [Ok "world"] w_id w_anonymous []) = true) as Hval
      by vm_refl.
    by rewrite Hspec in Hval.
Defined.

(** The third call of the upload, the flush, fails: nothing is stored. *)
Definition w_faulty : World := mkWorld ∅ ∅ [None; None; Some (mkFault "disk full" None [])].

Lemma put_object_durable_witness :
  is_ok (w_put w_faulty).1 = false ∧
  ∃ t um, put_checks w_env w_state w_put_request w_id w_anonymous = Ok (t, um) ∧
    changes_only (object_digest (target_bucket t) (target_key t)) ∅ (files (w_put w_faulty).2).
Proof.
  split; [vm_refl|]. destruct (w_put w_faulty) as [res w'] eqn:Hrun. cbn [snd].
  destruct (put_checks w_env w_state w_put_request w_id w_anonymous) as [[t um]|e] eqn:Hck.
  - exists t, um. split; [done|].
    exact (proj1 (proj2 (put_object_durable w_env w_state w_put_request [Ok "world"] w_id w_anonymous
      w_faulty w' ∅ t um res refines_empty eq_refl eq_refl Hck Hrun))).
  - assert (is_ok (put_checks w_env w_state w_put_request w_id w_anonymous) = true) as Hval by vm_refl.
    by rewrite Hck in Hval.
Defined.
End witnesses.
