(* ===== verification/Isolation.v ===== *)
(** * Object requests at the same time

    Requests for different objects do not notice each other: in every
    interleaving each gives the answer it would give alone
    ([distinct_objects_independent]). Requests for the same object do: the store
    publishes contents and metadata by two renames without a lock
    ([concurrent_puts_mix], [get_during_put_mixes]). *)

From S2P Require Import Prelude RustStd BTree S3Error Externals Reference Types Target Config Http.
From S2P Require Import Chunked ChunkedProofs Checksum Upload Auth Hooks Admission Routing Requests.
From S2P Require Import StoreModel ReferenceJson FileSystem Interleaving ObjectStore ObjectProofs ObjectSpec StoreTrait Middleware.
From S2P Require Import Assembly MultipartStore MultipartProofs Streams AppState HeadObject GetObject PutObject.
From Stdlib Require Import ZArith Lia.
Local Open Scope Z_scope.

Section isolation.
Context `{HttpLib} `{CodecLib} `{CryptoLib} `{ChronoLib} `{UuidLib} `{JsonLib}.

(** The requests on objects; [env] holds the fresh ids and the clock of a PUT. *)
Inductive object_request :=
| PutReq (env : Env) (r : Request) (body : Body) (id : RequestId) (ctx : AuthContext)
| GetReq (reads : list ReadEvent) (r : Request) (id : RequestId) (ctx : AuthContext)
| HeadReq (r : Request) (id : RequestId) (ctx : AuthContext)
| DeleteReq (r : Request) (id : RequestId) (ctx : AuthContext).

Definition handle (s : AppState) (q : object_request) : ioE S3Error Response :=
  match q with
  | PutReq env r body id ctx => handle_put_object env s r body id ctx
  | GetReq reads r id ctx => handle_get_object reads s r id ctx
  | HeadReq r id ctx => handle_head_object s r id ctx
  | DeleteReq r id ctx => handle_delete_object s r id ctx
  end.

Definition request_of (q : object_request) : Request :=
  match q with PutReq _ r _ _ _ | GetReq _ r _ _ | HeadReq r _ _ | DeleteReq r _ _ => r end.

(** The file name of the object a request is about. *)
Definition request_digest (s : AppState) (q : object_request) : option str :=
  match resolve_request_target s (request_of q) with
  | Ok t => Some (object_digest (target_bucket t) (target_key t))
  | Err _ => None
  end.

(** The temporary files of a request. *)
Definition request_tmp (q : object_request) : list path :=
  match q with PutReq env _ _ _ _ => tmp_files (env_uuid env 0) | _ => [] end.

(** What a request reads and writes. [fs::metadata] of the contents would see
    files below it, if there were any. *)
Definition footprint (s : AppState) (q : object_request) (p : path) : Prop :=
  p ∈ request_tmp q ∨
  match request_digest s q with Some d => under (data_file d) p = true ∨ p = json_file d | None => False end.

Lemma under_refl p : under p p = true.
Proof. unfold under. apply bool_decide_eq_true_2, take_ge. lia. Qed.

Lemma strictly_under_under d p : strictly_under d p = true → under d p = true.
Proof. unfold strictly_under, under. by intros [? _]%andb_prop. Qed.

Lemma local_seek P : local P fs_seek.
Proof. by apply local_call. Qed.

(** The operations of the store are local to the files of their object and to
    their temporary files. *)
Section store.
Variables (P : path → Prop) (bucket : BucketName) (key : ObjectKey).
Let d : str := object_digest bucket key.
Hypothesis P_data : ∀ p, under (data_file d) p = true → P p.
Hypothesis P_json : P (json_file d).

Let P_data_file : P (object_path bucket key).
Proof. apply P_data, under_refl. Qed.
Let P_metadata : P (metadata_path bucket key).
Proof. exact P_json. Qed.
Let P_below p : strictly_under (object_path bucket key) p = true → P p.
Proof. intros Hp. by apply P_data, strictly_under_under. Qed.

Lemma local_head_object : local P (head_object bucket key).
Proof. unfold head_object, attempt. local_steps. Qed.

Lemma local_open_object : local P (open_object bucket key).
Proof. unfold open_object, attempt. apply local_bind; [apply local_head_object|]. local_steps. Qed.

Lemma local_delete_object : local P (delete_object bucket key).
Proof. unfold delete_object, attempt. local_steps. Qed.

Lemma local_drop_guard {E A} p (m : ioE E A) : P p → local P m → local P (drop_guard p m).
Proof. intros Hp Hm. unfold drop_guard, attempt, ignore. apply local_bind; [by apply local_io_map|]. local_steps. Qed.

Variable u : Uuid.
Hypothesis P_tmp : ∀ p, p ∈ tmp_files u → P p.

Let P_part : P (tmp_file u ".part").
Proof. apply P_tmp. clear. set_solver. Qed.
Let P_meta : P (tmp_file u ".metadata.json").
Proof. apply P_tmp. clear. set_solver. Qed.
Let P_oback : P (tmp_file u ".object.rollback.tmp").
Proof. apply P_tmp. clear. set_solver. Qed.
Let P_mback : P (tmp_file u ".metadata.rollback.tmp").
Proof. apply P_tmp. clear. set_solver. Qed.

Lemma local_create_temp_object : local P (create_temp_object u).
Proof. unfold create_temp_object. local_steps. Qed.

Lemma local_commit p md :
  P p → om_bucket md = bucket → om_key md = key → local P (commit_staged_object (mkStaged u p) md).
Proof.
  intros Hp Hb Hk. unfold commit_staged_object, publish, attempt, ignore. rewrite Hb, Hk. cbn [so_path so_temp_id].
  local_steps.
Qed.

Lemma local_receive_into env p headers body wt signing max :
  P p → local P (receive_into env p headers body wt signing max).
Proof. intros Hp. unfold receive_into, map_io_err, ignore. local_steps. Qed.

Lemma local_summarize_file p size : P p → local P (summarize_file p size).
Proof. intros Hp. unfold summarize_file, attempt. local_steps. Qed.
End store.

Lemma footprint_data s q d p : request_digest s q = Some d → under (data_file d) p = true → footprint s q p.
Proof. intros Hd Hp. right. rewrite Hd. by left. Qed.
Lemma footprint_json s q d : request_digest s q = Some d → footprint s q (json_file d).
Proof. intros Hd. right. rewrite Hd. by right. Qed.

Lemma resolved_digest s q t :
  resolve_request_target s (request_of q) = Ok t →
  request_digest s q = Some (object_digest (target_bucket t) (target_key t)).
Proof. intros Ht. unfold request_digest. by rewrite Ht. Qed.

Lemma local_handle s q : st_upload_processors s = [] → local (footprint s q) (handle s q).
Proof.
  intros Hnone. pose proof (footprint_data s q) as Hdata. pose proof (footprint_json s q) as Hjson.
  pose proof (resolved_digest s q) as Hres.
  destruct q as [env r body id ctx|reads r id ctx|r id ctx|r id ctx]; cbn [handle request_of] in *.
  - apply local_check. intros [t um] Hck. apply put_checks_ok in Hck as [Ht _]. specialize (Hres t Ht).
    assert (∀ p, p ∈ tmp_files (env_uuid env 0) → footprint s (PutReq env r body id ctx) p) as Htmp by (by left).
    assert (footprint s (PutReq env r body id ctx) (tmp_file (env_uuid env 0) ".part")) as Hpart
      by (apply Htmp; unfold tmp_files; simpl; set_solver).
    apply local_bind_returns with (λ temp, temp = mkStaged (env_uuid env 0) (tmp_file (env_uuid env 0) ".part")).
    { by apply local_io_map, local_create_temp_object. }
    { by apply returns_map_err, returns_then; intros _; apply returns_ret. }
    intros temp ->. cbn [so_path]. apply local_bind.
    { by apply local_drop_guard, local_receive_into. }
    intros up. apply local_bind; [|local_steps].
    unfold store_upload, numbered_processors. rewrite Hnone. cbn [imap process_staged_upload so_path].
    apply local_bind; [by apply local_drop_guard, local_io_map, local_flush|]. intros _.
    apply local_bind_returns with (λ temp, temp = mkStaged (env_uuid env 0) (tmp_file (env_uuid env 0) ".part"));
      [exact I|by apply returns_ret|]. intros temp ->. cbn [so_path].
    apply local_bind; [by apply local_drop_guard, local_summarize_file|]. intros fb.
    destruct (_ >? _); [by apply local_drop_guard|].
    apply local_bind; [|local_steps]. eapply local_io_map, local_commit; eauto.
  - apply local_check. intros t Ht. specialize (Hres t Ht). apply local_check. intros [] _. apply local_check. intros [] _.
    apply local_bind; [eapply local_io_map, local_open_object; eauto|]. unfold map_io_err.
    pose proof (local_seek (footprint s (GetReq reads r id ctx))). local_steps.
  - apply local_check. intros t Ht. specialize (Hres t Ht). apply local_check. intros [] _. apply local_check. intros [] _.
    apply local_bind; [eapply local_io_map, local_head_object; eauto|]. local_steps.
  - apply local_check. intros t Ht. specialize (Hres t Ht). apply local_check. intros [] _. apply local_check. intros [] _.
    apply local_bind; [eapply local_io_map, local_delete_object; eauto|]. local_steps.
Qed.

(** Two requests for different objects, with fresh ids of their own. *)
Definition independent (s : AppState) (q1 q2 : object_request) : Prop :=
  (∀ d, request_digest s q1 = Some d → request_digest s q2 ≠ Some d) ∧
  (∀ p, p ∈ request_tmp q1 → p ∉ request_tmp q2).

Lemma under_take d p : under d p = true → take (length d) p = d.
Proof. unfold under. by intros ?%bool_decide_eq_true_1. Qed.

Lemma request_tmp_head q p : p ∈ request_tmp q → head p = Some ("tmp" : str).
Proof.
  destruct q; simpl; [|by intros ?%not_elem_of_nil..].
  intros (sfx & -> & _)%list_elem_of_fmap. done.
Qed.

Lemma independent_footprints s q1 q2 p : independent s q1 q2 → footprint s q1 p → ¬ footprint s q2 p.
Proof.
  intros [Hd Ht]. unfold footprint.
  assert (∀ d, under (data_file d) p = true → head p = Some ("objects" : str)) as Hobj.
  { intros d Hu%under_take. destruct p as [|x p]; [done|]. simpl in Hu. by injection Hu as ->. }
  assert (∀ d, p = json_file d → head p = Some ("metadata" : str)) as Hjson by (by intros d ->).
  intros [Hp1|Hp1] [Hp2|Hp2]; [by eapply Ht| | |].
  - apply request_tmp_head in Hp1. destruct (request_digest s q2) as [d|]; [|done].
    destruct Hp2 as [Hp2%Hobj|Hp2%Hjson]; by rewrite Hp1 in Hp2.
  - apply request_tmp_head in Hp2. destruct (request_digest s q1) as [d|]; [|done].
    destruct Hp1 as [Hp1%Hobj|Hp1%Hjson]; by rewrite Hp2 in Hp1.
  - destruct (request_digest s q1) as [d|] eqn:Hd1; [|done]. destruct (request_digest s q2) as [e|] eqn:Hd2; [|done].
    apply (Hd d); [done|]. f_equal. destruct Hp1 as [Hp1|Hp1], Hp2 as [Hp2|Hp2].
    + apply under_take in Hp1, Hp2. simpl in Hp1, Hp2. apply (inj data_file). by rewrite <- Hp1, <- Hp2.
    + apply Hobj in Hp1. apply Hjson in Hp2. by rewrite Hp1 in Hp2.
    + apply Hobj in Hp2. apply Hjson in Hp1. by rewrite Hp1 in Hp2.
    + apply (inj json_file). by rewrite <- Hp1, <- Hp2.
Qed.

(* @prop equivalence 13 : handle_put_object handle_get_object handle_head_object handle_delete_object commit_staged_object open_object head_object delete_object *)
(** C13: requests for different objects are independent, on a server without
    upload processors. Any number of PUT, GET, HEAD and DELETE requests run at the
    same time, their calls interleaved by any scheduler, on a file system that
    does not fail. If no two of them are about the same object and no two of the
    uploads draw the same temporary id, every request that has ended has given the
    answer it gives when it runs alone on the disk they all started from, the two
    files of its object are what it alone would have left, and files that belong
    to none of the requests are as they were. *)
Theorem distinct_objects_independent s qs (w w' : World) ts' :
  st_upload_processors s = [] → faults w = [] →
  (∀ i j q1 q2, i ≠ j → qs !! i = Some q1 → qs !! j = Some q2 → independent s q1 q2) →
  interleaving (handle s <$> qs, w) (ts', w') →
  (∀ i q res, qs !! i = Some q → ts' !! i = Some (Ended res) →
     ∃ w1, handle s q w = (res, w1) ∧
       ∀ d, request_digest s q = Some d →
         files w' !! data_file d = files w1 !! data_file d ∧ files w' !! json_file d = files w1 !! json_file d) ∧
  (∀ p, (∀ q, q ∈ qs → ¬ footprint s q p) → files w' !! p = files w !! p) ∧ sessions w' = sessions w.
Proof.
  intros Hnone Hfl Hind Hi.
  destruct (disjoint_tasks_independent (footprint s <$> qs) (handle s <$> qs) w ts' w') as (_ & Hss & _ & Htasks & Hout);
    [| |done|done|].
  { apply Forall2_fmap_2, Forall2_same_length_lookup. split; [done|].
    intros i q q' Hq Hq'. simplify_eq. by apply local_handle. }
  { intros i j P Q p Hne HP HQ. apply list_lookup_fmap_Some in HP as (q1 & -> & Hq1).
    apply list_lookup_fmap_Some in HQ as (q2 & -> & Hq2). apply independent_footprints. by eapply Hind. }
  split_and!; [|intros p Hp; apply Hout|done].
  - intros i q res Hq Ht. destruct (Htasks i (footprint s q) (handle s q) (Ended res)) as (w1 & Ha & _ & Hag & _);
      [by rewrite list_lookup_fmap, Hq..|done|].
    exists w1. split; [by rewrite (alone_run _ _ _ _ Ha)|]. intros d Hd. split; apply Hag.
    + eapply footprint_data; [done|apply under_refl].
    + by apply footprint_json.
  - intros i P HP. apply list_lookup_fmap_Some in HP as (q & -> & Hq). apply Hp. by apply list_elem_of_lookup_2 in Hq.
Qed.
End isolation.

(** ** Witness and two races *)
Section witnesses.
Local Existing Instances ref_http ref_codec ref_crypto ref_chrono ref_uuid ref_json.

Definition w_uuid_2 : Uuid := exist _ "123e4567-e89b-42d3-a456-426614174001" I.
Definition w_env_2 : Env := {|
  env_now := dur_seconds 2000; env_uuid := λ _, w_uuid_2; env_permits := mkGrants true true true true;
  env_flushed := []; env_reads := [] |}.
Definition w_other_put_request : Request :=
  mkReq "PUT" (mkUri "/photos/2026/dog.jpg" None) [("content-length", "5"); ("content-type", "text/plain")].
Definition w_cat (b : bytes) : object_request := PutReq w_env w_put_request [Ok b] w_id w_anonymous.
Definition w_cat_2 (b : bytes) : object_request := PutReq w_env_2 w_put_request [Ok b] w_id w_anonymous.
Definition w_dog (b : bytes) : object_request := PutReq w_env_2 w_other_put_request [Ok b] w_id w_anonymous.
Definition w_get_cat : object_request := GetReq [] (w_request "GET" None []) w_id w_anonymous.

Definition statuses (ts : list (ioE S3Error Response)) : list (option (option Z)) :=
  (λ m, match m with Ended r => Some (rs_status <$> result_ok r) | Step _ => None end) <$> ts.

(** Two uploads to different objects, step by step in turn: each object gets its
    own bytes, as if each upload had run alone. *)
Definition w_pair : list object_request := [w_cat "world"; w_dog "there"].
Definition w_both : list (ioE S3Error Response) * World :=
  schedule (mjoin (replicate 40 [0; 1]%nat)) (handle w_state <$> w_pair) w_empty.

Lemma w_pair_independent i j q1 q2 :
  i ≠ j → w_pair !! i = Some q1 → w_pair !! j = Some q2 → independent w_state q1 q2.
Proof.
  assert (∀ a b, request_digest w_state a ≠ request_digest w_state b →
    Forall (λ p, p ∉ request_tmp b) (request_tmp a) → independent w_state a b) as Hind.
  { intros a b Hd Ht. split; [intros d Ha Hb; congruence|]. by apply Forall_forall. }
  assert (bool_decide (request_digest w_state (w_cat "world") = request_digest w_state (w_dog "there")) = false)
    as Hd by vm_refl.
  apply bool_decide_eq_false_1 in Hd.
  destruct i as [|[|i]], j as [|[|j]]; try done; intros _ [= <-] [= <-]; apply Hind; try done;
    apply (bool_decide_eq_true_1 _); vm_refl.
Qed.

Lemma distinct_objects_independent_witness :
  statuses w_both.1 = [Some (Some 200); Some (Some 200)] ∧
  ∃ d, request_digest w_state (w_cat "world") = Some d ∧
    files w_both.2 !! data_file d = files (handle w_state (w_cat "world") w_empty).2 !! data_file d.
Proof.
  split; [vm_refl|]. pose proof (schedule_interleaving (mjoin (replicate 40 [0; 1]%nat))
    (handle w_state <$> w_pair) w_empty) as Hi. fold w_both in Hi.
  assert (statuses w_both.1 !! 0%nat = Some (Some (Some 200))) as Hout by vm_refl.
  destruct (request_digest w_state (w_cat "world")) as [d|] eqn:Hd;
    [|assert (is_Some (request_digest w_state (w_cat "world"))) as [? Hs] by (apply (bool_decide_eq_true_1 _); vm_refl);
      rewrite Hs in Hd; discriminate Hd].
  exists d. split; [reflexivity|]. destruct w_both as [ts' w']. cbn [fst snd] in *.
  unfold statuses in Hout. rewrite list_lookup_fmap in Hout.
  destruct (ts' !! 0%nat) as [[r|f]|] eqn:Ht; [|discriminate Hout|discriminate Hout].
  destruct (distinct_objects_independent w_state w_pair w_empty w' ts' eq_refl eq_refl w_pair_independent Hi) as [Hall _].
  destruct (Hall 0%nat (w_cat "world") r eq_refl Ht) as (w1 & Hrun & Hfiles).
  rewrite Hrun. exact (proj1 (Hfiles d Hd)).
Defined.

(** Two uploads to the same object. Both rename their contents into place before
    the first renames its metadata: both succeed, and the object has the contents
    of one and the ETag of the other. *)
Theorem concurrent_puts_mix :
  ∃ ts' w' d, interleaving (handle w_state <$> [w_cat "world"; w_cat_2 "there"], w_empty) (ts', w') ∧
  statuses ts' = [Some (Some 200); Some (Some 200)] ∧
  request_digest w_state (w_cat "world") = Some d ∧
  files w' !! data_file d = Some ("there" : bytes) ∧
  om_etag <$> (files w' !! json_file d ≫= object_of_json) =
    Some (md5_etag ("world" : bytes)).
Proof.
  pose (order := (replicate 10 0 ++ replicate 60 1 ++ replicate 60 0)%nat).
  pose (ts := handle w_state <$> [w_cat "world"; w_cat_2 "there"]).
  exists (schedule order ts w_empty).1, (schedule order ts w_empty).2,
    (default [] (request_digest w_state (w_cat "world"))).
  split; [rewrite <- surjective_pairing; apply schedule_interleaving|]. split_and!; vm_refl.
Qed.

(** A download during an upload. The metadata is read before the upload and the
    contents are opened after it: the answer has the ETag of the old contents and
    the new contents. *)
Definition answer_of (m : ioE S3Error Response) : option (option str * bytes) :=
  match m with
  | Ended (Ok r) => Some (hm_get (rs_headers r) "etag", delivered (rs_body r))
  | _ => None
  end.

Theorem get_during_put_mixes :
  ∃ ts' w', interleaving (handle w_state <$> [w_get_cat; w_cat_2 "there"],
                          (handle w_state (w_cat "world") w_empty).2) (ts', w') ∧
  answer_of <$> ts' !! 0%nat =
    Some (Some (Some (etag_str (md5_etag ("world" : bytes))), "there" : bytes)).
Proof.
  pose (order := (replicate 2 0 ++ replicate 60 1 ++ replicate 60 0)%nat).
  pose (ts := handle w_state <$> [w_get_cat; w_cat_2 "there"]).
  pose (w0 := (handle w_state (w_cat "world") w_empty).2).
  exists (schedule order ts w0).1, (schedule order ts w0).2.
  split; [rewrite <- surjective_pairing; apply schedule_interleaving|vm_refl].
Qed.
End witnesses.
