(* ===== verification/Overlap.v ===== *)
(** * Requests for the same object

    Requests that overlap on one object can mix its metadata and its contents
    (Isolation.v). What cannot happen is a torn file: each of the two files of an
    object is always one that a whole upload has put there, or the one that was
    there before, and what a download sends is one such file
    ([objects_never_torn]), whatever is scheduled and whatever calls fail. *)

From S2P Require Import Prelude RustStd BTree S3Error Externals Reference Types Target Config Http.
From S2P Require Import Chunked ChunkedProofs Checksum Upload Auth Hooks Admission Routing Requests.
From S2P Require Import StoreModel ReferenceJson FileSystem Interleaving ObjectStore RelyGuarantee ObjectProofs ObjectSpec StoreTrait.
From S2P Require Import Middleware Assembly MultipartStore MultipartProofs Streams AppState.
From S2P Require Import HeadObject GetObject PutObject Isolation.
From Stdlib Require Import ZArith Lia.
Local Open Scope Z_scope.

Section overlap.
Context `{HttpLib} `{CodecLib} `{CryptoLib} `{ChronoLib} `{UuidLib} `{JsonLib}.
Local Existing Instance mem_writer.
Variables (s : AppState) (qs : list object_request) (w0 : World).

(** The request [q] uploads the contents [c] with the metadata [md]. *)
Definition uploads (q : object_request) (md : ObjectMetadata) (c : bytes) : Prop :=
  match q with
  | PutReq env r body id ctx => put_spec env s r body id ctx [] = Ok (md, c)
  | _ => False
  end.

(** What the two files of the object [d] may hold: what was there at the start,
    or what one of the requests uploads, as a whole. *)
Definition whole_contents (d : str) (c : bytes) : Prop :=
  files w0 !! data_file d = Some c ∨ ∃ q md, q ∈ qs ∧ uploads q md c ∧ target_digest md = d.
Definition whole_metadata (d : str) (j : bytes) : Prop :=
  files w0 !! json_file d = Some j ∨
  ∃ q md c, q ∈ qs ∧ uploads q md c ∧ target_digest md = d ∧ json_of_object md = Some j.

Definition object_file (p : path) : Prop := ∃ d, p = data_file d ∨ p = json_file d.
Definition whole (p : path) (c : bytes) : Prop :=
  ∀ d, (p = data_file d → whole_contents d c) ∧ (p = json_file d → whole_metadata d c).

Lemma whole_data d c : whole (data_file d) c ↔ whole_contents d c.
Proof. split; [intros Hw; by apply (Hw d)|]. intros Hw e. split; [|done]. by intros <-%(inj data_file). Qed.
Lemma whole_json d j : whole (json_file d) j ↔ whole_metadata d j.
Proof. split; [intros Hw; by apply (Hw d)|]. intros Hw e. split; [done|]. by intros <-%(inj json_file). Qed.

Lemma object_file_data d : object_file (data_file d).
Proof. exists d. by left. Qed.
Lemma object_file_json d : object_file (json_file d).
Proof. exists d. by right. Qed.

Abbreviation follows := (follows object_file whole).

(** ** The operations of the store *)

Section store.
Variable own : path → Prop.
Hypothesis own_private : ∀ p, own p → ¬ object_file p.
Implicit Types (v : gmap path bytes).

Lemma f_head_object bucket key v Q :
  (∀ r, (∀ md, r = Ok (Some md) → ∃ j, whole_metadata (object_digest bucket key) j ∧ object_of_json j = Some md) →
     Q r v) →
  follows own (head_object bucket key) v Q.
Proof.
  intros HQ. apply f_bind, f_io_map, f_read_shared; [apply object_file_json|]. intros [j|e] Hr; cbv beta iota.
  - destruct (object_of_json j) as [md|] eqn:Hj; [|by apply f_throw, HQ].
    assert (whole_metadata (object_digest bucket key) j) as Hw by (apply whole_json, Hr; done).
    apply f_bind, f_io_map, f_any. intros [[]|[[]| | | | | | | | |]]; cbv beta iota;
      first [apply f_ret, HQ|apply f_throw, HQ]; intros ? [= <-]; eauto.
  - destruct e as [[]| | | | | | | | |]; first [by apply f_ret, HQ|by apply f_throw, HQ].
Qed.

Lemma f_open_object bucket key v Q :
  (∀ r, (∀ md c, r = Ok (Some (md, c)) → ∃ j,
           whole_metadata (object_digest bucket key) j ∧ object_of_json j = Some md ∧
           whole_contents (object_digest bucket key) c) → Q r v) →
  follows own (open_object bucket key) v Q.
Proof.
  intros HQ. apply f_bind, f_head_object. intros [[md|]|e] Hr; [|by apply f_ret, HQ|by apply HQ].
  destruct (Hr md eq_refl) as (j & Hj & Hmd).
  apply f_bind, f_io_map, f_read_shared; [apply object_file_data|]. intros [c|e] Hc; cbv beta iota.
  - apply f_ret, HQ. intros ? ? [= <- <-]. exists j. split_and!; [done..|]. by apply whole_data, Hc.
  - destruct e as [[]| | | | | | | | |]; first [by apply f_ret, HQ|by apply f_throw, HQ].
Qed.

Lemma f_delete_object bucket key v Q : (∀ r v, Q r v) → follows own (delete_object bucket key) v Q.
Proof.
  intros HQ. apply f_bind, f_io_map, f_call.
  - intros fs Hg Hv. destruct (fs !! _) eqn:Hc; simpl.
    + apply moves_delete with v; [right; apply object_file_json|done..|]. intros v' _.
      apply f_remove; [right; apply object_file_data|auto].
    + apply moves_stay with v; [done..|]. by apply f_ret.
  - intros f fs Hg Hv. apply moves_stay with v; [done..|]. by apply f_throw.
Qed.

(** Publication puts a whole upload in place, and puts whole files back when it
    fails half-way. *)
Variable u : Uuid.
Hypothesis own_tmp : ∀ p, p ∈ tmp_files u → own p.

Let own_part : own (tmp_file u ".part").
Proof. apply own_tmp. clear. set_solver. Qed.
Let own_meta : own (tmp_file u ".metadata.json").
Proof. apply own_tmp. clear. set_solver. Qed.
Let own_oback : own (tmp_file u ".object.rollback.tmp").
Proof. apply own_tmp. clear. set_solver. Qed.
Let own_mback : own (tmp_file u ".metadata.rollback.tmp").
Proof. apply own_tmp. clear. set_solver. Qed.

Lemma f_cleanup {E} p (k : ioE E ()) v Q :
  own p → (∀ v', follows own k v' Q) → follows own (_ ← ignore (remove_file_if_exists p); k) v Q.
Proof. intros Hp Hk. apply f_bind, f_io_map, f_remove; [by left|]. intros r v' _. apply Hk. Qed.

Lemma f_remove_backup p (had : bool) v Q : own p → (∀ r v, Q r v) → follows own (remove_backup_file p had) v Q.
Proof. intros Hp HQ. destruct had; [apply f_remove; [by left|auto]|by apply f_ret]. Qed.

(** The renames, once the metadata is written and the files that were there are
    linked to their backups. *)
Lemma f_renames d c j (had_object had_metadata : bool) v :
  whole (data_file d) c → whole (json_file d) j →
  v !! tmp_file u ".part" = Some c → v !! tmp_file u ".metadata.json" = Some j →
  (had_object = true → ∀ b, v !! tmp_file u ".object.rollback.tmp" = Some b → whole (data_file d) b) →
  (had_metadata = true → ∀ b, v !! tmp_file u ".metadata.rollback.tmp" = Some b → whole (json_file d) b) →
  follows own
    (_ ← fs_rename (tmp_file u ".part") (data_file d);
     renamed ← attempt (fs_rename (tmp_file u ".metadata.json") (json_file d));
     match renamed with
     | Err error =>
         _ ← rollback_published_file (data_file d) (tmp_file u ".object.rollback.tmp") had_object;
         _ ← rollback_published_file (json_file d) (tmp_file u ".metadata.rollback.tmp") had_metadata;
         throw error
     | Ok _ =>
         _ ← remove_backup_file (tmp_file u ".object.rollback.tmp") had_object;
         remove_backup_file (tmp_file u ".metadata.rollback.tmp") had_metadata
     end) v (λ _ _, True).
Proof.
  intros Hc Hj Hvc Hvj Ho Hm.
  apply f_bind, f_publish; [done..|apply object_file_data|by rewrite Hvc; intros ? [= <-]| |done].
  apply f_bind, f_io_map, f_publish; [done..|apply object_file_json| | |]; cbv beta iota.
  - rewrite lookup_delete_ne, Hvj by by apply tmp_file_ne. by intros ? [= <-].
  - apply f_bind, f_remove_backup; [done|]. intros [[]|e] v'; [|done]. by apply f_remove_backup.
  - intros e. apply f_bind, f_rollback; [done|apply object_file_data|done| |].
    { intros Hho b. rewrite lookup_delete_ne by by apply tmp_file_ne. by apply Ho. }
    intros v' Hv'. apply f_bind, f_rollback; [done|apply object_file_json|done| |by intros; apply f_throw].
    intros Hhm b. rewrite Hv', lookup_delete_ne by first [done|by apply tmp_file_ne]. by apply Hm.
Qed.

Lemma f_commit q md c v Q :
  q ∈ qs → (is_Some (json_of_object md) → uploads q md c) → v !! tmp_file u ".part" = Some c → (∀ r v, Q r v) →
  follows own (commit_staged_object (mkStaged u (tmp_file u ".part")) md) v Q.
Proof.
  intros Hq Hup Hc HQ. set (d := target_digest md).
  unfold commit_staged_object. cbn [so_path so_temp_id].
  change (object_path (om_bucket md) (om_key md)) with (data_file d).
  change (metadata_path (om_bucket md) (om_key md)) with (json_file d).
  apply f_bind, f_io_map. eapply f_mono with (Q := λ _ _, True).
  2: { intros [[]|e] v' _; [by apply f_ret|]. do 4 (apply f_cleanup; [done|]; intros ?). by apply f_throw. }
  unfold publish. apply f_bind, f_create_parent_dir. intros [[]|e]; [|done].
  apply f_bind, f_create_parent_dir. intros [[]|e]; [|done].
  apply f_bind. destruct (json_of_object md) as [j|] eqn:Hj; [apply f_ret|by apply f_throw].
  specialize (Hup (ex_intro _ j eq_refl)).
  assert (whole (data_file d) c) as Hwhole by (apply whole_data; right; by exists q, md).
  assert (whole (json_file d) j) as Hwholej by (apply whole_json; right; by exists q, md, c).
  apply f_bind, f_write; [done..| |done].
  set (v1 := <[tmp_file u ".metadata.json" := j]> v).
  assert (v1 !! tmp_file u ".part" = Some c) as Hc1 by (by subst v1; rewrite lookup_insert_ne by by apply tmp_file_ne).
  assert (v1 !! tmp_file u ".metadata.json" = Some j) as Hj1 by by apply lookup_insert_eq.
  clearbody v1. apply f_bind, f_backup; [done|apply object_file_data|done|intros b Hb| |done];
    (apply f_bind, f_backup; [done|apply object_file_json|done|intros b' Hb'| |done]);
    (eapply (f_renames d c j); [done|done|..]); try done;
    repeat (rewrite lookup_insert_ne by by apply tmp_file_ne); try done;
    intros _ b''; repeat (rewrite lookup_insert_ne by by apply tmp_file_ne); rewrite lookup_insert_eq; by intros [= <-].
Qed.

(** ** The handlers *)

Lemma f_receive_into env p headers body wt signing max v Q :
  own p → v !! p = Some [] →
  (∀ up data, write_upload_body headers body [] wt signing max = Some (Ok (up, data)) → Q (Ok up) (<[p := data]> v)) →
  (∀ e v', Q (Err e) v') →
  follows own (receive_into env p headers body wt signing max) v Q.
Proof.
  intros Hp Hv HOk HErr. unfold receive_into.
  destruct (write_upload_body headers body [] wt signing max) as [[[up data]|e]|] eqn:Hw; [| |by apply f_throw].
  - apply f_bind, f_io_map, f_append with []; [done..| |intros; by apply HErr]. by apply f_ret, HOk.
  - apply f_bind, f_io_map, f_append with []; [done..| |]; intros; by apply f_throw.
Qed.

Lemma f_summarize_file p size c v Q :
  own p → 0 < size → v !! p = Some c →
  (∀ f, f = mkFinal (mkContentLength (Z.min (len c) u64_max)) (true_digests c) → Q (Ok f) v) → (∀ e, Q (Err e) v) →
  follows own (summarize_file p size) v Q.
Proof.
  intros Hp Hsize Hc HOk HErr. destruct (file_chunks_spec size c Hsize) as [Hcat Hne].
  apply f_bind, f_io_map, f_read_own; [done|]. intros [c'|e] Hr; cbv beta iota.
  - specialize (Hr c' eq_refl). rewrite Hc in Hr. injection Hr as <-. apply f_lift. rewrite staged_summary by done. rewrite Hcat. by apply HOk.
  - apply f_lift. destruct e; apply HErr.
Qed.
End store.

Definition owns (q : object_request) (p : path) : Prop := p ∈ request_tmp q.

Lemma owns_private q p : owns q p → ¬ object_file p.
Proof. intros Hp%request_tmp_head (d & [->| ->]); discriminate Hp. Qed.

Lemma put_follows env r body id ctx v :
  st_upload_processors s = [] → 0 < upload_summary_buffer_size (st_io_tuning s) →
  PutReq env r body id ctx ∈ qs →
  follows (owns (PutReq env r body id ctx)) (handle_put_object env s r body id ctx) v (λ _ _, True).
Proof.
  intros Hnone Hbuf Hin. set (q := PutReq env r body id ctx). pose proof (owns_private q) as Hpriv.
  assert (∀ p, p ∈ tmp_files (env_uuid env 0) → owns q p) as Htmp by done.
  set (part := tmp_file (env_uuid env 0) ".part").
  assert (owns q part) as Hpart by (apply Htmp; unfold tmp_files; simpl; set_solver).
  set (max := max_object_size (upload_limits (st_config s))).
  apply f_check; [|done]. intros [t um] Hck.
  apply f_bind, f_io_map, f_bind, f_create; [done..| |done]. apply f_ret. cbn [map_err so_path]. fold part.
  apply f_bind, f_drop_guard; [done|]. apply f_receive_into; [done|done|by rewrite lookup_insert_eq| |done].
  intros up data Hdec. rewrite insert_insert_eq.
  apply f_bind. eapply f_mono with (Q := λ _ _, True); [|by intros [md|e] v' _; [apply f_lift|]].
  unfold store_upload, numbered_processors. rewrite Hnone. cbn [imap process_staged_upload so_path]. fold part.
  apply f_bind, f_drop_guard; [done|]. apply f_io_map, f_any. intros [[]|e]; [|done]. cbn [map_err].
  apply f_bind, f_ret. cbn [so_path]. fold part.
  apply f_bind, f_drop_guard; [done|]. apply f_summarize_file with data; [done..|by rewrite lookup_insert_eq| |done].
  intros f ->. cbn [fu_size content_length_get fu_digests]. fold max.
  destruct (Z.min (len data) u64_max >? max) eqn:Hmax; [by apply f_drop_guard; [done|apply f_throw]|].
  apply f_bind, f_io_map. set (md := put_metadata _ _ _ _ _ _).
  apply f_commit with (q := q) (c := data); [done..| |by rewrite lookup_insert_eq|by intros [[]|e] v'; [apply f_ret|]].
  intros [j Hj]. simpl. rewrite (put_spec_unfold env s r body id ctx [] t um up data Hck Hdec).
  cbn [run_processors map_err mbind result_bind]. fold max. rewrite Hmax.
  unfold object_checksums. rewrite Hnone. cbn [is_empty].
  change (uploaded_object _ _ _ _ _) with md. by rewrite Hj.
Qed.

(** What a download that succeeds has sent: the answer for metadata and contents
    that are whole, each by itself. *)
Definition sent (q : object_request) (r : result S3Error Response) : Prop :=
  match q, r with
  | GetReq _ rq _ _, Ok resp =>
      ∃ t md j c, resolve_request_target s rq = Ok t ∧
        whole_metadata (object_digest (target_bucket t) (target_key t)) j ∧ object_of_json j = Some md ∧
        whole_contents (object_digest (target_bucket t) (target_key t)) c ∧ get_answer (req_headers rq) md c resp
  | _, _ => True
  end.

Hypothesis sizes_u64 : ∀ d j md, files w0 !! json_file d = Some j → object_of_json j = Some md → is_u64 (om_size md).

Lemma whole_size d j md : whole_metadata d j → object_of_json j = Some md → is_u64 (om_size md).
Proof.
  intros [Hj|(q & md' & c & _ & Hup & _ & Hj)] Hmd; [by eapply sizes_u64|].
  apply object_json_roundtrip in Hj. rewrite Hmd in Hj. injection Hj as ->.
  destruct q as [env r body id ctx| | |]; [|done..]. apply put_spec_inv in Hup. by destruct Hup as (_ & _ & Hup).
Qed.

Lemma handle_follows q v :
  st_upload_processors s = [] → 0 < upload_summary_buffer_size (st_io_tuning s) →
  0 < object_stream_buffer_size (st_io_tuning s) → q ∈ qs →
  follows (owns q) (handle s q) v (λ r _, sent q r).
Proof.
  intros Hnone Hsum Hbuf Hin. destruct q as [env r body id ctx|reads r id ctx|r id ctx|r id ctx]; cbn [handle].
  - eapply f_mono; [by apply put_follows|done].
  - set (q := GetReq reads r id ctx). pose proof (owns_private q) as Hpriv.
    apply f_check; [|done]. intros t Ht. apply f_check; [|done]. intros [] _. apply f_check; [|done]. intros [] _.
    apply f_bind, f_io_map, f_open_object. intros [[[md c]|]|e] Hr; [|done..]. cbn [map_err].
    destruct (Hr md c eq_refl) as (j & Hj & Hmd & Hc). pose proof (whole_size _ _ _ Hj Hmd) as Hu64.
    assert (∀ res, (∀ resp, res = Ok resp → get_answer (req_headers r) md c resp) → sent q res) as Hsent.
    { intros [resp|e] Hres; [|done]. exists t, md, j, c. split_and!; [done..|]. by apply Hres. }
    apply f_bind, f_lift. cbn [ok_or]. apply f_check; [|done]. intros [resp|] Hcond.
    { apply f_ret, Hsent. intros ? [= <-]. left. by eapply conditional_response_ok. }
    apply f_check; [|done]. intros [rg|] Hrg.
    + apply f_bind, f_io_map, f_any. intros [[]|e]; [|done]. cbn [map_err].
      apply f_check; [|done]. intros b Hb. apply f_lift, Hsent. intros resp Hf. by eapply range_answer.
    + apply f_check; [|done]. intros b Hb. apply f_lift, Hsent. intros resp Hf. by eapply whole_answer.
  - apply f_check; [|done]. intros t Ht. apply f_check; [|done]. intros [] _. apply f_check; [|done]. intros [] _.
    apply f_bind, f_io_map, f_head_object. intros [[md|]|e] _; [|done..]. cbn [map_err].
    apply f_bind, f_lift. apply f_check; [|done]. by intros [resp|] _; [apply f_ret|apply f_lift].
  - apply f_check; [|done]. intros t Ht. apply f_check; [|done]. intros [] _. apply f_check; [|done]. intros [] _.
    apply f_bind, f_io_map, f_delete_object. by intros [[]|e] v'; [apply f_lift|].
Qed.
End overlap.

Section theorem.
Context `{HttpLib} `{CodecLib} `{CryptoLib} `{ChronoLib} `{UuidLib} `{JsonLib}.

(* @prop safety 14 : handle_put_object handle_get_object handle_head_object handle_delete_object commit_staged_object publish open_object delete_object store_upload *)
(** C14: objects are never torn, on a server without upload processors (and with
    read buffers that are not empty). Any number of PUT, GET, HEAD and DELETE
    requests run at the same time, on the same objects or not, their calls
    interleaved by any scheduler, and any calls fail. As long as no two uploads
    draw the same temporary id and the sizes in the metadata files at the start
    are 64 bits wide, at every moment the contents file of every object is either
    the one at the start or the complete decoded body of one of the uploads to
    that object, its metadata file is the one at the start or that of one of the
    uploads, and every download that has succeeded has sent one such file, or the
    range asked for of one. *)
Theorem objects_never_torn s qs (w w' : World) ts' :
  st_upload_processors s = [] → 0 < upload_summary_buffer_size (st_io_tuning s) →
  0 < object_stream_buffer_size (st_io_tuning s) →
  (∀ d j md, files w !! json_file d = Some j → object_of_json j = Some md → is_u64 (om_size md)) →
  (∀ i j q1 q2 p, i ≠ j → qs !! i = Some q1 → qs !! j = Some q2 → p ∈ request_tmp q1 → p ∉ request_tmp q2) →
  interleaving (handle s <$> qs, w) (ts', w') →
  (∀ d c, files w' !! data_file d = Some c → whole_contents s qs w d c) ∧
  (∀ d j, files w' !! json_file d = Some j → whole_metadata s qs w d j) ∧
  (∀ i q r, qs !! i = Some q → ts' !! i = Some (Ended r) → sent s qs w q r).
Proof.
  intros Hnone Hsum Hbuf Hu64 Hids Hi.
  pose (own := λ (i : nat) (p : path), ∃ q, qs !! i = Some q ∧ owns q p).
  pose (Qs := λ (i : nat) r (_ : gmap path bytes), ∀ q, qs !! i = Some q → sent s qs w q r).
  destruct (followed object_file (whole s qs w) own Qs (handle s <$> qs) w ts' w') as [Hgood Hts]; [| | |exact Hi|].
  - split.
    + intros i j p Hne (q1 & Hq1 & Hp1) (q2 & Hq2 & Hp2). exact (Hids i j q1 q2 p Hne Hq1 Hq2 Hp1 Hp2).
    + intros i p (q & _ & Hp). by eapply owns_private.
  - intros p c _ Hp d. split; intros ->; by left.
  - intros i m v Hm. apply list_lookup_fmap_Some in Hm as (q & -> & Hq).
    assert (q ∈ qs) as Hin by by eapply list_elem_of_lookup_2.
    pose proof (handle_follows s qs w Hu64 q v Hnone Hsum Hbuf Hin) as Hf.
    eapply follows_own; [|eapply f_mono; [exact Hf|]].
    + intros p. split; [intros Hp; by exists q|]. intros (q' & Hq' & Hp). by simplify_eq.
    + intros r v' Hr q' Hq'. by simplify_eq.
  - split_and!.
    + intros d c Hc. apply whole_data, Hgood; [apply object_file_data|done].
    + intros d j Hj. apply whole_json, Hgood; [apply object_file_json|done].
    + intros i q r Hq Hr. destruct (Hts i r Hr) as (v & _ & HQ). by apply HQ.
Qed.
End theorem.

(** ** Witness *)
Section witnesses.
Local Existing Instances ref_http ref_codec ref_crypto ref_chrono ref_uuid ref_json.

(** Two uploads to one object and a download: in whatever order their calls are
    made, the contents are those of one of the uploads. *)
Definition w_overlap : list object_request := [w_cat "world"; w_cat_2 "there"; w_get_cat].

Lemma w_overlap_ids i j q1 q2 p :
  i ≠ j → w_overlap !! i = Some q1 → w_overlap !! j = Some q2 → p ∈ request_tmp q1 → p ∉ request_tmp q2.
Proof.
  assert (∀ a b, bool_decide (Forall (λ p, p ∉ request_tmp b) (request_tmp a)) = true →
    p ∈ request_tmp a → p ∉ request_tmp b) as Hall.
  { intros a b Hd%bool_decide_eq_true_1 Hp. rewrite Forall_forall in Hd. by apply Hd. }
  destruct i as [|[|[|i]]], j as [|[|[|j]]]; try done; intros _ [= <-] [= <-]; apply Hall; vm_refl.
Qed.

Lemma objects_never_torn_witness :
  statuses (schedule (mjoin (replicate 60 [0; 1; 2]%nat)) (handle w_state <$> w_overlap)
    (handle w_state (w_cat "world") w_empty).2).1 = replicate 3 (Some (Some 200)) ∧
  ∀ order d c, files (schedule order (handle w_state <$> w_overlap) w_empty).2 !! data_file d = Some c →
    c = ("world" : bytes) ∨ c = ("there" : bytes).
Proof.
  split; [vm_refl|]. intros order d c Hc.
  pose proof (schedule_interleaving order (handle w_state <$> w_overlap) w_empty) as Hi.
  destruct (schedule order (handle w_state <$> w_overlap) w_empty) as [ts' w''] eqn:Hs.
  destruct (objects_never_torn w_state w_overlap w_empty w'' ts') as (Hdata & _);
    [done|done|done|done|exact w_overlap_ids|exact Hi|].
  destruct (Hdata d c Hc) as [Hn|(q & md & Hq & Hup & _)]; [done|].
  assert (∀ env b, snd <$> result_ok (put_spec env w_state w_put_request [Ok b] w_id w_anonymous []) = Some b →
    put_spec env w_state w_put_request [Ok b] w_id w_anonymous [] = Ok (md, c) → c = b) as Hput.
  { intros env b Hb Heq. rewrite Heq in Hb. by injection Hb. }
  apply elem_of_cons in Hq as [->|Hq]; [left; revert Hup; apply Hput; vm_refl|].
  apply elem_of_cons in Hq as [->|Hq]; [right; revert Hup; apply Hput; vm_refl|].
  apply elem_of_cons in Hq as [->|Hq]; [done|by apply not_elem_of_nil in Hq].
Defined.
End witnesses.
