(* ===== verification/EndToEnd.v ===== *)
(** * Requests one after the other

    What a PUT, a GET and a DELETE on one object mean together, over the same
    disk, whatever fails in between. *)

From S2P Require Import Prelude RustStd BTree S3Error Externals Reference Types Target Config Http.
From S2P Require Import Chunked ChunkedProofs Checksum Upload Auth Hooks Admission Routing Requests.
From S2P Require Import StoreModel ReferenceJson FileSystem ObjectStore ObjectProofs ObjectSpec StoreTrait Middleware.
From S2P Require Import Assembly MultipartStore MultipartSpec Streams AppState.
From S2P Require Import HeadObject GetObject PutObject.
From Stdlib Require Import ZArith Lia.
Local Open Scope Z_scope.

Section end_to_end.
Context `{HttpLib} `{CodecLib} `{CryptoLib} `{ChronoLib} `{UuidLib} `{JsonLib}.
Implicit Types (n : nat) (fs : gmap path bytes) (ss : gmap str UploadSession) (objs : objects).

Definition sizes_ok objs : Prop := ∀ d md c, objs !! d = Some (md, c) → is_u64 (om_size md).

Lemma sizes_ok_insert objs d md c : sizes_ok objs → is_u64 (om_size md) → sizes_ok (<[d := (md, c)]> objs).
Proof.
  intros Hs Hmd d' md' c' Hl. destruct (decide (d = d')) as [->|Hne].
  - rewrite lookup_insert_eq in Hl. by injection Hl as <- <-.
  - rewrite lookup_insert_ne in Hl by done. by apply (Hs d' md' c').
Qed.

(** ** With any store

    Against the contract of [StoreTrait.v]: what follows holds with whatever store
    the application supplies, as long as it keeps the contract. *)

Section contract.
Context `{St : !ObjectStoreOps} `{!ObjectStoreContract St}.

Theorem any_store_read_your_writes env s r body id ctx reads r' id' ctx' objs t um w w1 w2 put_answer answer :
  contains (files w) objs → sizes_ok objs →
  0 < upload_summary_buffer_size (st_io_tuning s) → 0 < object_stream_buffer_size (st_io_tuning s) →
  st_upload_processors s = [] →
  put_checks env s r id ctx = Ok (t, um) → handle_put_object env s r body id ctx w = (Ok put_answer, w1) →
  resolve_request_target s r' = Ok t → handle_get_object reads s r' id' ctx' w1 = (Ok answer, w2) →
  ∃ up data md,
    decode_body r body "object body" ctx (max_object_size (upload_limits (st_config s))) = Some (Ok (up, data)) ∧
    om_etag md = md5_etag data ∧ om_size md = Z.min (len data) u64_max ∧
    get_answer (req_headers r') md data answer.
Proof.
  intros Hr Hsz Hb1 Hb2 Hnone Hck Hput Ht Hget.
  destruct (wp_run _ _ _ _ _ Hput
              (wp_put_contract env s r body id ctx _ _ (sessions w) objs t um Hr Hb1 Hnone Hck)) as (_ & Hok & _).
  destruct (Hok put_answer eq_refl) as (up & data & Hd & _ & Hr1).
  set (md := stored_metadata env s t um up data) in *. exists up, data, md. split_and!; [done..|].
  assert (sizes_ok (<[object_digest (target_bucket t) (target_key t) := (md, data)]> objs)) as Hsz1.
  { apply sizes_ok_insert; [done|]. unfold is_u64; simpl. unfold u64_max, len. lia. }
  destruct (wp_run _ _ _ _ _ Hget (wp_get_object reads s r' id' ctx' _ _ (sessions w1) _ Hr1 Hb2 Hsz1))
    as (_ & _ & Hans).
  destruct (Hans answer eq_refl) as (t' & md' & c' & Ht' & _ & Hl & Ha).
  assert (t' = t) as -> by congruence. rewrite lookup_insert_eq in Hl. by injection Hl as <- <-.
Qed.

Lemma wp_handle_delete s r id ctx t n fs ss objs :
  contains fs objs → resolve_request_target s r = Ok t →
  permitted s ctx (target_bucket t) (Some (target_key t)) ActDeleteObject → validate_empty_payload_hash r = Ok () →
  wp (handle_delete_object s r id ctx) n fs ss (λ res _ fs' ss',
    ss' = ss ∧
    (contains fs' (delete (object_digest (target_bucket t) (target_key t)) objs) ∨ (is_ok res = false ∧ contains fs' objs)) ∧
    (n = 0%nat → res = no_content 204 id)).
Proof.
  intros Hr Ht Hp Hh. apply authorize_request_ok in Hp. unfold handle_delete_object.
  apply wp_bind, wp_lift. rewrite Ht. apply wp_bind, wp_lift. rewrite Hp. apply wp_bind, wp_lift. rewrite Hh.
  apply wp_bind, wp_map_io_err, delete_law with objs; [done|].
  intros [[]|e] n' fs' _ Hc Hz; cbn [map_err].
  - apply wp_lift. split_and!; [done| |done]. left. by destruct Hc as [|[? _]].
  - split_and!; [done| |intros Hn; by specialize (Hz Hn)]. destruct Hc as [|[_ ?]]; [by left|by right].
Qed.

Theorem any_store_deleted_is_gone s r id ctx t objs w w1 res :
  contains (files w) objs → resolve_request_target s r = Ok t →
  permitted s ctx (target_bucket t) (Some (target_key t)) ActDeleteObject → validate_empty_payload_hash r = Ok () →
  handle_delete_object s r id ctx w = (res, w1) →
  let d := object_digest (target_bucket t) (target_key t) in
  sessions w1 = sessions w ∧
  (contains (files w1) (delete d objs) ∨ (is_ok res = false ∧ contains (files w1) objs)) ∧
  (faults w = [] → res = no_content 204 id) ∧
  (∀ reads r' id' ctx' answer w2,
     is_ok res = true → faults w1 = [] → resolve_request_target s r' = Ok t →
     permitted s ctx' (target_bucket t) (Some (target_key t)) ActGetObject →
     validate_empty_payload_hash r' = Ok () →
     handle_get_object reads s r' id' ctx' w1 = (answer, w2) → answer = Err no_such_key).
Proof.
  intros Hr Ht Hp Hh Hrun d.
  destruct (wp_run _ _ _ _ _ Hrun (wp_handle_delete s r id ctx t _ _ (sessions w) objs Hr Ht Hp Hh))
    as (Hs & Hd & Hz).
  split_and!; [done|done| |].
  - intros Hfl. apply Hz. unfold budget. by rewrite Hfl.
  - intros reads r' id' ctx' answer w2 Hok Hfl Ht' Hp' Hh' Hget.
    destruct Hd as [Hr1|[Hbad _]]; [|congruence].
    assert (budget w1 = 0%nat) as Hb by (unfold budget; by rewrite Hfl).
    assert (delete d objs !! object_digest (target_bucket t) (target_key t) = None) as Hl by apply lookup_delete_eq.
    pose proof (wp_get_missing reads s r' id' ctx' t (files w1) (sessions w1) _ Hr1 Ht' Hp' Hh' Hl) as Hwp.
    rewrite <- Hb in Hwp. exact (wp_run _ _ _ _ _ Hget Hwp).
Qed.
End contract.

(** ** With the file store *)

(* @prop roundtrip 11 : handle_put_object handle_get_object put_checks write_upload_body commit_staged_object parse_range_header conditional_response *)
(** C11: a client reads what it wrote, on a server without upload processors (and
    with read buffers that are not empty). When a PUT is answered with success,
    and a GET of the same object that runs next, on the disk the PUT left, is too,
    whatever calls of the file system failed during either, then the GET is about
    exactly the body the PUT decoded: its answer has the ETag of that body's MD5
    and is a 304, the whole body, or the requested range of it (up to a read that
    fails midway). *)
Theorem read_your_writes env s r body id ctx reads r' id' ctx' objs t um w w1 w2 put_answer answer :
  refines (files w) objs → sizes_ok objs →
  0 < upload_summary_buffer_size (st_io_tuning s) → 0 < object_stream_buffer_size (st_io_tuning s) →
  st_upload_processors s = [] →
  put_checks env s r id ctx = Ok (t, um) → handle_put_object env s r body id ctx w = (Ok put_answer, w1) →
  resolve_request_target s r' = Ok t → handle_get_object reads s r' id' ctx' w1 = (Ok answer, w2) →
  ∃ up data md,
    decode_body r body "object body" ctx (max_object_size (upload_limits (st_config s))) = Some (Ok (up, data)) ∧
    om_etag md = md5_etag data ∧ om_size md = Z.min (len data) u64_max ∧
    get_answer (req_headers r') md data answer.
Proof. apply (any_store_read_your_writes (St := file_object_store) (ObjectStoreContract0 := file_object_contract)). Qed.

(* @prop error 36 : handle_delete_object delete_object handle_get_object no_content *)
(** C36: deletion. A permitted DELETE, whatever fails, leaves every other object
    as it was and this one either gone or, only if the answer is an error, as it
    was. Without faults the answer is 204, also for an object that was never
    there, and a GET of the name that follows, while nothing fails, is answered
    404 NoSuchKey. *)
Theorem deleted_is_gone s r id ctx t objs w w1 res :
  refines (files w) objs → resolve_request_target s r = Ok t →
  permitted s ctx (target_bucket t) (Some (target_key t)) ActDeleteObject → validate_empty_payload_hash r = Ok () →
  handle_delete_object s r id ctx w = (res, w1) →
  let d := object_digest (target_bucket t) (target_key t) in
  sessions w1 = sessions w ∧
  (refines (files w1) (delete d objs) ∨ (is_ok res = false ∧ refines (files w1) objs)) ∧
  (faults w = [] → res = no_content 204 id) ∧
  (∀ reads r' id' ctx' answer w2,
     is_ok res = true → faults w1 = [] → resolve_request_target s r' = Ok t →
     permitted s ctx' (target_bucket t) (Some (target_key t)) ActGetObject →
     validate_empty_payload_hash r' = Ok () →
     handle_get_object reads s r' id' ctx' w1 = (answer, w2) → answer = Err no_such_key).
Proof. apply (any_store_deleted_is_gone (St := file_object_store) (ObjectStoreContract0 := file_object_contract)). Qed.
End end_to_end.

(** ** Witnesses *)

Section witnesses.
#[local] Existing Instance ref_http.
#[local] Existing Instance ref_codec.
#[local] Existing Instance ref_crypto.
#[local] Existing Instance ref_chrono.
#[local] Existing Instance ref_uuid.
#[local] Existing Instance ref_json.

Definition w_get_request : Request := w_request "GET" None [].
Definition w_after_put : World := (w_put w_empty).2.
Definition w_read (w : World) : result S3Error Response * World :=
  handle_get_object [] w_state w_get_request w_id w_anonymous w.

Lemma w_put_ok : ∃ resp, w_put w_empty = (Ok resp, w_after_put).
Proof.
  assert (is_ok (w_put w_empty).1 = true) as Hok by vm_refl. unfold w_after_put.
  destruct (w_put w_empty) as [[resp|e] w']; [by exists resp|discriminate].
Qed.

Lemma w_put_checked : ∃ um, put_checks w_env w_state w_put_request w_id w_anonymous = Ok (mkTarget w_bucket w_key false, um).
Proof.
  assert (fst <$> result_ok (put_checks w_env w_state w_put_request w_id w_anonymous) =
            Some (mkTarget w_bucket w_key false)) as Hck by vm_refl.
  destruct (put_checks w_env w_state w_put_request w_id w_anonymous) as [[t um]|e]; [|discriminate].
  injection Hck as ->. by exists um.
Qed.

Lemma read_your_writes_witness :
  (λ resp, (rs_status resp, delivered (rs_body resp))) <$> result_ok (w_read w_after_put).1 = Some (200, "world" : bytes) ∧
  ∃ answer md, (w_read w_after_put).1 = Ok answer ∧ get_answer (req_headers w_get_request) md "world" answer.
Proof.
  split; [vm_refl|]. destruct w_put_ok as [resp Hput]. destruct w_put_checked as [um Hck].
  assert (is_ok (w_read w_after_put).1 = true) as Hok by vm_refl.
  assert (resolve_request_target w_state w_get_request = Ok (mkTarget w_bucket w_key false)) as Ht by vm_refl.
  assert (snd <$> (decode_body w_put_request [Ok "world"] "object body" w_anonymous
            (max_object_size (upload_limits (st_config w_state))) ≫= result_ok) = Some ("world" : bytes)) as Hv by vm_refl.
  destruct (w_read w_after_put) as [[answer|e] w2] eqn:Hget; [|discriminate].
  destruct (read_your_writes w_env w_state w_put_request [Ok "world"] w_id w_anonymous [] w_get_request w_id w_anonymous
    ∅ _ um w_empty w_after_put w2 resp answer refines_empty ltac:(intros ???; discriminate) eq_refl eq_refl eq_refl
    Hck Hput Ht Hget) as (up & data & md & Hd & _ & _ & Ha).
  rewrite Hd in Hv. simpl in Hv. injection Hv as ->. exists answer, md. exact (conj eq_refl Ha).
Defined.

Definition w_delete : result S3Error Response * World :=
  handle_delete_object w_state (w_request "DELETE" None []) w_id w_anonymous w_stored.

Lemma deleted_is_gone_witness :
  rs_status <$> result_ok w_delete.1 = Some 204 ∧ (w_read w_delete.2).1 = Err no_such_key.
Proof.
  split; [vm_refl|].
  assert (is_ok w_delete.1 = true) as Hok by vm_refl.
  assert (faults w_delete.2 = []) as Hfl by vm_refl.
  assert (∀ method, resolve_request_target w_state (w_request method None []) = Ok (mkTarget w_bucket w_key false)) as Ht
    by (intros; vm_refl).
  destruct w_delete as [res w1] eqn:Hrun. cbn [snd fst] in *. destruct (w_read w1) as [answer w2] eqn:Hget.
  destruct (deleted_is_gone w_state (w_request "DELETE" None []) w_id w_anonymous (mkTarget w_bucket w_key false)
    w_objects w_stored w1 res w_stored_refines (Ht _) ltac:(by split_and!) eq_refl Hrun) as (_ & _ & _ & Hgone).
  by apply (Hgone [] w_get_request w_id w_anonymous answer w2 Hok Hfl (Ht _) ltac:(by split_and!) eq_refl).
Defined.
End witnesses.
