(* ===== verification/Servable.v ===== *)
(** * What is stored can be served

    A download can fail although the object is there: the answer is built from
    stored strings, and a string that is no header value makes the builder fail.
    The metadata an upload stores are header values again
    ([uploaded_metadata_ok]), so that after a successful PUT a plain GET does
    answer 200 with the bytes ([stored_object_served]). *)

From S2P Require Import Prelude RustStd BTree S3Error Externals Reference Types Target Config Http.
From S2P Require Import Chunked ChunkedProofs Checksum Upload Auth Hooks Admission Routing Requests.
From S2P Require Import StoreModel ReferenceJson FileSystem ObjectStore ObjectProofs ObjectSpec StoreTrait Middleware.
From S2P Require Import Assembly MultipartStore MultipartSpec Streams AppState.
From S2P Require Import HeadObject GetObject PutObject EndToEnd.
From Stdlib Require Import ZArith Lia.
Local Open Scope Z_scope.

(** ** Pieces of a string *)

Section pieces.
Variable P : ascii → Prop.

Lemma trim_start_Forall s : Forall P s → Forall P (trim_start s).
Proof.
  induction s as [s IH] using (induction_ltof1 _ (@length ascii)). unfold ltof in IH. intros Hs.
  destruct s as [|a t]; [done|]. inversion Hs as [|? ? Ha Ht]; subst. simpl.
  destruct (ws1 a); [apply IH; [simpl; lia|done]|]. destruct t as [|b u]; [done|].
  inversion Ht as [|? ? Hb Hu]; subst. destruct (ws2 a b); [apply IH; [simpl; lia|done]|].
  destruct u as [|c v]; [done|]. inversion Hu; subst. destruct (ws3 a b c); [|done].
  apply IH; [simpl; lia|done].
Qed.

Lemma trim_end_rev_Forall s : Forall P s → Forall P (trim_end_rev s).
Proof.
  induction s as [s IH] using (induction_ltof1 _ (@length ascii)). unfold ltof in IH. intros Hs.
  destruct s as [|a t]; [done|]. inversion Hs as [|? ? Ha Ht]; subst. simpl.
  destruct (ws1 a); [apply IH; [simpl; lia|done]|]. destruct t as [|b u]; [done|].
  inversion Ht as [|? ? Hb Hu]; subst. destruct (ws2 b a); [apply IH; [simpl; lia|done]|].
  destruct u as [|c v]; [done|]. inversion Hu; subst. destruct (ws3 c b a); [|done].
  apply IH; [simpl; lia|done].
Qed.

Lemma trim_Forall s : Forall P s → Forall P (trim s).
Proof.
  intros Hs. unfold trim, trim_end. apply Forall_reverse, trim_end_rev_Forall, Forall_reverse.
  by apply trim_start_Forall.
Qed.

Lemma split_Forall c s : Forall P s → Forall (Forall P) (split c s).
Proof.
  induction 1 as [|a s Ha Hs IH]; simpl; [by repeat constructor|].
  case_bool_decide; [by constructor|]. destruct (split c s) as [|p ps]; [by repeat constructor|].
  inversion IH; subst. by repeat constructor.
Qed.

Lemma join_Forall sep l : Forall P sep → Forall (Forall P) l → Forall P (join sep l).
Proof.
  intros Hsep Hl. induction Hl as [|s l Hs Hl IH]; [constructor|]. simpl.
  destruct l; [done|]. apply Forall_app. split; [done|]. by apply Forall_app.
Qed.
End pieces.

Section servable.
Context `{HttpLib}.

(** ** Builders that succeed *)

Lemma visible_ok v : forallb is_visible v = true → value_ok v.
Proof. intros Hv. eexists. by apply hv_from_str_visible. Qed.
Lemma printable_ok v : printable v → value_ok v.
Proof. intros Hv. eexists. by apply hv_from_str_printable. Qed.

Lemma header_ok name v b : is_ok b = true → value_ok v → is_ok (header name v b) = true.
Proof. intros Hb [w Hw]. unfold header. unfold_result. destruct b as [[st h]|]; [|done]. by rewrite Hw. Qed.
Lemma header_named_ok name v b : is_ok b = true → field_ok (name, v) → is_ok (header_named name v b) = true.
Proof.
  intros Hb [[n Hn] [w Hw]]. unfold header_named. unfold_result. destruct b as [[st h]|]; [|done].
  simpl in *. by rewrite Hn, Hw.
Qed.
Lemma header_opt_ok name o b :
  is_ok b = true → (∀ v, o = Some v → value_ok v) → is_ok (header_opt name o b) = true.
Proof. intros Hb Ho. destruct o; simpl; [apply header_ok; auto|done]. Qed.
Lemma header_each_ok l : ∀ b, is_ok b = true → Forall field_ok l → is_ok (header_each l b) = true.
Proof.
  induction l as [|[n v] l IH]; intros b Hb Hl; [done|]. inversion Hl; subst.
  apply IH; [by apply header_named_ok|done].
Qed.

(** A builder that has succeeded was given nothing but header fields. *)
Lemma header_each_inv l : ∀ b, is_ok (header_each l b) = true → is_ok b = true ∧ Forall field_ok l.
Proof.
  induction l as [|[n v] l IH]; intros b Hb; [by split; [|constructor]|].
  apply (IH (header_named n v b)) in Hb as [Hb Hl]. unfold header_named in Hb. revert Hb. unfold_result.
  destruct b as [[st h]|]; [|done]. destruct (hn_from_str n) eqn:Hn; [|done]. destruct (hv_from_str v) eqn:Hv; [|done].
  intros _. split; [done|]. constructor; [|done]. split; simpl; [by rewrite Hn|]. unfold value_ok. by rewrite Hv.
Qed.

Lemma show_u_printable z : is_u64 z → printable (show_u z).
Proof.
  intros Hz. apply forallb_forall. intros c Hc%list_elem_of_In.
  apply show_radix_chars in Hc; [|lia|unfold is_u64 in *; lia]. revert Hc. by all_bytes c.
Qed.

Lemma literal_field name v : header_name_ok name → value_ok v → field_ok (name, v).
Proof. intros (Hn & Hl & Ht) Hv. split; [|done]. eexists. by apply hn_from_str_token. Qed.

(** ** Stored metadata *)

(** The names of the map are names again: they come out of [HeaderName]. *)
Definition names_ok (headers : HeaderMap) : Prop := ∀ n, n ∈ hm_keys headers → hn_from_str n = Some n.

(** Metadata every string of which is a header value. *)
Definition metadata_ok (um : UploadMetadata) : Prop :=
  Forall value_ok (opt_list (um_content_type um) ++ opt_list (um_content_encoding um) ++
    opt_list (um_content_disposition um) ++ opt_list (um_content_language um) ++ opt_list (um_cache_control um) ++
    opt_list (um_expires um) ++ opt_list (um_tagging um)) ∧
  Forall field_ok (um_user_metadata um).

Lemma optional_header_visible headers name v :
  optional_header headers name = Ok (Some v) → forallb is_visible v = true.
Proof.
  unfold optional_header. destruct (hm_get_all headers name) as [|w [|]]; unfold_result; [done| |done].
  destruct (hv_to_str w) as [u|] eqn:Hv; simpl; [|done]. intros [= <-]. by apply hv_to_str_visible in Hv.
Qed.
Lemma optional_header_value headers name o :
  optional_header headers name = Ok o → Forall value_ok (opt_list o).
Proof.
  destruct o as [v|]; [|by constructor]. intros Hv%optional_header_visible. constructor; [|done]. by apply visible_ok.
Qed.

(** What is left of the list of codings is still visible. *)
Lemma content_encoding_value headers o :
  content_encoding_metadata headers = Ok o → Forall value_ok (opt_list o).
Proof.
  unfold content_encoding_metadata. unfold_result.
  destruct (optional_header _ _) as [[v|]|] eqn:Hv; simpl; [|intros [= <-]; by constructor|done].
  apply optional_header_visible in Hv. set (P := λ c, is_visible c = true).
  assert (Forall P v) as HP by (by apply Forall_forall; intros c Hc%list_elem_of_In; eapply forallb_forall in Hv).
  set (l := List.filter _ _). assert (Forall (Forall P) l) as Hl.
  { apply Forall_forall. intros c Hc%list_elem_of_In. apply filter_In in Hc as [[Hc _]%filter_In _].
    apply in_map_iff in Hc as (d & <- & Hd%list_elem_of_In). apply trim_Forall.
    pose proof (split_Forall P ","%char v HP) as Hs. rewrite Forall_forall in Hs. by apply Hs. }
  destruct (negb (is_empty l)); intros [= <-]; [|by constructor]. constructor; [|done]. apply visible_ok.
  apply forallb_forall. intros c Hc%list_elem_of_In.
  assert (Forall P (join ", " l)) as Hj by (apply join_Forall; [by repeat constructor|done]).
  rewrite Forall_forall in Hj. by apply Hj.
Qed.

Lemma user_metadata_fields l : ∀ m0 m,
  (∀ f, f ∈ l → hn_from_str f.1 = Some f.1) → Forall field_ok m0 →
  try_fold add_user_metadata m0 l = Ok m → Forall field_ok m.
Proof.
  induction l as [|[n v] l IH]; intros m0 m Hl Hm Hf; cbn [try_fold] in Hf; [by injection Hf as <-|].
  unfold add_user_metadata at 1 in Hf. unfold_result.
  assert (∀ f, f ∈ l → hn_from_str f.1 = Some f.1) as Hl' by (intros f Hin; apply Hl; by right).
  destruct (negb (starts_with "x-amz-meta-" n)); [by apply (IH m0)|].
  destruct (hv_to_str v) as [u|] eqn:Hv; simpl in Hf; [|done]. destruct (btree_contains n m0); [done|].
  apply (IH (btree_insert n u m0)); [done| |done]. apply Forall_forall. intros f [->|Hin]%btree_insert_elem.
  - split; simpl; [eexists; exact (Hl (n, v) (list_elem_of_here _ _))|]. apply visible_ok. by apply hv_to_str_visible in Hv.
  - rewrite Forall_forall in Hm. by apply Hm.
Qed.

(** What an upload stores as metadata are header fields again. *)
Theorem uploaded_metadata_ok headers um :
  names_ok headers → collect_upload_metadata headers = Ok um → metadata_ok um.
Proof.
  intros Hn Hc. unfold collect_upload_metadata in Hc. inv_result Hc. unfold metadata_ok. simpl.
  repeat match goal with
  | Ho : optional_header _ _ = Ok _ |- _ => apply optional_header_value in Ho
  | Ho : content_encoding_metadata _ = Ok _ |- _ => apply content_encoding_value in Ho
  end.
  split; [by repeat apply Forall_app_2|].
  match goal with Hu : collect_user_metadata _ = Ok _ |- _ => revert Hu end. unfold collect_user_metadata.
  apply user_metadata_fields; [|constructor]. intros [n v] [Hk _]%hm_iter_spec. by apply Hn.
Qed.
End servable.

(** ** Answers that can be built *)

Section answers.
Context `{HttpLib} `{CodecLib} `{CryptoLib} `{ChronoLib} `{UuidLib} `{JsonLib}.
Implicit Types (n : nat) (fs : gmap path bytes) (ss : gmap str UploadSession) (objs : objects).

(** An object every string of which is a header value. *)
Definition object_ok (m : ObjectMetadata) : Prop :=
  is_u64 (om_size m) ∧ value_ok (etag_str (om_etag m)) ∧
  Forall value_ok (opt_list (om_content_type m) ++ opt_list (om_content_encoding m) ++
    opt_list (om_content_disposition m) ++ opt_list (om_content_language m) ++ opt_list (om_cache_control m) ++
    opt_list (om_expires m) ++ opt_list (om_tagging m)) ∧
  Forall field_ok (om_user_metadata m) ∧ Forall field_ok (om_checksums m).

Lemma opt_list_ok o v : Forall value_ok (opt_list o) → o = Some v → value_ok v.
Proof. intros Ho ->. by inversion Ho. Qed.

Lemma object_builder_ok m id st length :
  object_ok m → is_u64 length → value_ok (request_id_str id) →
  is_ok (object_metadata_response_builder_with_status_and_length m id st length) = true.
Proof.
  intros (_ & He & Hopt & Hu & Hc) Hl Hid. rewrite !Forall_app in Hopt.
  destruct Hopt as (? & ? & ? & ? & ? & ? & ?).
  unfold object_metadata_response_builder_with_status_and_length.
  apply header_each_ok; [|done].
  assert (∀ b, is_ok b = true → is_ok (if negb (is_empty (om_checksums m))
    then header_named "x-amz-checksum-type" "FULL_OBJECT" b else b) = true) as Htype.
  { intros b Hb. destruct (negb _); [|done].
    apply header_named_ok; [done|]. apply literal_field; [by split_and!|by apply printable_ok]. }
  apply Htype, header_each_ok; [|done].
  assert (∀ b, is_ok b = true →
    is_ok match om_tagging m with Some v => header_named "x-amz-tagging" v b | None => b end = true) as Htag.
  { intros b Hb. destruct (om_tagging m) as [v|] eqn:E; [|done].
    apply header_named_ok; [done|]. apply literal_field; [by split_and!|]. by apply (opt_list_ok (Some v)). }
  apply Htag. do 6 (apply header_opt_ok; [|intros v; by apply opt_list_ok]).
  apply header_ok; [|by apply printable_ok, dt_format_http_printable].
  apply header_ok; [|done]. apply header_ok; [|by apply printable_ok, show_u_printable].
  apply header_ok; [|by apply printable_ok].
  apply header_named_ok; [done|]. apply literal_field; [by split_and!|done].
Qed.

(** An upload that was answered stored an object that can be described: its ETag
    and checksums are in that answer. *)
Lemma stored_object_ok env s t um up data id resp :
  metadata_ok um → put_response (stored_metadata env s t um up data) id = Ok resp →
  object_ok (stored_metadata env s t um up data).
Proof.
  intros [Hopt Hu] Hr. set (md := stored_metadata env s t um up data) in *. unfold put_response in Hr.
  match type of Hr with context [header_each ?l ?b] => assert (is_ok (header_each l b) = true) as Hb end.
  { unfold finish_response in Hr. unfold_result. by destruct (header_each _ _). }
  apply header_each_inv in Hb as [_ Hc]. split_and!; [|..|done|done|done].
  - unfold is_u64, md; simpl. unfold u64_max, len. lia.
  - apply visible_ok, printable_visible. destruct (server_etag_plain (om_etag md)) as [[Hg _] _]; [left; by eexists|].
    rewrite forallb_forall in *. intros c Hin%Hg. revert Hin. by all_bytes c.
Qed.

(** A request for the whole of an object, with no conditions. *)
Definition plain_get (r : Request) : Prop :=
  validate_empty_payload_hash r = Ok () ∧ no_overrides r ∧
  Forall (λ name, hm_get_all (req_headers r) name = [])
    ["range"; "if-match"; "if-none-match"; "if-modified-since"; "if-unmodified-since"].

Lemma unconditional headers md id :
  Forall (λ name, hm_get_all headers name = [])
    ["range"; "if-match"; "if-none-match"; "if-modified-since"; "if-unmodified-since"] →
  hm_get headers "range" = None ∧ conditional_response headers md id = Ok None.
Proof.
  rewrite !Forall_cons. intros (Hr & Hm & Hn & Hs & Hu & _).
  unfold conditional_response, check_if_match, check_if_none_match, check_if_unmodified_since,
    check_if_modified_since, get_str. rewrite !hm_contains_key_spec, !hm_get_spec, Hr, Hm, Hn, Hs, Hu. by split.
Qed.

Lemma put_checks_metadata env s r id ctx t um :
  put_checks env s r id ctx = Ok (t, um) → collect_upload_metadata (req_headers r) = Ok um.
Proof. unfold put_checks. intros Hc. inv_result Hc. done. Qed.

Section contract.
Context `{St : !ObjectStoreOps} `{!ObjectStoreContract St}.

(** A plain GET of an object that can be described. *)
Lemma wp_plain_get reads s r id ctx t fs ss objs md c :
  contains fs objs → resolve_request_target s r = Ok t →
  permitted s ctx (target_bucket t) (Some (target_key t)) ActGetObject → plain_get r →
  objs !! object_digest (target_bucket t) (target_key t) = Some (md, c) → object_ok md →
  value_ok (request_id_str id) → 0 < object_stream_buffer_size (st_io_tuning s) →
  wp (handle_get_object reads s r id ctx) 0 fs ss (λ res _ fs' _,
    fs' = fs ∧ ∃ resp, res = Ok resp ∧ rs_status resp = 200 ∧ describes (rs_headers resp) md (om_size md) ∧
      rs_body resp = file_stream reads c (object_stream_buffer_size (st_io_tuning s))).
Proof.
  intros Hm Ht Hp (Hh & Ho & Hplain) Hl Hok Hid Hbuf.
  destruct (unconditional _ md id Hplain) as [Hr Hcond].
  eapply wp_mono; [by apply (wp_get_whole reads s r id ctx t fs ss objs)|].
  intros res n' fs' ss' [-> ->]. split; [done|]. rewrite Hl. unfold object_answer. cbn [ok_or mbind result_bind].
  rewrite Hcond. cbn [mbind result_bind].
  assert (is_ok (metadata_response md id) = true) as Hresp.
  { pose proof (object_builder_ok md id 200 (om_size md) Hok (proj1 Hok) Hid) as Hb.
    unfold metadata_response, object_metadata_response_builder, finish_response. unfold_result.
    by destruct (object_metadata_response_builder_with_status_and_length _ _ _ _) as [[]|]. }
  destruct (metadata_response md id) as [resp|] eqn:Hf; [|done].
  destruct (finish_response_ok _ _ _ _ _ (object_builder_built md id 200 (om_size md)) Hf) as (Hst & _ & _ & Hfields).
  cbn [fmap result_fmap with_body]. rewrite Hst. change (200 =? 304) with false. cbv iota.
  eexists. split_and!; [done|done| |done]. apply (object_fields_describe _ _ id _ []).
  intros name. by rewrite app_nil_r, Hfields.
Qed.
(** What the client wrote is not only stored, it is served. *)
Theorem any_store_served env s r body id ctx reads r' id' ctx' objs t um w w1 w2 put_answer res :
  contains (files w) objs →
  0 < upload_summary_buffer_size (st_io_tuning s) → 0 < object_stream_buffer_size (st_io_tuning s) →
  st_upload_processors s = [] → names_ok (req_headers r) →
  put_checks env s r id ctx = Ok (t, um) → handle_put_object env s r body id ctx w = (Ok put_answer, w1) →
  faults w1 = [] → resolve_request_target s r' = Ok t →
  permitted s ctx' (target_bucket t) (Some (target_key t)) ActGetObject → plain_get r' →
  value_ok (request_id_str id') → Forall (λ e, ∃ n, e = ReadUpTo n) reads →
  handle_get_object reads s r' id' ctx' w1 = (res, w2) →
  ∃ up data answer,
    decode_body r body "object body" ctx (max_object_size (upload_limits (st_config s))) = Some (Ok (up, data)) ∧
    res = Ok answer ∧ rs_status answer = 200 ∧
    hm_get (rs_headers answer) "etag" = Some (etag_str (md5_etag data)) ∧
    delivered (rs_body answer) = data.
Proof.
  intros Hr Hb1 Hb2 Hnone Hnames Hck Hput Hfl Ht Hp Hplain Hid Hreads Hget.
  destruct (wp_run _ _ _ _ _ Hput
              (wp_put_contract env s r body id ctx _ _ (sessions w) objs t um Hr Hb1 Hnone Hck)) as (_ & Hok & _).
  destruct (Hok put_answer eq_refl) as (up & data & Hd & Hresp & Hr1). exists up, data.
  assert (object_ok (stored_metadata env s t um up data)) as Hobj.
  { apply (stored_object_ok env s t um up data id put_answer); [|done].
    apply (uploaded_metadata_ok (req_headers r)); [done|]. by eapply put_checks_metadata. }
  assert (budget w1 = 0%nat) as Hb0 by (unfold budget; by rewrite Hfl).
  pose proof (wp_plain_get reads s r' id' ctx' t (files w1) (sessions w1) _ _ data Hr1 Ht Hp Hplain
    (lookup_insert_eq _ _ _) Hobj Hid Hb2) as Hwp. rewrite <- Hb0 in Hwp.
  destruct (wp_run _ _ _ _ _ Hget Hwp) as (_ & answer & -> & Hst & (_ & He & _) & Hbody).
  exists answer. split_and!; [done..|]. rewrite Hbody.
  apply stream_all_spec; [done|lia|by apply stream_all_complete].
Qed.
End contract.

(* @prop liveness 12 : handle_put_object handle_get_object collect_upload_metadata optional_header content_encoding_metadata collect_user_metadata put_response object_metadata_response_builder_with_status_and_length stream_all *)
(** C12: an accepted upload can be downloaded, on a server without upload
    processors (and with read buffers that are not empty). When a PUT, whose
    header names are those of [HeaderName], was answered with success, whatever
    failed during it, and a permitted GET of the whole object without conditions
    runs next, on the disk the PUT left, and nothing fails during it, then it is
    answered 200 with exactly the body the PUT decoded and the ETag of its MD5:
    nothing the upload stored, no header value and no checksum, can make the
    answer impossible to build. *)
Theorem stored_object_served env s r body id ctx reads r' id' ctx' objs t um w w1 w2 put_answer res :
  refines (files w) objs →
  0 < upload_summary_buffer_size (st_io_tuning s) → 0 < object_stream_buffer_size (st_io_tuning s) →
  st_upload_processors s = [] → names_ok (req_headers r) →
  put_checks env s r id ctx = Ok (t, um) → handle_put_object env s r body id ctx w = (Ok put_answer, w1) →
  faults w1 = [] → resolve_request_target s r' = Ok t →
  permitted s ctx' (target_bucket t) (Some (target_key t)) ActGetObject → plain_get r' →
  value_ok (request_id_str id') → Forall (λ e, ∃ n, e = ReadUpTo n) reads →
  handle_get_object reads s r' id' ctx' w1 = (res, w2) →
  ∃ up data answer,
    decode_body r body "object body" ctx (max_object_size (upload_limits (st_config s))) = Some (Ok (up, data)) ∧
    res = Ok answer ∧ rs_status answer = 200 ∧
    hm_get (rs_headers answer) "etag" = Some (etag_str (md5_etag data)) ∧
    delivered (rs_body answer) = data.
Proof. apply (any_store_served (St := file_object_store) (ObjectStoreContract0 := file_object_contract)). Qed.
End answers.

(** ** Witnesses *)

Section witnesses.
#[local] Existing Instance ref_http.
#[local] Existing Instance ref_codec.
#[local] Existing Instance ref_crypto.
#[local] Existing Instance ref_chrono.
#[local] Existing Instance ref_uuid.
#[local] Existing Instance ref_json.

Lemma stored_object_served_witness :
  faults w_after_put = [] ∧ ∃ up data answer,
    decode_body w_put_request [Ok "world"] "object body" w_anonymous
      (max_object_size (upload_limits (st_config w_state))) = Some (Ok (up, data)) ∧
    (w_read w_after_put).1 = Ok answer ∧ rs_status answer = 200 ∧ delivered (rs_body answer) = data.
Proof.
  split; [vm_refl|]. destruct w_put_ok as [resp Hput]. destruct w_put_checked as [um Hck].
  assert (resolve_request_target w_state w_get_request = Ok (mkTarget w_bucket w_key false)) as Ht by vm_refl.
  assert (names_ok (req_headers w_put_request)) as Hnames.
  { assert (Forall (λ n, hn_from_str n = Some n) (hm_keys (req_headers w_put_request))) as Hall
      by (repeat constructor; vm_refl).
    intros n Hn. rewrite Forall_forall in Hall. by apply Hall. }
  destruct (w_read w_after_put) as [res w2] eqn:Hget.
  destruct (stored_object_served w_env w_state w_put_request [Ok "world"] w_id w_anonymous [] w_get_request w_id
    w_anonymous ∅ _ um w_empty w_after_put w2 resp res refines_empty eq_refl eq_refl eq_refl Hnames Hck Hput
    ltac:(vm_refl) Ht ltac:(by split_and!) ltac:(split_and!; [vm_refl|repeat constructor; vm_refl..])
    (printable_ok (request_id_str w_id) ltac:(unfold printable; vm_refl)) (List.Forall_nil _) Hget) as (up & data & answer & Hd & Hr & Hst & _ & Hb).
  exists up, data, answer. exact (conj Hd (conj Hr (conj Hst Hb))).
Defined.
End witnesses.
