(* ===== verification/MultipartHandlers.v ===== *)
(** * The multipart requests (handlers/multipart.rs)

    CreateMultipartUpload, UploadPart, ListParts, AbortMultipartUpload and
    CompleteMultipartUpload: the checks of the request, the operation of the
    store, the XML answer. *)

From S2P Require Import Prelude RustStd BTree S3Error Externals Reference Types Target Config Http.
From S2P Require Import Chunked ChunkedProofs Checksum Upload Auth Hooks Admission Routing Requests.
From S2P Require Import StoreModel ReferenceJson FileSystem ObjectStore ObjectProofs ObjectSpec StoreTrait Middleware.
From S2P Require Import Assembly MultipartStore MultipartProofs MultipartSpec PartDurability Streams AppState.
From S2P Require Import HeadObject PutObject.
From Stdlib Require Import ZArith Lia.
Local Open Scope Z_scope.

(* @src src/src/handlers/multipart.rs 31-31 COMPLETE_MULTIPART_XML_LIMIT *)
Definition COMPLETE_MULTIPART_XML_LIMIT : Z := 8 * 1024 * 1024.

(** ** Pages of parts *)

(* @src src/src/handlers/multipart.rs 475-479 ListPartsPageRequest *)
Record ListPartsPageRequest := mkPage { max_parts : Z; part_number_marker : Z }.

(* @src src/src/handlers/multipart.rs 481-483 ListPartsPageRequest *)
Definition DEFAULT_MAX_PARTS : Z := 1000.
Definition MAX_PARTS_LIMIT : Z := 1000.

(* @src src/src/handlers/multipart.rs 485-517 ListPartsPageRequest::parse *)
Definition parse_page `{CodecLib} (query : str) : result S3Error ListPartsPageRequest :=
  max_parts ← unique_query_param query "max-parts";
  max_parts ← match max_parts with
              | Some value =>
                  n ← ok_or (parse_usize value) (invalid_argument "max-parts must be an integer");
                  if n =? 0 then Err (invalid_argument "max-parts must be in 1..=1000")
                  else Ok (Z.min n MAX_PARTS_LIMIT)
              | None => Ok DEFAULT_MAX_PARTS
              end;
  marker ← unique_query_param query "part-number-marker";
  marker ← match marker with
           | Some value =>
               n ← ok_or (parse_u16 value) (invalid_argument "part-number-marker must be an integer");
               if n >? 10000 then Err (invalid_argument "part-number-marker must be in 0..=10000") else Ok n
           | None => Ok 0
           end;
  Ok (mkPage max_parts marker).

(** The parts of a page, and the marker of the next page if there is one. *)
(* @src src/src/handlers/multipart.rs 221-235 list_parts *)
Definition list_page (page : ListPartsPageRequest) (parts : btree Z PartMetadata)
  : list PartMetadata * bool * option PartNumber :=
  let matching_parts := take (Z.to_nat (max_parts page + 1))
    (List.filter (λ part, part_number_get (pm_part_number part) >? part_number_marker page) (btree_values parts)) in
  let is_truncated := Z.of_nat (length matching_parts) >? max_parts page in
  let listed_parts := take (Z.to_nat (max_parts page)) matching_parts in
  (listed_parts, is_truncated, if is_truncated then pm_part_number <$> last listed_parts else None).

(** ** XML documents *)

Definition xml_declaration : str :=
  "<?xml version=" ++ [Xml.DQUOTE] ++ "1.0" ++ [Xml.DQUOTE] ++ " encoding=" ++ [Xml.DQUOTE] ++ "UTF-8"
    ++ [Xml.DQUOTE] ++ "?>" ++ NL.
Definition xml_line (indent name text : str) : str :=
  indent ++ "<" ++ name ++ ">" ++ text ++ "</" ++ name ++ ">" ++ NL.
Definition xml_document (name body : str) : str :=
  xml_declaration ++ "<" ++ name ++ " xmlns=" ++ [Xml.DQUOTE] ++ "http://s3.amazonaws.com/doc/2006-03-01/"
    ++ [Xml.DQUOTE] ++ ">" ++ NL ++ body ++ "</" ++ name ++ ">" ++ NL.

Section multipart_handlers.
Context `{HttpLib} `{CodecLib} `{CryptoLib} `{ChronoLib} `{UuidLib} `{JsonLib} `{AxumLib} `{XmlLib}.
Context `{St : !ObjectStoreOps} `{!MultipartStoreOps}.
Local Existing Instance mem_writer.

(* @src src/src/handlers/multipart.rs 76-86 create_multipart_upload *)
Definition initiate_xml (session : UploadSession) : str :=
  xml_document "InitiateMultipartUploadResult"
    (xml_line "  " "Bucket" (Xml.escape_xml (bucket_str (us_bucket session)))
     ++ xml_line "  " "Key" (Xml.escape_xml (key_str (us_key session)))
     ++ xml_line "  " "UploadId" (Xml.escape_xml (upload_id_str (us_upload_id session)))).

(* @src src/src/handlers/multipart.rs 600-602 format_s3_datetime *)
Definition format_s3_datetime (t : Z) : str := dt_format_rfc3339_millis t.

(* @src src/src/handlers/multipart.rs 294-296 checksum_xml_element_name *)
Definition checksum_xml_element_name (header_name : str) : option str :=
  xml_element_name <$> from_header_name header_name.

(* @src src/src/handlers/multipart.rs 237-257 list_parts *)
Definition part_xml (part : PartMetadata) : str :=
  "  <Part>" ++ NL
  ++ xml_line "    " "PartNumber" (show_u (part_number_get (pm_part_number part)))
  ++ xml_line "    " "LastModified" (format_s3_datetime (pm_last_modified part))
  ++ xml_line "    " "ETag" (Xml.escape_xml (etag_str (pm_etag part)))
  ++ xml_line "    " "Size" (show_u (pm_size part))
  ++ concat (omap (λ '(name, value),
       element_name ← checksum_xml_element_name name;
       Some (xml_line "    " element_name (Xml.escape_xml value))) (pm_checksums part))
  ++ "  </Part>" ++ NL.

(* @src src/src/handlers/multipart.rs 260-289 list_parts *)
Definition list_parts_xml (session : UploadSession) (page : ListPartsPageRequest) : str :=
  let '(listed_parts, is_truncated, next_marker) := list_page page (us_parts session) in
  xml_document "ListPartsResult"
    (xml_line "  " "Bucket" (Xml.escape_xml (bucket_str (us_bucket session)))
     ++ xml_line "  " "Key" (Xml.escape_xml (key_str (us_key session)))
     ++ xml_line "  " "UploadId" (Xml.escape_xml (upload_id_str (us_upload_id session)))
     ++ xml_line "  " "PartNumberMarker" (show_u (part_number_marker page))
     ++ xml_line "  " "MaxParts" (show_u (max_parts page))
     ++ xml_line "  " "IsTruncated" (if is_truncated then "true" else "false")
     ++ match next_marker with
        | Some marker => xml_line "  " "NextPartNumberMarker" (show_u (part_number_get marker))
        | None => []
        end
     ++ concat (map part_xml listed_parts)).

(* @src src/src/handlers/multipart.rs 403-415 complete_multipart_upload *)
Definition complete_xml (location : str) (metadata : ObjectMetadata) : str :=
  xml_document "CompleteMultipartUploadResult"
    (xml_line "  " "Location" (Xml.escape_xml location)
     ++ xml_line "  " "Bucket" (Xml.escape_xml (bucket_str (om_bucket metadata)))
     ++ xml_line "  " "Key" (Xml.escape_xml (key_str (om_key metadata)))
     ++ xml_line "  " "ETag" (Xml.escape_xml (etag_str (om_etag metadata)))).

(** ** Checks shared by the handlers *)

(* @src src/src/handlers/multipart.rs 554-570 map_store_error *)
Definition map_store_error (error : StoreError) : S3Error :=
  match error with
  | NoSuchUpload => no_such_upload
  | InvalidPart => invalid_part "One or more parts could not be found or the ETag did not match."
  | EntityTooSmall =>
      entity_too_small "Your proposed upload is smaller than the minimum allowed object size."
  | EntityTooLarge => entity_too_large "Your proposed upload exceeds the maximum allowed size."
  | ChecksumError error => error
  | Processor error => error
  | other => internal ("storage operation failed: " ++ store_error_msg other)
  end.

(* @src src/src/handlers/multipart.rs 437-464 validate_upload_session_target *)
Definition validate_upload_session_target (s : AppState) (r : Request) (ctx : AuthContext)
    (upload_id : UploadId) : ioE S3Error UploadSession :=
  found ← map_io_err map_store_error (store_get_upload upload_id);
  session ← lift (ok_or found no_such_upload);
  if negb (is_open session) then throw no_such_upload
  else
    target ← lift (resolve_request_target s r);
    if negb (bool_decide (target_bucket target = us_bucket session))
       || negb (bool_decide (target_key target = us_key session)) then throw no_such_upload
    else if match us_owner_access_key_id session with
            | Some owner => negb (bool_decide (actx_access_key_id ctx = Some owner))
            | None => false
            end then throw no_such_upload
    else mret session.

(* @src src/src/handlers/multipart.rs 466-473 completion_location *)
Definition completion_location (r : Request) : str :=
  let path := uri_path (req_uri r) in
  match request_host r with Some host => "http://" ++ host ++ path | None => path end.

(** A part of the completion document. *)
(* @src src/src/handlers/multipart.rs 527-538 parse_completed_parts *)
Definition parse_completed_part (part : option Z * option str) : result S3Error CompletedPart :=
  let '(part_number, etag) := part in
  part_number ← ok_or part_number (malformed_xml "PartNumber is required");
  part_number ← map_err (λ _, invalid_part "PartNumber must be in 1..=10000") (parse_part_number part_number);
  etag ← ok_or etag (malformed_xml "ETag is required");
  etag ← map_err (λ _, invalid_part "ETag is invalid") (parse_etag etag);
  Ok (mkCompletedPart part_number etag).

(** [collect] evaluates lazily: the first part in error decides. *)
(* @src src/src/handlers/multipart.rs 520-540 parse_completed_parts *)
Definition parse_completed_parts (xml : str) : result S3Error (list CompletedPart) :=
  request ← map_err malformed_xml (parts_of_xml xml);
  collect (map parse_completed_part request).

(** [parts.windows(2)]. *)
Definition windows2 {A} (l : list A) : list (A * A) := zip l (tail l).

(* @src src/src/handlers/multipart.rs 542-552 validate_ascending_parts *)
Definition validate_ascending_parts (parts : list CompletedPart) : result S3Error () :=
  if existsb (λ '(a, b), part_number_get (cp_part_number a) >=? part_number_get (cp_part_number b))
       (windows2 parts)
  then Err (invalid_part "Parts must be specified in ascending PartNumber order.") else Ok ().

(** ** The handlers *)

(** Decided from the request alone. *)
(* @src src/src/handlers/multipart.rs 40-66 create_multipart_upload *)
Definition create_checks (s : AppState) (r : Request) (id : RequestId) (ctx : AuthContext)
  : result S3Error (S3Target * UploadMetadata) :=
  let headers := req_headers r in
  _ ← validate_empty_request_body_headers headers "CreateMultipartUpload";
  _ ← validate_upload_headers headers;
  _ ← validate_empty_payload_hash r;
  target ← resolve_request_target s r;
  _ ← authorize_request s ctx (target_bucket target) (Some (target_key target)) ActCreateMultipartUpload;
  _ ← allow_upload s (mkUploadPolicy id (target_bucket target) (target_key target)
                        ActCreateMultipartUpload headers);
  upload_metadata ← collect_upload_metadata headers;
  Ok (target, upload_metadata).

(* @src src/src/handlers/multipart.rs 34-89 create_multipart_upload *)
Definition handle_create_multipart_upload (env : Env) (s : AppState) (r : Request) (id : RequestId)
    (ctx : AuthContext) : ioE S3Error Response :=
  '(target, upload_metadata) ← lift (create_checks s r id ctx);
  session ← map_io_err map_store_error
              (store_create_upload (env_uuid env 0) (env_uuid env 1) (env_now env)
                 (target_bucket target) (target_key target) (actx_access_key_id ctx) upload_metadata);
  lift (xml_response 200 id (initiate_xml session)).

(* @src src/src/handlers/multipart.rs 183-198 upload_part *)
Definition part_response (etag : ETag) (checksums : btree str str) (size : ContentLength) (id : RequestId)
  : result S3Error Response :=
  response ← finish_response empty_body
    (header_each checksums
      (header "content-length" "0"
        (header_named "x-amz-request-id" (request_id_str id)
          (header "etag" (etag_str etag) (builder 200)))));
  Ok (record_decoded_body_bytes response (content_length_get size)).

(** The body in the temporary part [temp], and its publication. *)
(* @src src/src/handlers/multipart.rs 131-171 upload_part *)
Definition store_part (env : Env) (s : AppState) (headers : HeaderMap) (body : Body) (ctx : AuthContext)
    (upload_id : UploadId) (part_number : PartNumber) (temp : path) : ioE S3Error UploadedBody :=
  uploaded_body ← drop_guard temp
    (receive_into env temp headers body "part body" (actx_streaming_signing ctx)
       (max_part_size (upload_limits (st_config s))));
  _ ← drop_guard temp
        (map_io_err (λ e, internal ("failed to flush part body: " ++ store_msg e)) fs_flush);
  let etag := etag_from_hex_md5 (hex_encode (ub_md5_digest uploaded_body)) in
  _ ← map_io_err map_store_error
        (store_commit_part (env_uuid env 1) (env_uuid env 2) (env_now env) upload_id part_number temp
           (mkCommittedPart (content_length_get (ub_size uploaded_body)) (ub_md5_digest uploaded_body) etag
              (ub_checksums uploaded_body)));
  mret uploaded_body.

(* @src src/src/handlers/multipart.rs 95-199 upload_part *)
Definition handle_upload_part (env : Env) (s : AppState) (r : Request) (body : Body) (id : RequestId)
    (upload_id : UploadId) (part_number : PartNumber) (ctx : AuthContext) : ioE S3Error Response :=
  let headers := req_headers r in
  _ ← lift (validate_supported_request_body_length headers);
  _ ← lift (validate_upload_headers headers);
  session ← validate_upload_session_target s r ctx upload_id;
  _ ← lift (authorize_request s ctx (us_bucket session) (Some (us_key session)) ActUploadPart);
  _ ← lift (allow_upload s (mkUploadPolicy id (us_bucket session) (us_key session) ActUploadPart headers));
  _ ← lift (try_acquire_multipart_part_writer (env_permits env));
  _ ← lift (try_acquire_aws_chunked_decoder (env_permits env) headers);
  temp ← map_io_err map_store_error (store_create_temp_part (env_uuid env 0) upload_id part_number);
  uploaded_body ← store_part env s headers body ctx upload_id part_number temp;
  let etag := etag_from_hex_md5 (hex_encode (ub_md5_digest uploaded_body)) in
  lift (part_response etag (ub_checksums uploaded_body) (ub_size uploaded_body) id).

(* @src src/src/handlers/multipart.rs 202-292 list_parts *)
Definition handle_list_parts (s : AppState) (r : Request) (id : RequestId) (upload_id : UploadId)
    (ctx : AuthContext) : ioE S3Error Response :=
  page ← lift (parse_page (default [] (uri_query (req_uri r))));
  session ← validate_upload_session_target s r ctx upload_id;
  _ ← lift (authorize_request s ctx (us_bucket session) (Some (us_key session)) ActListMultipartUploadParts);
  _ ← lift (validate_empty_payload_hash r);
  lift (xml_response 200 id (list_parts_xml session page)).

(* @src src/src/handlers/multipart.rs 299-336 abort_multipart_upload *)
Definition handle_abort_multipart_upload (env : Env) (s : AppState) (r : Request) (id : RequestId)
    (upload_id : UploadId) (ctx : AuthContext) : ioE S3Error Response :=
  _ ← lift (validate_empty_request_body_headers (req_headers r) "AbortMultipartUpload");
  session ← validate_upload_session_target s r ctx upload_id;
  _ ← lift (authorize_request s ctx (us_bucket session) (Some (us_key session)) ActAbortMultipartUpload);
  _ ← lift (validate_empty_payload_hash r);
  _ ← map_io_err map_store_error (store_abort_upload (env_uuid env 0) upload_id);
  lift (no_content 204 id).

(** The completion document: the requested parts and checksums. *)
(* @src src/src/handlers/multipart.rs 360-374 complete_multipart_upload *)
Definition completion_request (headers : HeaderMap) (body : Body)
  : result S3Error (list CompletedPart * ChecksumRequest) :=
  body ← map_err (λ err, invalid_request ("failed to read completion XML: " ++ err))
           (to_bytes body COMPLETE_MULTIPART_XML_LIMIT);
  _ ← validate_fixed_sha256_payload_hash headers (sh_hash Sha256 body);
  xml ← ok_or (if utf8_valid body then Some body else None)
          (invalid_request "CompleteMultipartUpload XML must be valid UTF-8");
  parts ← parse_completed_parts xml;
  if is_empty parts then Err (invalid_part "CompleteMultipartUpload must include at least one part")
  else
    _ ← validate_ascending_parts parts;
    checksum_request ← from_headers headers;
    Ok (parts, checksum_request).

(* @src src/src/handlers/multipart.rs 417-434 complete_multipart_upload *)
Definition complete_response (location : str) (metadata : ObjectMetadata) (id : RequestId)
  : result S3Error Response :=
  let response := header_named "x-amz-request-id" (request_id_str id)
    (header "content-type" XML_TYPE (builder 200)) in
  let response := if negb (is_empty (om_checksums metadata))
                  then header_named "x-amz-checksum-type" "FULL_OBJECT" response else response in
  response ← finish_response (body_from (complete_xml location metadata))
    (header_each (om_checksums metadata) response);
  Ok (record_decoded_body_bytes response (om_size metadata)).

Definition completion_ids (env : Env) : CompletionIds :=
  mkCompletionIds (env_uuid env 0) (env_uuid env 1) (env_uuid env 2) (env_uuid env 3).

(** What the handler asks the store to complete. *)
(* @src src/src/handlers/multipart.rs 379-389 complete_multipart_upload *)
Definition store_completion (env : Env) (s : AppState) (id : RequestId) (upload_id : UploadId)
    (parts : list CompletedPart) (checksum_request : ChecksumRequest) : CompleteUploadRequest := {|
  cu_upload_id := upload_id;
  cu_requested_parts := parts;
  cu_checksum_request := checksum_request;
  cu_upload_limits := upload_limits (st_config s);
  cu_io_tuning := st_io_tuning s;
  cu_request_id := id;
  cu_processors := numbered_processors env 4 s;
|}.

(* @src src/src/handlers/multipart.rs 342-435 complete_multipart_upload *)
Definition handle_complete_multipart_upload (env : Env) (s : AppState) (r : Request) (body : Body)
    (id : RequestId) (upload_id : UploadId) (ctx : AuthContext) : ioE S3Error Response :=
  let headers := req_headers r in
  let location := completion_location r in
  session ← validate_upload_session_target s r ctx upload_id;
  _ ← lift (authorize_request s ctx (us_bucket session) (Some (us_key session)) ActCompleteMultipartUpload);
  '(parts, checksum_request) ← lift (completion_request headers body);
  metadata ← map_io_err map_store_error
    (store_complete_upload St (completion_ids env) (env_now env)
       (store_completion env s id upload_id parts checksum_request));
  lift (complete_response location metadata id).
End multipart_handlers.
