(* ===== verification/MultipartAnswers.v ===== *)
(** * What the multipart requests promise

    The pages of ListParts enumerate the parts; a request on an upload is
    carried out for the owner, target and state of its session only; an uploaded
    part is stored as it was sent; a completion assembles the ascending parts of
    its document. *)

From stdpp Require Import sorting.
From S2P Require Import Prelude RustStd BTree S3Error Externals Reference Types Target Config Http.
From S2P Require Import Chunked ChunkedProofs Checksum Upload Auth Hooks Admission Routing Requests.
From S2P Require Import StoreModel ReferenceJson FileSystem ObjectStore ObjectProofs ObjectSpec StoreTrait Middleware.
From S2P Require Import Assembly MultipartStore MultipartProofs MultipartSpec PartDurability Streams AppState.
From S2P Require Import HeadObject GetObject PutObject MultipartHandlers.
From Stdlib Require Import ZArith Lia.
Local Open Scope Z_scope.

(** ** Pagination *)

Definition part_no (p : PartMetadata) : Z := part_number_get (pm_part_number p).

(** The parts of a session are filed under their numbers. *)
Definition parts_ok (parts : btree Z PartMetadata) : Prop :=
  btree_ok parts ∧ Forall (λ '(k, p), part_no p = k ∧ 1 ≤ k) parts.

(** A client that follows the markers, for at most [fuel] pages. *)
Fixpoint list_all (fuel : nat) (max marker : Z) (parts : btree Z PartMetadata) : option (list PartMetadata) :=
  match fuel with
  | O => None
  | S fuel =>
      match list_page (mkPage max marker) parts with
      | (listed, _, None) => Some listed
      | (listed, _, Some next) => (listed ++.) <$> list_all fuel max (part_number_get next) parts
      end
  end.

Definition before (p q : PartMetadata) : Prop := part_no p < part_no q.

Lemma parts_sorted parts :
  parts_ok parts → StronglySorted before (btree_values parts) ∧ Forall (λ p, 0 < part_no p) (btree_values parts).
Proof.
  intros [Hok Hnum]. unfold btree_ok, btree_values in *.
  assert (parts.*1 = part_no <$> parts.*2) as Hkeys.
  { clear Hok. induction Hnum as [|[k p] parts [Hk _] _ IH]; simpl; [done|]. by rewrite Hk; f_equal. }
  rewrite Hkeys in Hok. split.
  - clear Hnum Hkeys. induction (parts.*2) as [|p ps IH]; simpl in Hok; [constructor|].
    inversion_clear Hok as [|? ? Hs Hall]. constructor; [by apply IH|]. rewrite Forall_fmap in Hall.
    eapply Forall_impl; [exact Hall|]. intros q Hq. by apply Z.compare_lt_iff in Hq.
  - rewrite Forall_fmap. eapply Forall_impl; [exact Hnum|]. intros [k p] [Hk ?]. simpl in *. lia.
Qed.

Lemma filter_after l1 l2 (m : Z) :
  Forall (λ p, part_no p ≤ m) l1 → Forall (λ p, m < part_no p) l2 →
  List.filter (λ p, part_number_get (pm_part_number p) >? m) (l1 ++ l2) = l2.
Proof.
  intros H1 H2. unfold part_no in *. induction H1 as [|p l1 Hp H1 IH]; simpl.
  - induction H2 as [|p l2 Hp H2 IH]; simpl; [done|]. rewrite IH. by case_match; [|lia].
  - rewrite IH. case_match; [lia|done].
Qed.

(** The last part of a prefix separates it from the rest. *)
Lemma sorted_split (ps qs : list PartMetadata) p :
  StronglySorted before (ps ++ qs) → last ps = Some p →
  Forall (λ q, part_no q ≤ part_no p) ps ∧ Forall (λ q, part_no p < part_no q) qs.
Proof.
  intros Hs Hl. apply last_Some in Hl as [ps' ->]. rewrite <- app_assoc in Hs. simpl in Hs. split.
  - apply Forall_app. split; [|by repeat constructor]. rewrite Forall_forall. intros q Hq.
    apply (StronglySorted_app_1_elem_of _ _ _ q p) in Hs; [unfold before in Hs; lia|done|constructor].
  - apply StronglySorted_app_1_r in Hs. by apply StronglySorted_inv in Hs as [_ ?].
Qed.

Lemma list_page_spec parts max m l1 l2 :
  1 ≤ max → btree_values parts = l1 ++ l2 →
  Forall (λ p, part_no p ≤ m) l1 → Forall (λ p, m < part_no p) l2 →
  list_page (mkPage max m) parts =
    (take (Z.to_nat max) l2, Z.of_nat (length l2) >? max,
     if Z.of_nat (length l2) >? max then pm_part_number <$> last (take (Z.to_nat max) l2) else None).
Proof.
  intros Hmax Hv H1 H2. unfold list_page. cbn [max_parts part_number_marker].
  rewrite Hv, filter_after by done. rewrite take_take, length_take.
  replace (Nat.min (Z.to_nat max) (Z.to_nat (max + 1))) with (Z.to_nat max) by lia.
  replace (Z.of_nat (Nat.min (Z.to_nat (max + 1)) (length l2)) >? max) with (Z.of_nat (length l2) >? max)
    by (apply eq_iff_eq_true; rewrite !Z.gtb_gt; lia).
  done.
Qed.

Lemma list_all_after parts max l2 : ∀ fuel l1 m,
  1 ≤ max → StronglySorted before (btree_values parts) → btree_values parts = l1 ++ l2 →
  Forall (λ p, part_no p ≤ m) l1 → Forall (λ p, m < part_no p) l2 → (length l2 < fuel)%nat →
  list_all fuel max m parts = Some l2.
Proof.
  induction l2 as [l2 IH] using (induction_ltof1 _ (@length PartMetadata)). unfold ltof in IH.
  intros [|fuel] l1 m Hmax Hs Hv H1 H2 Hf; [lia|]. cbn [list_all].
  rewrite (list_page_spec _ _ _ l1 l2) by done.
  destruct (Z.of_nat (length l2) >? max) eqn:Ht; [|by rewrite take_ge by lia].
  rewrite Z.gtb_gt in Ht. destruct (last (take (Z.to_nat max) l2)) as [p|] eqn:Hl.
  2: { apply last_None in Hl. apply (f_equal length) in Hl. rewrite length_take in Hl. simpl in Hl. lia. }
  cbn [fmap option_fmap option_map]. fold (part_no p).
  set (k := Z.to_nat max) in *.
  rewrite Hv in Hs. apply StronglySorted_app_1_r in Hs as Hs2.
  pose proof (take_drop k l2) as Hsplit. rewrite <- Hsplit in Hs2.
  destruct (sorted_split _ _ _ Hs2 Hl) as [Hle Hgt].
  assert (p ∈ l2) as Hin.
  { rewrite <- Hsplit. apply elem_of_app. left. apply last_Some in Hl as [? ->]. apply elem_of_app. right. constructor. }
  rewrite (IH (drop k l2)) with (l1 := l1 ++ take k l2).
  - cbn [fmap option_fmap option_map]. by rewrite Hsplit.
  - rewrite length_drop. lia.
  - done.
  - by rewrite Hv.
  - by rewrite <- app_assoc, Hsplit.
  - apply Forall_app. split; [|done]. rewrite Forall_forall in H2. specialize (H2 _ Hin).
    eapply Forall_impl; [exact H1|]. simpl. lia.
  - done.
  - rewrite length_drop. lia.
Qed.

(* @prop liveness 34 : list_page ListPartsPageRequest *)
(** C34: ListParts pages enumerate the parts. For every page size, a client that
    starts at marker 0 and follows NextPartNumberMarker reaches a page that is
    not truncated, after at most one request more than there are parts, and has
    then seen every part of the upload exactly once, in ascending order. *)
Theorem list_parts_pages parts max :
  parts_ok parts → 1 ≤ max →
  list_all (S (length parts)) max 0 parts = Some (btree_values parts) ∧
  StronglySorted before (btree_values parts).
Proof.
  intros Hok Hmax. destruct (parts_sorted parts Hok) as [Hs Hpos]. split; [|done].
  apply (list_all_after parts max (btree_values parts)) with (l1 := []); [done..| |].
  - eapply Forall_impl; [exact Hpos|]. simpl. lia.
  - unfold btree_values. rewrite length_fmap. lia.
Qed.

(** Recording and removing parts keeps them filed under their numbers. *)
Lemma insert_part_ok p s : parts_ok (us_parts s) → 1 ≤ part_no p → parts_ok (us_parts (insert_part p s)).
Proof.
  intros [Hok Hnum] Hp. split; [by apply btree_insert_ok|]. rewrite Forall_forall in *. intros x Hx.
  apply btree_insert_elem in Hx as [->|Hx]; [done|by apply Hnum].
Qed.
Lemma remove_part_ok n s : parts_ok (us_parts s) → parts_ok (us_parts (remove_part n s)).
Proof.
  intros [Hok Hnum]. split; [by apply btree_remove_ok|]. rewrite Forall_forall in *. intros x Hx.
  by apply Hnum, btree_remove_elem with (part_number_get n).
Qed.

(** ** Who may use an upload *)

Section access.
Context `{HttpLib} `{CodecLib} `{CryptoLib} `{ChronoLib} `{UuidLib} `{JsonLib} `{AxumLib} `{XmlLib}.
Local Existing Instance mem_writer.
Implicit Types (n : nat) (fs : gmap path bytes) (ss : gmap str UploadSession).

(** The session is open, for the target of the request and of its user. *)
Definition session_grants (s : AppState) (r : Request) (ctx : AuthContext) (session : UploadSession) : Prop :=
  us_state session = Open ∧
  (∃ t, resolve_request_target s r = Ok t ∧ target_bucket t = us_bucket session ∧ target_key t = us_key session) ∧
  (us_owner_access_key_id session = None ∨ us_owner_access_key_id session = actx_access_key_id ctx).

(** The session of the upload is in the table and grants the request. *)
Definition session_access (s : AppState) (r : Request) (ctx : AuthContext) (id : UploadId) ss
    (session : UploadSession) : Prop :=
  ss !! upload_id_str id = Some session ∧ session_grants s r ctx session.

Section contract.
Context `{Mt : !MultipartStoreOps} `{!MultipartStoreContract Mt}.

Lemma wp_validate_session s r ctx id n fs ss Q :
  (∀ session, upload_of fs ss id = Some session → session_grants s r ctx session → Q (Ok session) n fs ss) →
  (∀ e, (∀ session, upload_of fs ss id = Some session → ¬ session_grants s r ctx session) → Q (Err e) n fs ss) →
  wp (validate_upload_session_target s r ctx id) n fs ss Q.
Proof.
  intros HOk HErr. unfold validate_upload_session_target.
  apply wp_bind, wp_map_io_err, get_upload_law. cbn [map_err]. apply wp_bind, wp_lift.
  destruct (upload_of fs ss id) as [session|] eqn:Hs; cbn [ok_or]; [|by apply HErr].
  unfold is_open. case_bool_decide as Ho; cbn [negb].
  2: { apply wp_throw, HErr. intros ? [= <-] (Ho' & _). congruence. }
  apply wp_bind, wp_lift. destruct (resolve_request_target s r) as [t|e] eqn:Ht.
  2: { apply HErr. intros ? _ (_ & (t & Ht' & _) & _). congruence. }
  case_bool_decide as Hb; [case_bool_decide as Hk|]; cbn [negb orb].
  2, 3: apply wp_throw, HErr; intros ? [= <-] (_ & (t' & Ht' & ? & ?) & _); congruence.
  destruct (us_owner_access_key_id session) as [owner|] eqn:Hown.
  - case_bool_decide as Ha; cbn [negb].
    + apply wp_ret, HOk; [done|]. split_and!; [done|by exists t|by right; rewrite Hown].
    + apply wp_throw, HErr. intros ? [= <-] (_ & _ & [Hn|Hn]); congruence.
  - apply wp_ret, HOk; [done|]. split_and!; [done|by exists t|by left].
Qed.
End contract.

Lemma wp_validate_target s r ctx id n fs ss Q :
  (∀ session, session_access s r ctx id ss session → Q (Ok session) n fs ss) →
  (∀ e, (∀ session, ¬ session_access s r ctx id ss session) → Q (Err e) n fs ss) →
  wp (validate_upload_session_target s r ctx id) n fs ss Q.
Proof.
  intros HOk HErr. apply (wp_validate_session (Mt := file_multipart_store)).
  - intros session Hs Hg. by apply HOk.
  - intros e Hno. apply HErr. intros session [Hs Hg]. by eapply Hno.
Qed.

(** The requests that name an upload, and the action each of them needs. *)
Inductive upload_request :=
| AUploadPart (body : Body) (part_number : PartNumber)
| AListParts
| AAbort
| AComplete (body : Body).

Definition upload_action (q : upload_request) : S3Action :=
  match q with
  | AUploadPart _ _ => ActUploadPart
  | AListParts => ActListMultipartUploadParts
  | AAbort => ActAbortMultipartUpload
  | AComplete _ => ActCompleteMultipartUpload
  end.

Definition handle_upload_request `{!ObjectStoreOps} `{!MultipartStoreOps} (env : Env) (s : AppState) (r : Request) (id : RequestId)
    (upload_id : UploadId) (ctx : AuthContext) (q : upload_request) : ioE S3Error Response :=
  match q with
  | AUploadPart body part_number => handle_upload_part env s r body id upload_id part_number ctx
  | AListParts => handle_list_parts s r id upload_id ctx
  | AAbort => handle_abort_multipart_upload env s r id upload_id ctx
  | AComplete body => handle_complete_multipart_upload env s r body id upload_id ctx
  end.

(** The answer is an error and nothing has changed. *)
Definition refused fs ss (res : result S3Error Response) fs' ss' : Prop :=
  (∃ e, res = Err e) ∧ fs' = fs ∧ ss' = ss.

Lemma refused_err e fs ss : refused fs ss (Err e) fs ss.
Proof. split; [by exists e|done]. Qed.

(** A check of the request in front of the rest. *)
Lemma wp_check {A : Type} (c : result S3Error A) (m : A → ioE S3Error Response) n fs ss (P : Prop) :
  (∀ a, c = Ok a → wp (m a) n fs ss (λ res _ fs' ss', refused fs ss res fs' ss' ∨ P)) →
  wp (a ← lift c; m a) n fs ss (λ res _ fs' ss', refused fs ss res fs' ss' ∨ P).
Proof.
  intros Hm. apply wp_bind, wp_lift. destruct c as [a|e]; [by apply Hm|left; apply refused_err].
Qed.

(** Once the gates are passed, anything may happen. *)
Lemma wp_passed (m : ioE S3Error Response) n fs ss (P : Prop) :
  P → wp m n fs ss (λ res _ fs' ss', refused fs ss res fs' ss' ∨ P).
Proof. intros HP fl Hn. destruct (m _). by right. Qed.

Lemma wp_upload_gate `{!ObjectStoreOps} `{Mt : !MultipartStoreOps} `{!MultipartStoreContract Mt}
    env s r id upload_id ctx q n fs ss :
  wp (handle_upload_request env s r id upload_id ctx q) n fs ss (λ res _ fs' ss',
    refused fs ss res fs' ss' ∨
    ∃ session, upload_of fs ss upload_id = Some session ∧ session_grants s r ctx session ∧
      permitted s ctx (us_bucket session) (Some (us_key session)) (upload_action q)).
Proof.
  destruct q; cbn [handle_upload_request upload_action];
    unfold handle_upload_part, handle_list_parts, handle_abort_multipart_upload, handle_complete_multipart_upload;
    repeat (apply wp_check; intros ? _);
    (apply wp_bind, wp_validate_session; [intros session Hs Hg|intros e _; left; apply refused_err]);
    apply wp_check; intros [] Hauth; apply wp_passed; exists session; by rewrite <- authorize_request_ok.
Qed.

(* @prop safety 17 : handle_upload_part handle_list_parts handle_abort_multipart_upload handle_complete_multipart_upload validate_upload_session_target authorize_request *)
(** C17: an upload that has an owner can be used by its owner only, and any upload
    for its own object only. Whatever fails, a request to upload a part, list the
    parts, abort or complete an upload either is refused with an error and changes
    nothing at all, or its session is in the table, open, of the bucket and key
    the request resolves to, and created by the same access key or without one
    (such an upload has no owner and is open to every request that is permitted),
    and the target policy, the allow lists and the authorization policy all permit
    the action on that bucket and key. *)
Theorem upload_requests_guarded env s r id upload_id ctx q w w' res :
  handle_upload_request env s r id upload_id ctx q w = (res, w') →
  ((∃ e, res = Err e) ∧ files w' = files w ∧ sessions w' = sessions w) ∨
  ∃ session, session_access s r ctx upload_id (sessions w) session ∧
    permitted s ctx (us_bucket session) (Some (us_key session)) (upload_action q).
Proof.
  intros Hrun.
  destruct (wp_run _ _ _ _ _ Hrun (wp_upload_gate (Mt := file_multipart_store) env s r id upload_id ctx q
    (budget w) (files w) (sessions w))) as [Hr|(session & Hs & Hg & Hp)]; [by left|right]. by exists session.
Qed.
End access.

(** ** Uploading a part *)

Section upload_part.
Context `{HttpLib} `{CodecLib} `{CryptoLib} `{ChronoLib} `{UuidLib} `{JsonLib} `{AxumLib} `{XmlLib}.
Local Existing Instance mem_writer.
Implicit Types (n : nat) (fs : gmap path bytes) (ss : gmap str UploadSession).

(** The entry a part body gets in its session. *)
Definition part_entry (env : Env) (pn : PartNumber) (up : UploadedBody) : PartMetadata :=
  mkPartMetadata pn (content_length_get (ub_size up))
    (mkETag ("034"%char :: hex_encode (ub_md5_digest up) ++ ["034"%char])) (ub_md5_digest up) (ub_checksums up) (env_now env).

(** The answer to the upload of a part: its ETag, the request id and its checksums. *)
Definition part_fields (part : PartMetadata) (id : RequestId) : list (str * str) :=
  [("etag", etag_str (pm_etag part)); ("x-amz-request-id", request_id_str id); ("content-length", "0")] ++
  pm_checksums part.
Definition part_answer (part : PartMetadata) (id : RequestId) (res : result S3Error Response) : Prop :=
  answers res 200 (part_fields part id) [] (Some (pm_size part)).

Lemma part_response_answer env pn up id :
  part_answer (part_entry env pn up) id
    (part_response (etag_from_hex_md5 (hex_encode (ub_md5_digest up))) (ub_checksums up) (ub_size up) id).
Proof.
  set (etag := etag_from_hex_md5 _).
  assert (built (header_each (ub_checksums up) (header "content-length" "0" (header_named "x-amz-request-id" (request_id_str id)
    (header "etag" (etag_str etag) (builder 200))))) 200 (part_fields (part_entry env pn up) id)) as Hb.
  { change (part_fields _ id) with (((([] ++ [("etag", etag_str etag)]) ++ [("x-amz-request-id", request_id_str id)]) ++
      [("content-length", "0")]) ++ ub_checksums up).
    apply built_header_each, built_header, built_header_named, built_header, built_builder. }
  apply (finish_response_answers empty_body) in Hb. unfold part_response, part_answer.
  destruct (finish_response _ _) as [r|e]; [|done]. destruct Hb as (Hst & Hf & Hbody & _). done.
Qed.

(** What the handler decides once the session is known. *)
Definition part_checks (env : Env) (s : AppState) (r : Request) (id : RequestId) (session : UploadSession)
    (ctx : AuthContext) : result S3Error () :=
  let headers := req_headers r in
  _ ← validate_supported_request_body_length headers;
  _ ← validate_upload_headers headers;
  _ ← authorize_request s ctx (us_bucket session) (Some (us_key session)) ActUploadPart;
  _ ← allow_upload s (mkUploadPolicy id (us_bucket session) (us_key session) ActUploadPart headers);
  _ ← try_acquire_multipart_part_writer (env_permits env);
  _ ← try_acquire_aws_chunked_decoder (env_permits env) headers;
  Ok ().

Section one_part.
Context (env : Env) (s : AppState) (r : Request) (body : Body) (ctx : AuthContext).
Context (upload_id : UploadId) (pn : PartNumber) (session : UploadSession).
Context (Hpn : part_number_ok pn) (Hopen : us_state session = Open) (Hid : us_upload_id session = upload_id).
Context (Hjson : ∀ part, json_of_session (insert_part part session) ≠ None).

Let temp := part_tmp upload_id pn (env_uuid env 0) ".tmp".
Let backup := part_tmp upload_id pn (env_uuid env 1) ".rollback.tmp".
Let decoded := decode_body r body "part body" ctx (max_part_size (upload_limits (st_config s))).

(** Only the files of the part and of the session may differ. *)
Definition part_files_only fs fs' : Prop :=
  ∀ q, q ∉ [temp; part_path upload_id pn; backup; session_tmp upload_id (env_uuid env 2); session_path upload_id] →
    fs' !! q = fs !! q.

(** The decoded body is the file of the part, its entry is in the session, and
    the session is on the disk. *)
Definition part_stored (up : UploadedBody) ss fs' ss' : Prop :=
  ∃ data j, decoded = Some (Ok (up, data)) ∧ fs' !! part_path upload_id pn = Some data ∧
    ss' = <[upload_id_str upload_id := insert_part (part_entry env pn up) session]> ss ∧
    json_of_session (insert_part (part_entry env pn up) session) = Some j ∧
    fs' !! session_path upload_id = Some j.

Definition recorded_present fs : Prop :=
  is_Some (btree_get (part_number_get pn) (us_parts session)) → is_Some (fs !! part_path upload_id pn).

Definition store_part_post n fs ss (out : result S3Error UploadedBody) fs' ss' : Prop :=
  part_files_only fs fs' ∧
  (∀ up, out = Ok up → part_stored up ss fs' ss') ∧
  (n = 0%nat → recorded_present fs →
     match decoded with
     | Some (Ok (up, _)) => out = Ok up
     | Some (Err e) => out = Err e ∧ ss' = ss
     | None => False
     end).

Lemma wp_store_part n fs ss :
  fs !! backup = None → ss !! upload_id_str upload_id = Some session →
  wp (store_part env s (req_headers r) body ctx upload_id pn temp) n (<[temp := []]> fs) ss
    (λ out _ fs' ss', store_part_post n fs ss out fs' ss').
Proof.
  intros Hb Hs. unfold store_part.
  pose proof (part_files_distinct upload_id pn (env_uuid env 0) (env_uuid env 1) (env_uuid env 2) Hpn) as Hnames.
  assert (∀ fs', (∀ q, q ≠ temp → fs' !! q = fs !! q) → part_files_only fs fs') as Hframe.
  { intros fs' Hf q Hq. apply not_elem_of_cons in Hq as [Hq _]. by apply Hf. }
  apply wp_bind, wp_drop_guard_any, wp_receive_into; [by rewrite lookup_insert_eq| |].
  2: { intros e n' c Hn He n'' fs'' _ Hf Hz. split; [|split; [done|]].
       - apply Hframe. intros q Hq. by rewrite Hf, !lookup_insert_ne by done.
       - intros -> _. subst decoded. unfold decode_body. by rewrite He. }
  intros up data Hdec. rewrite insert_insert_eq.
  apply wp_bind, wp_drop_guard_any, wp_map_io_err, wp_call; simpl.
  2: { intros f n' -> n'' fs'' _ Hf _. split; [|split; [done|done]]. apply Hframe. intros q Hq.
       rewrite Hf by done. unfold unchanged. by rewrite lookup_insert_ne. }
  apply wp_bind, wp_map_io_err. eapply wp_mono.
  { apply (wp_commit_part upload_id pn (env_uuid env 0) (env_uuid env 1) (env_uuid env 2) session
      (part_entry env pn up) Hpn eq_refl Hopen Hid); [|apply Hjson|done|done].
    rewrite lookup_insert_ne; [done|]. intros Heq. apply NoDup_cons in Hnames as [Hnot _].
    apply Hnot. fold temp. rewrite Heq. right. left. }
  intros out n1 fs1 ss1 [Hf1 Hout]. 
  assert (part_files_only fs fs1) as Hfr.
  { intros q Hq. rewrite Hf1 by done. apply not_elem_of_cons in Hq as [Hq _]. by rewrite lookup_insert_ne. }
  assert (decoded = Some (Ok (up, data))) as Hd by done.
  destruct out as [part|e]; cbn [map_err].
  - destruct Hout as [-> (c & j & Hc & Hfin & Hj & Hsp & ->)]. rewrite lookup_insert_eq in Hc. injection Hc as <-.
    apply wp_ret. split_and!; [done| |by rewrite Hd]. intros ? [= <-]. by exists data, j.
  - split_and!; [done|done|]. intros Hz Hrec. destruct (proj2 Hout Hz) as [Hm|[Hp Hm]].
    + by rewrite lookup_insert_eq in Hm.
    + rewrite lookup_insert_ne in Hm by done. destruct (Hrec Hp) as [? ?]. congruence.
Qed.

Definition upload_part_post id n fs ss (res : result S3Error Response) fs' ss' : Prop :=
  match part_checks env s r id session ctx with
  | Err e => res = Err e ∧ fs' = fs ∧ ss' = ss
  | Ok _ =>
      part_files_only fs fs' ∧
      (∀ resp, res = Ok resp → ∃ up,
         part_answer (part_entry env pn up) id res ∧ part_stored up ss fs' ss') ∧
      (n = 0%nat → recorded_present fs →
         match decoded with
         | Some (Ok (up, _)) => part_answer (part_entry env pn up) id res
         | Some (Err e) => res = Err e ∧ ss' = ss
         | None => False
         end)
  end.

Lemma wp_upload_part id n fs ss :
  fs !! backup = None → session_access s r ctx upload_id ss session →
  wp (handle_upload_part env s r body id upload_id pn ctx) n fs ss
    (λ res _ fs' ss', upload_part_post id n fs ss res fs' ss').
Proof.
  intros Hb Hacc. unfold handle_upload_part, upload_part_post, part_checks.
  pose proof Hacc as (Hs & _).
  apply wp_bind, wp_lift. destruct (validate_supported_request_body_length _) as [[]|e]; [|done].
  apply wp_bind, wp_lift. destruct (validate_upload_headers _) as [[]|e]; [|done].
  apply wp_bind, wp_validate_target; [|intros e Hno; by destruct (Hno _ Hacc)].
  intros session' (Hs' & _). assert (session' = session) as -> by congruence.
  cbn [mbind result_bind].
  apply wp_bind, wp_lift. destruct (authorize_request _ _ _ _ _) as [[]|e]; [|done].
  cbn [mbind result_bind].
  apply wp_bind, wp_lift. destruct (allow_upload _ _) as [[]|e]; [|done]. cbn [mbind result_bind].
  apply wp_bind, wp_lift. destruct (try_acquire_multipart_part_writer _) as [a|e]; [|done].
  cbn [mbind result_bind].
  apply wp_bind, wp_lift. destruct (try_acquire_aws_chunked_decoder _ _) as [a'|e]; [|done].
  cbn [mbind result_bind].
  apply wp_bind, wp_map_io_err, wp_bind, wp_get_open_upload. rewrite Hs. unfold is_open. rewrite Hopen.
  rewrite bool_decide_eq_true_2 by done.
  apply wp_bind, wp_create_parent_dir; [done| |].
  2: { intros e n' ->. split_and!; [by intros q _|done|done]. }
  apply wp_bind, wp_call; simpl.
  2: { intros f n' ->. split_and!; [by intros q _|done|done]. }
  apply wp_ret. cbn [map_err]. apply wp_bind. eapply wp_mono; [by apply wp_store_part|].
  intros out n' fs' ss' (Hf & Hok & Hcalm). destruct out as [up|e].
  - apply wp_lift. split_and!; [done| |].
    + intros resp Hresp. exists up. split; [apply part_response_answer|by apply Hok].
    + intros Hz Hrec. specialize (Hcalm Hz Hrec). destruct decoded as [[[up' data]|e]|]; [|by destruct Hcalm..].
      injection Hcalm as <-. apply part_response_answer.
  - split_and!; [done|done|]. intros Hz Hrec. specialize (Hcalm Hz Hrec).
    destruct decoded as [[[up' data]|e']|]; [done| |done]. by destruct Hcalm as [[= ->] ->].
Qed.
End one_part.

(* @prop functional 19 : handle_upload_part store_part part_response validate_upload_session_target receive_into write_upload_body create_temp_part commit_part *)
(** C19: UploadPart stores the part that was sent. For a request on an accessible
    session: a request that fails a check changes nothing. Otherwise, whatever
    calls of the file system fail, nothing but the files of this part and the
    session file may change, and a success means that the part file holds the
    decoded body, that the session in the table and on the disk has the entry
    with its size, MD5, ETag and checksums, and that the answer is 200 with the
    fields of that ETag, the request id and these checksums. Without faults, the
    answer is that of the stored part when the body decodes, and otherwise the
    decoding error with the session unchanged. *)
Theorem upload_part_stored env s r body id upload_id pn ctx session w w' res :
  part_number_ok pn → us_upload_id session = upload_id →
  (∀ part, json_of_session (insert_part part session) ≠ None) →
  files w !! part_tmp upload_id pn (env_uuid env 1) ".rollback.tmp" = None →
  session_access s r ctx upload_id (sessions w) session →
  handle_upload_part env s r body id upload_id pn ctx w = (res, w') →
  upload_part_post env s r body ctx upload_id pn session id (budget w) (files w) (sessions w) res
    (files w') (sessions w').
Proof.
  intros Hpn Hid Hj Hb Hacc Hrun. pose proof Hacc as (_ & Ho & _).
  exact (wp_run _ _ _ _ _ Hrun
    (wp_upload_part env s r body ctx upload_id pn session Hpn Ho Hid Hj id _ _ _ Hb Hacc)).
Qed.
End upload_part.

(** ** Completion *)

Section completion.
Context `{HttpLib} `{CodecLib} `{CryptoLib} `{ChronoLib} `{UuidLib} `{JsonLib} `{AxumLib} `{XmlLib}.
Implicit Types (n : nat) (fs : gmap path bytes) (ss : gmap str UploadSession) (objs : objects).
Implicit Types (funs : list (bytes → result UploadProcessorError (option bytes))).

(** The part numbers of a document that is accepted increase strictly. *)
Definition ascending (parts : list CompletedPart) : Prop :=
  StronglySorted (λ a b, part_number_get (cp_part_number a) < part_number_get (cp_part_number b)) parts.

Lemma validate_ascending_ok parts : validate_ascending_parts parts = Ok () ↔ ascending parts.
Proof.
  unfold validate_ascending_parts, ascending.
  set (R := λ a b : CompletedPart, part_number_get (cp_part_number a) < part_number_get (cp_part_number b)).
  assert (Transitive R) as HT by (intros a b c; unfold R; lia).
  transitivity (Sorted R parts); [|split; [by apply Sorted_StronglySorted|by apply StronglySorted_Sorted]].
  induction parts as [|a parts IH]; [by split; constructor|].
  destruct parts as [|b parts]; [split; [by repeat constructor|done]|].
  change (windows2 (a :: b :: parts)) with ((a, b) :: windows2 (b :: parts)). cbn [existsb].
  destruct (part_number_get (cp_part_number a) >=? part_number_get (cp_part_number b)) eqn:E; cbn [orb].
  - split; [done|]. intros Hs. inversion_clear Hs as [|? ? _ Hh]. inversion_clear Hh. unfold R in *. lia.
  - rewrite IH. split.
    + intros Hs. constructor; [done|]. constructor. unfold R. lia.
    + intros Hs. by inversion_clear Hs.
Qed.

(** A part of the document: a part number from 1 to 10000 and an ETag. *)
Definition names_part (listed : option Z * option str) (part : CompletedPart) : Prop :=
  listed = (Some (part_number_get (cp_part_number part)), Some (etag_str (cp_etag part))) ∧
  part_number_ok (cp_part_number part).

Lemma parse_completed_parts_ok xml parts :
  parse_completed_parts xml = Ok parts → ∃ listed, parts_of_xml xml = Ok listed ∧ Forall2 names_part listed parts.
Proof.
  unfold parse_completed_parts. unfold_result. destruct (parts_of_xml xml) as [listed|] eqn:Hx; [|done]. cbn [map_err].
  intros Hc%collect_ok. exists listed. split; [done|].
  assert (∀ z e, (Some z, e) ∈ listed → is_u16 z) as Hu by (intros z e; by eapply parts_of_xml_u16). clear Hx.
  revert parts Hc. induction listed as [|[z e] listed IH]; intros parts Hc.
  { symmetry in Hc. apply fmap_nil_inv in Hc as ->. constructor. }
  symmetry in Hc. apply fmap_cons_inv in Hc as (p & ps & Hp & Hps & ->).
  constructor; [|apply IH; [intros; eapply Hu; by right|by rewrite <- Hps]].
  revert Hp. unfold parse_completed_part. unfold_result. destruct z as [z|]; [|done]. cbn [ok_or].
  destruct (parse_part_number z) as [pn|] eqn:Hn; [|done]. cbn [map_err]. destruct e as [e|]; [|done]. cbn [ok_or].
  unfold parse_etag. destruct (is_empty e || _); [done|]. cbn [map_err]. intros [= <-].
  apply parse_part_number_ok in Hn as [-> [Hn|Hn]]; [|done]. pose proof (Hu z (Some e) ltac:(by left)) as Hr.
  unfold is_u16 in Hr. lia.
Qed.

Lemma completion_request_ok headers body parts cr :
  completion_request headers body = Ok (parts, cr) →
  parts ≠ [] ∧ ascending parts ∧ from_headers headers = Ok cr ∧
  ∃ xml listed, to_bytes body (8 * 1024 * 1024) = Ok xml ∧ parts_of_xml xml = Ok listed ∧ Forall2 names_part listed parts.
Proof.
  unfold completion_request. unfold_result.
  change COMPLETE_MULTIPART_XML_LIMIT with (8 * 1024 * 1024). destruct (to_bytes _ _) as [xml|]; [|done].
  destruct (validate_fixed_sha256_payload_hash _ _); [|done].
  destruct (utf8_valid xml); [|done]. destruct (parse_completed_parts xml) as [ps|] eqn:Hp; [|done].
  destruct (is_empty ps) eqn:He; [done|]. destruct (validate_ascending_parts ps) as [[]|] eqn:Ha; [|done].
  destruct (from_headers headers) as [c|]; [|done]. intros [= <- <-].
  apply parse_completed_parts_ok in Hp as (listed & Hx & Hl).
  split_and!; [by intros ->|by apply validate_ascending_ok|done|by exists xml, listed].
Qed.

(** The object a completion request asks for, from the request and the stored
    parts of the session. *)
Definition complete_request_spec (env : Env) (s : AppState) (r : Request) (body : Body) (id : RequestId)
    (upload_id : UploadId) (ctx : AuthContext) (session : UploadSession) fs funs
  : result S3Error (bytes * ObjectMetadata) :=
  _ ← authorize_request s ctx (us_bucket session) (Some (us_key session)) ActCompleteMultipartUpload;
  '(parts, cr) ← completion_request (req_headers r) body;
  map_err map_store_error
    (complete_spec fs (env_now env) session (store_completion env s id upload_id parts cr) funs).

(** The answer to a completion: the document of the object, the request id and the
    checksums. *)
Definition completion_document (location : str) (md : ObjectMetadata) : str :=
  xml_document "CompleteMultipartUploadResult"
    (concat ((λ f, xml_line "  " f.1 (Xml.escape_xml f.2)) <$>
       [("Location", location); ("Bucket", bucket_str (om_bucket md)); ("Key", key_str (om_key md));
        ("ETag", etag_str (om_etag md))])).
Definition completion_fields (md : ObjectMetadata) (id : RequestId) : list (str * str) :=
  [("content-type", "application/xml; charset=utf-8"); ("x-amz-request-id", request_id_str id)] ++
  (if is_empty (om_checksums md) then [] else [("x-amz-checksum-type", "FULL_OBJECT")]) ++ om_checksums md.
Definition completion_answer (location : str) (md : ObjectMetadata) (id : RequestId) (res : result S3Error Response) : Prop :=
  answers res 200 (completion_fields md id) [Ok (completion_document location md)] (Some (om_size md)).

Lemma complete_xml_document location md : complete_xml location md = completion_document location md.
Proof. unfold completion_document. cbn [fmap list_fmap concat fst snd]. by rewrite app_nil_r. Qed.

Lemma complete_response_answer location md id : completion_answer location md id (complete_response location md id).
Proof.
  set (first := header_named "x-amz-request-id" (request_id_str id) (header "content-type" XML_TYPE (builder 200))).
  assert (built (header_each (om_checksums md)
    (if negb (is_empty (om_checksums md)) then header_named "x-amz-checksum-type" "FULL_OBJECT" first else first))
    200 (completion_fields md id)) as Hb.
  { unfold completion_fields. rewrite app_assoc. apply built_header_each.
    change [("content-type", "application/xml; charset=utf-8"); ("x-amz-request-id", request_id_str id)]
      with (([] ++ [("content-type", XML_TYPE)]) ++ [("x-amz-request-id", request_id_str id)]).
    destruct (is_empty (om_checksums md)); cbn [negb]; [rewrite app_nil_r|apply built_header_named];
      apply built_header_named, built_header, built_builder. }
  apply (finish_response_answers [Ok (completion_document location md)]) in Hb.
  unfold complete_response, completion_answer, body_from. cbv zeta. rewrite complete_xml_document. fold first.
  destruct (finish_response _ _) as [r|e]; [|done]. destruct Hb as (Hst & Hf & Hbody & _). done.
Qed.

Definition complete_request_post (r : Request) (id : RequestId) (upload_id : UploadId) (session : UploadSession)
    fs ss objs (spec : result S3Error (bytes * ObjectMetadata))
    (res : result S3Error Response) fs' ss' : Prop :=
  match spec with
  | Ok (data, md) =>
      completion_answer (completion_location r) md id res ∧
      refines fs' (<[object_digest (us_bucket session) (us_key session) := (md, data)]> objs) ∧
      ss' = delete (upload_id_str upload_id) ss
  | Err e =>
      res = Err e ∧ refines fs' objs ∧ ss' = ss ∧
      (∀ p, fs' !! part_path upload_id p = fs !! part_path upload_id p)
  end.

Lemma wp_complete_request env s r body id upload_id ctx session funs fs ss objs :
  refines fs objs → session_access s r ctx upload_id ss session → us_upload_id session = upload_id →
  0 < multipart_complete_buffer_size (st_io_tuning s) → 0 < upload_summary_buffer_size (st_io_tuning s) →
  Forall2 runs_as (st_upload_processors s) funs →
  wp (handle_complete_multipart_upload env s r body id upload_id ctx) 0 fs ss (λ res _ fs' ss',
    complete_request_post r id upload_id session fs ss objs
      (complete_request_spec env s r body id upload_id ctx session fs funs) res fs' ss').
Proof.
  intros Hr Hacc Hid Hb1 Hb2 Hprocs. pose proof Hacc as (Hs & Ho & _).
  unfold handle_complete_multipart_upload, complete_request_spec.
  apply wp_bind, wp_validate_target; [|intros e Hno; by destruct (Hno _ Hacc)].
  intros session' (Hs' & _). assert (session' = session) as -> by congruence.
  apply wp_bind, wp_lift. destruct (authorize_request _ _ _ _ _) as [[]|e]; [|done]. cbn [mbind result_bind].
  apply wp_bind, wp_lift. destruct (completion_request _ _) as [[parts cr]|e]; [|done]. cbn [mbind result_bind].
  apply wp_bind, wp_map_io_err. eapply wp_mono.
  { apply (wp_complete_upload (completion_ids env) (env_now env) session
      (store_completion env s id upload_id parts cr) funs fs ss objs); [done|done| |done|done|].
    - unfold is_open. by rewrite Ho.
    - by apply numbered_runs_as. }
  intros out n' fs' ss' [_ Hout]. destruct (complete_spec _ _ _ _ _) as [[data md]|e]; cbn [map_err].
  - destruct Hout as (-> & Hr' & -> & _). apply wp_lift. split; [apply complete_response_answer|done].
  - by destruct Hout as (-> & Hr' & -> & Hp).
Qed.

(* @prop refinement 18 : handle_complete_multipart_upload completion_request parse_completed_parts validate_ascending_parts map_store_error complete_response store_completion complete_upload *)
(** C18: CompleteMultipartUpload assembles what its document asks for. For a
    request on an accessible session, without file system faults, the handler is
    the function [complete_request_spec] of the request and the stored parts:
    the object is stored, the session removed and the answer 200 with its location,
    name, ETag and checksums; or the answer is the error, with all objects, the
    session and the files of all its parts as before. An object is made only of a
    document within 8 MiB that lists at least one part, in strictly ascending
    part number order; each of these is a stored part with the listed ETag; and
    the object is the concatenation of their files, as the processors leave it,
    which has the digests that the request announces. *)
Theorem complete_request_refines env s r body id upload_id ctx session funs w w' objs res :
  faults w = [] → refines (files w) objs →
  session_access s r ctx upload_id (sessions w) session → us_upload_id session = upload_id →
  0 < multipart_complete_buffer_size (st_io_tuning s) → 0 < upload_summary_buffer_size (st_io_tuning s) →
  Forall2 runs_as (st_upload_processors s) funs →
  handle_complete_multipart_upload env s r body id upload_id ctx w = (res, w') →
  let spec := complete_request_spec env s r body id upload_id ctx session (files w) funs in
  complete_request_post r id upload_id session (files w) (sessions w) objs spec res (files w') (sessions w') ∧
  (∀ data md, spec = Ok (data, md) → ∃ xml listed parts sums chosen contents,
     to_bytes body (8 * 1024 * 1024) = Ok xml ∧ parts_of_xml xml = Ok listed ∧ Forall2 names_part listed parts ∧
     parts ≠ [] ∧ ascending parts ∧ from_headers (req_headers r) = Ok sums ∧
     Forall2 (part_of session) parts chosen ∧ Forall2 (file_of (files w) upload_id) chosen contents ∧
     (∀ d, content_md5 sums = Some d → d = sh_hash Md5 (concat contents)) ∧
     (∀ c d, requested sums c = Some d → d = true_digest c (concat contents)) ∧
     run_processors funs (concat contents) = Ok data).
Proof.
  intros Hfl Hr Hacc Hid Hb1 Hb2 Hprocs Hrun spec. split.
  - assert (budget w = 0%nat) as Hb0 by (unfold budget; by rewrite Hfl).
    pose proof (wp_complete_request env s r body id upload_id ctx session funs _ _ objs Hr Hacc Hid Hb1 Hb2 Hprocs)
      as Hwp.
    rewrite <- Hb0 in Hwp. exact (wp_run _ _ _ _ _ Hrun Hwp).
  - subst spec. unfold complete_request_spec. destruct (authorize_request _ _ _ _ _); [|done].
    cbn [mbind result_bind]. destruct (completion_request _ _) as [[parts cr]|] eqn:Hc; [|done]. intros data md Hs.
    destruct (completion_request_ok _ _ _ _ Hc) as (Hne & Hasc & Hcr & xml & listed & Hx & Hp & Hl).
    cbn [mbind result_bind] in Hs. destruct (complete_spec _ _ _ _ _) as [[d m]|] eqn:Hspec; [|done]. injection Hs as -> ->.
    apply assembled_from in Hspec as (chosen & contents & Hrest). by exists xml, listed, parts, cr, chosen, contents.
Qed.
End completion.

(** ** Witnesses: an upload of two parts *)

Section witnesses.
#[local] Existing Instance ref_http.
#[local] Existing Instance ref_codec.
#[local] Existing Instance ref_crypto.
#[local] Existing Instance ref_chrono.
#[local] Existing Instance ref_uuid.
#[local] Existing Instance ref_json.
#[local] Existing Instance ref_axum.
#[local] Existing Instance ref_xml.

Lemma w_parts_ok : parts_ok (us_parts w_session).
Proof. split; repeat constructor; by vm_compute. Qed.

(** One part a page: two requests. *)
Lemma list_parts_pages_witness :
  list_all 3 1 0 (us_parts w_session) = Some [w_part_meta 1 "hello "; w_part_meta 2 "world"] ∧
  snd (list_page (mkPage 1 0) (us_parts w_session)) = Some (mkPartNumber 1).
Proof.
  split; [|done]. exact (proj1 (list_parts_pages (us_parts w_session) 1 w_parts_ok ltac:(lia))).
Defined.

Definition w_plain_request : Request := w_request "POST" None [].

Lemma w_access :
  session_access w_state w_plain_request w_anonymous w_id_1 (sessions w_two_parts) w_session.
Proof.
  split; [apply w_two_parts_session|]. split; [done|]. split; [|by left].
  exists (mkTarget w_bucket w_key false). split; [vm_refl|done].
Qed.

(** The upload is not that of another key: the abort is refused. *)
Definition w_other_request : Request := mkReq "DELETE" (mkUri "/photos/other.jpg" None) [].
Definition w_abort (r : Request) : result S3Error Response * World :=
  handle_upload_request w_env w_state r w_id w_id_1 w_anonymous AAbort w_two_parts.

Lemma upload_requests_guarded_witness :
  is_ok (w_abort w_plain_request).1 = true ∧ files (w_abort w_other_request).2 = files w_two_parts.
Proof.
  split; [vm_refl|].
  destruct (upload_requests_guarded w_env w_state w_other_request w_id w_id_1 w_anonymous AAbort w_two_parts
    (w_abort w_other_request).2 (w_abort w_other_request).1 (surjective_pairing _)) as [(_ & Hf & _)|Hacc]; [done|].
  destruct Hacc as (session & (Hs & _ & (t & Ht & _ & Hk) & _) & _).
  rewrite w_two_parts_session in Hs. injection Hs as <-.
  assert (target_key <$> result_ok (resolve_request_target w_state w_other_request) = Some (mkObjectKey "other.jpg"))
    as Hother by vm_refl.
  rewrite Ht in Hother. simpl in Hother. rewrite Hk in Hother. discriminate.
Defined.

(** A third part. *)
Definition w_part_request : Request := w_request "PUT" None [("content-length", "1")].
Definition w_third : result S3Error Response * World :=
  handle_upload_part w_env w_state w_part_request [Ok "!"] w_id w_id_1 (mkPartNumber 3) w_anonymous w_two_parts.

Lemma w_json part : json_of_session (insert_part part w_session) ≠ None.
Proof. intros Hj. cbn [json_of_session ref_json] in Hj. inversion Hj. Qed.

Lemma upload_part_stored_witness :
  rs_status <$> result_ok w_third.1 = Some 200 ∧
  files w_third.2 !! part_path w_id_1 (mkPartNumber 3) = Some "!" ∧
  part_no <$> (btree_values ∘ us_parts) (default w_session (sessions w_third.2 !! upload_id_str w_id_1)) = [1; 2; 3].
Proof.
  split; [vm_refl|].
  assert (session_access w_state w_part_request w_anonymous w_id_1 (sessions w_two_parts) w_session) as Hacc.
  { destruct w_access as (H1 & H2 & _ & H4). refine (conj H1 (conj H2 (conj _ H4))). clear.
    exists (mkTarget w_bucket w_key false). split; [vm_refl|done]. }
  assert (is_ok w_third.1 = true) as Hok by vm_refl.
  assert (is_ok (part_checks w_env w_state w_part_request w_id w_session w_anonymous) = true) as Hchk by vm_refl.
  assert (snd <$> (decode_body w_part_request [Ok "!"] "part body" w_anonymous
            (max_part_size (upload_limits (st_config w_state))) ≫= result_ok) = Some ("!" : bytes)) as Hv by vm_refl.
  destruct w_third as [res w'] eqn:Hrun.
  pose proof (upload_part_stored w_env w_state w_part_request [Ok "!"] w_id w_id_1 (mkPartNumber 3) w_anonymous
    w_session w_two_parts w' res ltac:(by split) eq_refl w_json ltac:(vm_refl) Hacc Hrun) as Hpost.
  unfold upload_part_post in Hpost. destruct (part_checks _ _ _ _ _ _) as [[]|e]; [|discriminate].
  destruct Hpost as (_ & Hst & _). destruct res as [resp|e]; [|discriminate].
  destruct (Hst resp eq_refl) as (up & _ & (data & j & Hd & Hf & Hs & _)).
  rewrite Hd in Hv. simpl in Hv. injection Hv as ->. split; [exact Hf|].
  cbn [snd]. rewrite Hs, lookup_insert_eq. reflexivity.
Defined.

(** The completion of the upload with its second part alone. *)
Definition w_document : str :=
  "<CompleteMultipartUpload><Part><PartNumber>2</PartNumber><ETag>"
    ++ etag_str (pm_etag (w_part_meta 2 "world")) ++ "</ETag></Part></CompleteMultipartUpload>".
Definition w_completion : result S3Error Response * World :=
  handle_complete_multipart_upload w_env w_state w_plain_request [Ok w_document] w_id w_id_1 w_anonymous w_two_parts.

Lemma complete_request_refines_witness :
  rs_status <$> result_ok w_completion.1 = Some 200 ∧
  ∃ md, refines (files w_completion.2) {[ object_digest w_bucket w_key := (md, "world") ]}.
Proof.
  split; [vm_refl|].
  destruct (complete_request_refines w_env w_state w_plain_request [Ok w_document] w_id w_id_1 w_anonymous w_session []
    w_two_parts w_completion.2 ∅ w_completion.1 ltac:(vm_refl) w_two_parts_refines w_access eq_refl eq_refl eq_refl
    (List.Forall2_nil runs_as) (surjective_pairing _)) as [Hpost _].
  unfold complete_request_post in Hpost.
  set (spec := complete_request_spec _ _ _ _ _ _ _ _ _ _) in *.
  assert (fst <$> result_ok spec = Some ("world" : bytes)) as Hv by vm_refl.
  destruct spec as [[data md]|e]; [|discriminate]. simpl in Hv. injection Hv as ->.
  exists md. exact (proj1 (proj2 Hpost)).
Defined.
End witnesses.
