(* ===== verification/Dispatch.v ===== *)
(** * A request from arrival to answer (handlers/s3.rs)

    Admission, detection of the operation, operation policy, authentication,
    tenant lease, the handler, the outcome reported to the tenant limits
    provider, and the response or error mapping. *)

From S2P Require Import Prelude RustStd BTree S3Error Externals Reference Types Target Config Http.
From S2P Require Import Chunked ChunkedProofs Checksum Upload Auth Hooks Admission Routing Requests.
From S2P Require Import StoreModel ReferenceJson FileSystem ObjectStore ObjectProofs ObjectSpec StoreTrait Middleware.
From S2P Require Import Assembly MultipartStore MultipartSpec Streams AppState.
From S2P Require Import HeadObject GetObject PutObject MultipartHandlers MultipartAnswers.
From Stdlib Require Import ZArith Lia.
Local Open Scope Z_scope.

Section dispatch.
Context `{HttpLib} `{CodecLib} `{CryptoLib} `{ChronoLib} `{UuidLib} `{JsonLib} `{AxumLib} `{XmlLib}.

(** The id of a request. *)
Definition next_request_id (s : AppState) (sr : Surroundings) : RequestId := state_request_id s (sr_draw sr).

Section operations.
Context `{!ObjectStoreOps} `{!MultipartStoreOps}.

(* @src src/src/handlers/s3.rs 330-437 dispatch_implemented_operation *)
Definition dispatch_implemented_operation (env : Env) (s : AppState) (r : Request) (body : Body)
    (op : S3Operation) (id : RequestId) (ctx : AuthContext) : ioE S3Error Response :=
  match op with
  | HeadObject => handle_head_object s r id ctx
  | HeadBucket => lift (handle_head_bucket s r id ctx)
  | CreateMultipartUpload => handle_create_multipart_upload env s r id ctx
  | UploadPart upload_id part_number => handle_upload_part env s r body id upload_id part_number ctx
  | PutObject => handle_put_object env s r body id ctx
  | CompleteMultipartUpload upload_id => handle_complete_multipart_upload env s r body id upload_id ctx
  | AbortMultipartUpload upload_id => handle_abort_multipart_upload env s r id upload_id ctx
  | DeleteObject => handle_delete_object s r id ctx
  | ListParts upload_id => handle_list_parts s r id upload_id ctx
  | GetObject => handle_get_object (env_reads env) s r id ctx
  end.
End operations.

(** The operation with the stores of the application. *)
Definition run_operation (env : Env) (s : AppState) : Request → Body → S3Operation → RequestId → AuthContext →
    ioE S3Error Response :=
  let _ := st_object_store s in let _ := st_multipart_store s in dispatch_implemented_operation env s.

(** The outcome reported for an operation that ended by itself. *)
(* @src src/src/handlers/s3.rs 466-475 dispatch_tenant_limited_operation *)
Definition operation_outcome (res : result S3Error Response) : TenantOperationOutcome :=
  match res with
  | Ok response => outcome_success (rs_status response) (rs_decoded response)
  | Err error => outcome_error error None
  end.

(* @src src/src/handlers/s3.rs 439-479 dispatch_tenant_limited_operation *)
Definition dispatch_tenant_limited_operation (sr : Surroundings) (s : AppState) (r : Request) (body : Body)
    (op : S3Operation) (ctx : AuthContext) (tenant_context : TenantLimitContext) (w : World)
  : result S3Error Response * World * list TenantEvent :=
  match begin_tenant_operation s tenant_context with
  | Err error => (Err error, w, [])
  | Ok lease =>
      match lease_timeout lease, sr_elapsed sr with
      | Some _, Some dropped =>
          let error := slow_down "operation timed out" in
          (Err error, dropped w, [Begun tenant_context; Finished tenant_context (outcome_timed_out error)])
      | _, _ =>
          let '(res, w') := run_operation (sr_env sr) s r body op (next_request_id s sr) ctx w in
          (res, w', [Begun tenant_context; Finished tenant_context (operation_outcome res)])
      end
  end.

(* @src src/src/handlers/s3.rs 299-311 dispatch *)
Definition tenant_context (r : Request) (op : S3Operation) (id : RequestId) (ctx : AuthContext)
    (tenant : TenantId) (log : RequestLogContext) (content_length : option Z) : TenantLimitContext := {|
  tl_request_id := id;
  tl_tenant := tenant;
  tl_principal := actx_principal ctx;
  tl_method := req_method r;
  tl_operation := op;
  tl_action := operation_action op;
  tl_bucket := lc_bucket log;
  tl_key := lc_key log;
  tl_upload_id := lc_upload_id log;
  tl_part_number := lc_part_number log;
  tl_content_length := content_length;
|}.

(* @src src/src/handlers/s3.rs 260-328 dispatch *)
Definition dispatch (sr : Surroundings) (s : AppState) (r : Request) (body : Body)
    (detected : result S3Error DetectedOperation) (log : RequestLogContext) (content_length : option Z)
    (w : World) : result S3Error Response * World * list TenantEvent :=
  match detected with
  | Err error => (Err error, w, [])
  | Ok (Implemented op) =>
      match allow_operation s (mkOperationContext op (operation_action op)) with
      | Err error => (Err error, w, [])
      | Ok _ =>
          match authenticate_request (env_now (sr_env sr)) s r with
          | Err error => (Err error, w, [])
          | Ok ctx =>
              match tenant_from_principal (actx_principal ctx) with
              | Err _ => (Err (access_denied "invalid custom principal id"), w, [])
              | Ok tenant =>
                  dispatch_tenant_limited_operation sr s r body op ctx
                    (tenant_context r op (next_request_id s sr) ctx tenant log content_length) w
              end
          end
      end
  | Ok ListObjectsV2 => (Err (not_implemented "ListObjectsV2 is not implemented"), w, [])
  | Ok Unsupported => (Err (invalid_argument "list-type must be 2"), w, [])
  | Ok MethodNotAllowed => (Err method_not_allowed, w, [])
  end.

(* @src src/src/handlers/s3.rs 164-180 error_response *)
Definition error_response (s : AppState) (operation : str) (id : RequestId) (error : S3Error) : Response :=
  into_response_with_request_id (map_error s (mkErrorContext id operation) error) id.

(* @src src/src/handlers/s3.rs 182-186 ParsedS3Request *)
Record ParsedS3Request := mkParsed {
  pr_operation : result S3Error DetectedOperation;
  pr_log_context : RequestLogContext;
}.
(* @src src/src/handlers/s3.rs 188-195 ParsedS3Request::parse *)
Definition parse_request (r : Request) (base : option str) (query : str) : ParsedS3Request :=
  mkParsed (detect_operation r base query) (request_log_context r base query).

(* @src src/src/handlers/s3.rs 38-42 handle_s3_request *)
Definition parsed_operation_name (p : ParsedS3Request) : str :=
  match pr_operation p with Ok d => detected_name d | Err _ => "InvalidRequest" end.

(* @src src/src/handlers/s3.rs 44-48 handle_s3_request *)
Definition request_content_length (r : Request) : option Z :=
  v ← hm_get (req_headers r) "content-length"; v ← hv_to_str v; parse_u64 v.

(** The observer is called, its result is of type [()]. The world, and the
    events of the tenant limits provider. *)
(* @src src/src/handlers/s3.rs 30-162 handle_s3_request *)
Definition handle_s3_request (sr : Surroundings) (s : AppState) (r : Request) (body : Body) (w : World)
  : Response * World * list TenantEvent :=
  let parsed := parse_request r (virtual_host_base_domain (st_config s)) (default [] (uri_query (req_uri r))) in
  let operation := parsed_operation_name parsed in
  let log := pr_log_context parsed in
  let content_length := request_content_length r in
  let id := next_request_id s sr in
  let _ := observe_request s (mkRequestContext id (req_method r) operation (lc_bucket log) (lc_key log)
             (lc_upload_id log) (lc_part_number log) content_length) in
  let '(res, w', events) :=
    match try_acquire_s3_request (env_permits (sr_env sr)) with
    | Ok _ => dispatch sr s r body (pr_operation parsed) log content_length w
    | Err error => (Err error, w, [])
    end in
  let response := match res with
                  | Ok response => response
                  | Err error => error_response s operation id error
                  end in
  let response := if str_eqb (req_method r) "HEAD" then without_head_response_body response else response in
  let response := map_response s (mkResponseContext id operation (lc_bucket log) (lc_key log)) response in
  (response, w', events).
End dispatch.

(** ** Gates *)

Section gates.
Context `{HttpLib} `{CodecLib} `{CryptoLib} `{ChronoLib} `{UuidLib} `{JsonLib} `{AxumLib} `{XmlLib}.
Context `{St : !ObjectStoreOps} `{Mt : !MultipartStoreOps}.
Implicit Types (n : nat) (fs : gmap path bytes) (ss : gmap str UploadSession).

(** The bucket and key are those the request names. *)
Definition named_by (s : AppState) (r : Request) (bucket : BucketName) (key : option ObjectKey) : Prop :=
  (∃ t, resolve_request_target s r = Ok t ∧ bucket = target_bucket t ∧ key = Some (target_key t)) ∨
  (resolve_request_bucket s r = Ok bucket ∧ key = None).

(** The policies permit the action on what the request names. *)
Definition target_permitted (s : AppState) (r : Request) (ctx : AuthContext) (op : S3Operation) : Prop :=
  ∃ bucket key, named_by s r bucket key ∧ permitted s ctx bucket key (operation_action op).

Lemma permitted_target s r ctx op t :
  resolve_request_target s r = Ok t →
  permitted s ctx (target_bucket t) (Some (target_key t)) (operation_action op) → target_permitted s r ctx op.
Proof. intros Ht Hp. exists (target_bucket t), (Some (target_key t)). split; [left; by exists t|done]. Qed.

Lemma create_checks_ok s r id ctx t um :
  create_checks s r id ctx = Ok (t, um) →
  resolve_request_target s r = Ok t ∧
  permitted s ctx (target_bucket t) (Some (target_key t)) ActCreateMultipartUpload.
Proof.
  unfold create_checks. intros Hc. rewrite <- authorize_request_ok.
  destruct (validate_empty_request_body_headers _ _) as [[]|]; [|done].
  destruct (validate_upload_headers _) as [[]|]; [|done]. destruct (validate_empty_payload_hash _) as [[]|]; [|done].
  destruct (resolve_request_target s r) as [t'|]; [|done]. cbn [mbind result_bind] in Hc.
  destruct (authorize_request _ _ _ _ _) as [[]|] eqn:Ha; [|done].
  cbn [mbind result_bind] in Hc. destruct (allow_upload _ _) as [[]|]; [|done]. cbn [mbind result_bind] in Hc.
  destruct (collect_upload_metadata _); [|done]. by injection Hc as <- <-.
Qed.

(** The gate of a handler on an object: its target, then its authorization. *)
Lemma wp_object_gate s r ctx op (m : S3Target → ioE S3Error Response) n fs ss :
  wp (target ← lift (resolve_request_target s r);
      _ ← lift (authorize_request s ctx (target_bucket target) (Some (target_key target)) (operation_action op));
      m target) n fs ss
    (λ res _ fs' ss', refused fs ss res fs' ss' ∨ target_permitted s r ctx op).
Proof.
  apply wp_check. intros t Ht. apply wp_check. intros [] Ha. apply wp_passed.
  apply permitted_target with t; [done|]. by apply authorize_request_ok.
Qed.

Lemma wp_upload_permitted `{!MultipartStoreContract Mt} env s r id upload_id ctx op q n fs ss :
  upload_action q = operation_action op →
  wp (handle_upload_request env s r id upload_id ctx q) n fs ss (λ res _ fs' ss',
    refused fs ss res fs' ss' ∨ target_permitted s r ctx op).
Proof.
  intros Ha. eapply wp_mono; [apply wp_upload_gate|].
  intros res n' fs' ss' [Hr|(session & _ & (_ & (t & Ht & Hb & Hk) & _) & Hp)]; [by left|right].
  rewrite Ha, <- Hb, <- Hk in Hp. by apply permitted_target with t.
Qed.

(** An operation that is not permitted changes nothing. *)
Lemma wp_operation `{!MultipartStoreContract Mt} env s r body op id ctx n fs ss :
  wp (dispatch_implemented_operation env s r body op id ctx) n fs ss
    (λ res _ fs' ss', refused fs ss res fs' ss' ∨ target_permitted s r ctx op).
Proof.
  destruct op as [| |u p|u|u|u| | | |]; cbn [dispatch_implemented_operation].
  - apply wp_check. intros [t um] Hc. apply wp_passed. destruct (put_checks_ok _ _ _ _ _ _ _ Hc).
    by apply permitted_target with t.
  - apply wp_check. intros [t um] Hc. apply wp_passed. destruct (create_checks_ok _ _ _ _ _ _ Hc).
    by apply permitted_target with t.
  - exact (wp_upload_permitted env s r id u ctx (UploadPart u p) (AUploadPart body p) n fs ss eq_refl).
  - exact (wp_upload_permitted env s r id u ctx (CompleteMultipartUpload u) (AComplete body) n fs ss eq_refl).
  - exact (wp_upload_permitted env s r id u ctx (AbortMultipartUpload u) AAbort n fs ss eq_refl).
  - exact (wp_upload_permitted env s r id u ctx (ListParts u) AListParts n fs ss eq_refl).
  - apply wp_lift. unfold handle_head_bucket.
    destruct (resolve_request_bucket s r) as [b|e] eqn:Hb; [|left; apply refused_err]. cbn [mbind result_bind].
    destruct (authorize_request s ctx b None ActHeadBucket) as [[]|e] eqn:Ha; [|left; apply refused_err].
    right. exists b, None. split; [by right|]. by apply authorize_request_ok.
  - apply (wp_object_gate s r ctx HeadObject).
  - apply (wp_object_gate s r ctx GetObject).
  - apply (wp_object_gate s r ctx DeleteObject).
Qed.

End gates.

Section requests.
Context `{HttpLib} `{CodecLib} `{CryptoLib} `{ChronoLib} `{UuidLib} `{JsonLib} `{AxumLib} `{XmlLib}.

(** Everything a request has to pass before its handler runs. *)
Definition admitted (sr : Surroundings) (s : AppState) (r : Request) (op : S3Operation) (ctx : AuthContext)
    (lease : TenantOperationLease) : Prop :=
  is_ok (try_acquire_s3_request (env_permits (sr_env sr))) = true ∧
  detect_operation r (virtual_host_base_domain (st_config s)) (default [] (uri_query (req_uri r))) =
    Ok (Implemented op) ∧
  allow_operation s (mkOperationContext op (operation_action op)) = Ok () ∧
  authenticate_request (env_now (sr_env sr)) s r = Ok ctx ∧
  ∃ tenant, tenant_from_principal (actx_principal ctx) = Ok tenant ∧
    begin_tenant_operation s (tenant_context r op (next_request_id s sr) ctx tenant
      (request_log_context r (virtual_host_base_domain (st_config s)) (default [] (uri_query (req_uri r))))
      (request_content_length r)) = Ok lease.

(** What the tenant limits provider is told about a request: its id and its
    principal, whose name is that of the tenant; the method, the operation and its
    action; the bucket and key the request names; the upload id and the part number
    of the operation; and the announced length. *)
Definition accounted (sr : Surroundings) (s : AppState) (r : Request) (op : S3Operation) (ctx : AuthContext)
    (tc : TenantLimitContext) : Prop :=
  tl_request_id tc = state_request_id s (sr_draw sr) ∧
  tl_principal tc = actx_principal ctx ∧
  tenant_str (tl_tenant tc) = match actx_principal ctx with
                              | AnonymousPrincipal => "anonymous"
                              | AccessKeyPrincipal name | CustomPrincipal name => name
                              end ∧
  tl_method tc = req_method r ∧ tl_operation tc = op ∧ tl_action tc = operation_action op ∧
  match resolve_request_target s r with
  | Ok t => tl_bucket tc = Some (target_bucket t) ∧ tl_key tc = Some (target_key t)
  | Err _ => tl_bucket tc = result_ok (resolve_request_bucket s r) ∧ tl_key tc = None
  end ∧
  operation_ids op (tl_upload_id tc) (tl_part_number tc) ∧
  tl_content_length tc = match hm_get_all (req_headers r) "content-length" with
                         | v :: _ => v ← hv_to_str v; parse_u64 v
                         | [] => None
                         end.

Lemma tenant_context_accounted sr s r op ctx tenant :
  let log := request_log_context r (virtual_host_base_domain (st_config s)) (default [] (uri_query (req_uri r))) in
  detect_operation r (virtual_host_base_domain (st_config s)) (default [] (uri_query (req_uri r))) =
    Ok (Implemented op) →
  tenant_from_principal (actx_principal ctx) = Ok tenant →
  accounted sr s r op ctx (tenant_context r op (next_request_id s sr) ctx tenant log (request_content_length r)).
Proof.
  intros log Hop Ht. split_and!; try done.
  - cbn [tl_tenant tenant_context]. revert Ht. unfold tenant_from_principal, parse_tenant.
    assert (∀ name, (_ ← validate_tenant_id name; Ok (mkTenantId name)) = Ok tenant → tenant_str tenant = name) as Hname.
    { intros name. destruct (validate_tenant_id name); [by intros [= <-]|done]. }
    destruct (actx_principal ctx); apply Hname.
  - cbn [tl_bucket tl_key tenant_context]. unfold log, request_log_context, resolve_request_target, resolve_request_bucket.
    destruct (resolve_s3_target _ _ _); [done|]. cbn [map_err]. by destruct (resolve_bucket_name _ _ _).
  - by apply logged_operation.
  - cbn [tl_content_length tenant_context]. unfold request_content_length. rewrite hm_get_spec.
    by destruct (hm_get_all _ _).
Qed.

Definition timed_out (sr : Surroundings) (lease : TenantOperationLease) : bool :=
  bool_decide (is_Some (lease_timeout lease)) && bool_decide (is_Some (sr_elapsed sr)).

(** The name of the operation in logs and contexts. *)
Definition operation_label (s : AppState) (r : Request) : str :=
  parsed_operation_name
    (parse_request r (virtual_host_base_domain (st_config s)) (default [] (uri_query (req_uri r)))).

(** What becomes of the result of the operation. *)
Definition answer (sr : Surroundings) (s : AppState) (r : Request) (res : result S3Error Response) : Response :=
  let log := request_log_context r (virtual_host_base_domain (st_config s)) (default [] (uri_query (req_uri r))) in
  let response := match res with
                  | Ok response => response
                  | Err error => error_response s (operation_label s r) (next_request_id s sr) error
                  end in
  map_response s (mkResponseContext (next_request_id s sr) (operation_label s r) (lc_bucket log) (lc_key log))
    (if str_eqb (req_method r) "HEAD" then without_head_response_body response else response).

(** The cases of a request: refused before its operation begins, timed out, or
    its operation has run. *)
Inductive request_case sr s r body w : Response → World → list TenantEvent → Prop :=
| case_refused e : request_case sr s r body w (answer sr s r (Err e)) w []
| case_timed_out op ctx lease tc dropped :
    admitted sr s r op ctx lease → accounted sr s r op ctx tc → timed_out sr lease = true →
    sr_elapsed sr = Some dropped →
    let e := slow_down "operation timed out" in
    request_case sr s r body w (answer sr s r (Err e)) (dropped w) [Begun tc; Finished tc (outcome_timed_out e)]
| case_ran op ctx lease tc res w' :
    admitted sr s r op ctx lease → accounted sr s r op ctx tc → timed_out sr lease = false →
    run_operation (sr_env sr) s r body op (next_request_id s sr) ctx w = (res, w') →
    request_case sr s r body w (answer sr s r res) w' [Begun tc; Finished tc (operation_outcome res)].

Lemma request_cases sr s r body w resp w' events :
  handle_s3_request sr s r body w = (resp, w', events) → request_case sr s r body w resp w' events.
Proof.
  unfold handle_s3_request. set (parsed := parse_request _ _ _).
  set (log := pr_log_context parsed). set (cl := request_content_length r).
  destruct (try_acquire_s3_request (env_permits (sr_env sr))) as [a|e] eqn:Hadm;
    [|intros [= <- <- <-]; apply (case_refused _ _ _ _ _ e)].
  change (pr_operation parsed) with
    (detect_operation r (virtual_host_base_domain (st_config s)) (default [] (uri_query (req_uri r)))).
  unfold dispatch.
  destruct (detect_operation _ _ _) as [[op| | |]|e] eqn:Hop;
    try (intros [= <- <- <-]; apply (case_refused _ _ _ _ _ _)).
  destruct (allow_operation _ _) as [[]|e] eqn:Hallow; [|intros [= <- <- <-]; apply (case_refused _ _ _ _ _ e)].
  destruct (authenticate_request _ _ _) as [ctx|e] eqn:Hauth; [|intros [= <- <- <-]; apply (case_refused _ _ _ _ _ e)].
  destruct (tenant_from_principal _) as [tenant|e] eqn:Hten; [|intros [= <- <- <-]; apply case_refused].
  unfold dispatch_tenant_limited_operation.
  destruct (begin_tenant_operation _ _) as [lease|e] eqn:Hlease; [|intros [= <- <- <-]; apply (case_refused _ _ _ _ _ e)].
  assert (admitted sr s r op ctx lease) as Hadmitted.
  { split_and!; [by rewrite Hadm|done|done|done|]. exists tenant. by split. }
  pose proof (tenant_context_accounted sr s r op ctx tenant Hop Hten) as Hacc.
  destruct (lease_timeout lease) as [d|] eqn:Hl; [destruct (sr_elapsed sr) as [dropped|] eqn:Hel|].
  1: { intros [= <- <- <-]. apply (case_timed_out _ _ _ _ _ op ctx lease _ dropped); [done|exact Hacc| |done].
       unfold timed_out. by rewrite Hl, Hel. }
  all: destruct (run_operation _ _ _ _ _ _ _ _) as [res w1] eqn:Hrun;
    intros [= <- <- <-]; apply (case_ran _ _ _ _ _ op ctx lease); [done|exact Hacc| |done];
    unfold timed_out; rewrite ?Hl, ?Hel; done || by rewrite andb_false_r.
Qed.

(** With whatever stores the application supplies, as long as looking up an upload
    changes nothing. *)
Theorem any_stores_gated sr s r body w resp w' events `{!MultipartStoreContract (st_multipart_store s)} :
  handle_s3_request sr s r body w = (resp, w', events) →
  (∃ e, resp = answer sr s r (Err e) ∧ files w' = files w ∧ sessions w' = sessions w) ∨
  (∃ op ctx lease, admitted sr s r op ctx lease ∧
     (timed_out sr lease = true ∨ target_permitted s r ctx op)).
Proof.
  intros Hrun. apply request_cases in Hrun. inversion Hrun as [e|op ctx lease tc dropped Ha Hacc Ht|op ctx lease tc res w1 Ha Hacc Ht Hop].
  - left. by exists e.
  - right. exists op, ctx, lease. split; [done|by left].
  - subst. pose proof (wp_run _ _ _ _ _ Hop (wp_operation _ _ _ _ _ _ _ _ _ _)) as [((e & ->) & Hf & Hs)|Hp].
    + left. by exists e.
    + right. exists op, ctx, lease. split; [done|by right].
Qed.

(** ** Overload *)

(** An upload for which a permit is missing: a writer, or a decoder for a body that
    is announced as aws-chunked. *)
Definition lacks_permit (g : Grants) (r : Request) (op : S3Operation) : Prop :=
  match op with
  | PutObject => grants_object_writer g = false ∨ (announces_aws_chunked (req_headers r) ∧ grants_decoder g = false)
  | UploadPart _ _ => grants_part_writer g = false ∨ (announces_aws_chunked (req_headers r) ∧ grants_decoder g = false)
  | _ => False
  end.

Lemma decoder_denied g headers :
  announces_aws_chunked headers → grants_decoder g = false →
  is_ok (try_acquire_aws_chunked_decoder g headers) = false.
Proof.
  intros Ha%is_aws_chunked_spec Hg. unfold try_acquire_aws_chunked_decoder. rewrite Ha. unfold acquired. by rewrite Hg.
Qed.

Lemma put_checks_denied env s r id ctx :
  lacks_permit (env_permits env) r PutObject → is_ok (put_checks env s r id ctx) = false.
Proof.
  intros Hl. unfold put_checks.
  destruct (resolve_request_target s r) as [t|]; [|done]. cbn [mbind result_bind].
  destruct (map_err _ _) as [[]|]; [|done]. destruct (validate_upload_headers _) as [[]|]; [|done].
  cbn [mbind result_bind]. destruct (authorize_request _ _ _ _ _) as [[]|]; [|done].
  cbn [mbind result_bind]. destruct (allow_upload _ _) as [[]|]; [|done]. cbn [mbind result_bind].
  destruct (collect_upload_metadata _); [|done]. cbn [mbind result_bind].
  destruct Hl as [Hw|[Ha Hd]]; [unfold try_acquire_object_writer, acquired; by rewrite Hw|].
  pose proof (decoder_denied _ _ Ha Hd) as Hno. destruct (try_acquire_object_writer _); [|done]. cbn [mbind result_bind].
  by destruct (try_acquire_aws_chunked_decoder _ _).
Qed.

Lemma wp_denied `{!ObjectStoreOps} `{Mt : !MultipartStoreOps} `{!MultipartStoreContract Mt}
    (env : Env) (s : AppState) (r : Request) (body : Body) (op : S3Operation) (id : RequestId) (ctx : AuthContext) (n : nat)
    (fs : gmap path bytes) (ss : gmap str UploadSession) :
  lacks_permit (env_permits env) r op →
  wp (dispatch_implemented_operation env s r body op id ctx) n fs ss (λ res _ fs' ss', refused fs ss res fs' ss' ∨ False).
Proof.
  intros Hl. destruct op; try done; cbn [dispatch_implemented_operation].
  - apply wp_check. intros [t um] Hc. pose proof (put_checks_denied _ s _ id ctx Hl) as Hno. by rewrite Hc in Hno.
  - unfold handle_upload_part. do 2 (apply wp_check; intros [] _).
    apply wp_bind, wp_validate_session; [intros session _ _|intros e _; left; apply refused_err].
    do 2 (apply wp_check; intros [] _). apply wp_check. intros a Hw. apply wp_check. intros b Hd.
    destruct Hl as [Hl|[Ha Hl]].
    + unfold try_acquire_multipart_part_writer, acquired in Hw. by rewrite Hl in Hw.
    + pose proof (decoder_denied _ _ Ha Hl) as Hno. by rewrite Hd in Hno.
Qed.

(* @prop functional 30 : handle_s3_request dispatch_tenant_limited_operation operation_outcome tenant_context *)
(** C30: tenants are accounted for. A request is refused before its tenant is asked
    and changes nothing; or its lease is begun once and finished once, in this
    order and with the same context, which has the id of the request, its
    principal and the tenant of that name, its method, operation and action, the
    bucket and key it names, the upload id and the part number of the operation
    and the announced length. The outcome is a timeout exactly when the lease has
    one that elapsed, with the answer of that error; otherwise it has the status,
    the decoded bytes or the error code of the result the answer is made of. *)
Theorem tenants_accounted sr s r body w resp w' events :
  handle_s3_request sr s r body w = (resp, w', events) →
  match events with
  | [] => w' = w ∧ ∃ e, resp = answer sr s r (Err e)
  | [Begun tc; Finished tc' outcome] =>
      tc' = tc ∧ ∃ op ctx lease res, admitted sr s r op ctx lease ∧ accounted sr s r op ctx tc ∧
        resp = answer sr s r res ∧ (timed_out sr lease = true → res = Err (slow_down "operation timed out")) ∧
        outcome = match res with
                  | Ok response => mkOutcome (rs_status response) false None None (rs_decoded response)
                  | Err e => mkOutcome (err_status e) (timed_out sr lease) (Some (err_code e)) (Some (err_message e)) None
                  end
  | _ => False
  end.
Proof.
  intros Hrun. apply request_cases in Hrun. inversion Hrun as [e|op ctx lease tc dropped Ha Hacc Ht|op ctx lease tc res w1 Ha Hacc Ht Hop].
  - split; [done|by exists e].
  - split; [done|]. exists op, ctx, lease, (Err (slow_down "operation timed out")). rewrite Ht. by split_and!.
  - subst. split; [done|]. exists op, ctx, lease, res. rewrite Ht. split_and!; [done..|by destruct res].
Qed.
End requests.

Section file_stores.
Context `{HttpLib} `{CodecLib} `{CryptoLib} `{ChronoLib} `{UuidLib} `{JsonLib} `{AxumLib} `{XmlLib}.

(* @prop error 37 : handle_s3_request dispatch try_acquire_s3_request try_acquire_object_writer try_acquire_multipart_part_writer try_acquire_aws_chunked_decoder handle_put_object put_checks handle_upload_part *)
(** C37: overload sheds requests. A request for which the semaphore of the requests
    grants no permit is answered SlowDown, has no tenant lease and leaves the disk
    and the upload sessions as they are. With the multipart store of the default
    configuration, an upload of an object or of a part for which its semaphore of
    writers grants no permit, or whose body is announced as aws-chunked while that
    of the decoders grants none, is answered with an error before anything is
    written: all files and upload sessions are as they were, whatever else the
    request is and whatever fails (unless the timeout of its lease cuts it short). *)
Theorem overload_sheds clock sr s r body w resp w' events :
  st_multipart_store s = file_multipart_store_on clock →
  handle_s3_request sr s r body w = (resp, w', events) →
  (grants_request (env_permits (sr_env sr)) = false →
     resp = answer sr s r (Err (slow_down "too many active S3 requests; retry the request")) ∧ w' = w ∧ events = []) ∧
  (∀ op, detect_operation r (virtual_host_base_domain (st_config s)) (default [] (uri_query (req_uri r))) = Ok (Implemented op) →
     lacks_permit (env_permits (sr_env sr)) r op →
     (∃ e, resp = answer sr s r (Err e) ∧ files w' = files w ∧ sessions w' = sessions w) ∨
     (∃ ctx lease, admitted sr s r op ctx lease ∧ timed_out sr lease = true)).
Proof.
  intros Hs Hrun. split.
  - intros Hg. revert Hrun. unfold handle_s3_request, try_acquire_s3_request, acquired. rewrite Hg.
    by intros [= <- <- <-].
  - intros op Hop Hl. apply request_cases in Hrun.
    assert (∀ op' ctx lease, admitted sr s r op' ctx lease → op' = op) as Hsame.
    { intros op' ctx lease (_ & Hop' & _). congruence. }
    inversion Hrun as [e|op' ctx lease tc dropped Ha Hacc Ht|op' ctx lease tc res w1 Ha Hacc Ht Hrun'].
    + left. by exists e.
    + right. rewrite (Hsame _ _ _ Ha) in Ha. by exists ctx, lease.
    + subst. left. rewrite (Hsame _ _ _ Ha) in Hrun'. unfold run_operation in Hrun'. rewrite Hs in Hrun'.
      pose proof (wp_run _ _ _ _ _ Hrun' (wp_denied (Mt := file_multipart_store_on clock) _ _ _ _ _ _ _ _ _ _ Hl))
        as [((e & ->) & Hf & Hss)|[]]. by exists e.
Qed.

(* @prop safety 1 : handle_s3_request dispatch dispatch_tenant_limited_operation dispatch_implemented_operation authorize_request allow_operation authenticate_request tenant_from_principal begin_tenant_operation try_acquire_s3_request error_response *)
(** C1: every gate guards every operation. Whatever the request, the hooks, the
    object store the application has supplied and the faults of the file system,
    with the multipart store of the default configuration, a request either is
    answered with an error and leaves all files and all upload sessions exactly as
    they were, or it has been admitted within the request limit, asks for an
    operation that is not disabled and that the operation policy allows, is
    authenticated as a principal whose tenant holds a lease, and, unless the
    timeout of the lease cut the operation short, the target policy, the allow
    lists and the authorization policy permit the action of that operation on the
    bucket and key the request names. *)
Theorem requests_gated clock sr s r body w resp w' events :
  st_multipart_store s = file_multipart_store_on clock →
  handle_s3_request sr s r body w = (resp, w', events) →
  (∃ e, resp = answer sr s r (Err e) ∧ files w' = files w ∧ sessions w' = sessions w) ∨
  (∃ op ctx lease, admitted sr s r op ctx lease ∧
     (timed_out sr lease = true ∨ target_permitted s r ctx op)).
Proof. intros Hs. apply any_stores_gated. rewrite Hs. apply file_multipart_contract. Qed.
End file_stores.

(** ** Witnesses *)

Section witnesses.
#[local] Existing Instance ref_http.
#[local] Existing Instance ref_codec.
#[local] Existing Instance ref_crypto.
#[local] Existing Instance ref_chrono.
#[local] Existing Instance ref_uuid.
#[local] Existing Instance ref_json.
#[local] Existing Instance ref_axum.
#[local] Existing Instance ref_xml.

Definition w_surroundings : Surroundings := mkSurroundings w_env w_uuid None.
Definition w_serve (s : AppState) (r : Request) (body : Body) (w : World) : Response * World * list TenantEvent :=
  handle_s3_request w_surroundings s r body w.

Definition w_with (target_policy : option (TargetContext → result S3Error ()))
    (provider : TenantLimitContext → result S3Error TenantOperationLease) : AppState :=
  mkAppState (st_config w_state) (st_auth w_state) file_object_store file_multipart_store (st_io_tuning w_state) [] None None None
    new_request_id (λ t, t) None None None target_policy None provider [] (st_admission w_state).

(** A target policy that refuses everything: an upload changes nothing. *)
Definition w_closed : AppState := w_with (Some (λ _, Err (access_denied "closed"))) noop_begin_operation.

Lemma requests_gated_witness :
  rs_status (w_serve w_state w_put_request [Ok "world"] w_empty).1.1 = 200 ∧
  files (w_serve w_closed w_put_request [Ok "world"] w_empty).1.2 = ∅.
Proof.
  split; [vm_refl|].
  destruct (w_serve w_closed w_put_request [Ok "world"] w_empty) as [[resp w'] events] eqn:Hrun.
  destruct (requests_gated (λ t, t) _ w_closed _ _ _ _ _ _ eq_refl Hrun) as [(e & _ & Hf & _)|(op & ctx & lease & _ & [Ht|Hp])]; [exact Hf| |].
  - unfold timed_out in Ht. cbn in Ht. by rewrite andb_false_r in Ht.
  - destruct Hp as (bucket & key & _ & Ht & _). discriminate.
Defined.

(** No writer is free: an upload is refused and writes nothing. *)
Definition w_busy : Surroundings :=
  mkSurroundings {| env_now := env_now w_env; env_uuid := env_uuid w_env; env_permits := mkGrants true false true true;
                    env_flushed := []; env_reads := [] |} w_uuid None.

Lemma overload_sheds_witness :
  rs_status (handle_s3_request w_busy w_state w_put_request [Ok "world"] w_empty).1.1 = 503 ∧
  files (handle_s3_request w_busy w_state w_put_request [Ok "world"] w_empty).1.2 = ∅.
Proof.
  split; [vm_refl|].
  destruct (handle_s3_request w_busy w_state w_put_request [Ok "world"] w_empty) as [[resp w'] events] eqn:Hrun.
  destruct (overload_sheds (λ t, t) _ w_state _ _ _ _ _ _ eq_refl Hrun) as [_ Hup].
  destruct (Hup PutObject ltac:(vm_refl) ltac:(by left)) as [(e & _ & Hf & _)|(ctx & lease & _ & Ht)]; [exact Hf|].
  unfold timed_out in Ht. cbn in Ht. by rewrite andb_false_r in Ht.
Defined.

Lemma tenants_accounted_witness :
  map (λ e, match e with Begun tc => (tenant_str (tl_tenant tc), None)
            | Finished tc o => (tenant_str (tl_tenant tc), Some (to_status o, to_decoded_bytes o)) end)
    (w_serve w_state w_put_request [Ok "world"] w_empty).2
  = [("anonymous" : str, None); ("anonymous" : str, Some (200, Some 5))] ∧
  match (w_serve w_closed w_put_request [Ok "world"] w_empty).2 with
  | [Begun tc; Finished tc' outcome] => tc' = tc
  | _ => True
  end.
Proof.
  split; [vm_refl|].
  destruct (w_serve w_closed w_put_request [Ok "world"] w_empty) as [[resp w'] events] eqn:Hrun.
  pose proof (tenants_accounted _ _ _ _ _ _ _ _ Hrun) as Ht. cbn [snd].
  by destruct events as [|[] [|[] []]]; try done; destruct Ht.
Defined.
End witnesses.
