(* ===== verification/Router.v ===== *)
(** * The router (http.rs, handlers/health.rs)

    The routes the endpoint registers, and what they make of a request. Matching
    a request against the routes is axum's work: a class with the laws of its
    documentation. *)

From S2P Require Import Prelude RustStd BTree S3Error Externals Reference Types Target Config Http.
From S2P Require Import Chunked Checksum Upload Auth Hooks Admission Routing Requests.
From S2P Require Import StoreModel ReferenceJson FileSystem ObjectStore ObjectSpec StoreTrait Middleware.
From S2P Require Import Assembly MultipartStore Streams AppState.
From S2P Require Import HeadObject GetObject PutObject MultipartHandlers Dispatch.
From Stdlib Require Import ZArith Lia.
Local Open Scope Z_scope.

(** ** The routes *)

Inductive MethodFilter := AnyMethod | GetMethod.
Inductive RouteHandler := HandleS3Request | Health.

Record Route := mkRoute { route_path : str; route_methods : MethodFilter; route_handler : RouteHandler }.

#[global] Instance method_filter_eq : EqDecision MethodFilter.
Proof. solve_decision. Defined.
#[global] Instance route_handler_eq : EqDecision RouteHandler.
Proof. solve_decision. Defined.
#[global] Instance route_eq : EqDecision Route.
Proof. solve_decision. Defined.

(* @src src/src/http.rs 8-11 RouterOptions *)
Record RouterOptions := mkRouterOptions { health_path : option str }.

(* @src src/src/http.rs 24-34 router_with_options *)
Definition router_with_options (options : RouterOptions) : list Route :=
  [mkRoute "/" AnyMethod HandleS3Request; mkRoute "/{*path}" AnyMethod HandleS3Request] ++
  match health_path options with
  | Some path => [mkRoute path GetMethod Health]
  | None => []
  end.

(* @src src/src/http.rs 14-21 router *)
Definition router : list Route := router_with_options (mkRouterOptions (Some "/health")).

(* @src src/src/handlers/health.rs 4-6 health *)
Definition health : Z := 204.

(** ** Matching *)

(** [axum::routing::get] also serves HEAD. *)
Definition filter_allows (f : MethodFilter) (method : str) : bool :=
  match f with AnyMethod => true | GetMethod => str_eqb method "GET" || str_eqb method "HEAD" end.

(** A path without a capture matches itself only. *)
Definition static_path (path : str) : bool := negb (contains_char "{"%char path).

Inductive Routed := RoutedTo (h : RouteHandler) | MethodNotSupported | NoRoute.

(** [axum::Router]: a static path is matched before a capture; a capture of the
    rest of the path matches every path but ["/"]; a path that is matched with
    the wrong method is 405. *)
Class AxumRouting := {
  route_request : list Route → str → str → Routed;
  route_static : ∀ routes r method,
    r ∈ routes → NoDup (route_path <$> routes) → static_path (route_path r) = true →
    route_request routes method (route_path r) =
      if filter_allows (route_methods r) method then RoutedTo (route_handler r) else MethodNotSupported;
  route_rest : ∀ routes r method path,
    r ∈ routes → route_path r = "/{*path}" → route_methods r = AnyMethod →
    starts_with "/" path = true → 1 < len path →
    (∀ r', r' ∈ routes → r' ≠ r → static_path (route_path r') = true ∧ route_path r' ≠ path) →
    route_request routes method path = RoutedTo (route_handler r);
}.

Section router.
Context `{HttpLib} `{CodecLib} `{CryptoLib} `{ChronoLib} `{UuidLib} `{JsonLib} `{AxumLib} `{XmlLib} `{AxumRouting}.

(** A request at the router with these routes. *)
Definition serve (state : AppState) (routes : list Route) : Router := λ sr r body w,
  match route_request routes (req_method r) (uri_path (req_uri r)) with
  | RoutedTo HandleS3Request =>
      let '(response, w', events) := handle_s3_request sr state r body w in (Served response, w', events)
  | RoutedTo Health => (StatusOnly health, w, [])
  | MethodNotSupported => (StatusOnly 405, w, [])
  | NoRoute => (StatusOnly 404, w, [])
  end.

(* @src src/src/lib.rs 596-606 AppBuilder::build_router *)
Definition build_router (now : Z) (b : AppBuilder) : ioE AppInitError Router :=
  _ ← lift (validate_health_path (ab_health_path b));
  state ← from_builder now b;
  mret (fold_left (λ router layer, layer router) (ab_router_layers b)
    (serve state (router_with_options (mkRouterOptions (ab_health_path b))))).

Lemma health_path_ok path :
  validate_health_path (Some path) = Ok () → path ≠ "/" ∧ path ≠ "/{*path}".
Proof.
  unfold validate_health_path. destruct (starts_with "/" path && (1 <? len path) && _) eqn:E; [|done].
  intros _. by split; intros ->.
Qed.

(** The path of a request is ["/"] or goes on after it. *)
Definition rooted (path : str) : Prop := path = "/" ∨ (starts_with "/" path = true ∧ 1 < len path).

(** Every request but one for the health path is an S3 request, whatever its
    method; a request for the health path never is. *)
Theorem serve_exact sr (s : AppState) (p : option str) r body w :
  validate_health_path p = Ok () → (∀ path, p = Some path → static_path path = true) →
  rooted (uri_path (req_uri r)) →
  serve s (router_with_options (mkRouterOptions p)) sr r body w =
    if bool_decide (p = Some (uri_path (req_uri r))) then
      (StatusOnly (if str_eqb (req_method r) "GET" || str_eqb (req_method r) "HEAD" then 204 else 405), w, [])
    else
      let '(response, w', events) := handle_s3_request sr s r body w in (Served response, w', events).
Proof.
  intros Hv Hst Hroot. unfold serve. set (path := uri_path (req_uri r)) in *.
  set (routes := router_with_options _).
  assert (NoDup (route_path <$> routes)) as Hnd.
  { subst routes. destruct p as [h|]; [|by apply (bool_decide_unpack _); vm_compute].
    apply health_path_ok in Hv as [Hv1 Hv2]. cbn. repeat constructor; set_solver. }
  case_bool_decide as Hp.
  - rewrite Hp in Hst, Hv. rewrite (route_static routes (mkRoute path GetMethod Health)); [|..|done|by apply Hst].
    + cbn [filter_allows route_methods]. by destruct (_ || _).
    + subst routes. rewrite Hp. cbn. set_solver.
  - assert (route_request routes (req_method r) path = RoutedTo HandleS3Request) as ->; [|done].
    destruct Hroot as [->|[Hs Hl]].
    + by apply (route_static routes (mkRoute "/" AnyMethod HandleS3Request)); [left| |].
    + apply (route_rest routes (mkRoute "/{*path}" AnyMethod HandleS3Request)); [right; left|done|done|done|done|].
      intros r' Hin Hne. subst routes. cbn in Hin.
      apply elem_of_cons in Hin as [->|Hin]; [split; [done|]; intros E; rewrite <- E in Hl; done|].
      apply elem_of_cons in Hin as [->|Hin]; [done|]. destruct p as [h|]; [|by apply elem_of_nil in Hin].
      apply list_elem_of_singleton in Hin as ->. split; [by apply Hst|]. simpl. congruence.
Qed.

(** A router that was built serves with a state that was built, behind the layers
    of the application: the last one registered sees a request first. *)
Theorem built_router_exact now b (layer : RouterTransform) w router w' :
  build_router now (router_layer b layer) w = (Ok router, w') →
  validate_health_path (ab_health_path b) = Ok () ∧
  ∃ s, from_builder now b w = (Ok s, w') ∧
    router = layer (fold_left (λ router layer, layer router) (ab_router_layers b)
      (serve s (router_with_options (mkRouterOptions (ab_health_path b))))).
Proof.
  unfold build_router. intros ([] & w1 & Hv & Hb)%run_bind_ok. rewrite run_lift in Hv. injection Hv as Hv <-.
  apply run_bind_ok in Hb as (s & w2 & Hs & Hb). rewrite run_ret in Hb. injection Hb as <- <-.
  split; [done|]. exists s. split; [done|]. cbn [ab_router_layers router_layer]. by rewrite fold_left_app.
Qed.
End router.

(** ** A concrete router *)

Definition allow_route (method : str) (r : Route) : Routed :=
  if filter_allows (route_methods r) method then RoutedTo (route_handler r) else MethodNotSupported.

Definition ref_route_request (routes : list Route) (method path : str) : Routed :=
  match find (λ r, static_path (route_path r) && str_eqb (route_path r) path) routes with
  | Some r => allow_route method r
  | None =>
      match find (λ r, str_eqb (route_path r) "/{*path}" && starts_with "/" path && (1 <? len path)) routes with
      | Some r => allow_route method r
      | None => NoRoute
      end
  end.

(** The first match is the only one. *)
Lemma find_only {A} (f : A → bool) l x :
  x ∈ l → f x = true → (∀ y, y ∈ l → f y = true → y = x) → find f l = Some x.
Proof.
  intros Hin Hx Hu. destruct (find f l) as [y|] eqn:E.
  - apply find_some in E as [Hy Hf]. f_equal. apply Hu; [by apply list_elem_of_In|done].
  - pose proof (find_none _ _ E x (proj1 (list_elem_of_In _ _) Hin)). congruence.
Qed.

Lemma NoDup_fmap_eq {A B} (f : A → B) l x y : NoDup (f <$> l) → x ∈ l → y ∈ l → f x = f y → x = y.
Proof.
  induction l as [|z l IH]; cbn; [by intros _ ?%elem_of_nil|]. intros [Hz Hnd]%NoDup_cons Hx Hy Hf.
  apply elem_of_cons in Hx as [->|Hx], Hy as [->|Hy]; [done|..|by apply IH].
  - destruct Hz. rewrite Hf. by apply list_elem_of_fmap_2.
  - destruct Hz. rewrite <- Hf. by apply list_elem_of_fmap_2.
Qed.

Program Definition ref_routing : AxumRouting := {| route_request := ref_route_request |}.
Next Obligation.
  intros routes r method Hin Hnd Hst. unfold ref_route_request. rewrite (find_only _ routes r); [done|done| |].
  - by rewrite Hst, str_eqb_refl.
  - intros y Hy [_ Hp%str_eqb_eq]%andb_true_iff. by apply (NoDup_fmap_eq route_path routes).
Qed.
Next Obligation.
  intros routes r method path Hin Hp Ha Hs Hl Ho. unfold ref_route_request.
  assert (∀ y, y ∈ routes → static_path (route_path y) && str_eqb (route_path y) path = false) as Hnone.
  { intros y Hy. apply andb_false_iff. destruct (decide (y = r)) as [->|Hne]; [left; by rewrite Hp|].
    right. apply str_eqb_neq. by apply Ho. }
  destruct (find (λ r, _ && str_eqb _ path) routes) as [y|] eqn:E.
  { apply find_some in E as [Hy Hf]. rewrite Hnone in Hf by (by apply list_elem_of_In). done. }
  rewrite (find_only _ routes r); [unfold allow_route; by rewrite Ha|done| |].
  - rewrite Hp, str_eqb_refl, Hs. simpl. by apply Z.ltb_lt.
  - intros y Hy [[Hq%str_eqb_eq _]%andb_true_iff _]%andb_true_iff.
    destruct (decide (y = r)) as [|Hne]; [done|]. destruct (Ho y Hy Hne) as [Hst _]. by rewrite Hq in Hst.
Qed.

(** ** What the health path hides

    With virtual-hosted-style addressing the health path is a key: the default
    route ["/health"] makes the object [health] of every bucket unreachable. *)

Section witnesses.
#[local] Existing Instances ref_http ref_codec ref_crypto ref_chrono ref_uuid ref_json ref_axum ref_xml ref_routing.

Definition w_hosted : AppState :=
  mkAppState (mkConfig "/data" default_auth_config (Some "example.com") default_upload_limits) (st_auth w_state)
    file_object_store file_multipart_store (st_io_tuning w_state) [] None None None
    new_request_id (λ t, t) None None None None None noop_begin_operation [] (st_admission w_state).
Definition w_put_health : Request :=
  mkReq "PUT" (mkUri "/health" None) ([("host", "photos.example.com"); ("content-length", "5")] : list (str * bytes)).

Theorem health_hides_object :
  (λ t, (bucket_str (target_bucket t), key_str (target_key t))) <$>
    result_ok (resolve_request_target w_hosted w_put_health) = Some ("photos" : str, "health" : str) ∧
  rs_status (handle_s3_request w_surroundings w_hosted w_put_health [Ok "world"] w_empty).1.1 = 200 ∧
  serve w_hosted router w_surroundings w_put_health [Ok "world"] w_empty = (StatusOnly 405, w_empty, []).
Proof.
  split; [vm_refl|]. split; [vm_refl|].
  unfold router. rewrite (serve_exact w_surroundings w_hosted (Some "/health") w_put_health [Ok "world"] w_empty);
    [done|done|by intros ? [= <-]|by right].
Qed.
End witnesses.
