(* ===== verification/Confined.v ===== *)
(** * What a request can reach

    The footprint of each handler: what a request may change by the object it
    names, the permissions it has and the upload it makes or names
    ([may_change], [may_touch]). It follows what any number of requests can change
    together, whatever fails ([requests_confined]). *)

From S2P Require Import Prelude RustStd BTree S3Error Externals Reference Types Target Config Http.
From S2P Require Import Chunked ChunkedProofs Checksum Upload Auth Hooks Admission Routing Requests.
From S2P Require Import StoreModel ReferenceJson FileSystem Interleaving ObjectStore ObjectProofs ObjectSpec StoreTrait.
From S2P Require Import Middleware Assembly MultipartStore MultipartProofs MultipartSpec Concurrency PartDurability Footprint.
From S2P Require Import Streams AppState HeadObject GetObject PutObject Isolation MultipartHandlers MultipartAnswers Dispatch.
From Stdlib Require Import ZArith Lia.
Local Open Scope Z_scope.

(** ** Requests *)

Section requests.
Context `{HttpLib} `{CodecLib} `{CryptoLib} `{ChronoLib} `{UuidLib} `{JsonLib} `{AxumLib} `{XmlLib}.
Local Existing Instance mem_writer.

(** A request whose operation has been admitted. *)
Record Task := mkTask {
  tk_env : Env; tk_request : Request; tk_body : Body;
  tk_operation : S3Operation; tk_id : RequestId; tk_ctx : AuthContext;
}.
Definition task (s : AppState) (c : Task) : ioE S3Error Response :=
  run_operation (tk_env c) s (tk_request c) (tk_body c) (tk_operation c) (tk_id c) (tk_ctx c).

(** The request names the object [t], with permission for its operation, and [R]. *)
Definition granted (s : AppState) (c : Task) (R : S3Target → Prop) : Prop :=
  ∃ t, resolve_request_target s (tk_request c) = Ok t ∧
    permitted s (tk_ctx c) (target_bucket t) (Some (target_key t)) (operation_action (tk_operation c)) ∧ R t.

(** The upload of a request, made or named by it. *)
Definition task_upload (c : Task) : option UploadId :=
  match tk_operation c with
  | CreateMultipartUpload => Some (new_upload_id (env_uuid (tk_env c) 0))
  | UploadPart u _ | AbortMultipartUpload u | CompleteMultipartUpload u => Some u
  | _ => None
  end.
Definition stages_objects (op : S3Operation) : bool :=
  match op with PutObject | CompleteMultipartUpload _ => true | _ => false end.
Definition changes_objects (op : S3Operation) : bool :=
  match op with PutObject | CompleteMultipartUpload _ | DeleteObject => true | _ => false end.

(** The files and the sessions a request may change. *)
Definition may_change (s : AppState) (c : Task) (q : path) : Prop := granted s c (λ t,
  (stages_objects (tk_operation c) = true ∧ in_tmp q) ∨
  (changes_objects (tk_operation c) = true ∧
   (q = object_path (target_bucket t) (target_key t) ∨ q = metadata_path (target_bucket t) (target_key t))) ∨
  ∃ u, task_upload c = Some u ∧ under (upload_dir u) q = true).
Definition may_touch (s : AppState) (c : Task) (k : str) : Prop := granted s c (λ _,
  ∃ u, task_upload c = Some u ∧ k = upload_id_str u).

(** An upload that is created belongs to the object its request names. *)
Definition creation_named (names : Names) (s : AppState) (c : Task) : Prop :=
  ∀ t, tk_operation c = CreateMultipartUpload → resolve_request_target s (tk_request c) = Ok t →
  names (upload_id_str (new_upload_id (env_uuid (tk_env c) 0))) = (target_bucket t, target_key t).

Lemma numbered_processors_snd env first s : snd <$> numbered_processors env first s = st_upload_processors s.
Proof.
  unfold numbered_processors. rewrite fmap_imap. apply list_eq. intros i. rewrite list_lookup_imap. simpl.
  by destruct (st_upload_processors s !! i).
Qed.

(** The file stores, with any clock. *)
Section handlers.
Variables (clock : Z → Z) (names : Names) (s : AppState) (c : Task).
#[local] Instance multipart_store : MultipartStoreOps := file_multipart_store_on clock.
Abbreviation reaches m := (confined names (may_change s c) (may_touch s c) m any).

Lemma confined_receive_into env p headers body wt signing max (P : path → Prop) T :
  P p → confined names P T (receive_into env p headers body wt signing max) any.
Proof. intros Hp. unfold receive_into, map_io_err, ignore. confined_steps. Qed.

(** What the gate of an upload request finds out. *)
Lemma confined_gate r ctx u P T :
  confined names P T (validate_upload_session_target s r ctx u) (λ res, ∀ session, res = Ok session →
    ∃ t, resolve_request_target s r = Ok t ∧ us_bucket session = target_bucket t ∧
      us_key session = target_key t ∧ names (upload_id_str u) = (target_bucket t, target_key t)).
Proof.
  unfold validate_upload_session_target. apply confined_bind, confined_io_map.
  eapply confined_mono; [apply confined_get_upload|]. intros [o|e] Ho; [|by intros session].
  apply confined_check; [|by intros e session]. intros session Hs.
  assert (o = Some session) as -> by (by destruct o; simplify_eq/=). destruct (Ho session eq_refl) as [_ Hn].
  destruct (negb _); [by apply confined_throw; intros s0|]. apply confined_check; [|by intros e s0]. intros t Ht.
  destruct (negb (bool_decide (target_bucket t = _)) || _) eqn:Hb; [by apply confined_throw; intros s0|].
  apply orb_false_iff in Hb as [Hb%negb_false_iff%bool_decide_eq_true Hk%negb_false_iff%bool_decide_eq_true].
  destruct (match us_owner_access_key_id session with Some _ => _ | None => _ end); [by apply confined_throw; intros s0|].
  apply confined_ret. intros s0 [= <-]. exists t. by rewrite <- Hn, Hb, Hk.
Qed.

(** Store errors are mapped to S3 errors. *)
Lemma confined_store_call {A} (f : StoreError → S3Error) (m : io A) :
  reaches m → reaches (map_io_err f m).
Proof. apply confined_map_any. Qed.

(** What a granted request may change. *)
Section granted.
Context (t : S3Target) (Ht : resolve_request_target s (tk_request c) = Ok t).
Context (Hp : permitted s (tk_ctx c) (target_bucket t) (Some (target_key t)) (operation_action (tk_operation c))).

Lemma may_tmp q : stages_objects (tk_operation c) = true → in_tmp q → may_change s c q.
Proof. intros Ho Hq. exists t. split_and!; [done..|]. by left. Qed.
Lemma may_object : changes_objects (tk_operation c) = true →
  may_change s c (object_path (target_bucket t) (target_key t)) ∧
  may_change s c (metadata_path (target_bucket t) (target_key t)).
Proof. intros Ho. split; exists t; (split_and!; [done..|]); right; left; auto. Qed.
Lemma may_upload u : task_upload c = Some u → (∀ q, under (upload_dir u) q = true → may_change s c q) ∧ may_touch s c (upload_id_str u).
Proof.
  intros Hu. split; [intros q Hq|]; exists t; (split_and!; [done..|]); [|by exists u]. right. right. by exists u.
Qed.
End granted.

#[local] Hint Resolve confined_head_object confined_open_object : confined.

Lemma reaches_put : tk_operation c = PutObject → processors_confined (st_upload_processors s) →
  reaches (handle_put_object (tk_env c) s (tk_request c) (tk_body c) (tk_id c) (tk_ctx c)).
Proof.
  intros Hop Hprocs. unfold handle_put_object. apply confined_check; [|done]. intros [t um] Hck.
  destruct (put_checks_ok _ _ _ _ _ _ _ Hck) as [Ht Hp].
  change ActPutObject with (operation_action PutObject) in Hp. rewrite <- Hop in Hp.
  assert (∀ q, in_tmp q → may_change s c q) as Htmp by (intros q; apply (may_tmp t Ht Hp); by rewrite Hop).
  destruct (may_object t Ht Hp) as [Hdata Hjson]; [by rewrite Hop|].
  apply confined_bind, confined_io_map. eapply confined_mono; [by apply confined_create_temp|].
  intros [st|e] Hst; [|done]. specialize (Hst st eq_refl). subst st. set (st := mkStaged _ _).
  assert (may_change s c (so_path st)) as Hst by by apply Htmp.
  apply confined_then; [by apply confined_drop_guard; [|apply confined_receive_into|]|intros up|done].
  apply confined_then; [|by intros|done]. unfold store_upload.
  apply confined_then; [by apply confined_drop_guard; [|apply confined_map_any, confined_quiet|]|intros _|done].
  cbv zeta. apply confined_bind. eapply confined_mono; [apply confined_process; [done..|]|].
  { by rewrite numbered_processors_snd. }
  intros [st'|e] Hst'; [|done]. rewrite (Hst' st' eq_refl).
  apply confined_then; [by apply confined_drop_guard; [|apply confined_summarize_file|]|intros fb|done].
  destruct (_ >? _); [by apply confined_drop_guard|].
  apply confined_then; [by apply confined_map_any, confined_commit_staged|done|done].
Qed.

Lemma reaches_delete : tk_operation c = DeleteObject →
  reaches (handle_delete_object s (tk_request c) (tk_id c) (tk_ctx c)).
Proof.
  intros Hop. unfold handle_delete_object. apply confined_check; [intros t Ht|done].
  apply confined_check; [intros [] Hp%authorize_request_ok|done]. apply confined_check; [intros _ _|done].
  change ActDeleteObject with (operation_action DeleteObject) in Hp. rewrite <- Hop in Hp.
  destruct (may_object t Ht Hp) as [Hdata Hjson]; [by rewrite Hop|].
  apply confined_then; [by apply confined_map_any, confined_delete_object|done|done].
Qed.

(** Reading requests. *)
Lemma reaches_head : reaches (handle_head_object s (tk_request c) (tk_id c) (tk_ctx c)).
Proof. unfold handle_head_object, map_io_err. confined_steps. Qed.
Lemma reaches_get reads : reaches (handle_get_object reads s (tk_request c) (tk_id c) (tk_ctx c)).
Proof. unfold handle_get_object, map_io_err, fs_seek. cbv zeta. confined_steps. Qed.
Lemma reaches_list u : reaches (handle_list_parts s (tk_request c) (tk_id c) u (tk_ctx c)).
Proof.
  unfold handle_list_parts. apply confined_check; [intros page _|done].
  apply confined_then; [|by confined_steps|done]. eapply confined_mono; [apply confined_gate|done].
Qed.

Lemma reaches_create : tk_operation c = CreateMultipartUpload → creation_named names s c →
  reaches (handle_create_multipart_upload (tk_env c) s (tk_request c) (tk_id c) (tk_ctx c)).
Proof.
  intros Hop Hnames. unfold handle_create_multipart_upload. apply confined_check; [|done]. intros [t um] Hck.
  destruct (create_checks_ok _ _ _ _ _ _ Hck) as [Ht Hp].
  change ActCreateMultipartUpload with (operation_action CreateMultipartUpload) in Hp. rewrite <- Hop in Hp.
  destruct (may_upload t Ht Hp (new_upload_id (env_uuid (tk_env c) 0))) as [HP HT]; [unfold task_upload; by rewrite Hop|].
  cbn [store_create_upload multipart_store file_multipart_store_on].
  apply confined_then; [|by intros|done]. eapply confined_map_any, confined_create_upload; [done..|]. by apply Hnames.
Qed.

(** A request on an upload: its gate, then what it does with permission. *)
Lemma reaches_upload u a (m : UploadSession → ioE S3Error Response) :
  a = operation_action (tk_operation c) → task_upload c = Some u →
  (∀ session t, names (upload_id_str u) = (target_bucket t, target_key t) →
     resolve_request_target s (tk_request c) = Ok t →
     permitted s (tk_ctx c) (target_bucket t) (Some (target_key t)) (operation_action (tk_operation c)) →
     (∀ q, under (upload_dir u) q = true → may_change s c q) → may_touch s c (upload_id_str u) → reaches (m session)) →
  reaches (session ← validate_upload_session_target s (tk_request c) (tk_ctx c) u;
           _ ← lift (authorize_request s (tk_ctx c) (us_bucket session) (Some (us_key session)) a);
           m session).
Proof.
  intros -> Hu Hm. apply confined_bind. eapply confined_mono; [apply confined_gate|]. intros [session|e] Hs; [|done].
  destruct (Hs session eq_refl) as (t & Ht & -> & -> & Hn). apply confined_check; [|done].
  intros [] Hp%authorize_request_ok. destruct (may_upload t Ht Hp u Hu). by apply (Hm session t).
Qed.

Lemma reaches_part u n : tk_operation c = UploadPart u n →
  reaches (handle_upload_part (tk_env c) s (tk_request c) (tk_body c) (tk_id c) u n (tk_ctx c)).
Proof.
  intros Hop. unfold handle_upload_part. do 2 (apply confined_check; [intros _ _|done]).
  apply reaches_upload; [by rewrite Hop|unfold task_upload; by rewrite Hop|]. intros session t Hn Ht Hp HP HT.
  do 3 (apply confined_check; [intros _ _|done]). apply confined_bind, confined_io_map.
  eapply confined_mono; [by apply confined_create_temp_part|]. intros [p|e] Hpath; [|done]. rewrite (Hpath p eq_refl).
  set (temp := part_tmp _ _ _ _). assert (may_change s c temp) as Htemp by by apply P_part_tmp.
  apply confined_then; [|by intros|done]. unfold store_part.
  apply confined_then; [by apply confined_drop_guard; [|apply confined_receive_into|]|intros up|done].
  apply confined_then; [by apply confined_drop_guard; [|apply confined_map_any, confined_quiet|]|intros _|done].
  cbn [store_commit_part multipart_store file_multipart_store_on].
  apply confined_then; [by apply confined_map_any, confined_commit_part|done|done].
Qed.

Lemma reaches_abort u : tk_operation c = AbortMultipartUpload u →
  reaches (handle_abort_multipart_upload (tk_env c) s (tk_request c) (tk_id c) u (tk_ctx c)).
Proof.
  intros Hop. unfold handle_abort_multipart_upload. apply confined_check; [intros _ _|done].
  apply reaches_upload; [by rewrite Hop|unfold task_upload; by rewrite Hop|]. intros session t Hn Ht Hp HP HT.
  apply confined_check; [intros _ _|done]. cbn [store_abort_upload multipart_store file_multipart_store_on].
  apply confined_then; [by apply confined_map_any, confined_abort_upload|done|done].
Qed.

Lemma reaches_complete u : tk_operation c = CompleteMultipartUpload u → processors_confined (st_upload_processors s) →
  reaches (handle_complete_multipart_upload (tk_env c) s (tk_request c) (tk_body c) (tk_id c) u (tk_ctx c)).
Proof.
  intros Hop Hprocs. unfold handle_complete_multipart_upload. cbv zeta.
  apply reaches_upload; [by rewrite Hop|unfold task_upload; by rewrite Hop|]. intros session t Hn Ht Hp HP HT.
  apply confined_check; [|done]. intros [parts cr] _. apply confined_then; [|by intros|done].
  destruct (may_object t Ht Hp) as [Hdata Hjson]; [by rewrite Hop|].
  cbn [store_complete_upload multipart_store file_multipart_store_on].
  eapply confined_map_any, (confined_complete_upload _ _ _ u); rewrite ?Hn; try done.
  - intros q. apply (may_tmp t Ht Hp). by rewrite Hop.
  - cbn [cu_processors store_completion]. by rewrite numbered_processors_snd.
Qed.

(** Every operation keeps to what its request may change. *)
Lemma task_confined :
  st_object_store s = file_object_store → st_multipart_store s = file_multipart_store_on clock →
  processors_confined (st_upload_processors s) → creation_named names s c → reaches (task s c).
Proof.
  intros Hos Hms Hprocs Hnames. unfold task, run_operation. rewrite Hos, Hms.
  destruct (tk_operation c) eqn:Hop; cbn [dispatch_implemented_operation].
  - by apply reaches_put.
  - by apply reaches_create.
  - by apply reaches_part.
  - by apply reaches_complete.
  - by apply reaches_abort.
  - apply reaches_list.
  - done.
  - apply reaches_head.
  - apply reaches_get.
  - by apply reaches_delete.
Qed.
End handlers.

(** ** Requests at the same time *)

(* @prop safety 4 : dispatch_implemented_operation handle_put_object handle_delete_object handle_complete_multipart_upload handle_create_multipart_upload handle_upload_part handle_abort_multipart_upload handle_list_parts handle_get_object handle_head_object commit_staged_object complete_upload abort_upload commit_part *)
(** C4: requests keep to what they are for. Any number of admitted requests of any
    operations run at the same time, interleaved in any way, stopped anywhere, with
    any calls of the file system failing. A file that differs afterwards is, for
    one of the requests and the object this request names with the permission of
    every policy, a temporary file of an upload or a completion, one of the two
    files of that object (only for an upload, a completion or a deletion), or
    below the directory of the upload the request makes or names. A session that
    differs is that of such an upload. Upload ids keep the object they were made
    for ([names]). Processors write temporary files only. *)
Theorem requests_confined clock names s cs w ts w' :
  st_object_store s = file_object_store → st_multipart_store s = file_multipart_store_on clock →
  processors_confined (st_upload_processors s) →
  Forall (creation_named names s) cs → table_named names (sessions w) →
  interleaving (task s <$> cs, w) (ts, w') →
  (∀ q, Forall (λ c, ¬ may_change s c q) cs → files w' !! q = files w !! q) ∧
  (∀ k, Forall (λ c, ¬ may_touch s c k) cs → sessions w' !! k = sessions w !! k) ∧
  table_named names (sessions w').
Proof.
  intros Hos Hms Hprocs Hnames Hw Hi. rewrite Forall_forall in Hnames.
  destruct (pool_confined names (λ q, ∃ c, c ∈ cs ∧ may_change s c q) (λ k, ∃ c, c ∈ cs ∧ may_touch s c k)
    (task s <$> cs) ts w w') as [[Hf Hs] Ht]; [|done..|].
  { apply Forall_fmap, Forall_forall. intros c Hc.
    eapply confined_subset; [..|by apply (task_confined clock); [..|apply Hnames]]; intros; by exists c. }
  split_and!; [| |done]; intros x Hx; rewrite Forall_forall in Hx; [apply Hf|apply Hs]; intros (c & Hc & Hm); by apply (Hx c).
Qed.
End requests.

(** ** Witness: an upload whose publication fails, beside the start of another *)

Section witnesses.
#[local] Existing Instances ref_http ref_codec ref_crypto ref_chrono ref_uuid ref_json ref_axum ref_xml.

Definition w_create_request : Request := mkReq "POST" (mkUri "/photos/2026/dog.jpg" (Some "uploads")) [].
Definition w_put_task : Task := mkTask w_env w_put_request [Ok "world"] PutObject w_id w_anonymous.
Definition w_create_task : Task := mkTask w_env_2 w_create_request [] CreateMultipartUpload w_id w_anonymous.
Definition w_names : Names := λ _,
  match resolve_request_target w_state w_create_request with
  | Ok t => (target_bucket t, target_key t)
  | Err _ => (mkBucketName [], mkObjectKey [])
  end.
(** Some other object; the twelfth call from now on fails. *)
Definition w_other_disk : World :=
  mkWorld {[ data_file "abcd" := "kept" ]} ∅ (replicate 11 None ++ [Some (mkFault "disk full" None [])]).
Definition w_tasks_run : list (ioE S3Error Response) * World :=
  schedule (mjoin (replicate 60 [0; 1]%nat)) (task w_state <$> [w_put_task; w_create_task]) w_other_disk.

Lemma requests_confined_witness :
  statuses w_tasks_run.1 = [Some None; Some (Some 200)] ∧
  size (sessions w_tasks_run.2) = 1%nat ∧
  files w_tasks_run.2 !! data_file "abcd" = Some ("kept" : bytes).
Proof.
  split; [vm_refl|]. split; [vm_refl|].
  pose proof (schedule_interleaving (mjoin (replicate 60 [0; 1]%nat))
    (task w_state <$> [w_put_task; w_create_task]) w_other_disk) as Hi. fold w_tasks_run in Hi.
  destruct w_tasks_run as [ts w'] eqn:Hrun.
  assert (Forall (creation_named w_names w_state) [w_put_task; w_create_task]) as Hnames.
  { repeat constructor; [by intros t Hop|]. intros t _ Ht. unfold w_names. cbn [tk_request w_create_task] in Ht. by rewrite Ht. }
  assert (table_named w_names (sessions w_other_disk)) as Hw by done.
  destruct (requests_confined (λ t, t) w_names w_state _ w_other_disk ts w' eq_refl eq_refl (List.Forall_nil _) Hnames Hw Hi) as (Hf & _ & _).
  apply Hf. repeat constructor; intros (t & Ht & _ & [[Ho Hq]|[[Ho Hq]|(u & Hu & Hq%under_upload)]]);
    [| |discriminate Hq|discriminate Ho..|discriminate Hq].
  - injection Hq. discriminate.
  - destruct Hq as [Hq|Hq]; [|discriminate Hq].
    assert (resolve_request_target w_state w_put_request =
      Ok (mkTarget (mkBucketName "photos") (mkObjectKey "2026/cat.jpg") false)) as Hres by vm_refl.
    cbn [tk_request w_put_task] in Ht. rewrite Hres in Ht. injection Ht as <-.
    assert (bool_decide (data_file "abcd" = object_path (mkBucketName "photos") (mkObjectKey "2026/cat.jpg")) = false)
      as Hne by vm_refl.
    by apply bool_decide_eq_false_1 in Hne.
Defined.
End witnesses.
