(* ===== verification/Service.v ===== *)
(** * The whole service

    What requests of all operations, one after the other, make of the disk and of
    the session table, from the start of the server on. The abstract state is a
    map of objects; a request is a step of it that changes at most the object it
    names, and only with permission ([service_refines]). *)

From S2P Require Import Prelude RustStd BTree S3Error Externals Reference Types Target Config Http.
From S2P Require Import Chunked ChunkedProofs Checksum Upload Auth Hooks Admission Routing Requests.
From S2P Require Import StoreModel ReferenceJson FileSystem ObjectStore ObjectProofs ObjectSpec StoreTrait Middleware.
From S2P Require Import Assembly MultipartStore MultipartProofs MultipartSpec Concurrency PartDurability Recovery.
From S2P Require Import Streams AppState.
From S2P Require Import Main HeadObject GetObject PutObject EndToEnd MultipartHandlers MultipartAnswers Dispatch Footprint Confined.
From Stdlib Require Import ZArith Lia.
Local Open Scope Z_scope.

(** ** The multipart handlers *)

Section multipart.
Context `{HttpLib} `{CodecLib} `{CryptoLib} `{ChronoLib} `{UuidLib} `{JsonLib} `{AxumLib} `{XmlLib}.
Local Existing Instance mem_writer.
Implicit Types (n : nat) (fs : gmap path bytes) (ss : gmap str UploadSession) (objs : objects).

(** What a multipart request that is not a completion does. *)
Definition multipart_only fs ss fs' ss' : Prop := same_objects fs fs' ∧ steps ss ss'.

Lemma multipart_only_refl fs ss : multipart_only fs ss fs ss.
Proof. split; [by intros q|apply steps_refl]. Qed.

(** Which object the uploads of a table belong to, and the one a request may make. *)
Lemma table_names s c ss :
  table_ok ss → ss !! upload_id_str (new_upload_id (env_uuid (tk_env c) 0)) = None →
  ∃ names, creation_named names s c ∧ table_named names ss.
Proof.
  intros Hss Hfresh. exists (λ k, match ss !! k, resolve_request_target s (tk_request c) with
    | Some session, _ => (us_bucket session, us_key session)
    | None, Ok t => (target_bucket t, target_key t)
    | None, Err _ => (mkBucketName [], mkObjectKey [])
    end).
  split; [intros t _ Ht; by rewrite Hfresh, Ht|]. intros k session Hk. split; [by destruct (Hss k session Hk)|]. by rewrite Hk.
Qed.

(** What a request that changes no object leaves. *)
Lemma may_change_multipart s c q :
  stages_objects (tk_operation c) = false → changes_objects (tk_operation c) = false →
  may_change s c q → head q = Some "multipart".
Proof. intros Hst Hch (t & _ & _ & [[? _]|[[? _]|(u & _ & Hu%under_upload)]]); congruence. Qed.

(** The requests that change no object, by what they may reach. *)
Lemma wp_multipart_only s c (m : ioE S3Error Response) n fs ss :
  stages_objects (tk_operation c) = false → changes_objects (tk_operation c) = false →
  ss !! upload_id_str (new_upload_id (env_uuid (tk_env c) 0)) = None → table_ok ss →
  (∀ names, creation_named names s c → confined names (may_change s c) (may_touch s c) m any) →
  wp m n fs ss (λ _ _ _ ss', steps ss ss') → wp m n fs ss (λ _ _ fs' ss', multipart_only fs ss fs' ss').
Proof.
  intros Hst Hch Hfresh Hss Hm Hs fl Hn. specialize (Hs fl Hn).
  destruct (table_names s c ss Hss Hfresh) as (names & Hnames & Hnamed).
  pose proof (wp_confined names _ _ m any n fs ss (Hm names Hnames) Hnamed fl Hn) as Hc.
  destruct (run m _) as [r w]. destruct Hc as (_ & _ & Hf & _). split; [|done].
  intros q Hq. apply Hf. intros Hmay. by apply Hq, (may_change_multipart s c).
Qed.

Lemma wp_checked_steps {A : Type} (c : result S3Error A) (m : A → ioE S3Error Response) n fs ss :
  (∀ a, c = Ok a → wp (m a) n fs ss (λ _ _ _ ss', steps ss ss')) →
  wp (a ← lift c; m a) n fs ss (λ _ _ _ ss', steps ss ss').
Proof. intros Hm. apply wp_bind, wp_lift. destruct c as [a|e]; [by apply Hm|apply steps_refl]. Qed.

Lemma steps_handle_create env s r id ctx n fs ss :
  ss !! upload_id_str (new_upload_id (env_uuid env 0)) = None →
  wp (handle_create_multipart_upload env s r id ctx) n fs ss (λ _ _ _ ss', steps ss ss').
Proof.
  intros Hfresh. apply wp_checked_steps. intros [t um] _. apply wp_bind, wp_map_io_err.
  eapply wp_mono; [by apply steps_create_upload|]. intros [session|e] n' fs' ss' Hs; [by apply wp_lift|done].
Qed.

Lemma steps_store_part env s headers body ctx id pn temp n fs ss :
  wp (store_part env s headers body ctx id pn temp) n fs ss (λ _ _ _ ss', steps ss ss').
Proof.
  unfold store_part, fs_flush. apply wp_bind, wp_session_free.
  { unfold drop_guard, receive_into, fs_append. session_free. }
  intros [up|e] n1 fs1; [|apply steps_refl]. apply wp_bind, wp_session_free; [unfold drop_guard; session_free|].
  intros [[]|e] n2 fs2; [|apply steps_refl]. apply wp_bind, wp_map_io_err. eapply wp_mono; [apply steps_commit_part|].
  intros [part|e] n3 fs3 ss3 Hs; [by apply wp_ret|done].
Qed.

Lemma steps_handle_part env s r body id upload_id pn ctx n fs ss :
  wp (handle_upload_part env s r body id upload_id pn ctx) n fs ss (λ _ _ _ ss', steps ss ss').
Proof.
  unfold handle_upload_part. do 2 (apply wp_checked_steps; intros [] _).
  apply wp_bind, wp_validate_target; [intros session _|intros e _; apply steps_refl].
  do 2 (apply wp_checked_steps; intros [] _). do 2 (apply wp_checked_steps; intros ? _).
  apply wp_bind, wp_map_io_err, wp_bind, wp_get_open_upload.
  destruct (ss !! upload_id_str upload_id) as [s0|]; [|apply steps_refl]. destruct (is_open s0); [|apply steps_refl].
  apply wp_bind, wp_create_parent_dir; [done| |intros; apply steps_refl].
  apply wp_bind, wp_call; simpl; [|intros; apply steps_refl]. apply wp_ret. cbn [map_err].
  apply wp_bind. eapply wp_mono; [apply steps_store_part|]. intros [up|e] n' fs' ss' Hp; [by apply wp_lift|done].
Qed.

Lemma steps_handle_abort env s r id upload_id ctx n fs ss :
  wp (handle_abort_multipart_upload env s r id upload_id ctx) n fs ss (λ _ _ _ ss', steps ss ss').
Proof.
  unfold handle_abort_multipart_upload. apply wp_checked_steps. intros [] _.
  apply wp_bind, wp_validate_target; [intros session _|intros e _; apply steps_refl].
  do 2 (apply wp_checked_steps; intros [] _). apply wp_bind, wp_map_io_err.
  eapply wp_mono; [apply steps_abort_upload|]. intros [[]|e] n' fs' ss' [Hs _]; [by apply wp_lift|done].
Qed.

Lemma wp_handle_list s r id upload_id ctx n fs ss :
  wp (handle_list_parts s r id upload_id ctx) n fs ss (λ _ _ fs' ss', multipart_only fs ss fs' ss').
Proof.
  unfold handle_list_parts. apply wp_bind, wp_lift. destruct (parse_page _); [|apply multipart_only_refl].
  apply wp_bind, wp_validate_target; [intros session _|intros e _; apply multipart_only_refl].
  apply wp_bind, wp_lift. destruct (authorize_request _ _ _ _ _); [|apply multipart_only_refl].
  apply wp_bind, wp_lift. destruct (validate_empty_payload_hash _); [|apply multipart_only_refl].
  apply wp_lift, multipart_only_refl.
Qed.
End multipart.

(** ** Requests as steps of a map of objects *)

Section service.
Context `{HttpLib} `{CodecLib} `{CryptoLib} `{ChronoLib} `{UuidLib} `{JsonLib} `{AxumLib} `{XmlLib}.
Implicit Types (n : nat) (fs : gmap path bytes) (ss : gmap str UploadSession) (objs : objects).
Implicit Types (funs : list (bytes → result UploadProcessorError (option bytes))).

(** What the operations do to the object they are for. *)
Definition effect (op : S3Operation) (t : S3Target) objs objs' : Prop :=
  let d := object_digest (target_bucket t) (target_key t) in
  match op with
  | PutObject | CompleteMultipartUpload _ =>
      ∃ md data, om_bucket md = target_bucket t ∧ om_key md = target_key t ∧
        om_size md = Z.min (len data) u64_max ∧ objs' = <[d := (md, data)]> objs
  | DeleteObject => objs' = delete d objs
  | _ => False
  end.

(** One request: nothing, or the effect of its operation on the object it names,
    with the permission of every policy. *)
Inductive object_step (s : AppState) (r : Request) (ctx : AuthContext) (op : S3Operation) objs : objects → Prop :=
| no_change : object_step s r ctx op objs objs
| changed t objs' :
    resolve_request_target s r = Ok t →
    permitted s ctx (target_bucket t) (Some (target_key t)) (operation_action op) →
    effect op t objs objs' → object_step s r ctx op objs objs'.

(** The disk holds the objects, and the table is at rest. *)
Definition service_ok objs fs ss : Prop := refines fs objs ∧ sizes_ok objs ∧ table_ok ss.

Lemma effect_sizes op t objs objs' : sizes_ok objs → effect op t objs objs' → sizes_ok objs'.
Proof.
  intros Hs He. unfold effect in He. destruct op; try done.
  1, 2: destruct He as (md & data & _ & _ & Hsz & ->); apply sizes_ok_insert; [done|];
    rewrite Hsz; unfold is_u64, u64_max, len; lia.
  subst. intros d md c [_ Hl]%lookup_delete_Some. by apply (Hs d md c).
Qed.

(** A deletion, whatever fails. *)
Lemma wp_delete_steps s r id ctx n fs ss objs :
  refines fs objs → wp (handle_delete_object s r id ctx) n fs ss (λ _ _ fs' ss', ss' = ss ∧
    (refines fs' objs ∨ ∃ t, resolve_request_target s r = Ok t ∧
       permitted s ctx (target_bucket t) (Some (target_key t)) ActDeleteObject ∧
       refines fs' (delete (object_digest (target_bucket t) (target_key t)) objs))).
Proof.
  intros Hr. destruct (resolve_request_target s r) as [t|e] eqn:Hres;
    [|unfold handle_delete_object; apply wp_bind, wp_lift; rewrite Hres; split; [done|by left]].
  destruct (authorize_request s ctx (target_bucket t) (Some (target_key t)) ActDeleteObject) as [[]|e] eqn:Ha;
    [|unfold handle_delete_object; apply wp_bind, wp_lift; rewrite Hres; apply wp_bind, wp_lift; rewrite Ha;
      split; [done|by left]].
  destruct (validate_empty_payload_hash r) as [[]|e] eqn:Hh;
    [|unfold handle_delete_object; apply wp_bind, wp_lift; rewrite Hres; apply wp_bind, wp_lift; rewrite Ha;
      apply wp_bind, wp_lift; rewrite Hh; split; [done|by left]].
  apply authorize_request_ok in Ha. eapply wp_mono; [by apply (wp_handle_delete (St := file_object_store) s r id ctx t)|].
  intros res n' fs' ss' (-> & [Hd|[_ Hd]] & _); (split; [done|]); [right; by exists t|by left].
Qed.

Lemma put_spec_target env s r body id ctx funs md data :
  put_spec env s r body id ctx funs = Ok (md, data) →
  ∃ t, resolve_request_target s r = Ok t ∧
    permitted s ctx (target_bucket t) (Some (target_key t)) ActPutObject ∧
    om_bucket md = target_bucket t ∧ om_key md = target_key t ∧ om_size md = Z.min (len data) u64_max.
Proof.
  unfold put_spec. destruct (put_checks env s r id ctx) as [[t um]|] eqn:Hck; [|done]. cbn [mbind result_bind].
  destruct (default _ (decode_body _ _ _ _ _)) as [[up c]|]; [|done]. cbn [mbind result_bind].
  destruct (map_err _ (run_processors _ _)) as [c'|]; [|done]. cbn [mbind result_bind]. cbv zeta.
  destruct (_ >? _); [done|]. destruct (json_of_object _); [|done]. intros [= <- <-].
  destruct (put_checks_ok _ _ _ _ _ _ _ Hck) as [Ht Hp]. by exists t.
Qed.

Lemma complete_spec_object env s r body id upload_id ctx session fs funs data md :
  complete_request_spec env s r body id upload_id ctx session fs funs = Ok (data, md) →
  om_bucket md = us_bucket session ∧ om_key md = us_key session ∧ om_size md = Z.min (len data) u64_max.
Proof.
  unfold complete_request_spec. destruct (authorize_request _ _ _ _ _); [|done]. cbn [mbind result_bind].
  destruct (completion_request _ _) as [[parts cr]|]; [|done]. cbn [mbind result_bind].
  unfold complete_spec, assemble_spec. intros Hs. inv_result Hs. done.
Qed.

Section operations.
Context (s : AppState) (funs : list (bytes → result UploadProcessorError (option bytes))).
Context (Hsummary : 0 < upload_summary_buffer_size (st_io_tuning s)).
Context (Hcomplete : 0 < multipart_complete_buffer_size (st_io_tuning s)).
Context (Hstream : 0 < object_stream_buffer_size (st_io_tuning s)).
Context (Hprocs : Forall2 runs_as (st_upload_processors s) funs).

Definition step_post r ctx op objs fs' ss' : Prop :=
  ∃ objs', object_step s r ctx op objs objs' ∧ service_ok objs' fs' ss'.

Lemma step_unchanged r ctx op objs fs ss : service_ok objs fs ss → step_post r ctx op objs fs ss.
Proof. intros Hok. exists objs. split; [constructor|done]. Qed.

Lemma wp_step_multipart r ctx op objs fs ss (m : ioE S3Error Response) :
  service_ok objs fs ss → wp m 0 fs ss (λ _ _ fs' ss', multipart_only fs ss fs' ss') →
  wp m 0 fs ss (λ _ _ fs' ss', step_post r ctx op objs fs' ss').
Proof.
  intros (Hr & Hs & Ht) Hm. eapply wp_mono; [exact Hm|]. intros _ _ fs' ss' [Hf Hst].
  exists objs. split; [constructor|]. split_and!; [|done|by eapply table_ok_steps]. by eapply refines_same_objects.
Qed.

Lemma step_changed r ctx op t objs objs' fs' ss' :
  sizes_ok objs → table_ok ss' → resolve_request_target s r = Ok t →
  permitted s ctx (target_bucket t) (Some (target_key t)) (operation_action op) →
  effect op t objs objs' → refines fs' objs' → step_post r ctx op objs fs' ss'.
Proof.
  intros Hs Ht Hres Hp He Hr. exists objs'. split; [by apply changed with t|].
  split_and!; [done|by eapply effect_sizes|done].
Qed.

Lemma wp_step_put env r body id ctx fs ss objs :
  service_ok objs fs ss →
  wp (handle_put_object env s r body id ctx) 0 fs ss (λ _ _ fs' ss', step_post r ctx PutObject objs fs' ss').
Proof.
  intros Hok. pose proof Hok as (Hr & Hs & Ht). eapply wp_mono; [by apply wp_put_object|].
  intros res n' fs' ss' [-> Hput]. destruct (put_spec _ _ _ _ _ _ _) as [[md data]|e] eqn:Hspec.
  - destruct (put_spec_target _ _ _ _ _ _ _ _ _ Hspec) as (t & Hres & Hp & Hb & Hk & Hsz). destruct Hput as [_ Hr'].
    eapply (step_changed r ctx PutObject t); [done..| |exact Hr']. exists md, data.
    unfold target_digest. by rewrite Hb, Hk.
  - apply step_unchanged. by destruct Hput.
Qed.

Lemma wp_step_delete r id ctx fs ss objs :
  service_ok objs fs ss →
  wp (handle_delete_object s r id ctx) 0 fs ss (λ _ _ fs' ss', step_post r ctx DeleteObject objs fs' ss').
Proof.
  intros Hok. pose proof Hok as (Hr & Hs & Ht). eapply wp_mono; [by apply wp_delete_steps|].
  intros res n' fs' ss' [-> [Hd|(t & Hres & Hp & Hd)]]; [by exists objs; split; [constructor|]|].
  by eapply (step_changed r ctx DeleteObject t).
Qed.

Lemma wp_step_read r ctx op objs fs ss (m : ioE S3Error Response) :
  service_ok objs fs ss → wp m 0 fs ss (λ _ _ fs' ss', fs' = fs ∧ ss' = ss) →
  wp m 0 fs ss (λ _ _ fs' ss', step_post r ctx op objs fs' ss').
Proof. intros Hok Hm. eapply wp_mono; [exact Hm|]. intros ???? [-> ->]. by apply step_unchanged. Qed.

Lemma wp_head_reads r id ctx fs ss objs :
  refines fs objs → wp (handle_head_object s r id ctx) 0 fs ss (λ _ _ fs' ss', fs' = fs ∧ ss' = ss).
Proof.
  intros Hr. unfold handle_head_object. apply wp_bind, wp_lift. destruct (resolve_request_target s r) as [t|]; [|done].
  apply wp_bind, wp_lift. destruct (authorize_request _ _ _ _ _); [|done].
  apply wp_bind, wp_lift. destruct (validate_empty_payload_hash r); [|done].
  apply wp_bind, wp_map_io_err, (head_law (ObjectStoreContract := file_object_contract)) with objs; [done| |done].
  cbn [map_err]. apply wp_bind, wp_lift. destruct (ok_or _ _) as [md|]; [|done].
  apply wp_bind, wp_lift. destruct (conditional_response _ _ _) as [[resp|]|]; [by apply wp_ret|by apply wp_lift|done].
Qed.

Lemma wp_step_complete env r body id upload_id ctx fs ss objs :
  service_ok objs fs ss →
  wp (handle_complete_multipart_upload env s r body id upload_id ctx) 0 fs ss
    (λ _ _ fs' ss', step_post r ctx (CompleteMultipartUpload upload_id) objs fs' ss').
Proof.
  intros Hok fl Hn. pose proof Hok as (Hr & Hs & Ht).
  pose proof (wp_upload_gate (Mt := file_multipart_store) env s r id upload_id ctx (AComplete body) 0 fs ss fl Hn) as Hgate.
  cbn [handle_upload_request] in Hgate.
  assert (∀ session, session_access s r ctx upload_id ss session → us_upload_id session = upload_id →
    let '(res, w) := handle_complete_multipart_upload env s r body id upload_id ctx (mkWorld fs ss fl) in
    complete_request_post r id upload_id session fs ss objs
      (complete_request_spec env s r body id upload_id ctx session fs funs) res (files w) (sessions w)) as Hspec.
  { intros session Hacc Hid. by apply (wp_complete_request env s r body id upload_id ctx session funs fs ss objs). }
  destruct (run _ _) as [res w]. destruct Hgate as [(_ & -> & ->)|(session & Hl & Hg & Hp)]; [by apply step_unchanged|].
  assert (us_upload_id session = upload_id) as Hid.
  { destruct (Ht _ _ Hl) as [Hid _]. destruct (us_upload_id session), upload_id. simpl in Hid. by subst. }
  pose proof Hg as (_ & (t & Hres & Hb & Hk) & _). specialize (Hspec session (conj Hl Hg) Hid).
  unfold complete_request_post in Hspec. destruct (complete_request_spec _ _ _ _ _ _ _ _ _ _) as [[data md]|e] eqn:Hcs.
  - destruct Hspec as (_ & Hr' & Hss). destruct (complete_spec_object _ _ _ _ _ _ _ _ _ _ _ _ Hcs) as (Hmb & Hmk & Hsz).
    rewrite <- Hb, <- Hk in Hp, Hr'. eapply (step_changed r ctx (CompleteMultipartUpload upload_id) t); [done| |done|exact Hp| |exact Hr'].
    + rewrite Hss. intros k s0 [_ Hl']%lookup_delete_Some. by apply Ht.
    + exists md, data. by rewrite Hmb, Hmk, Hb, Hk.
  - destruct Hspec as (_ & Hr' & -> & _). exists objs. split; [constructor|done].
Qed.

Lemma wp_step env r body op id ctx fs ss objs :
  service_ok objs fs ss → ss !! upload_id_str (new_upload_id (env_uuid env 0)) = None →
  wp (dispatch_implemented_operation env s r body op id ctx) 0 fs ss (λ _ _ fs' ss', step_post r ctx op objs fs' ss').
Proof.
  intros Hok Hfresh. pose proof Hok as (Hr & Hs & Ht).
  destruct op as [| |u p|u|u|u| | | |]; cbn [dispatch_implemented_operation].
  - by apply wp_step_put.
  - apply wp_step_multipart; [done|]. set (c := mkTask env r body CreateMultipartUpload id ctx).
    apply (wp_multipart_only s c); [done..| |by apply steps_handle_create]. intros names. by apply (reaches_create (λ t, t) names s c).
  - apply wp_step_multipart; [done|]. set (c := mkTask env r body (UploadPart u p) id ctx).
    apply (wp_multipart_only s c); [done..| |apply steps_handle_part]. intros names _. by apply (reaches_part (λ t, t) names s c).
  - by apply wp_step_complete.
  - apply wp_step_multipart; [done|]. set (c := mkTask env r body (AbortMultipartUpload u) id ctx).
    apply (wp_multipart_only s c); [done..| |apply steps_handle_abort]. intros names _. by apply (reaches_abort (λ t, t) names s c).
  - apply wp_step_multipart; [done|apply wp_handle_list].
  - apply wp_lift. by apply step_unchanged.
  - apply wp_step_read; [done|]. by apply wp_head_reads with objs.
  - apply wp_step_read; [done|]. eapply wp_mono; [by apply (wp_get_object (St := file_object_store)) with (objs := objs)|].
    by intros ???? (-> & -> & _).
  - by apply wp_step_delete.
Qed.
End operations.

(** ** From the start of the server on *)

(** A request is served on the disk and the table the last one left, by calls
    that do not fail; its timeout does not elapse, and the upload id it may draw
    is not in use. *)
Definition calm (w : World) : World := mkWorld (files w) (sessions w) [].

Inductive served (s : AppState) : World → World → Prop :=
| served_none w : served s w w
| served_more w1 w2 w3 sr r body resp events :
    served s w1 w2 → sr_elapsed sr = None →
    sessions w2 !! upload_id_str (new_upload_id (env_uuid (sr_env sr) 0)) = None →
    handle_s3_request sr s r body (calm w2) = (resp, w3, events) → served s w1 w3.

(** What an admitted request may do to the objects. *)
Definition allowed_step (s : AppState) objs objs' : Prop :=
  ∃ sr r op ctx lease, admitted sr s r op ctx lease ∧ object_step s r ctx op objs objs'.

(** A state of the default stores. *)
Definition default_state (s : AppState) : Prop :=
  st_object_store s = file_object_store ∧ st_multipart_store s = file_multipart_store ∧
  st_upload_processors s = [] ∧ st_io_tuning s = default_io_tuning.

Lemma request_step sr s r body w resp w' events objs :
  default_state s → sr_elapsed sr = None →
  sessions w !! upload_id_str (new_upload_id (env_uuid (sr_env sr) 0)) = None →
  service_ok objs (files w) (sessions w) → handle_s3_request sr s r body (calm w) = (resp, w', events) →
  ∃ objs', rtc (allowed_step s) objs objs' ∧ service_ok objs' (files w') (sessions w').
Proof.
  intros (Hos & Hms & Hprocs & Hio) Hel Hfresh Hok Hrun%request_cases.
  inversion Hrun as [e|op ctx lease tc dropped Ha Hacc Ht Hd|op ctx lease tc res w1 Ha Hacc Ht Hop].
  - exists objs. split; [apply rtc_refl|done].
  - congruence.
  - subst. unfold run_operation in Hop. rewrite Hos, Hms in Hop.
    assert (0 < 64 * 1024) as Hbuf by lia.
    assert (step_post s r ctx op objs (files w') (sessions w')) as (objs' & Hst & Hok').
    { refine (wp_run _ _ _ _ _ Hop (wp_step s [] _ _ _ _ _ _ _ op _ _ _ _ _ Hok Hfresh));
        rewrite ?Hio, ?Hprocs; done. }
    exists objs'. split; [|done]. apply rtc_once. by exists sr, r, op, ctx, lease.
Qed.

Lemma served_steps s w w' objs :
  default_state s → service_ok objs (files w) (sessions w) → served s w w' →
  ∃ objs', rtc (allowed_step s) objs objs' ∧ service_ok objs' (files w') (sessions w').
Proof.
  intros Hdef Hok Hserved.
  induction Hserved as [w|w1 w2 w3 sr r body resp events _ IH Hel Hfresh Hreq]; [by exists objs; split; [apply rtc_refl|]|].
  destruct (IH Hok) as (objs2 & Hsteps & Hok2).
  destruct (request_step _ _ _ _ _ _ _ _ _ Hdef Hel Hfresh Hok2 Hreq) as (objs3 & Hstep & Hok3).
  exists objs3. split; [by etransitivity|done].
Qed.

Context `{!CredentialsJson}.

(** A start on any disk that succeeds. *)
Lemma started_ok now cli read w0 s w objs :
  faults w0 = [] → crashed (files w0) objs → stored_ok (files w0) → sizes_ok objs →
  start now cli read w0 = (Ok s, w) → default_state s ∧ service_ok objs (files w) (sessions w).
Proof.
  intros Hfl Hcr Hst Hsz Hrun. unfold start in Hrun.
  apply run_bind_ok in Hrun as (credentials & w1 & Hl & Hrun). rewrite run_lift in Hl.
  injection Hl as _ <-. unfold map_io_err in Hrun. rewrite run_io_map in Hrun.
  destruct (run (new_app_state now _) w0) as [[s'|e] w'] eqn:Hnew; [|done]. injection Hrun as -> ->.
  split.
  - destruct (from_builder_state _ _ _ _ _ Hnew) as (_ & _ & auth & _ & ->). done.
  - assert (budget w0 = 0%nat) as Hb by (unfold budget; by rewrite Hfl).
    pose proof (wp_new_app_state now (cli_config cli credentials) (files w0) (sessions w0) objs
      (λ r _ fs' ss', is_ok r = true → refines fs' objs ∧ ∀ k, ss' !! k = loaded default_lifecycle now (files w0) k)
      Hcr Hst) as Hwp. rewrite <- Hb in Hwp.
    destruct (wp_run _ _ _ _ _ Hnew (Hwp ltac:(intros r n fs' ss'; destruct (_ ← _; _) as [a|e];
      [intros (_ & Hr & Hss) _; done|by intros (-> & _)])) eq_refl) as [Hr Hss].
    split_and!; [done|done|]. intros k s0 Hk. rewrite Hss in Hk. unfold loaded in Hk.
    destruct (files w0 !! _) as [j|] eqn:Hj; simpl in Hk; [|done].
    destruct (Hst k j Hj) as (s1 & Hs1 & Hid). rewrite Hs1 in Hk. simpl in Hk.
    destruct (is_open s1) eqn:Ho; simpl in Hk; [|done]. case_match; simplify_eq/=;
      (split; [done|left; by apply is_open_state]).
Qed.

(* @prop refinement 2 : handle_s3_request start from_builder dispatch dispatch_implemented_operation handle_put_object handle_delete_object handle_complete_multipart_upload handle_create_multipart_upload handle_upload_part handle_abort_multipart_upload handle_list_parts handle_get_object handle_head_object handle_head_bucket *)
(** C2: the service is a map of objects. A server that has been started on any disk
    a previous process left, and has then served any requests of any operations,
    one after the other and without file system faults, holds exactly a map of
    objects, and every session of its table is filed under its id and not in the
    middle of a completion. The map has come from the one on the disk by steps
    each of which belongs to an admitted request and either changes nothing or
    has the effect of its operation (an upload or a completion stores an object
    with the name and the size of its bytes, a deletion removes one) on the one
    object the request names, with the permission of every policy. *)
Theorem service_refines now cli read w0 s w w' objs :
  faults w0 = [] → crashed (files w0) objs → stored_ok (files w0) → sizes_ok objs →
  start now cli read w0 = (Ok s, w) → served s w w' →
  ∃ objs', rtc (allowed_step s) objs objs' ∧ service_ok objs' (files w') (sessions w').
Proof.
  intros Hfl Hcr Hst Hsz Hrun Hserved.
  destruct (started_ok _ _ _ _ _ _ _ Hfl Hcr Hst Hsz Hrun) as [Hdef Hok]. by apply (served_steps s w).
Qed.
End service.

(** ** Witness: a start after a crash, then an upload and a deletion *)

Section witnesses.
#[local] Existing Instances ref_http ref_codec ref_crypto ref_chrono ref_uuid ref_json ref_axum ref_xml
  w_credentials_json.

Definition w_open_cli : Cli :=
  mkCli "./data" true "test" "testsecret" None None "us-east-1" 900 [] [] None None None None None None None None.
Definition w_boot : result MainError AppState * World := start 10 w_open_cli w_read_file w_crashed.
Definition w_booted : AppState := default w_state (result_ok w_boot.1).
Definition w_request_1 : Response * World * list TenantEvent :=
  handle_s3_request w_surroundings w_booted w_put_request [Ok "world"] (calm w_boot.2).
Definition w_request_2 : Response * World * list TenantEvent :=
  handle_s3_request w_surroundings w_booted (w_request "DELETE" None []) [] (calm w_request_1.1.2).

Lemma w_boot_runs : start 10 w_open_cli w_read_file w_crashed = (Ok w_booted, w_boot.2).
Proof.
  fold w_boot. assert (is_ok w_boot.1 = true) as Hok by vm_refl. unfold w_booted.
  destruct w_boot as [[s|e] w]; [done|discriminate].
Qed.
Lemma w_crashed_stored : stored_ok (files w_crashed).
Proof.
  intros d j Hj. exfalso.
  assert (forallb (λ kv, negb (bool_decide (head kv.1 = Some "multipart"))) (map_to_list (files w_crashed)) = true) as Hall by vm_refl.
  rewrite forallb_forall in Hall. apply elem_of_map_to_list, list_elem_of_In, Hall in Hj. discriminate.
Qed.
Lemma w_one_sizes : sizes_ok w_one_object.
Proof.
  intros d md c Hl. unfold w_one_object in Hl. cbn in Hl. apply lookup_insert_Some in Hl as [[_ [= <- _]]|[_ Hl]]; [|done].
  split; vm_compute; discriminate.
Qed.

Lemma service_refines_witness :
  rs_status w_request_1.1.1 = 200 ∧ rs_status w_request_2.1.1 = 204 ∧
  ∃ objs, rtc (allowed_step w_booted) w_one_object objs ∧ refines (files w_request_2.1.2) objs.
Proof.
  split; [vm_refl|]. split; [vm_refl|].
  assert (∀ p : Response * World * list TenantEvent, p = (p.1.1, p.1.2, p.2)) as Hp by by intros [[??]?].
  assert (served w_booted w_boot.2 w_request_2.1.2) as Hserved.
  { apply (served_more _ _ w_request_1.1.2 _ w_surroundings (w_request "DELETE" None []) [] w_request_2.1.1 w_request_2.2);
      [|reflexivity|vm_refl|exact (Hp w_request_2)].
    apply (served_more _ _ w_boot.2 _ w_surroundings w_put_request [Ok "world"] w_request_1.1.1 w_request_1.2);
      [apply served_none|reflexivity|vm_refl|exact (Hp w_request_1)]. }
  destruct (service_refines 10 w_open_cli w_read_file w_crashed w_booted w_boot.2 w_request_2.1.2 w_one_object
    eq_refl w_crashed_ok w_crashed_stored w_one_sizes w_boot_runs Hserved) as (objs & Hsteps & Hr & _).
  exact (ex_intro _ objs (conj Hsteps Hr)).
Defined.
End witnesses.
