(* ===== verification/DiskInvariant.v ===== *)
(** * The disk stays readable

    [disk_ok] is what a starting process needs to find: every file of the object
    store is named by a digest, every session file decodes to the session of its
    directory. Every operation keeps it whatever call fails, and at whatever call
    the process stops ([task_keeps]); so does the start ([start_keeps]). *)

From S2P Require Import Prelude RustStd BTree S3Error Externals Reference Types Target Config Http.
From S2P Require Import Chunked ChunkedProofs Checksum Upload Auth Hooks Admission Routing Requests.
From S2P Require Import StoreModel ReferenceJson FileSystem ObjectStore ObjectProofs ObjectSpec StoreTrait.
From S2P Require Import Middleware Assembly MultipartStore MultipartProofs MultipartSpec Concurrency PartDurability Recovery.
From S2P Require Import Streams AppState Main HeadObject GetObject PutObject MultipartHandlers MultipartAnswers Dispatch.
From S2P Require Import Footprint Confined.
From Stdlib Require Import ZArith Lia.
Local Open Scope Z_scope.

Section invariant.
Context `{HttpLib} `{CodecLib} `{CryptoLib} `{ChronoLib} `{UuidLib} `{JsonLib} `{AxumLib} `{XmlLib}.
Local Existing Instance mem_writer.
Implicit Types (n : nat) (fs : gmap path bytes) (ss : gmap str UploadSession).

Definition disk_ok fs : Prop :=
  laid_out "objects" ".data" fs ∧ laid_out "metadata" ".json" fs ∧ stored_ok fs.

Lemma disk_ok_sub fs fs' : fs' ⊆ fs → disk_ok fs → disk_ok fs'.
Proof. intros Hsub (Hd & Hj & Hs). split_and!; [by eapply laid_out_same..|by eapply stored_ok_subseteq]. Qed.

(** ** Files that may be written without harm *)

Definition writable (p : path) : Prop := ∀ fs c, disk_ok fs → disk_ok (<[p := c]> fs).

Lemma laid_out_insert top suffix fs p c :
  (head p = Some top → ∃ d, p = sharded top suffix d ∧ 2 ≤ len d ∧ utf8_valid (d ++ suffix) = true) →
  laid_out top suffix fs → laid_out top suffix (<[p := c]> fs).
Proof. intros Hp Hl q c' [[<- _]|[_ Hq]]%lookup_insert_Some; [exact Hp|by apply (Hl q c')]. Qed.

Definition session_file (p : path) : Prop := ∃ d, p = ["multipart"; d; "session.json"].

Lemma writable_ok p :
  (head p = Some "objects" → ∃ d, p = sharded "objects" ".data" d ∧ 2 ≤ len d ∧ utf8_valid (d ++ ".data") = true) →
  (head p = Some "metadata" → ∃ d, p = sharded "metadata" ".json" d ∧ 2 ≤ len d ∧ utf8_valid (d ++ ".json") = true) →
  ¬ session_file p → writable p.
Proof.
  intros Ho Hm Hs fs c (Hd & Hj & Hst). split_and!; [by apply laid_out_insert..|].
  intros d j Hl. apply (Hst d j). rewrite lookup_insert_ne in Hl; [done|]. intros ->. apply Hs. by exists d.
Qed.

Lemma object_digest_ok b k (suffix : str) :
  is_ascii_str suffix = true →
  2 ≤ len (object_digest b k) ∧ utf8_valid (object_digest b k ++ suffix) = true.
Proof.
  intros Hs. rewrite object_digest_spec. split.
  - unfold len. rewrite hex_encode_length, sha256_length. lia.
  - rewrite utf8_valid_app_ascii; [by apply utf8_valid_ascii|].
    pose proof (hex_encode_lower (sh_hash Sha256 (bucket_str b ++ "000"%char :: key_str k))) as Hl. unfold is_ascii_str.
    rewrite forallb_forall in Hl |- *. intros x Hx%Hl. unfold is_ascii_digit, in_range in *. lia.
Qed.

Lemma writable_data b k : writable (object_path b k).
Proof. apply writable_ok; [|done|by intros [d Hd]]. intros _. exists (object_digest b k). split; [done|by apply object_digest_ok]. Qed.
Lemma writable_json b k : writable (metadata_path b k).
Proof. apply writable_ok; [done| |by intros [d Hd]]. intros _. exists (object_digest b k). split; [done|by apply object_digest_ok]. Qed.
Lemma writable_tmp p : in_tmp p → writable p.
Proof. unfold in_tmp. intros Hp. apply writable_ok; [congruence..|]. by intros [d ->]. Qed.
Lemma writable_upload id name : (12 < length name)%nat → writable (upload_dir id ++ [name]).
Proof. intros Hl. apply writable_ok; [done..|]. intros [d Hd]. injection Hd as _ ->. simpl in Hl. lia. Qed.
Lemma writable_part id p : writable (part_path id p).
Proof. apply writable_ok; [done..|]. by intros [d Hd]. Qed.
Lemma writable_part_tmp id p u suffix : writable (part_tmp id p u suffix).
Proof. apply writable_upload. rewrite !length_app, uuid_to_string_length. simpl. lia. Qed.

(** ** Code that keeps it *)

Definition keeps {E A} (m : ioE E A) : Prop := ∀ n fs ss, disk_ok fs → wp m n fs ss (λ _ _ fs' _, disk_ok fs').

Section rules.
Context {E F A B : Type}.
#[local] Transparent io_step io_map.

Lemma keeps_ret (a : A) : keeps (mret a : ioE E A).
Proof. intros n fs ss Hok. by apply wp_ret. Qed.
Lemma keeps_throw (e : E) : keeps (throw e : ioE E A).
Proof. intros n fs ss Hok. by apply wp_throw. Qed.
Lemma keeps_lift (r : result E A) : keeps (lift r).
Proof. intros n fs ss Hok. by apply wp_lift. Qed.
Lemma keeps_bind (m : ioE E A) (f : A → ioE E B) : keeps m → (∀ a, keeps (f a)) → keeps (m ≫= f).
Proof.
  intros Hm Hf n fs ss Hok. apply wp_bind. eapply wp_mono; [by apply Hm|]. intros [a|e] n' fs' ss' Hok'; [by apply Hf|done].
Qed.
Lemma keeps_io_map (g : result E A → result F B) (m : ioE E A) : keeps m → keeps (io_map g m).
Proof. intros Hm n fs ss Hok. by apply wp_io_map, Hm. Qed.
(** Steps on the session table. *)
Lemma keeps_locked (l m : ioE E A) : l = locked m → (∀ w, files (run l w).2 = files w) → keeps l.
Proof. intros -> HR n fs ss Hok fl Hn. specialize (HR (mkWorld fs ss fl)). simpl in HR |- *. destruct (run m _). simpl in *. by rewrite HR. Qed.
End rules.
Lemma keeps_get_sessions {E} : keeps (get_sessions : ioE E _).
Proof. intros n fs ss Hok. by apply wp_get_sessions. Qed.
Lemma keeps_put_sessions {E} ss : keeps (put_sessions ss : ioE E _).
Proof. intros n fs ss' Hok. by apply wp_put_sessions. Qed.

Lemma keeps_call {C} (ok : gmap path bytes → result IoError C * gmap path bytes) failed :
  (∀ fs, disk_ok fs → disk_ok (ok fs).2) → (∀ f fs, disk_ok fs → disk_ok (failed f fs)) → keeps (call ok failed).
Proof. intros Hok Hf n fs ss Hd. apply wp_call; [by apply Hok|]. intros f n' _. by apply Hf. Qed.
Lemma keeps_quiet {C} (r : gmap path bytes → result IoError C) : keeps (call (λ fs, (r fs, fs)) unchanged).
Proof. by apply keeps_call. Qed.

Lemma disk_ok_delete fs p : disk_ok fs → disk_ok (delete p fs).
Proof. apply disk_ok_sub, delete_subseteq. Qed.

(** By cases on what the call finds. *)
Ltac keeps_call :=
  apply keeps_call; [intros fs Hd|intros f fs Hd]; simpl; repeat case_match; simplify_eq/=; eauto using disk_ok_delete.

Lemma keeps_create p : writable p → keeps (fs_create p).
Proof. intros Hp. keeps_call. Qed.
Lemma keeps_write p c : writable p → keeps (fs_write p c).
Proof. intros Hp. keeps_call. Qed.
Lemma keeps_append p c : writable p → keeps (fs_append p c).
Proof. intros Hp. keeps_call. Qed.
Lemma keeps_rename a b : writable b → keeps (fs_rename a b).
Proof. intros Hb. keeps_call. Qed.
Lemma keeps_hard_link a b : writable b → keeps (fs_hard_link a b).
Proof. intros Hb. keeps_call. Qed.
Lemma keeps_remove p : keeps (fs_remove_file p).
Proof. keeps_call. Qed.
Lemma keeps_remove_dir_all p : keeps (fs_remove_dir_all p).
Proof. apply keeps_call; intros; by eapply disk_ok_sub; [apply map_filter_subseteq|]. Qed.

Lemma keeps_io_for {A : Type} (f : A → io ()) l : (∀ a, keeps (f a)) → keeps (io_for f l).
Proof. intros Hf. induction l as [|a l IH]; [apply keeps_ret|]. apply keeps_bind; [apply Hf|by intros _]. Qed.

Create HintDb keeps.
#[local] Hint Resolve keeps_ret keeps_throw keeps_lift keeps_get_sessions keeps_put_sessions keeps_quiet keeps_create
  keeps_write keeps_append keeps_rename keeps_hard_link keeps_remove keeps_remove_dir_all : keeps.
#[local] Hint Resolve writable_data writable_json writable_part writable_part_tmp : keeps.
#[local] Hint Extern 1 (writable (tmp_file _ _)) => by apply writable_tmp : keeps.
Ltac keeps_steps :=
  repeat (intros; first
    [ solve [eauto with keeps] | apply keeps_bind | apply keeps_io_map | apply keeps_io_for
    | match goal with |- keeps (match ?x with _ => _ end) => destruct x end ]).

Lemma keeps_create_parent_dir p : keeps (create_parent_dir p).
Proof. unfold create_parent_dir, fs_create_dir_all. keeps_steps. Qed.
Lemma keeps_remove_if_exists p : keeps (remove_file_if_exists p).
Proof. unfold remove_file_if_exists, attempt. keeps_steps. Qed.
Lemma keeps_backup p b : writable b → keeps (backup_existing_file p b).
Proof. intros Hb. unfold backup_existing_file, attempt. keeps_steps. Qed.
#[local] Hint Resolve keeps_create_parent_dir keeps_remove_if_exists keeps_backup : keeps.
Lemma keeps_remove_backup p had : keeps (remove_backup_file p had).
Proof. unfold remove_backup_file. keeps_steps. Qed.
Lemma keeps_rollback p b had : writable p → keeps (rollback_published_file p b had).
Proof. intros Hp. unfold rollback_published_file, ignore. keeps_steps. Qed.
#[local] Hint Resolve keeps_remove_backup keeps_rollback : keeps.
Lemma keeps_drop_guard {E A} p (m : ioE E A) : keeps m → keeps (drop_guard p m).
Proof. intros Hm. unfold drop_guard, attempt, ignore. keeps_steps. Qed.

(** ** The stores *)

Lemma keeps_create_temp u : keeps (create_temp_object u).
Proof. unfold create_temp_object. keeps_steps. Qed.
Lemma keeps_commit_staged st md : keeps (commit_staged_object st md).
Proof. unfold commit_staged_object, publish, attempt, ignore. keeps_steps. Qed.
Lemma keeps_head_object b k : keeps (head_object b k).
Proof. unfold head_object, attempt, fs_read, fs_metadata. keeps_steps. Qed.
#[local] Hint Resolve keeps_create_temp keeps_commit_staged keeps_head_object : keeps.
Lemma keeps_open_object b k : keeps (open_object b k).
Proof. unfold open_object, attempt, fs_read. keeps_steps. Qed.
Lemma keeps_delete_object b k : keeps (delete_object b k).
Proof. unfold delete_object, attempt. keeps_steps. Qed.
Lemma keeps_summarize_file p size : keeps (summarize_file p size).
Proof. unfold summarize_file, attempt, fs_read. keeps_steps. Qed.
#[local] Hint Resolve keeps_open_object keeps_delete_object keeps_summarize_file : keeps.

(** A session file is written as a whole, under the id of its session. *)
Lemma keeps_persist u s : keeps (persist_session u s).
Proof.
  intros n fs ss Hok. apply wp_persist_session. intros r n' fs' (_ & Hf & Hr). set (id := us_upload_id s) in *.
  assert (writable (session_tmp id u)) as Htmp.
  { apply writable_upload. rewrite !length_app, uuid_to_string_length. simpl. lia. }
  assert (∀ q, q ≠ session_path id → q ≠ session_tmp id u → fs' !! q = fs !! q) as Hq by auto.
  destruct Hok as (Hd & Hj & Hst). split_and!.
  1-2: intros q c Hl Hh; rewrite Hq in Hl by (by intros ->).
  1: by apply (Hd q c).
  1: by apply (Hj q c).
  intros d j Hl. destruct (decide (d = upload_id_str id)) as [->|Hne].
  - change (fs' !! session_path id = Some j) in Hl. destruct r as [[]|e].
    + destruct Hr as (j' & Hjs & Hl'). rewrite Hl in Hl'. injection Hl' as <-.
      exists s. split; [by apply session_json_roundtrip|done].
    + destruct Hr as [Hsame _]. apply (Hst (upload_id_str id) j). by rewrite Hsame in Hl.
  - apply (Hst d j). rewrite <- Hq; [done|by intros [= ->]|]. intros Ht. injection Ht as _ Hx.
    apply (f_equal length) in Hx. rewrite !length_app, uuid_to_string_length in Hx. simpl in Hx. lia.
Qed.

Lemma keeps_insert_session s id : keeps (insert_session s id).
Proof. eapply keeps_locked; [reflexivity|]. intros w. by rewrite run_insert_session. Qed.
Lemma keeps_remove_session id : keeps (remove_session id).
Proof. eapply keeps_locked; [reflexivity|]. intros w. by rewrite run_remove_session. Qed.
Lemma keeps_modify_session id f : keeps (modify_session id f).
Proof.
  eapply keeps_locked; [reflexivity|]. intros w. rewrite run_modify_session. by destruct (sessions w !! upload_id_str id).
Qed.
Lemma keeps_record_part id part : keeps (record_part id part).
Proof.
  eapply keeps_locked; [reflexivity|]. intros w. rewrite run_record_part.
  destruct (sessions w !! upload_id_str id) as [s|]; [|done]. by destruct (is_open s).
Qed.
Lemma keeps_mark_completing id : keeps (mark_completing id).
Proof.
  eapply keeps_locked; [reflexivity|]. intros w. rewrite run_mark_completing.
  destruct (sessions w !! upload_id_str id) as [s|]; [|done]. by destruct (is_open s).
Qed.
#[local] Hint Resolve keeps_persist keeps_insert_session keeps_remove_session keeps_modify_session keeps_record_part
  keeps_mark_completing : keeps.
Lemma keeps_get_upload id : keeps (get_upload id).
Proof. unfold get_upload. keeps_steps. Qed.
#[local] Hint Resolve keeps_get_upload : keeps.
Lemma keeps_get_open_upload id : keeps (get_open_upload id).
Proof. unfold get_open_upload. keeps_steps. Qed.
#[local] Hint Resolve keeps_get_open_upload : keeps.

Lemma keeps_create_upload fresh u now b k owner md : keeps (create_upload fresh u now b k owner md).
Proof. unfold create_upload, fs_create_dir_all. keeps_steps. Qed.
Lemma keeps_create_temp_part u id p : keeps (create_temp_part u id p).
Proof. unfold create_temp_part. keeps_steps. Qed.
Lemma keeps_commit_part u v now id p temp part : keeps (commit_part u v now id p temp part).
Proof.
  unfold commit_part, publish_part, rollback_part, ignore_remove_opt, attempt, ignore.
  apply keeps_bind; [apply keeps_get_open_upload|intros s].
  destruct (btree_get _ _); cbn [fmap option_fmap option_map]; keeps_steps.
Qed.
Lemma keeps_abort_upload u id : keeps (abort_upload u id).
Proof. unfold abort_upload, attempt. keeps_steps. Qed.

Lemma keeps_copy_chunks st chunks cs : writable (so_path st) → keeps (copy_chunks st chunks cs).
Proof. intros Hp. revert cs. induction chunks as [|c chunks IH]; intros cs; cbn [copy_chunks]; keeps_steps. Qed.
Lemma keeps_copy_parts req st parts cs md5 total : writable (so_path st) → keeps (copy_parts req st parts cs md5 total).
Proof.
  intros Hp. revert cs md5 total. pose proof (λ chunks cs, keeps_copy_chunks st chunks cs Hp) as Hch.
  induction parts as [|part parts IH]; intros cs md5 total; [apply keeps_ret|]. cbn [copy_parts]. unfold discarding, fs_read.
  apply keeps_bind; [by apply keeps_drop_guard, keeps_quiet|intros content].
  apply keeps_bind; [apply keeps_drop_guard, Hch|intros cs']. cbv zeta.
  destruct (_ >? _); [apply keeps_drop_guard, keeps_throw|apply IH].
Qed.

(** What follows the creation of a temporary file knows its path. *)
Lemma keeps_created {E B} (g : StoreError → E) u (f : StagedObject → ioE E B) :
  keeps (f (mkStaged u (tmp_file u ".part"))) → keeps (map_io_err g (create_temp_object u) ≫= f).
Proof.
  intros Hf n fs ss Hok. apply wp_bind, wp_map_io_err, wp_bind, wp_call; simpl.
  - by apply wp_ret, Hf, writable_tmp.
  - done.
Qed.
Lemma keeps_created_part {E B} (g : StoreError → E) u id p (f : path → ioE E B) :
  (∀ temp, writable temp → keeps (f temp)) → keeps (map_io_err g (create_temp_part u id p) ≫= f).
Proof.
  intros Hf n fs ss Hok. apply wp_bind, wp_map_io_err, wp_bind. eapply wp_mono; [by apply keeps_get_open_upload|].
  intros [s|e] n1 fs1 ss1 Hok1; [|done]. apply wp_bind. eapply wp_mono; [by apply keeps_create_parent_dir|].
  intros [[]|e] n2 fs2 ss2 Hok2; [|done]. apply wp_bind, wp_call; simpl; [|done].
  apply wp_ret, Hf; by apply writable_part_tmp.
Qed.

Lemma keeps_assemble ids now s req : cu_processors req = [] → keeps (assemble ids now s req).
Proof.
  intros Hnone. unfold assemble. rewrite Hnone. apply keeps_bind; [apply keeps_lift|intros parts].
  change (store_create_temp_object (ci_temp ids) (us_bucket s) (us_key s)) with (create_temp_object (ci_temp ids)).
  intros n fs ss Hok. apply wp_bind, wp_bind, wp_call; simpl; [apply wp_ret|done].
  set (temp := mkStaged _ _). assert (writable (so_path temp)) as Hw by by apply writable_tmp.
  pose proof (λ parts cs md5 total, keeps_copy_parts req temp parts cs md5 total Hw) as Hcp.
  assert (∀ (E A : Type) (m : ioE E A), keeps m → keeps (discarding temp m)) as Hdis by (intros; by apply keeps_drop_guard).
  match goal with |- wp ?m _ _ _ _ => enough (keeps m) as Hk by by apply Hk, Hw end.
  apply keeps_bind; [apply Hcp|intros [[cs md5] total]].
  apply keeps_bind; [apply Hdis, keeps_lift|intros _]. apply keeps_bind; [apply Hdis, keeps_quiet|intros _].
  apply keeps_bind; [by apply keeps_drop_guard, keeps_quiet|intros _]. cbv zeta.
  apply keeps_bind; [apply keeps_io_map, keeps_ret|intros st].
  apply keeps_bind; [apply keeps_drop_guard, keeps_io_map, keeps_summarize_file|intros fb].
  destruct (_ >? _); [apply keeps_drop_guard, keeps_throw|apply keeps_ret].
Qed.

Lemma keeps_retire ids id : keeps (retire_upload ids id).
Proof. unfold retire_upload, mark_upload_state, ignore. keeps_steps. Qed.
Lemma keeps_complete_upload ids now req : cu_processors req = [] → keeps (complete_upload ids now req).
Proof.
  intros Hnone. pose proof (keeps_retire ids). unfold complete_upload, begin_completion, restore_open_upload, mark_upload_state, attempt, ignore.
  apply keeps_bind; [by keeps_steps|intros s]. apply keeps_bind; [|by keeps_steps].
  unfold complete_upload_after_transition. apply keeps_io_map, keeps_bind; [by apply keeps_assemble|intros [st md]].
  apply keeps_bind; [apply keeps_commit_staged|by keeps_steps].
Qed.

(** ** The handlers *)

Lemma keeps_receive_into env p headers body wt signing max :
  writable p → keeps (receive_into env p headers body wt signing max).
Proof. intros Hp. unfold receive_into, map_io_err, ignore. keeps_steps. Qed.

Lemma keeps_put env s r body id ctx : st_upload_processors s = [] → keeps (handle_put_object env s r body id ctx).
Proof.
  intros Hnone. unfold handle_put_object. apply keeps_bind; [apply keeps_lift|intros [t um]].
  apply keeps_created. set (temp := mkStaged _ _). assert (writable (so_path temp)) as Hw by by apply writable_tmp.
  apply keeps_bind; [by apply keeps_drop_guard, keeps_receive_into|intros up].
  apply keeps_bind; [|intros md; apply keeps_lift]. unfold store_upload, numbered_processors. rewrite Hnone.
  cbn [imap process_staged_upload].
  apply keeps_bind; [by apply keeps_drop_guard, keeps_io_map, keeps_quiet|intros _]. cbv zeta.
  apply keeps_bind; [apply keeps_ret|intros st].
  apply keeps_bind; [apply keeps_drop_guard, keeps_summarize_file|intros fb].
  destruct (_ >? _); [apply keeps_drop_guard, keeps_throw|].
  apply keeps_bind; [apply keeps_io_map, keeps_commit_staged|intros; apply keeps_ret].
Qed.

Lemma keeps_validate_target s r ctx id : keeps (validate_upload_session_target s r ctx id).
Proof. unfold validate_upload_session_target, map_io_err. cbn [store_get_upload file_multipart_store]. keeps_steps. Qed.
#[local] Hint Resolve keeps_validate_target keeps_create_upload keeps_abort_upload : keeps.

Lemma keeps_part env s r body id u p ctx : keeps (handle_upload_part env s r body id u p ctx).
Proof.
  unfold handle_upload_part. do 2 (apply keeps_bind; [apply keeps_lift|intros _]).
  apply keeps_bind; [apply keeps_validate_target|intros session]. do 4 (apply keeps_bind; [apply keeps_lift|intros _]).
  apply keeps_created_part. intros temp Hw. unfold store_part.
  apply keeps_bind; [|intros; apply keeps_lift].
  apply keeps_bind; [by apply keeps_drop_guard, keeps_receive_into|intros up].
  apply keeps_bind; [by apply keeps_drop_guard, keeps_io_map, keeps_quiet|intros _].
  apply keeps_bind; [apply keeps_io_map, keeps_commit_part|intros; apply keeps_ret].
Qed.

(** Every request, whatever fails. *)
Lemma task_keeps s c :
  st_object_store s = file_object_store → st_multipart_store s = file_multipart_store → st_upload_processors s = [] →
  keeps (task s c).
Proof.
  intros Hos Hms Hnone. unfold task, run_operation. rewrite Hos, Hms.
  destruct (tk_operation c); cbn [dispatch_implemented_operation].
  - by apply keeps_put.
  - unfold handle_create_multipart_upload, map_io_err. cbn [store_create_upload file_multipart_store]. keeps_steps.
  - apply keeps_part.
  - unfold handle_complete_multipart_upload. apply keeps_bind; [apply keeps_validate_target|intros session].
    apply keeps_bind; [apply keeps_lift|intros _]. apply keeps_bind; [apply keeps_lift|intros [parts cr]].
    apply keeps_bind; [|intros; apply keeps_lift]. apply keeps_io_map, keeps_complete_upload.
    unfold store_completion, numbered_processors. by rewrite Hnone.
  - unfold handle_abort_multipart_upload, map_io_err. cbn [store_abort_upload file_multipart_store]. keeps_steps.
  - unfold handle_list_parts. keeps_steps.
  - apply keeps_lift.
  - unfold handle_head_object, map_io_err. cbn [store_head_object file_object_store]. keeps_steps.
  - unfold handle_get_object, map_io_err, fs_seek. cbn [store_open_object file_object_store]. keeps_steps.
  - unfold handle_delete_object, map_io_err. cbn [store_delete_object file_object_store]. keeps_steps.
Qed.

(** ** The start *)

Lemma keeps_new_object_store : keeps new_object_store.
Proof.
  unfold new_object_store, cleanup_stale_temp_files, cleanup_orphaned_object_files, cleanup_orphaned_metadata_files,
    cleanup_orphans, cleanup_orphan, fs_create_dir_all, fs_read_dir, fs_metadata, attempt. keeps_steps.
Qed.
Lemma keeps_new_multipart_store lifecycle now : keeps (new_multipart_store lifecycle now).
Proof.
  unfold new_multipart_store, load_sessions, load_session, cleanup_stale_part_files, remove_upload_dir_on_startup,
    fs_create_dir_all, fs_read_dir, fs_read, attempt, ignore. keeps_steps.
Qed.
#[local] Hint Resolve keeps_new_object_store keeps_new_multipart_store : keeps.

Lemma start_keeps `{!CredentialsJson} now cli read : keeps (start now cli read).
Proof. unfold start, new_app_state, from_builder, map_io_err. keeps_steps. Qed.
End invariant.
