(* ===== verification/CrashSafety.v ===== *)
(** * The service across crashes

    What a request can leave when any of its calls fail, up to all of them from
    some call on, which is a process that stops there: a disk on which every
    object is whole, as long as the request does not replace one
    ([crash_mixes_object] of [Recovery] shows what it leaves then). The next start
    finds exactly the whole objects, so that any number of lives of the server
    are steps of one map of objects ([service_survives_crashes]). *)

From S2P Require Import Prelude RustStd BTree S3Error Externals Reference Types Target Config Http.
From S2P Require Import Chunked ChunkedProofs Checksum Upload Auth Hooks Admission Routing Requests.
From S2P Require Import StoreModel ReferenceJson FileSystem ObjectStore ObjectProofs ObjectSpec StoreTrait Middleware.
From S2P Require Import Assembly MultipartStore MultipartProofs MultipartSpec Concurrency PartDurability Recovery.
From S2P Require Import Streams AppState Main HeadObject GetObject PutObject EndToEnd MultipartHandlers MultipartAnswers.
From S2P Require Import Dispatch Footprint Confined Service DiskInvariant.
From Stdlib Require Import ZArith Lia.
Local Open Scope Z_scope.

Section crash.
Context `{HttpLib} `{CodecLib} `{CryptoLib} `{ChronoLib} `{UuidLib} `{JsonLib} `{AxumLib} `{XmlLib}.
Local Existing Instance mem_writer.
Implicit Types (n : nat) (fs : gmap path bytes) (ss : gmap str UploadSession) (objs : objects).

(** ** Whole objects *)

(** The objects of [objs] are there, and of any other at most one file. *)
Definition whole_objects fs objs : Prop := ∀ d,
  match objs !! d with
  | Some o => holds fs d (Some o)
  | None => fs !! data_file d = None ∨ fs !! json_file d = None
  end.

Lemma refines_whole fs objs : refines fs objs → whole_objects fs objs.
Proof. intros [_ Hm] d. specialize (Hm d). destruct (objs !! d); [done|by right]. Qed.

(** Files outside the temporary ones, the uploads and the object [d] are as they
    were; [d] has no metadata, or is an object [o] allows. *)
Definition only_object fs (d : str) (o : ObjectMetadata * bytes → Prop) fs' : Prop :=
  (∀ q, ¬ in_tmp q → head q ≠ Some "multipart" → q ≠ data_file d → q ≠ json_file d → fs' !! q = fs !! q) ∧
  (fs !! json_file d = None → fs' !! json_file d = None ∨ ∃ x, o x ∧ holds fs' d (Some x)).

Lemma only_object_whole fs d o fs' objs :
  refines fs objs → objs !! d = None → only_object fs d o fs' →
  whole_objects fs' objs ∨ ∃ x, o x ∧ whole_objects fs' (<[d := x]> objs).
Proof.
  intros [_ Hm] Hnew [Hf Hd]. assert (∀ e, e ≠ d → holds fs' e (objs !! e)) as Hother.
  { intros e Hne. apply holds_frame with fs; [..|apply Hm]; apply Hf; try done; first [by intros ?%(inj data_file)|by intros ?%(inj json_file)]. }
  assert (∀ e, e ≠ d → match objs !! e with Some o => holds fs' e (Some o)
    | None => fs' !! data_file e = None ∨ fs' !! json_file e = None end) as Hrest.
  { intros e Hne. specialize (Hother e Hne). destruct (objs !! e); [done|by right]. }
  destruct Hd as [Hnone|(x & Hx & Hold)].
  - specialize (Hm d). by rewrite Hnew in Hm.
  - left. intros e. destruct (decide (e = d)) as [->|Hne]; [rewrite Hnew; by right|by apply Hrest].
  - right. exists x. split; [done|]. intros e. destruct (decide (e = d)) as [->|Hne].
    + by rewrite lookup_insert_eq.
    + rewrite lookup_insert_ne by done. by apply Hrest.
Qed.

Lemma only_object_refl fs d o fs' : same_objects fs fs' → only_object fs d o fs'.
Proof. intros Hs. split; [by intros q _ Hq _ _; apply Hs|]. intros Hj. left. by rewrite Hs. Qed.
Lemma only_object_before fs fs1 d o fs' : same_objects fs fs1 → only_object fs1 d o fs' → only_object fs d o fs'.
Proof. intros Hs [Hf Hd]. split; [by intros q Ht Hq ??; rewrite Hf, Hs|]. intros Hj. apply Hd. by rewrite Hs. Qed.
Lemma only_object_after fs d o fs1 fs' : only_object fs d o fs1 → same_objects fs1 fs' → only_object fs d o fs'.
Proof.
  intros [Hf Hd] Hs. split; [by intros q Ht Hq ??; rewrite Hs, Hf|]. intros Hj. rewrite Hs by done.
  destruct (Hd Hj) as [|(x & Hx & Hh)]; [by left|]. right. exists x. split; [done|].
  apply holds_frame with fs1; [by apply Hs..|done].
Qed.

(** ** A completion that may fail anywhere *)

(** An object of these names, with the size of its bytes. *)
Definition object_of (b : BucketName) (k : ObjectKey) (x : ObjectMetadata * bytes) : Prop :=
  om_bucket x.1 = b ∧ om_key x.1 = k ∧ om_size x.1 = Z.min (len x.2) u64_max.

Section completion.
Variables (names : Names).

(** Work on the temporary file [part] alone. *)
Definition private (part : path) fs ss fs' ss' : Prop := ss' = ss ∧ ∀ q, q ≠ part → fs' !! q = fs !! q.

Lemma wp_private {E A B} part (m : ioE E A) (f : A → ioE E B) n fs0 fs ss Q :
  table_named names ss → confined names (λ q, q = part) (λ _, False) m any → private part fs0 ss fs ss →
  (∀ a n' fs', private part fs0 ss fs' ss → wp (f a) n' fs' ss Q) →
  (∀ e n' fs', private part fs0 ss fs' ss → Q (Err e) n' fs' ss) → wp (m ≫= f) n fs ss Q.
Proof.
  intros Hnamed Hm [_ Hpriv] HOk HErr. apply wp_bind. eapply wp_mono; [by apply wp_confined|].
  intros r n' fs' ss' (_ & _ & Hq & Hk). assert (ss' = ss) as -> by (apply map_eq; intros k; exact (Hk k id)).
  assert (private part fs0 ss fs' ss) as Hp by (split; [done|]; intros q Hne; rewrite Hq by done; by apply Hpriv).
  destruct r; auto.
Qed.

Lemma wp_assemble_any ids now s req n fs ss :
  table_named names ss → cu_processors req = [] → 0 < upload_summary_buffer_size (cu_io_tuning req) →
  let part := tmp_file (ci_temp ids) ".part" in
  wp (assemble ids now s req) n fs ss (λ r _ fs' ss', private part fs ss fs' ss' ∧
    ∀ st md, r = Ok (st, md) → st = mkStaged (ci_temp ids) part ∧ ∃ c, fs' !! part = Some c ∧
      object_of (us_bucket s) (us_key s) (md, c)).
Proof.
  intros Hnamed Hnone Hbuf part. unfold assemble. rewrite Hnone.
  assert (∀ (e : StoreError) n' fs', private part fs ss fs' ss →
    private part fs ss fs' ss ∧ ∀ st md, Err e = Ok (st, md) → st = mkStaged (ci_temp ids) part ∧
      ∃ c, fs' !! part = Some c ∧ object_of (us_bucket s) (us_key s) (md, c)) as Herr by done.
  apply wp_bind, wp_lift. destruct (validate_parts _ _ _ _ _) as [parts|e]; [|by apply Herr].
  apply wp_bind, wp_bind, wp_call; simpl; [apply wp_ret|by intros f n' ->; apply Herr].
  fold part. set (st := mkStaged (ci_temp ids) part). change part with (so_path st).
  assert (private part fs ss (<[part := []]> fs) ss) as Hp by (split; [done|]; intros q Hq; by rewrite lookup_insert_ne).
  assert (∀ (E A : Type) (m : ioE E A), confined names (λ q, q = part) (λ _, False) m any →
    confined names (λ q, q = part) (λ _, False) (drop_guard (so_path st) m) any) as Hguard.
  { intros E A m Hm. by apply confined_drop_guard. }
  eapply (wp_private part); [done|by apply confined_copy_parts|exact Hp| |by apply Herr].
  intros [[cs md5] total] n1 fs1 Hp1.
  eapply (wp_private part); [done|by apply Hguard|exact Hp1| |by apply Herr]. intros _ n2 fs2 Hp2.
  eapply (wp_private part); [done|by apply Hguard, confined_quiet|exact Hp2| |by apply Herr]. intros _ n3 fs3 Hp3.
  eapply (wp_private part); [done|by apply Hguard, confined_quiet|exact Hp3| |by apply Herr]. intros _ n4 fs4 Hp4.
  cbv zeta. cbn [process_staged_upload]. apply wp_bind, wp_map_io_err, wp_ret. cbn [map_err].
  assert (∀ fs', (∀ q, q ≠ part → fs' !! q = fs4 !! q) → private part fs ss fs' ss) as Hlast.
  { intros fs' Hf. split; [done|]. intros q Hq. rewrite Hf by done. by apply Hp4. }
  apply wp_bind, wp_drop_guard_any, wp_map_io_err, wp_bind, wp_attempt, wp_call; simpl.
  2: { intros f n' ->. apply wp_lift. intros n'' fs'' _ Hf _. by apply Herr, Hlast. }
  destruct (fs4 !! part) as [c|] eqn:Hc; simpl; apply wp_lift.
  2: { intros n'' fs'' _ Hf _. by apply Herr, Hlast. }
  destruct (file_chunks_spec (upload_summary_buffer_size (cu_io_tuning req)) c Hbuf) as [Hcat Hne].
  rewrite staged_summary by done. rewrite Hcat. cbn [map_err fu_size content_length_get].
  destruct (Z.min _ _ >? _); [apply wp_drop_guard_any, wp_throw; intros n'' fs'' _ Hf _; by apply Herr, Hlast|].
  apply wp_ret. split; [by apply Hlast|]. intros ? ? [= <- <-]. split; [done|]. by exists c.
Qed.

Lemma wp_commit_whole st md c n fs ss :
  staged_ok st → fs !! so_path st = Some c → object_of (om_bucket md) (om_key md) (md, c) →
  Forall (λ q, fs !! q = None) (drop 1 (tmp_files (so_temp_id st))) →
  wp (commit_staged_object st md) n fs ss (λ _ _ fs' ss',
    ss' = ss ∧ only_object fs (target_digest md) (object_of (om_bucket md) (om_key md)) fs').
Proof.
  intros Hst Hc Ho Hfresh. eapply wp_mono; [by apply wp_commit_staged_object|].
  intros r n' fs' ss' (-> & _ & Hf & _ & Hr). split; [done|]. split.
  { intros q Ht _ Hd Hj. apply Hf; [|done..]. unfold tmp_files. intros (suffix & -> & _)%list_elem_of_fmap. by apply Ht. }
  intros Hnone. assert (fs' !! json_file (target_digest md) = None ∨ target_published st md fs fs') as [|Hp];
    [destruct r; [by right|by apply Hr]|by left|]. right.
  destruct Hp as (c' & j & Hc' & Hj & Hd & Hm). rewrite Hc in Hc'. injection Hc' as <-.
  exists (md, c). split; [done|]. split; [done|]. exists j. split; [done|]. by apply object_json_roundtrip.
Qed.

Lemma wp_complete_any ids now req b k n fs ss :
  (∀ name, fs !! ["tmp"; name] = None) → table_named names ss → names (upload_id_str (cu_upload_id req)) = (b, k) →
  cu_processors req = [] → 0 < upload_summary_buffer_size (cu_io_tuning req) →
  wp (complete_upload ids now req) n fs ss (λ _ _ fs' _, only_object fs (object_digest b k) (object_of b k) fs').
Proof.
  intros Htmp Hnamed Hname Hnone Hbuf. set (u := cu_upload_id req) in *.
  set (P := λ q, under (upload_dir u) q = true). set (T := λ x, x = upload_id_str u).
  assert (∀ fs fs', (∀ q, ¬ P q → fs' !! q = fs !! q) → same_objects fs fs') as Hsame.
  { intros fs1 fs2 Hf q Hq. apply Hf. by intros Hu%under_upload. }
  unfold complete_upload. fold u. apply wp_bind. eapply wp_mono; [by apply (wp_confined names P T), Hnamed; apply confined_begin|].
  intros [s|e] n1 fs1 ss1 (Hs & Hnamed1 & Hf1%Hsame & _); [|by apply only_object_refl].
  destruct (Hs s eq_refl) as [_ Hn]. rewrite Hname in Hn. injection Hn as Hb Hk.
  apply wp_bind, wp_attempt.
  apply wp_mono with (λ _ _ fs' ss', only_object fs (object_digest b k) (object_of b k) fs' ∧ table_named names ss').
  2: { intros [md|e] n2 fs2 ss2 [Ho Hnamed2]; [by apply wp_ret|]. apply wp_bind.
       eapply wp_mono; [by apply (wp_confined names P T), Hnamed2; apply confined_restore|].
       intros r n3 fs3 ss3 (_ & _ & Hf3%Hsame & _). pose proof (only_object_after _ _ _ _ _ Ho Hf3).
       destruct r; [by apply wp_throw|done]. }
  unfold complete_upload_after_transition. fold u. apply wp_bind.
  eapply wp_mono; [by apply wp_assemble_any|]. intros [[st md]|e] n2 fs2 ss2 [[-> Hf2] Hst].
  2: { split; [|done]. apply (only_object_before _ _ _ _ _ Hf1). split.
       - intros q Hq _ _ _. apply Hf2. by intros ->.
       - intros Hj. left. by rewrite Hf2. }
  destruct (Hst st md eq_refl) as (-> & c & Hc & Ho). set (st := mkStaged _ _).
  pose proof Ho as (Hmb & Hmk & _). cbn [fst] in Hmb, Hmk. rewrite Hb in Hmb. rewrite Hk in Hmk. rewrite Hb, Hk in Ho.
  apply wp_bind. eapply wp_mono; [apply (wp_commit_whole st md c); [done|done|by rewrite Hmb, Hmk|]|].
  { assert (∀ suffix, suffix ≠ ".part" → fs2 !! tmp_file (ci_temp ids) suffix = None) as Hno.
    { intros suffix Hne. rewrite Hf2 by (by intros [_ ?]%tmp_file_inj). rewrite Hf1 by done. apply Htmp. }
    repeat constructor; by apply Hno. }
  rewrite Hmb, Hmk. intros r n3 fs3 ss3 [-> Honly].
  assert (only_object fs (object_digest b k) (object_of b k) fs3) as Ho3.
  { apply (only_object_before _ _ _ _ _ Hf1). destruct Honly as [Hq Hd]. unfold target_digest in Hq, Hd. rewrite Hmb, Hmk in Hq, Hd.
    assert (∀ q, ¬ in_tmp q → fs2 !! q = fs1 !! q) as Hf2' by (intros q Hnot; apply Hf2; intros ->; by apply Hnot).
    split; [by intros q Ht ???; rewrite Hq, Hf2'|]. intros Hj. apply Hd. by rewrite Hf2'. }
  destruct r as [[]|e]; [|done].
  apply wp_bind. eapply wp_mono; [by apply (wp_confined names P T), Hnamed1; apply confined_retire|].
  intros r n4 fs4 ss4 (_ & Hnamed4 & Hf4%Hsame & _). pose proof (only_object_after _ _ _ _ _ Ho3 Hf4).
  destruct r; [by apply wp_ret|done].
Qed.
End completion.

(** ** One request that may fail or stop anywhere *)

Section request.
Variables (s : AppState) (c : Task).
Hypothesis Hos : st_object_store s = file_object_store.
Hypothesis Hms : st_multipart_store s = file_multipart_store.
Hypothesis Hprocs : st_upload_processors s = [].
Hypothesis Hbuf : 0 < upload_summary_buffer_size (st_io_tuning s).

(** An upload or a completion is for a name that is not in use. *)
Definition replaces_nothing objs : Prop := ∀ t,
  stages_objects (tk_operation c) = true → resolve_request_target s (tk_request c) = Ok t →
  objs !! object_digest (target_bucket t) (target_key t) = None.

(** What is left: the objects after a step, whole. *)
Definition stopped objs fs' : Prop := ∃ objs',
  object_step s (tk_request c) (tk_ctx c) (tk_operation c) objs objs' ∧ sizes_ok objs' ∧ whole_objects fs' objs'.

Lemma stopped_same objs fs fs' : refines fs objs → sizes_ok objs → same_objects fs fs' → stopped objs fs'.
Proof.
  intros Hr Hs Hf. exists objs. split_and!; [constructor|done|]. eapply refines_whole, refines_same_objects; done.
Qed.

Lemma stopped_only objs fs fs' t :
  refines fs objs → sizes_ok objs → replaces_nothing objs → stages_objects (tk_operation c) = true →
  resolve_request_target s (tk_request c) = Ok t →
  permitted s (tk_ctx c) (target_bucket t) (Some (target_key t)) (operation_action (tk_operation c)) →
  only_object fs (object_digest (target_bucket t) (target_key t)) (object_of (target_bucket t) (target_key t)) fs' →
  stopped objs fs'.
Proof.
  intros Hr Hs Hnew Hst Ht Hp Ho. specialize (Hnew t Hst Ht).
  destruct (only_object_whole _ _ _ _ _ Hr Hnew Ho) as [Hw|([md data] & (Hb & Hk & Hsz) & Hw)].
  - exists objs. by split_and!; [constructor|..].
  - assert (effect (tk_operation c) t objs (<[object_digest (target_bucket t) (target_key t) := (md, data)]> objs)) as He.
    { destruct (tk_operation c); try done; by exists md, data. }
    eexists. split_and!; [by apply changed with t|by eapply effect_sizes|done].
Qed.

Lemma wp_stop_put n fs ss objs :
  tk_operation c = PutObject → refines fs objs → sizes_ok objs → replaces_nothing objs →
  wp (handle_put_object (tk_env c) s (tk_request c) (tk_body c) (tk_id c) (tk_ctx c)) n fs ss (λ _ _ fs' _, stopped objs fs').
Proof.
  intros Hop Hr Hs Hnew. destruct (put_checks (tk_env c) s (tk_request c) (tk_id c) (tk_ctx c)) as [[t um]|e] eqn:Hck.
  2: { unfold handle_put_object. rewrite Hck. apply wp_bind, wp_lift. by apply stopped_same with fs. }
  destruct (put_checks_ok _ _ _ _ _ _ _ Hck) as [Ht Hp]. eapply wp_mono; [by apply (wp_put_object_any _ _ _ _ _ _ _ _ _ objs t um)|].
  intros r n' fs' ss' (_ & Hf & Hd & _). apply (stopped_only objs fs fs' t); [done..|by rewrite Hop|done|by rewrite Hop|].
  split; [by intros q Hq _; apply Hf|]. intros _. destruct Hd as [|(up & data & _ & [|(md & ? & ? & ? & _ & Hh)])].
  - apply (Hnew t); [by rewrite Hop|done].
  - by left.
  - by left.
  - right. by exists (md, data).
Qed.

Lemma wp_stop_complete u n fs ss objs :
  tk_operation c = CompleteMultipartUpload u → service_ok objs fs ss → replaces_nothing objs →
  wp (handle_complete_multipart_upload (tk_env c) s (tk_request c) (tk_body c) (tk_id c) u (tk_ctx c)) n fs ss
    (λ _ _ fs' _, stopped objs fs').
Proof.
  intros Hop (Hr & Hs & Ht) Hnew. pose proof (stopped_same objs fs fs Hr Hs (λ _ _, eq_refl)) as Hsame.
  unfold handle_complete_multipart_upload. cbv zeta.
  apply wp_bind, wp_validate_target; [intros session [Hl (_ & (t & Hres & Hb & Hk) & _)]|done].
  apply wp_bind, wp_lift. destruct (authorize_request _ _ _ _ _) as [[]|] eqn:Ha; [|done].
  apply authorize_request_ok in Ha. rewrite <- Hb, <- Hk in Ha.
  apply wp_bind, wp_lift. destruct (completion_request _ _) as [[parts cr]|]; [|done].
  set (names := λ k, default (mkBucketName [], mkObjectKey []) ((λ x, (us_bucket x, us_key x)) <$> ss !! k)).
  assert (table_named names ss) as Hnamed.
  { intros k x Hx. split; [by destruct (Ht k x Hx)|]. unfold names. by rewrite Hx. }
  apply wp_bind, wp_map_io_err. cbn [store_complete_upload file_multipart_store].
  eapply wp_mono; [apply (wp_complete_any names) with (b := target_bucket t) (k := target_key t); [apply Hr|done|..]|].
  - cbn [cu_upload_id store_completion]. unfold names. rewrite Hl. simpl. by rewrite Hb, Hk.
  - cbn [cu_processors store_completion]. unfold numbered_processors. by rewrite Hprocs.
  - done.
  - intros res n' fs' ss' Ho. assert (stopped objs fs') as Hst by
      (apply (stopped_only objs fs fs' t); [done|done|done|by rewrite Hop|done|by rewrite Hop|done]).
    destruct res; [by apply wp_lift|done].
Qed.

(** Stopped anywhere, a request leaves whole objects: those there were, or those after its step. *)
Lemma task_stopped n fs ss objs :
  service_ok objs fs ss → ss !! upload_id_str (new_upload_id (env_uuid (tk_env c) 0)) = None → replaces_nothing objs →
  wp (task s c) n fs ss (λ _ _ fs' _, stopped objs fs').
Proof.
  intros Hok Hfresh Hnew. pose proof Hok as (Hr & Hs & Ht).
  destruct (stages_objects (tk_operation c) || changes_objects (tk_operation c)) eqn:Hch.
  - unfold task, run_operation. rewrite Hos, Hms.
    destruct (tk_operation c) eqn:Hop; try done; cbn [dispatch_implemented_operation].
    + by apply wp_stop_put.
    + by apply wp_stop_complete with (ss := ss).
    + eapply wp_mono; [by apply wp_delete_steps|]. intros _ _ fs' _ [_ [Hr'|(t & Hres & Hp & Hr')]].
      * exists objs. rewrite Hop. split_and!; [constructor|done|by apply refines_whole].
      * assert (effect DeleteObject t objs (delete (object_digest (target_bucket t) (target_key t)) objs)) as He by done.
        eexists. rewrite Hop. split_and!; [by apply changed with t|by eapply effect_sizes|by apply refines_whole].
  - apply orb_false_iff in Hch as [Hst Hch]. destruct (table_names s c ss Ht Hfresh) as (names & Hnames & Hnamed).
    assert (processors_confined (st_upload_processors s)) as Hpc by (rewrite Hprocs; constructor).
    pose proof (task_confined (λ t, t) names s c Hos Hms Hpc Hnames) as Hc.
    eapply wp_mono; [by apply (wp_confined _ _ _ _ _ _ _ _ Hc)|]. intros r n' fs' ss' (_ & _ & Hf & _).
    apply stopped_same with fs; [done..|]. intros q Hq. apply Hf. intros Hm. by apply Hq, (may_change_multipart s c).
Qed.
End request.

(** ** Any number of lives *)

Context `{!CredentialsJson}.

(** An upload or a completion is for a name without metadata on the disk. *)
Definition names_unused (sr : Surroundings) (s : AppState) (r : Request) fs : Prop := ∀ op ctx lease t,
  admitted sr s r op ctx lease → stages_objects op = true → resolve_request_target s r = Ok t →
  fs !! metadata_path (target_bucket t) (target_key t) = None.

(** How a process that serves [s] ends on the disk it leaves: between two
    requests, or in a request of which any calls have failed, up to all from some
    call on, that was not to replace an object. *)
Inductive ends_with (s : AppState) (w : World) : gmap path bytes → Prop :=
| ends_idle : ends_with s w (files w)
| ends_busy sr r body fl resp w' events :
    sr_elapsed sr = None → sessions w !! upload_id_str (new_upload_id (env_uuid (sr_env sr) 0)) = None →
    names_unused sr s r (files w) →
    handle_s3_request sr s r body (mkWorld (files w) (sessions w) fl) = (resp, w', events) →
    ends_with s w (files w').

(** One process after the other on the same disk: each starts, serves any requests
    and ends. *)
Inductive lifetimes : gmap path bytes → list AppState → gmap path bytes → Prop :=
| lifetimes_none fs : lifetimes fs [] fs
| lifetimes_more fs1 fs2 fs3 states now cli read s w w' :
    lifetimes fs1 states fs2 → start now cli read (mkWorld fs2 ∅ []) = (Ok s, w) →
    served s w w' → ends_with s w' fs3 → lifetimes fs1 (s :: states) fs3.

Definition steps_of (states : list AppState) : objects → objects → Prop :=
  rtc (λ objs objs', ∃ s, s ∈ states ∧ allowed_step s objs objs').

Lemma steps_of_subset states states' objs objs' :
  (∀ s, s ∈ states → s ∈ states') → steps_of states objs objs' → steps_of states' objs objs'.
Proof. intros Hsub. apply rtc_subrel. intros a b (s & Hs & Ha). exists s. auto. Qed.
Lemma steps_of_one s states objs objs' : s ∈ states → rtc (allowed_step s) objs objs' → steps_of states objs objs'.
Proof. intros Hs. apply rtc_subrel. intros a b Ha. by exists s. Qed.

(** A request, whatever of it fails, keeps the disk readable. *)
Lemma request_keeps sr s r body w resp w' events :
  default_state s → sr_elapsed sr = None → disk_ok (files w) →
  handle_s3_request sr s r body w = (resp, w', events) → disk_ok (files w').
Proof.
  intros (Hos & Hms & Hprocs & _) Hel Hok Hrun%request_cases.
  inversion Hrun as [e|op ctx lease tc dropped Ha Hacc Ht Hd|op ctx lease tc res w1 Ha Hacc Ht Hop]; [by subst|congruence|subst].
  exact (wp_run _ _ _ _ _ Hop (task_keeps s (mkTask (sr_env sr) r body op (next_request_id s sr) ctx) Hos Hms Hprocs _ _ _ Hok)).
Qed.

Lemma served_keeps s w w' : default_state s → disk_ok (files w) → served s w w' → disk_ok (files w').
Proof.
  intros Hs Hok Hserved. induction Hserved as [|w1 w2 w3 sr r body resp events _ IH Hel _ Hreq]; [done|].
  exact (request_keeps _ _ _ _ (calm w2) _ _ _ Hs Hel (IH Hok) Hreq).
Qed.

(** A disk that holds the objects, for the next start. *)
Definition disk_holds objs fs : Prop := crashed fs objs ∧ stored_ok fs ∧ sizes_ok objs.

Lemma disk_holds_whole objs fs : disk_ok fs → whole_objects fs objs → sizes_ok objs → disk_holds objs fs.
Proof. intros (Hd & Hj & Hst) Hw Hs. by split_and!. Qed.

Lemma life_ends s w fs objs :
  default_state s → disk_ok (files w) → service_ok objs (files w) (sessions w) → ends_with s w fs →
  ∃ objs', rtc (allowed_step s) objs objs' ∧ disk_holds objs' fs.
Proof.
  intros Hdef Hdisk Hok Hend. pose proof Hok as (Hr & Hs & _).
  assert (disk_holds objs (files w)) as Hidle by by apply disk_holds_whole, Hs; [|apply refines_whole].
  destruct Hend as [|sr r body fl resp w' events Hel Hfresh Hnew Hrun]; [by exists objs|].
  pose proof (request_keeps _ _ _ _ (mkWorld (files w) (sessions w) fl) _ _ _ Hdef Hel Hdisk Hrun) as Hdisk'.
  apply request_cases in Hrun. pose proof Hdef as (Hos & Hms & Hprocs & Hio).
  inversion Hrun as [e|op ctx lease tc dropped Ha Hacc Ht Hd|op ctx lease tc res w1 Ha Hacc Ht Hop]; subst;
    [by exists objs|congruence|].
  set (c := mkTask (sr_env sr) r body op (next_request_id s sr) ctx).
  assert (replaces_nothing s c objs) as Hrep.
  { intros t Hst Hres. specialize (Hnew op ctx lease t Ha Hst Hres). destruct Hr as [_ Hm].
    specialize (Hm (object_digest (target_bucket t) (target_key t))). destruct (objs !! _) as [[md d]|]; [|done].
    destruct Hm as (_ & j & Hj & _). unfold metadata_path in Hnew. congruence. }
  assert (0 < upload_summary_buffer_size (st_io_tuning s)) as Hbuf by by rewrite Hio.
  pose proof (task_stopped s c Hos Hms Hprocs Hbuf (budget (mkWorld (files w) (sessions w) fl)) _ _ _ Hok Hfresh Hrep) as Hwp.
  destruct (wp_run _ _ _ _ _ Hop Hwp) as (objs' & Hstep & Hs' & Hw'). exists objs'. split; [|by apply disk_holds_whole].
  apply rtc_once. by exists sr, r, op, ctx, lease.
Qed.

(* @prop refinement 3 : handle_s3_request start from_builder new_object_store new_multipart_store dispatch_implemented_operation handle_put_object handle_delete_object handle_complete_multipart_upload complete_upload commit_staged_object publish rollback_published_file delete_object persist_session *)
(** C3: the objects survive crashes. Any number of processes run one after the other
    on the same disk. Each starts, serves any requests of any operations, and ends
    between two requests or in the middle of one, after any of its calls have
    failed or all from some call on, provided that it was not about to replace an
    object that exists. Then the disk holds a map of objects that has come from
    the first one by steps of the admitted requests of these processes (each an
    upload or completion of a whole object, a deletion, or nothing), and a start
    on this disk that succeeds serves exactly this map, with every session it has
    reloaded at rest. *)
Theorem service_survives_crashes states fs fs' objs :
  disk_holds objs fs → lifetimes fs states fs' →
  ∃ objs', steps_of states objs objs' ∧ disk_holds objs' fs' ∧
    ∀ now cli read s w, start now cli read (mkWorld fs' ∅ []) = (Ok s, w) → service_ok objs' (files w) (sessions w).
Proof.
  intros Hd Hlives.
  assert (∃ objs', steps_of states objs objs' ∧ disk_holds objs' fs') as (objs' & Hsteps & Hd').
  { induction Hlives as [fs|fs1 fs2 fs3 states now cli read s w w' _ IH Hstart Hserved Hend]; [by exists objs; split; [apply rtc_refl|]|].
    destruct (IH Hd) as (objs2 & Hsteps2 & (Hcr & Hst & Hsz)).
    destruct (started_ok _ _ _ (mkWorld fs2 ∅ []) _ _ _ eq_refl Hcr Hst Hsz Hstart) as [Hdef Hok].
    assert (disk_ok fs2) as Hdisk2 by by destruct Hcr as (? & ? & _).
    pose proof (wp_run _ (mkWorld fs2 ∅ []) _ _ _ Hstart (start_keeps now cli read _ _ _ Hdisk2)) as Hdisk.
    pose proof (served_keeps _ _ _ Hdef Hdisk Hserved) as Hdisk'.
    destruct (served_steps _ _ _ _ Hdef Hok Hserved) as (objs3 & Hsteps3 & Hok3).
    destruct (life_ends _ _ _ _ Hdef Hdisk' Hok3 Hend) as (objs4 & Hsteps4 & Hd4).
    exists objs4. split; [|done]. etransitivity; [apply (steps_of_subset states), Hsteps2; intros ??; by right|].
    apply (steps_of_one s); [by left|by etransitivity]. }
  exists objs'. split_and!; [done..|]. intros now cli read s w Hstart. destruct Hd' as (Hcr & Hst & Hsz).
  by destruct (started_ok _ _ _ (mkWorld fs' ∅ []) _ _ _ eq_refl Hcr Hst Hsz Hstart).
Qed.
End crash.

(** ** Witness: a start after a crash, and a stop between the two renames of an upload *)

Section witnesses.
#[local] Existing Instances ref_http ref_codec ref_crypto ref_chrono ref_uuid ref_json ref_axum ref_xml
  w_credentials_json.

Definition w_deletion : Response * World * list TenantEvent :=
  handle_s3_request w_surroundings w_booted (w_request "DELETE" None []) [] (calm w_boot.2).
Definition w_stop : Response * World * list TenantEvent :=
  handle_s3_request w_surroundings w_booted w_put_request [Ok "world"]
    (mkWorld (files w_deletion.1.2) (sessions w_deletion.1.2)
       (replicate 10 None ++ replicate 30 (Some (mkFault "stopped" None [])))).
Definition w_put_target : S3Target := mkTarget (mkBucketName "photos") (mkObjectKey "2026/cat.jpg") false.

Lemma service_survives_crashes_witness :
  rs_status w_deletion.1.1 = 204 ∧
  files w_stop.1.2 !! object_path (target_bucket w_put_target) (target_key w_put_target) = Some ("world" : bytes) ∧
  files w_stop.1.2 !! metadata_path (target_bucket w_put_target) (target_key w_put_target) = None ∧
  ∃ objs, steps_of [w_booted] w_one_object objs ∧ disk_holds objs (files w_stop.1.2).
Proof.
  split; [vm_refl|]. split; [vm_refl|]. split; [vm_refl|].
  assert (∀ p : Response * World * list TenantEvent, p = (p.1.1, p.1.2, p.2)) as Hp by by intros [[??]?].
  assert (served w_booted w_boot.2 w_deletion.1.2) as Hserved.
  { apply (served_more _ _ w_boot.2 _ w_surroundings (w_request "DELETE" None []) [] w_deletion.1.1 w_deletion.2);
      [apply served_none|reflexivity|vm_refl|exact (Hp w_deletion)]. }
  assert (resolve_request_target w_booted w_put_request = Ok w_put_target) as Hres by vm_refl.
  assert (files w_deletion.1.2 !! metadata_path (target_bucket w_put_target) (target_key w_put_target) = None) as Hno by vm_refl.
  assert (names_unused w_surroundings w_booted w_put_request (files w_deletion.1.2)) as Hnew.
  { intros op ctx lease t _ _ Ht. rewrite Hres in Ht. injection Ht as <-. exact Hno. }
  assert (ends_with w_booted w_deletion.1.2 (files w_stop.1.2)) as Hend.
  { apply (ends_busy _ _ w_surroundings w_put_request [Ok "world"]
      (replicate 10 None ++ replicate 30 (Some (mkFault "stopped" None []))) w_stop.1.1 _ w_stop.2);
      [reflexivity|vm_refl|exact Hnew|exact (Hp w_stop)]. }
  destruct (service_survives_crashes [w_booted] (files w_crashed) (files w_stop.1.2) w_one_object
    (conj w_crashed_ok (conj w_crashed_stored w_one_sizes))
    (lifetimes_more _ _ _ [] 10 w_open_cli w_read_file w_booted w_boot.2 w_deletion.1.2
       (lifetimes_none (files w_crashed)) w_boot_runs Hserved Hend)) as (objs & Hsteps & Hd & _).
  exact (ex_intro _ objs (conj Hsteps Hd)).
Defined.
End witnesses.
